(** * Workshop notebooks: NLP content analysis and geospatial apportioning

    A shallow embedding of the code of the two tutorial notebooks: the
    functions they define and the cells that prepare, combine and
    summarise the data.  The properties proved are those the
    specification states, followed by further ones read off the code.

    Conventions of the embedding:
    - Python [int] is [Z]; Python [str] is [string] (ASCII text);
      a Python [dict] with string keys is a [gmap string _]; a Python
      [list] is a [list].
    - A finite Python [float] (sentiment scores, polygon areas, counts) is
      the rational number [Q] it denotes.  The apportioning is given twice:
      with exact arithmetic (module [Geo]) and with the rounding of
      binary64 floats (modules [Binary64] and [Rounded]).  The sentiment
      code keeps the one non-finite value it can produce itself, the [nan]
      that [np.mean] returns on an empty list ([pyfloat]); its mean is
      exact.
    - Calls into spaCy, Transformers, requests and pandas are events of a
      small state-and-exception monad; their behaviour is a parameter
      (class [Runtime]).
    - The functions of the NLP notebook are given twice: on values (module
      [NLP]) and on the objects of a Python store, with references and
      mutation (module [Heap]). *)

From Stdlib Require Import ZArith QArith Qround Qabs Qpower Lia Lqa.
From stdpp Require Import base option list strings pretty gmap.
From stdpp Require Import sorting.

Local Open Scope Z_scope.

(** ** Python primitives *)

Module Py.

(** Values found under the keys of a dataset record. *)
Inductive pyval :=
| PyNone
| PyStr (s : string).

(** Truthiness as used by [if a.get(text_key)]. *)
Definition truthy (v : pyval) : bool :=
  match v with
  | PyNone => false
  | PyStr s => negb (String.eqb s "")
  end.

Definition is_not_none (v : pyval) : bool :=
  match v with
  | PyNone => false
  | PyStr _ => true
  end.

Definition str_of (v : pyval) : string :=
  match v with
  | PyNone => ""
  | PyStr s => s
  end.

(** [d.get(k)]: the value, or [None] when the key is absent. *)
Definition get (d : gmap string pyval) (k : string) : pyval :=
  default PyNone (d !! k).

Definition len {A} (l : list A) : Z := Z.of_nat (length l).

(** Truthiness of an optional [int] argument such as [max_records]. *)
Definition truthy_int (n : option Z) : bool :=
  match n with
  | None => false
  | Some k => negb (k =? 0)
  end.

(** Normalisation of one slice bound against a sequence of length [n]:
    negative bounds count from the end, then the bound is clamped. *)
Definition clamp (n i : Z) : Z :=
  if i <? 0 then Z.max 0 (n + i) else Z.min i n.

(** [l[lo:hi]] *)
Definition slice {A} (l : list A) (lo hi : Z) : list A :=
  let n := len l in
  let lo' := clamp n lo in
  let hi' := clamp n hi in
  take (Z.to_nat (hi' - lo')) (drop (Z.to_nat lo') l).

(** [l[:hi]] *)
Definition slice_to {A} (l : list A) (hi : Z) : list A := slice l 0 hi.

(** [zip(a, b, c)] *)
Fixpoint zip3 {A B C} (a : list A) (b : list B) (c : list C)
  : list (A * B * C) :=
  match a, b, c with
  | x :: a', y :: b', z :: c' => (x, y, z) :: zip3 a' b' c'
  | _, _, _ => []
  end.

(** [enumerate(l)] *)
Definition enumerate {A} (l : list A) : list (Z * A) :=
  imap (fun i a => (Z.of_nat i, a)) l.


(** [range(start, stop, step)]; a zero step raises [ValueError]. *)
Definition range_len (start stop step : Z) : Z :=
  if 0 <? step then Z.max 0 ((stop - start + step - 1) / step)
  else Z.max 0 ((start - stop - step - 1) / (- step)).

Definition range (start stop step : Z) : option (list Z) :=
  if step =? 0 then None
  else Some (map (fun i => start + Z.of_nat i * step)
                 (seq 0 (Z.to_nat (range_len start stop step)))).

(** Characters removed by [str.strip()] (ASCII range). *)
Definition is_space (c : Ascii.ascii) : bool :=
  let n := Z.of_nat (Ascii.nat_of_ascii c) in
  ((9 <=? n) && (n <=? 13)) || ((28 <=? n) && (n <=? 32)).

Fixpoint lstrip (s : string) : string :=
  match s with
  | EmptyString => EmptyString
  | String c s' => if is_space c then lstrip s' else s
  end.

Fixpoint rstrip (s : string) : string :=
  match s with
  | EmptyString => EmptyString
  | String c s' =>
      match rstrip s' with
      | EmptyString => if is_space c then EmptyString else String c EmptyString
      | r => String c r
      end
  end.

Definition strip (s : string) : string := rstrip (lstrip s).

Definition lower_char (c : Ascii.ascii) : Ascii.ascii :=
  let n := Ascii.nat_of_ascii c in
  if ((65 <=? n) && (n <=? 90))%nat then Ascii.ascii_of_nat (n + 32) else c.

Fixpoint lower (s : string) : string :=
  match s with
  | EmptyString => EmptyString
  | String c s' => String (lower_char c) (lower s')
  end.

Definition str_len (s : string) : Z := Z.of_nat (String.length s).

(** [f"{s: <n}"]: [s] padded with spaces on the right to width [n]. *)
Fixpoint spaces (n : nat) : string :=
  match n with
  | O => EmptyString
  | S n' => String (Ascii.ascii_of_nat 32) (spaces n')
  end.

Definition ljust (s : string) (n : nat) : string :=
  String.append s (spaces (n - String.length s)).

Fixpoint startswith (s p : string) : bool :=
  match p, s with
  | EmptyString, _ => true
  | String c p', String d s' => if Ascii.eqb c d then startswith s' p' else false
  | String _ _, EmptyString => false
  end.

End Py.

(** ** Library calls as effects

    A notebook function is a computation that may call into a library.
    Each call is an event [c : E X] answered by the runtime with a value of
    type [X] or an exception; the runtime may change the global state (the
    shared library objects) while doing so.  A computation returns its
    result, the final global state and the log of the calls it made. *)

Inductive exn :=
| ValueError (msg : string)
| KeyError (key : string)
| IndexError (msg : string)
| TypeError (msg : string)
| LibraryError (origin msg : string).

Inductive result (A : Type) :=
| Ok (a : A)
| Raised (e : exn).
Arguments Ok {A} a.
Arguments Raised {A} e.

Class Runtime (E : Type -> Type) := {
  globals : Type;
  perform : forall X, E X -> globals -> result X * globals
}.
Arguments perform {E _ X} c g.

Inductive logged (E : Type -> Type) :=
| Log {X : Type} (c : E X) (failure : option exn).
Arguments Log {E X} c failure.

Definition failure_of {E} (l : logged E) : option exn :=
  match l with Log _ f => f end.

Section Monad.
Context {E : Type -> Type} `{RT : Runtime E}.

Record outcome (A : Type) := Outcome {
  value : result A;
  final : globals;
  trace : list (logged E)
}.
Arguments Outcome {A}.
Arguments value {A}.
Arguments final {A}.
Arguments trace {A}.

Definition M (A : Type) : Type := globals -> outcome A.

Definition ret {A} (a : A) : M A := fun g => Outcome (Ok a) g [].

Definition raise {A} (e : exn) : M A := fun g => Outcome (Raised e) g [].

Definition bind {A B} (m : M A) (f : A -> M B) : M B :=
  fun g =>
    let o := m g in
    match value o with
    | Ok a =>
        let o' := f a (final o) in
        Outcome (value o') (final o') (trace o ++ trace o')
    | Raised e => Outcome (Raised e) (final o) (trace o)
    end.

(** One library call. *)
Definition call {X} (c : E X) : M X :=
  fun g =>
    match perform c g with
    | (Ok x, g') => Outcome (Ok x) g' [Log c None]
    | (Raised e, g') => Outcome (Raised e) g' [Log c (Some e)]
    end.

(** [for x in xs: acc = body(acc, x)] *)
Fixpoint for_each {A S} (xs : list A) (body : S -> A -> M S) (acc : S) : M S :=
  match xs with
  | [] => ret acc
  | x :: xs' => bind (body acc x) (for_each xs' body)
  end.

(** [[f(x) for x in xs]] *)
Fixpoint comprehension {A B} (f : A -> M B) (xs : list A) : M (list B) :=
  match xs with
  | [] => ret []
  | x :: xs' =>
      bind (f x) (fun y => bind (comprehension f xs') (fun ys => ret (y :: ys)))
  end.
End Monad.

Arguments Outcome {E RT A}.
Arguments value {E RT A}.
Arguments final {E RT A}.
Arguments trace {E RT A}.
Arguments M E {RT} A.

Notation "x <- m ;; k" := (bind m (fun x => k))
  (at level 100, m at next level, right associativity).

(** ** The NLP notebook

    [tqdm] only draws a progress bar around an iteration and is left out. *)

Module NLP.
Import Py.

(** A dataset record ([ds[i]]): a dict from field names to values. *)
Abbreviation article := (gmap string pyval).

(** What the code reads of a spaCy [Token], [Span] and [Doc]. *)
Record token := Token {
  tok_text : string;
  lemma_ : string;
  pos_ : string;
  is_stop : bool;
  is_punct : bool
}.

Record span := Span {
  ent_text : string;
  label_ : string
}.

Record doc := Doc {
  tokens : list token;
  ents : list span;
  blob_polarity : Q          (* doc._.blob.polarity *)
}.

(** One aggregated entity of the Transformers NER pipeline. *)
Record entity := Entity {
  word : string;
  entity_group : string
}.

(** What the tokenizer returns for one text when asked for overflowing
    tokens: the first window of token ids and the windows that follow it. *)
Record encoding := Encoding {
  first_window : list Z;
  overflowing : list (list Z)
}.

(** [enc["input_ids"]] *)
Definition input_ids (enc : encoding) : list (list Z) :=
  first_window enc :: overflowing enc.

(** One prediction of the Transformers sentiment pipeline. *)
Record prediction := Prediction {
  label : string;
  score : Q
}.

(** A Python float as the sentiment code produces it. *)
Inductive pyfloat :=
| Finite (q : Q)
| NaN.

(** The calls the notebook makes into spaCy, Transformers and stdout. *)
Inductive nlp_ev : Type -> Type :=
| NlpCall (text : string) : nlp_ev doc
| NlpPipe (texts : list string) (disable : list string) (batch_size : Z)
    : nlp_ev (list doc)
| NerPipeline (batch : list string) (batch_size : Z) (stride : Z)
    : nlp_ev (list (list entity))
| Tokenizer (text : string) (max_length : Z) (stride : Z)
    : nlp_ev encoding
| BatchDecode (ids : list (list Z)) : nlp_ev (list string)
| SentimentPipeline (chunks : list string) (batch_size : Z)
    : nlp_ev (list prediction)
| Print (line : string) : nlp_ev unit.

(** An argument that is either one string or a list of strings. *)
Inductive texts_arg :=
| OneStr (s : string)
| StrList (l : list string).

Section Functions.
Context `{RT : Runtime nlp_ev}.

Definition lemmatize_sentence (sentence : string) : M nlp_ev unit :=
  doc <- call (NlpCall sentence);;
  _ <- call (Print (ljust "Token" 20 ++ ljust "Lemma" 20));;
  for_each (tokens doc)
    (fun _ token =>
       call (Print (ljust (tok_text token) 20 ++ ljust (lemma_ token) 20)))
    tt.

Definition pos_tags (sentence : string) : M nlp_ev unit :=
  doc <- call (NlpCall sentence);;
  _ <- call (Print (ljust "Token" 20 ++ ljust "Part of Speech" 20));;
  for_each (tokens doc)
    (fun _ token =>
       call (Print (ljust (tok_text token) 20 ++ ljust (pos_ token) 20)))
    tt.

(** [token_counter[token.lemma_] += 1], guarded as in the loop body. *)
Definition count_token (token_counter : gmap string Z) (token : token)
  : gmap string Z :=
  if negb (is_stop token) && negb (is_punct token)
     && (0 <? str_len (strip (lemma_ token)))
  then <[lemma_ token := default 0 (token_counter !! lemma_ token) + 1]>
         token_counter
  else token_counter.

Definition count_tokens_pipe (articles : list article) (batch_size : Z)
  : M nlp_ev (gmap string Z) :=
  let token_counter : gmap string Z := ∅ in
  let texts :=
    map (fun article => str_of (get article "text"))
        (List.filter (fun article => is_not_none (get article "text"))
                     articles) in
  docs <- call (NlpPipe texts ["ner"; "parser"] batch_size);;
  ret (foldl (fun counter doc => foldl count_token counter (tokens doc))
             token_counter docs).
End Functions.

(** *** spaCy pipeline functions *)
Module Spacy.
Section Functions.
Context `{RT : Runtime nlp_ev}.

Definition person_names (doc : doc) : list string :=
  map ent_text
      (List.filter (fun ent => String.eqb (label_ ent) "PERSON") (ents doc)).

Definition extract_people (texts : list string) (batch_size : Z)
  : M nlp_ev (list (list string)) :=
  docs <- call (NlpPipe texts
                  ["parser"; "tagger"; "attribute_ruler";
                   "lemmatizer"; "spacytextblob"]
                  batch_size);;
  ret (foldl (fun people_per_doc doc => people_per_doc ++ [person_names doc])
             [] docs).

Definition score_sentiment (texts : list string) (batch_size : Z)
  : M nlp_ev (list Q) :=
  docs <- call (NlpPipe texts
                  ["parser"; "tagger"; "attribute_ruler";
                   "lemmatizer"; "ner"]
                  batch_size);;
  ret (foldl (fun polarities doc => polarities ++ [blob_polarity doc])
             [] docs).

Record row := Row {
  article_id : Z;
  person : string;
  polarity : Q
}.

(** The first lines of [build_person_sentiment_df]: the texts to
    process and the positions of their articles. *)
Definition select_texts (articles : list article) (text_key : string)
           (max_records : option Z) : list string * list Z :=
  let texts :=
    map (fun a => str_of (get a text_key))
        (List.filter (fun a => truthy (get a text_key)) articles) in
  let article_ids :=
    map fst
        (List.filter (fun ia => truthy (get (snd ia) text_key))
                     (enumerate articles)) in
  match max_records with
  | Some n => (slice_to texts n, slice_to article_ids n)
  | None => (texts, article_ids)
  end.

Definition build_person_sentiment_df (articles : list article)
           (text_key : string) (max_records : option Z)
  : M nlp_ev (list row) :=
  let '(texts, article_ids) := select_texts articles text_key max_records in
  people_lists <- extract_people texts 64;;
  polarity_list <- score_sentiment texts 64;;
  ret (foldl
         (fun records '(art_id, names, pol) =>
            foldl (fun records name => records ++ [Row art_id name pol])
                  records names)
         [] (zip3 article_ids people_lists polarity_list)).
End Functions.
End Spacy.

(** *** Hugging Face Transformers functions *)
Module HF.
Section Functions.
Context `{RT : Runtime nlp_ev}.

(** The entity filter of [extract_people]. *)
Definition persons_of (doc : list entity) : list string :=
  map (fun e => strip (word e))
      (List.filter
         (fun e => String.eqb (entity_group e) "PER"
                   && (5 <? str_len (strip (word e))))
         doc).

Definition extract_people (texts : texts_arg) (batch_size : Z)
           (stride : Z) (show_progress : bool)
  : M nlp_ev (list (list string)) :=
  let texts := match texts with OneStr s => [s] | StrList l => l end in
  match range 0 (len texts) batch_size with
  | None => raise (ValueError "range() arg 3 must not be zero")
  | Some starts =>
      for_each starts
        (fun persons_per_doc start =>
           let batch := slice texts start (start + batch_size) in
           batch_entities <- call (NerPipeline batch (len batch) stride);;
           ret (foldl (fun acc doc => acc ++ [persons_of doc])
                      persons_per_doc batch_entities))
        []
  end.

(** The sign given to a window by its predicted label. *)
Definition sign_of (label : string) : Q :=
  if String.eqb (lower label) "positive" then 1%Q
  else if String.eqb (lower label) "negative" then (-1)%Q
  else 0%Q.

(** [np.mean] of a list of floats. *)
Definition np_mean (xs : list Q) : pyfloat :=
  match xs with
  | [] => NaN
  | _ => Finite (fold_right Qplus 0 xs / inject_Z (len xs))%Q
  end.

Definition _score_long_text (text : string) (max_len stride batch_size : Z)
  : M nlp_ev pyfloat :=
  enc <- call (Tokenizer text max_len stride);;
  chunks <- call (BatchDecode (input_ids enc));;
  chunk_preds <- call (SentimentPipeline chunks batch_size);;
  let signed := map (fun p => score p * sign_of (label p))%Q chunk_preds in
  let avg := np_mean signed in
  ret avg.

Definition extract_sentiment (texts : texts_arg) (batch_size : Z)
           (max_len stride : Z) : M nlp_ev (list pyfloat) :=
  let texts := match texts with OneStr s => [s] | StrList l => l end in
  comprehension (fun t => _score_long_text t max_len stride batch_size) texts.

(** The collection loop of [build_person_sentiment_df], with its
    [break]; [items] is what is left of [enumerate(articles)]. *)
Fixpoint collect (items : list (Z * article)) (text_key : string)
         (max_records : option Z) (texts : list string) (art_ids : list Z)
  : list string * list Z :=
  match items with
  | [] => (texts, art_ids)
  | (i, art) :: rest =>
      if truthy (get art text_key) then
        let texts := texts ++ [str_of (get art text_key)] in
        let art_ids := art_ids ++ [i] in
        if truthy_int max_records && (default 0 max_records <=? len texts)
        then (texts, art_ids)
        else collect rest text_key max_records texts art_ids
      else collect rest text_key max_records texts art_ids
  end.

Definition select_texts (articles : list article) (text_key : string)
           (max_records : option Z) : list string * list Z :=
  collect (enumerate articles) text_key max_records [] [].

Record row := Row {
  article_id : Z;
  person : string;
  score : pyfloat
}.

Definition build_person_sentiment_df (articles : list article)
           (text_key : string) (max_records : option Z)
  : M nlp_ev (list row) :=
  let '(texts, art_ids) := select_texts articles text_key max_records in
  people_per_article <- extract_people (StrList texts) 16 128 true;;
  sentiment_per_article <- extract_sentiment (StrList texts) 16 512 128;;
  ret (foldl
         (fun records '(art_id, names, score) =>
            foldl (fun records name => records ++ [Row art_id name score])
                  records names)
         [] (zip3 art_ids people_per_article sentiment_per_article)).
End Functions.
End HF.

(** *** A runtime given by pre-trained models

    The models are functions of their input: a pipeline applied to a list
    answers with one result per element, in order, whatever the batch
    size.  The global state of this runtime is what has been printed. *)
Record models := Models {
  spacy_model : list string -> string -> doc;
  ner_model : Z -> string -> list entity;
  tokenizer_model : string -> Z -> Z -> encoding;
  decode_model : list Z -> string;
  sentiment_model : string -> prediction
}.

Definition answer (md : models) {X} (c : nlp_ev X) : X :=
  match c in nlp_ev X return X with
  | NlpCall text => spacy_model md [] text
  | NlpPipe texts disable _ => map (spacy_model md disable) texts
  | NerPipeline batch _ stride => map (ner_model md stride) batch
  | Tokenizer text max_length stride => tokenizer_model md text max_length stride
  | BatchDecode ids => map (decode_model md) ids
  | SentimentPipeline chunks _ => map (sentiment_model md) chunks
  | Print _ => tt
  end.

Definition printed {X} (c : nlp_ev X) (stdout : list string) : list string :=
  match c with
  | Print line => stdout ++ [line]
  | _ => stdout
  end.

Definition model_runtime (md : models) : Runtime nlp_ev :=
  {| globals := list string;
     perform X c stdout := (Ok (answer md c), printed c stdout) |}.
End NLP.

(** ** The geospatial notebook *)

Module Geo.
Import Py.

(** *** Loading the data *)

(** A decoded JSON document, as [response.json()] returns it (numbers: the
    integers; the keys of an object are distinct). *)
#[local] Unset Elimination Schemes.
Inductive json :=
| JNull
| JBool (b : bool)
| JNum (n : Z)
| JStr (s : string)
| JList (items : list json)
| JDict (fields : list (string * json)).
#[local] Set Elimination Schemes.

(** [j[key]] *)
Definition getitem_key (j : json) (key : string) : result json :=
  match j with
  | JDict fields =>
      match List.find (fun kv => String.eqb (fst kv) key) fields with
      | Some kv => Ok (snd kv)
      | None => Raised (KeyError key)
      end
  | JList _ => Raised (TypeError "list indices must be integers or slices, not str")
  | JStr _ => Raised (TypeError "string indices must be integers, not 'str'")
  | _ => Raised (TypeError "object is not subscriptable")
  end.

(** [j[i]] for an integer [i] *)
Definition getitem_index (j : json) (i : Z) : result json :=
  match j with
  | JList items =>
      let i' := if i <? 0 then i + len items else i in
      if (i' <? 0) || (len items <=? i')
      then Raised (IndexError "list index out of range")
      else match nth_error items (Z.to_nat i') with
           | Some x => Ok x
           | None => Raised (IndexError "list index out of range")
           end
  | JDict fields => Raised (KeyError (pretty i))
  | JStr s =>
      let i' := if i <? 0 then i + str_len s else i in
      if (i' <? 0) || (str_len s <=? i')
      then Raised (IndexError "string index out of range")
      else match String.get (Z.to_nat i') s with
           | Some c => Ok (JStr (String c EmptyString))
           | None => Raised (IndexError "string index out of range")
           end
  | _ => Raised (TypeError "object is not subscriptable")
  end.

(** [", ".join(parts)] *)
Fixpoint join (parts : list string) : string :=
  match parts with
  | [] => EmptyString
  | [p] => p
  | p :: rest => String.append p (String.append ", " (join rest))
  end.

Definition quoted (s : string) : string :=
  String.append "'" (String.append s "'").

(** [repr(j)], for strings that need no escaping. *)
Fixpoint repr (j : json) : string :=
  match j with
  | JNull => "None"
  | JBool true => "True"
  | JBool false => "False"
  | JNum n => pretty n
  | JStr s => quoted s
  | JList items => String.append "[" (String.append (join (map repr items)) "]")
  | JDict fields =>
      String.append "{"
        (String.append
           (join (map (fun kv : string * json => let (k, v) := kv in
                                  String.append (quoted k) (String.append ": " (repr v)))
                      fields))
           "}")
  end.

(** What an f-string shows of a JSON value: [str(j)]. *)
Definition format (j : json) : string :=
  match j with
  | JStr s => s
  | _ => repr j
  end.

Record response := Response {
  content : string
}.

(** A table read from a file: its rows, each a dict of fields. *)
Abbreviation table := (list (gmap string pyval)).

Inductive io_ev : Type -> Type :=
| RequestsGet (url : json) (params : list (string * string)) : io_ev response
| ResponseJson (r : response) : io_ev json
| WriteFile (path : string) (data : string) : io_ev unit
| ZipExtractAll (archive : string) (dest : string) : io_ev unit
| ReadCsv (path : string) (compression : option string)
          (on_bad_lines : string) (low_memory : bool) : io_ev table
| GpdReadFile (path : string) : io_ev table
| PrintLine (line : string) : io_ev unit.

Definition base_url : string :=
  "https://ckan0.cf.opendata.inter.prod-toronto.ca/api/3/action/package_show".
Definition datasets : list string :=
  ["city-wards"; "311-service-requests-customer-initiated";
   "short-term-rentals-registration"].
Definition resource_number : list Z := [11; 1; 1].
Definition file_type : list string := ["geojson"; "zip"; "csv"].
Definition fsa_boundaries_url : string :=
  "https://www12.statcan.gc.ca/census-recensement/2021/geo/sip-pis/boundary-limites/files-fichiers/lfsa000a21a_e.zip".

Section Loading.
Context `{RT : Runtime io_ev}.

(** An operation of the notebook's own code that may raise. *)
Definition lift {A} (r : result A) : M io_ev A :=
  match r with
  | Ok a => ret a
  | Raised e => raise e
  end.

(** The download loop. *)
Definition download_datasets : M io_ev unit :=
  for_each (zip3 datasets resource_number file_type)
    (fun _ '(dataset, res_num, f_type) =>
       r <- call (RequestsGet (JStr base_url) [("id", dataset)]);;
       response <- call (ResponseJson r);;
       result <- lift (getitem_key response "result");;
       resources <- lift (getitem_key result "resources");;
       resource <- lift (getitem_index resources res_num);;
       url <- lift (getitem_key resource "url");;
       _ <- call (PrintLine
                    (String.append "Dataset: "
                       (String.append dataset
                          (String.append ", Resource: " (format url)))));;
       url <- lift (getitem_key resource "url");;
       data_response <- call (RequestsGet url []);;
       call (WriteFile (String.append dataset (String.append "." f_type))
                       (content data_response)))
    tt.

(** [pd.read_csv] of the 311 service requests. *)
Definition read_service_requests : M io_ev table :=
  call (ReadCsv "311-service-requests-customer-initiated.zip"
                (Some "zip") "skip" false).

(** [pd.read_csv] of the short-term rental registrations. *)
Definition read_rentals : M io_ev table :=
  call (ReadCsv "short-term-rentals-registration.csv" None "skip" false).

(** [gpd.read_file] of the ward boundaries. *)
Definition read_wards : M io_ev table :=
  call (GpdReadFile "city-wards.geojson").

(** Download, unpack and read the FSA boundary file. *)
Definition read_fsa_boundaries : M io_ev table :=
  response <- call (RequestsGet (JStr fsa_boundaries_url) []);;
  _ <- call (WriteFile "fsa_boundaries.zip" (content response));;
  _ <- call (ZipExtractAll "fsa_boundaries.zip" ".");;
  call (GpdReadFile "lfsa000a21a_e/lfsa000a21a_e.shp").
End Loading.

(** *** Apportioning ward counts to postal FSAs by area

    Polygons and the two operations the code asks of them belong to
    GeoPandas; an area is the rational number its float denotes.  This
    module divides, multiplies and adds exactly; module [Rounded] does it
    as the floats do.  [fsa_boundaries] stands for the FSA layer after
    [to_crs] has brought it to the wards' reference system. *)
Class Geometry (G : Type) := {
  area : G -> Q;
  intersection : G -> G -> option G   (* [None]: no overlap polygon *)
}.

Section Apportion.
Context {G : Type} `{GE : Geometry G}.

(** A row of [gdf_combined]: one ward with its polygon and its count
    columns ([311_*] and [STR_*], by name). *)
Record ward := Ward {
  ward_number : Z;
  ward_name : string;
  ward_geometry : G;
  counts : list (string * Q)
}.

(** A row of [fsa_boundaries]. *)
Record fsa := Fsa {
  CFSAUID : string;
  fsa_geometry : G
}.

(** A row of [gpd.overlay(gdf_combined, fsa_boundaries,
    how="intersection")]: the columns of both rows and the polygon
    the two have in common. *)
Record overlap := Overlap {
  of_ward : ward;
  of_fsa : fsa;
  geometry : G
}.

Definition overlay (gdf_combined : list ward) (fsa_boundaries : list fsa)
  : list overlap :=
  flat_map
    (fun w =>
       omap (fun f => Overlap w f <$> intersection (ward_geometry w) (fsa_geometry f))
            fsa_boundaries)
    gdf_combined.

(** [ward_area]: the columns "Ward Number" and "ward_area". *)
Definition ward_area_table (gdf_combined : list ward) : list (Z * Q) :=
  map (fun w => (ward_number w, area (ward_geometry w))) gdf_combined.

(** A row of [ward_fsa] after the merge; [ward_area] is [None] (NaN)
    where the left merge finds no ward of that number. *)
Record merged := Merged {
  base : overlap;
  area_overlap : Q;
  ward_area : option Q
}.

(** [ward_fsa.merge(ward_area, on="Ward Number", how="left")] *)
Definition merge_ward_area (ward_fsa : list overlap) (areas : list (Z * Q))
  : list merged :=
  flat_map
    (fun o =>
       let area_overlap := area (geometry o) in
       match List.filter (fun na => fst na =? ward_number (of_ward o)) areas with
       | [] => [Merged o area_overlap None]
       | found => map (fun na => Merged o area_overlap (Some (snd na))) found
       end)
    ward_fsa.

Definition area_frac (m : merged) : option Q :=
  (fun a => area_overlap m / a)%Q <$> ward_area m.

(** The test that picks [numeric_cols] among the column names; selecting
    these columns keeps, in every row, the cells whose column passes it. *)
Definition is_numeric_col (c : string) : bool :=
  startswith c "311_" || startswith c "STR_".

(** A row of [apportioned]: the numeric columns scaled by the row's
    [area_frac] and renamed. *)
Definition apportion (m : merged) : list (string * option Q) :=
  map (fun cv => (String.append (fst cv) "_apportioned",
                  (fun f => snd cv * f)%Q <$> area_frac m))
      (List.filter (fun cv => is_numeric_col (fst cv))
                   (counts (of_ward (base m)))).

(** A row of the final [ward_fsa]: "CFSAUID", "geometry" and the
    apportioned columns. *)
Record apportioned_row := ApportionedRow {
  row_CFSAUID : string;
  row_geometry : G;
  apportioned : list (string * option Q)
}.

Definition ward_fsa_merged (gdf_combined : list ward) (fsa_boundaries : list fsa)
  : list merged :=
  merge_ward_area (overlay gdf_combined fsa_boundaries)
                  (ward_area_table gdf_combined).

Definition finish (m : merged) : apportioned_row :=
  ApportionedRow (CFSAUID (of_fsa (base m))) (geometry (base m)) (apportion m).

Definition ward_fsa (gdf_combined : list ward) (fsa_boundaries : list fsa)
  : list apportioned_row :=
  map finish (ward_fsa_merged gdf_combined fsa_boundaries).

(** Column-wise sum of two rows of the same columns; NaN counts as 0,
    as in [DataFrame.sum]. *)
Definition skipna (x : option Q) : Q := default 0%Q x.

Fixpoint add_rows (total : list (string * Q)) (r : list (string * option Q))
  : list (string * Q) :=
  match total, r with
  | (c, x) :: total', (_, y) :: r' => (c, (x + skipna y)%Q) :: add_rows total' r'
  | _, _ => total
  end.

Definition first_row (r : list (string * option Q)) : list (string * Q) :=
  map (fun cv => (fst cv, skipna (snd cv))) r.

(** One more row for [groupby("CFSAUID").sum()]; groups are kept in
    key order. *)
Fixpoint group_add (key : string) (r : list (string * option Q))
         (groups : list (string * list (string * Q)))
  : list (string * list (string * Q)) :=
  match groups with
  | [] => [(key, first_row r)]
  | (k, total) :: rest =>
      if String.eqb key k then (k, add_rows total r) :: rest
      else if String.ltb key k then (key, first_row r) :: groups
      else (k, total) :: group_add key r rest
  end.

(** [ward_fsa.drop(columns="geometry").groupby("CFSAUID").sum()
    .reset_index()] *)
Definition fsa_aggregated (ward_fsa : list apportioned_row)
  : list (string * list (string * Q)) :=
  foldl (fun groups r => group_add (row_CFSAUID r) (apportioned r) groups)
        [] ward_fsa.
End Apportion.

Arguments ward G : clear implicits.
Arguments fsa G : clear implicits.
Arguments overlap G : clear implicits.
Arguments merged G : clear implicits.
Arguments apportioned_row G : clear implicits.
End Geo.


(** ** Counts per ward and the combined frame

    The cells of the geospatial notebook that build [agg_311], [agg_str]
    and [gdf_combined], select the Toronto FSAs and put the aggregated
    counts on the FSA map.  The frames are pandas frames; what pandas does
    to them ([groupby], [size], [unstack], [merge], [fillna]) is written out
    on rows. *)

Module Combine.
Import Py Geo.

(** The distinct types, sorted: the column labels after [unstack]. *)
Definition type_levels (l : list string) : list string :=
  merge_sort String.le (remove_dups l).

Section Counts.
Context {K : Type} {eq_dec : EqDecision K} {countable : Countable K}.

(** [frame.groupby([key, type]).size()]: how many rows each pair of keys
    has.  A row is read as its first group key and its second one, [None]
    where that field is missing; such a row belongs to no group. *)
Definition count_row (sizes : gmap (K * string) Z) (r : K * option string)
  : gmap (K * string) Z :=
  match snd r with
  | Some t => <[(fst r, t) := default 0 (sizes !! (fst r, t)) + 1]> sizes
  | None => sizes
  end.

Definition group_sizes (rows : list (K * option string)) : gmap (K * string) Z :=
  foldl count_row ∅ rows.

(** The levels of a group index: its distinct values, sorted. *)
Definition key_levels (R : relation K) `{!RelDecision R} (l : list K) : list K :=
  merge_sort R (remove_dups l).

(** A frame of counts after [reset_index]: the count columns, and in each
    row the key and the counts by column. *)
Record counts_frame := CountsFrame {
  frame_columns : list string;
  frame_rows : list (K * list (string * Z))
}.

(** [.unstack(fill_value=0)]: one row per key, one column per type, 0
    where the pair has no group. *)
Definition unstack (R : relation K) `{!RelDecision R}
           (sizes : gmap (K * string) Z) : counts_frame :=
  let keys := map fst (map_to_list sizes) in
  let columns := type_levels (map snd keys) in
  CountsFrame columns
    (map (fun n => (n, map (fun t => (t, default 0 (sizes !! (n, t)))) columns))
         (key_levels R (map fst keys))).

(** [.add_prefix(prefix)] *)
Definition add_prefix (prefix : string) (f : counts_frame) : counts_frame :=
  CountsFrame
    (map (String.append prefix) (frame_columns f))
    (map (fun r => (fst r, map (fun cv => (String.append prefix (fst cv), snd cv))
                               (snd r)))
         (frame_rows f)).

Definition agg (R : relation K) `{!RelDecision R} (prefix : string)
           (rows : list (K * option string)) : counts_frame :=
  add_prefix prefix (unstack R (group_sizes rows)).

(** [left.merge(right, on=key, how='left')]: every left row is kept, once
    for each right row of its key, and once with NaN in the right columns
    when there is none.  The count columns of the two sides never share a
    name ("311_" against "STR_"), so no column is renamed. *)
Definition merge_counts {L} (key : L -> K)
           (left : list (L * list (string * option Q)))
           (right : counts_frame) : list (L * list (string * option Q)) :=
  flat_map
    (fun l =>
       match List.filter (fun r => bool_decide (fst r = key (fst l)))
                         (frame_rows right) with
       | [] => [(fst l, snd l ++ map (fun c => (c, None)) (frame_columns right))]
       | found =>
           map (fun r => (fst l,
                          snd l ++ map (fun cv => (fst cv, Some (inject_Z (snd cv))))
                                       (snd r)))
               found
       end)
    left.

(** [.fillna(0)] on the cells of one row. *)
Definition fillna_cells (cells : list (string * option Q)) : list (string * Q) :=
  map (fun cv => (fst cv, default 0%Q (snd cv))) cells.
End Counts.

Arguments counts_frame K : clear implicits.

(** *** By ward *)

(** A row of [service_requests] or of [rentals], as the aggregation by
    ward reads it: "Ward Number", an [int] once the cleaning cells have
    run, and the second group key ("Service Request Type" or
    "property_type"). *)
Abbreviation keyed := (Z * option string)%type.

Definition agg_311 (service_requests : list keyed) : counts_frame Z :=
  agg Z.le "311_" service_requests.

Definition agg_str (rentals : list keyed) : counts_frame Z :=
  agg Z.le "STR_" rentals.

Section Frames.
Context {G : Type}.

(** A row of [wards]: "Ward Number", "Ward Name", "geometry". *)
Record ward_row := WardRow {
  number : Z;
  name : string;
  boundary : G
}.

(** [.fillna(0)] on one row. *)
Definition fillna (r : ward_row * list (string * option Q)) : ward G :=
  Ward (number (fst r)) (name (fst r)) (boundary (fst r)) (fillna_cells (snd r)).

Definition gdf_combined (wards : list ward_row)
           (service_requests rentals : list keyed) : list (ward G) :=
  map fillna
      (merge_counts number
         (merge_counts number (map (fun w => (w, [])) wards)
                       (agg_311 service_requests))
         (agg_str rentals)).
End Frames.

Arguments ward_row G : clear implicits.

(** [gdf_combined.columns] *)
Definition gdf_combined_columns (service_requests rentals : list keyed)
  : list string :=
  ["Ward Number"; "Ward Name"; "geometry"]
    ++ frame_columns (agg_311 service_requests)
    ++ frame_columns (agg_str rentals).

(** [numeric_df = gdf_combined.drop(columns="geometry")], its columns. *)
Definition numeric_df_columns (service_requests rentals : list keyed)
  : list string :=
  List.filter (fun c => negb (String.eqb c "geometry"))
              (gdf_combined_columns service_requests rentals).

Definition str_cols (service_requests rentals : list keyed) : list string :=
  List.filter (fun c => startswith c "STR_")
              (numeric_df_columns service_requests rentals).

Definition target_cols (service_requests rentals : list keyed) : list string :=
  List.filter (fun c => startswith c "311_")
              (numeric_df_columns service_requests rentals).

Definition numeric_cols (service_requests rentals : list keyed) : list string :=
  List.filter is_numeric_col (gdf_combined_columns service_requests rentals).

(** *** The FSAs of Toronto and the FSA map *)

(** [sub in s], which is what [str.contains] tests for a pattern without
    special characters. *)
Fixpoint contains (s sub : string) : bool :=
  startswith s sub
  || match s with
     | EmptyString => false
     | String _ s' => contains s' sub
     end.

Section FsaMap.
Context {G : Type}.

(** A row of the FSA boundary file: the province name and what the
    apportioning reads. *)
Record fsa_row := FsaRow {
  PRNAME : string;
  fsa_of : fsa G
}.

(** [fsa_boundaries[fsa_boundaries["PRNAME"].str.contains("Ontario")
    & fsa_boundaries["CFSAUID"].str.startswith("M")]] *)
Definition toronto (fsa_boundaries : list fsa_row) : list fsa_row :=
  List.filter (fun r => contains (PRNAME r) "Ontario"
                        && startswith (CFSAUID (fsa_of r)) "M")
              fsa_boundaries.

(** [fsa_boundaries.merge(fsa_aggregated, on="CFSAUID", how="left")
    .fillna(0)]; [columns] are the columns of [fsa_aggregated] other than
    "CFSAUID". *)
Definition fsa_map (fsa_boundaries : list (fsa G)) (columns : list string)
           (fsa_aggregated : list (string * list (string * Q)))
  : list (fsa G * list (string * Q)) :=
  flat_map
    (fun f =>
       match List.filter (fun g => String.eqb (fst g) (CFSAUID f)) fsa_aggregated with
       | [] => [(f, map (fun c => (c, 0%Q)) columns)]
       | found => map (fun g => (f, snd g)) found
       end)
    fsa_boundaries.
End FsaMap.

Arguments fsa_row G : clear implicits.
End Combine.

(** ** Counts per FSA, from the postal codes

    The last cells of the geospatial notebook count the requests and the
    rentals by the first three characters of their postal code and join the
    counts to the FSA polygons. *)

Module Postal.
Import Py Geo Combine.

(** A row of [service_requests] or of [rentals], as this aggregation reads
    it: "First 3 Chars of Postal Code" and the type, each [None] where
    missing. *)
Abbreviation located := (option string * option string)%type.

(** The rows that [groupby] puts into a group by postal code: those that
    have one. *)
Definition with_code (rows : list located) : list (string * option string) :=
  omap (fun r => (fun code => (code, snd r)) <$> fst r) rows.

(** [agg_311], with the row for "Intersection" dropped. *)
Definition agg_311 (service_requests : list located) : counts_frame string :=
  let agg_311 := agg String.le "311_" (with_code service_requests) in
  CountsFrame (frame_columns agg_311)
              (List.filter (fun r => negb (String.eqb (fst r) "Intersection"))
                           (frame_rows agg_311)).

Definition agg_str (rentals : list located) : counts_frame string :=
  agg String.le "STR_" (with_code rentals).

(** [gdf_fsa]: the FSA polygons with the counts of their code; renaming
    "First 3 Chars of Postal Code" to "CFSAUID" names the key of the merge. *)
Definition gdf_fsa {G : Type} (fsa_boundaries : list (fsa G))
           (service_requests rentals : list located)
  : list (fsa G * list (string * Q)) :=
  map (fun r => (fst r, fillna_cells (snd r)))
      (merge_counts CFSAUID
         (merge_counts CFSAUID (map (fun f => (f, [])) fsa_boundaries)
                       (agg_311 service_requests))
         (agg_str rentals)).
End Postal.


(** ** A first look at the dataset

    The loop of the NLP notebook that prints the first three articles of
    the dataset [ds]. *)

Module Preview.
Import Py NLP.

(** [ds[i]] for an index that is not negative; past the end the dataset
    raises [IndexError] (with a message of its own). *)
Definition row (ds : list article) (i : Z) : result article :=
  match ds !! Z.to_nat i with
  | Some a => Ok a
  | None => Raised (IndexError "index out of range for dataset")
  end.

(** [article[key]] *)
Definition getitem (a : article) (key : string) : result pyval :=
  match a !! key with
  | Some v => Ok v
  | None => Raised (KeyError key)
  end.

(** What an f-string shows of a field. *)
Definition shown (v : pyval) : string :=
  match v with
  | PyNone => "None"
  | PyStr s => s
  end.

(** [v[:n]] for a field [v] *)
Definition first_chars (v : pyval) (n : nat) : result string :=
  match v with
  | PyStr s => Ok (String.substring 0 n s)
  | PyNone => Raised (TypeError "'NoneType' object is not subscriptable")
  end.

(** [s * n] *)
Fixpoint times (s : string) (n : nat) : string :=
  match n with
  | O => EmptyString
  | S n' => String.append s (times s n')
  end.

Section Loop.
Context `{RT : Runtime nlp_ev}.

Definition lift {A} (r : result A) : M nlp_ev A :=
  match r with
  | Ok a => ret a
  | Raised e => raise e
  end.

(** The body of the loop. *)
Definition preview_article (ds : list article) (i : Z) : M nlp_ev unit :=
  article <- lift (row ds i);;
  title <- lift (getitem article "title");;
  _ <- call (Print (String.append "Title: " (shown title)));;
  text <- lift (getitem article "text");;
  head <- lift (first_chars text 512);;
  _ <- call (Print (String.append "Content: " (String.append head "...")));;
  call (Print (times "-" 80)).

(** [for i in range(3): ...] *)
Definition preview (ds : list article) : M nlp_ev unit :=
  for_each [0; 1; 2] (fun _ i => preview_article ds i) tt.
End Loop.
End Preview.

(** ** Mentions and average sentiment per person

    The cells of the NLP notebook that summarise the frame [people] (its
    columns "person" and "polarity", or "score" in the Transformers
    version). *)

Module Stats.
Import Py NLP.

(** A row of the summary: "person", "mentions", "avg_sentiment". *)
Record stat := Stat {
  stat_person : string;
  mentions : Z;
  avg_sentiment : pyfloat
}.

(** What is kept of the values of a group: how many are not NaN, and the
    sum of these. *)
Definition tally (v : pyfloat) (t : Z * Q) : Z * Q :=
  match v with
  | Finite q => (fst t + 1, (snd t + q)%Q)
  | NaN => t
  end.

(** One more row for [groupby('person')]; groups are kept in key order. *)
Fixpoint stat_add (person : string) (v : pyfloat) (groups : list (string * (Z * Q)))
  : list (string * (Z * Q)) :=
  match groups with
  | [] => [(person, tally v (0, 0%Q))]
  | (k, t) :: rest =>
      if String.eqb person k then (k, tally v t) :: rest
      else if String.ltb person k then (person, tally v (0, 0%Q)) :: groups
      else (k, t) :: stat_add person v rest
  end.

Definition grouped (people : list (string * pyfloat)) : list (string * (Z * Q)) :=
  foldl (fun groups r => stat_add (fst r) (snd r) groups) [] people.

(** ['mean']: NaN for a group without values. *)
Definition mean (t : Z * Q) : pyfloat :=
  if fst t =? 0 then NaN else Finite (snd t / inject_Z (fst t))%Q.

(** [people.groupby('person').agg(mentions=(col, 'count'),
    avg_sentiment=(col, 'mean')).reset_index()].  A frame built from an
    empty list of records has no columns, so that grouping it by 'person'
    raises [KeyError]. *)
Definition person_stats (people : list (string * pyfloat)) : result (list stat) :=
  match people with
  | [] => Raised (KeyError "person")
  | _ => Ok (map (fun g => Stat (fst g) (fst (snd g)) (mean (snd g))) (grouped people))
  end.

(** [.sort_values(by='mentions', ascending=False)]: the rows with the
    mentions descending.  The order among rows with equal mentions is left
    to the sort algorithm (the default one is not stable), so this is a
    relation between the table and its sorted arrangements. *)
Definition sorted_by_mentions (stats sorted : list stat) : Prop :=
  Permutation sorted stats
  /\ StronglySorted (fun a b => mentions b <= mentions a) sorted.

(** [.head(n)] *)
Definition head {A} (n : nat) (l : list A) : list A := take n l.

(** The two columns of [people] that the summary reads. *)
Definition of_spacy (people : list Spacy.row) : list (string * pyfloat) :=
  map (fun r => (Spacy.person r, Finite (Spacy.polarity r))) people.

Definition of_hf (people : list HF.row) : list (string * pyfloat) :=
  map (fun r => (HF.person r, HF.score r)) people.
End Stats.

(** ** Failures and missing values

    Python's [try]/[except], which no cell of the notebooks uses, and the
    places where the notebooks deal with missing values in their own code:
    the [dropna] that ends each cleaning cell and the style function of the
    two maps of short-term rentals. *)

Section Catching.
Context {E : Type -> Type} `{RT : Runtime E}.

(** [try: body / except Exception as e: handler(e)] *)
Definition try_except {A} (body : M E A) (handler : exn -> M E A) : M E A :=
  fun g =>
    let o := body g in
    match value o with
    | Ok _ => o
    | Raised e =>
        let o' := handler e (final o) in
        Outcome (value o') (final o') (trace o ++ trace o')
    end.
End Catching.

Module Cleaning.
Import Py Geo.

(** [df.dropna(subset=subset)]: the rows that have a value in every column
    of [subset] (a cell that is NaN or None is [PyNone], as is the cell
    of a column the row lacks). *)
Definition dropna (subset : list string) (df : table) : table :=
  List.filter (fun row => forallb (fun c => is_not_none (get row c)) subset) df.

(** [.dropna(subset=['Ward Name', 'Ward Number'])], the last step of the
    cleaning of [service_requests], [rentals] and [wards]. *)
Definition drop_without_ward (df : table) : table :=
  dropna ["Ward Name"; "Ward Number"] df.
End Cleaning.

Module Folium.
Import Py Geo.

(** The style of a polygon on the map; the two floats are written as the
    decimal fractions of the source. *)
Record style := Style {
  fillColor : string;
  color : string;
  weight : Q;
  fillOpacity : Q
}.

(** The [style_function] of the ward map and of the FSA map of
    "STR_Apartment"; [colormap] is the branca colour scale, [feat] a GeoJSON
    feature ([None] is [JNull]). *)
Definition style_function (colormap : json -> result string) (feat : json)
  : result style :=
  match getitem_key feat "properties" with
  | Raised e => Raised e
  | Ok properties =>
      match getitem_key properties "STR_Apartment" with
      | Raised e => Raised e
      | Ok JNull => Ok (Style "#d3d3d3" "black" (8 # 10) (7 # 10))
      | Ok _ =>
          match getitem_key feat "properties" with
          | Raised e => Raised e
          | Ok properties =>
              match getitem_key properties "STR_Apartment" with
              | Raised e => Raised e
              | Ok value =>
                  match colormap value with
                  | Raised e => Raised e
                  | Ok fill => Ok (Style fill "black" (8 # 10) (7 # 10))
                  end
              end
          end
      end
  end.
End Folium.

(** ** Floats

    A Python [float] is an IEEE 754 binary64 number.  A finite float is the
    rational number it denotes; an operation computes the exact result and
    rounds it to the nearest float, ties to the float with an even
    significand.  Zero has no sign here: the code divides areas and
    multiplies counts, and never looks at the sign of a zero. *)

Module Binary64.
Local Open Scope Q_scope.

(** A float: a finite number, an infinity, or not a number. *)
Inductive float :=
| Num (q : Q)
| Inf
| NegInf
| Nan.

(** [2 ** e] *)
Definition pow2 (e : Z) : Q := 2 ^ e.

(** The exponent of a positive number: the [e] with [2^e <= a < 2^(e+1)]. *)
Definition ilog2 (a : Q) : Z :=
  let e := (Z.log2 (Qnum a) - Z.log2 (Z.pos (Qden a)))%Z in
  if Qle_bool (pow2 e) a then e else (e - 1)%Z.

(** The integer nearest to [x], the even one of two that are equally near. *)
Definition nearest_even (x : Q) : Z :=
  let f := Qfloor x in
  match Qcompare (x - inject_Z f) (1 # 2) with
  | Lt => f
  | Gt => (f + 1)%Z
  | Eq => if Z.even f then f else (f + 1)%Z
  end.

(** The float nearest to a positive number.  The significand has 53 bits;
    below [2^-1022] the exponent stays at -1022 (subnormal numbers); a
    result of [2^1024] or more is an overflow. *)
Definition round_pos (a : Q) : float :=
  let e := Z.max (ilog2 a) (-1022) in
  let ulp := pow2 (e - 52) in
  let r := inject_Z (nearest_even (a / ulp)) * ulp in
  if Qle_bool (pow2 1024) r then Inf else Num (Qred r).

(** [- x] *)
Definition fneg (x : float) : float :=
  match x with
  | Num q => Num (- q)
  | Inf => NegInf
  | NegInf => Inf
  | Nan => Nan
  end.

(** The float nearest to [q]. *)
Definition rnd (q : Q) : float :=
  match Qcompare q 0 with
  | Eq => Num 0
  | Gt => round_pos q
  | Lt => fneg (round_pos (- q))
  end.

(** The unit roundoff. *)
Definition u : Q := pow2 (-53).

(** Half of the smallest positive float: the most by which rounding moves a
    number below the normal range. *)
Definition eta : Q := pow2 (-1075).

(** [x != x] *)
Definition is_nan (x : float) : bool :=
  match x with
  | Nan => true
  | _ => false
  end.

(** [a + b] *)
Definition fadd (a b : float) : float :=
  match a, b with
  | Nan, _ | _, Nan => Nan
  | Inf, NegInf | NegInf, Inf => Nan
  | Inf, _ | _, Inf => Inf
  | NegInf, _ | _, NegInf => NegInf
  | Num x, Num y => rnd (x + y)
  end.

(** [a - b] *)
Definition fsub (a b : float) : float := fadd a (fneg b).

Definition signed_inf (negative : bool) : float :=
  if negative then NegInf else Inf.

Definition negative (x : float) : bool :=
  match x with
  | Num q => Qle_bool q 0 && negb (Qeq_bool q 0)
  | NegInf => true
  | _ => false
  end.

Definition is_zero (x : float) : bool :=
  match x with
  | Num q => Qeq_bool q 0
  | _ => false
  end.

(** [a * b] *)
Definition fmul (a b : float) : float :=
  match a, b with
  | Nan, _ | _, Nan => Nan
  | Num x, Num y => rnd (x * y)
  | _, _ =>
      if is_zero a || is_zero b then Nan
      else signed_inf (xorb (negative a) (negative b))
  end.

(** [a / b], as NumPy divides: a division by zero gives an infinity or
    not a number, and raises nothing. *)
Definition fdiv (a b : float) : float :=
  match a, b with
  | Nan, _ | _, Nan => Nan
  | Num x, Num y =>
      if Qeq_bool y 0
      then (if Qeq_bool x 0 then Nan else signed_inf (negative a))
      else rnd (x / y)
  | Num _, _ => Num 0
  | _, Num _ => signed_inf (xorb (negative a) (negative b))
  | _, _ => Nan
  end.

(** One step of the compensated (Kahan) summation of pandas' [group_sum]. *)
Definition kahan_step (acc : float * float) (val : float) : float * float :=
  if is_nan val then acc
  else
    let '(sumx, compensation) := acc in
    let y := fsub val compensation in
    let t := fadd sumx y in
    let c := fsub (fsub t sumx) y in
    (t, if is_nan c then Num 0 else c).

(** The sum of the values of one group and column; NaN values are left
    out, and a group without values sums to 0. *)
Definition group_sum (vals : list float) : float :=
  fst (foldl kahan_step (Num 0, Num 0) vals).

(** The range in which rounding has a relative error of at most [u]. *)
Definition normal (q : Q) : Prop := pow2 (-1022) <= Qabs q <= pow2 1023.

(** [q] is the value of a float. *)
Definition representable (q : Q) : Prop := rnd q = Num q.
End Binary64.

(** ** Apportioning, as the floats compute it

    The steps of the apportioning cell that do arithmetic: the quotient
    [area_overlap / ward_area], the product of every count with it, and the
    sums of [groupby("CFSAUID").sum()].  The overlay and the merge are
    those of [Geo]; the areas are the floats GeoPandas returns and the
    counts those of [gdf_combined]. *)

Module Rounded.
Import Py Geo Binary64.

Section Apportion.
Context {G : Type} `{GE : Geometry G}.

(** [ward_fsa["area_frac"] = ward_fsa["area_overlap"] / ward_fsa["ward_area"]];
    [ward_area] is NaN where the merge found no ward. *)
Definition area_frac (m : merged G) : float :=
  fdiv (Num (area_overlap m)) (from_option Num Nan (ward_area m)).

(** A row of [apportioned]: the numeric columns times the row's
    [area_frac], renamed. *)
Definition apportion (m : merged G) : list (string * float) :=
  map (fun cv => (String.append (fst cv) "_apportioned",
                  fmul (Num (snd cv)) (area_frac m)))
      (List.filter (fun cv => is_numeric_col (fst cv))
                   (counts (of_ward (base m)))).

(** A row of the final [ward_fsa]. *)
Record apportioned_row := ApportionedRow {
  row_CFSAUID : string;
  row_geometry : G;
  apportioned : list (string * float)
}.

Definition finish (m : merged G) : apportioned_row :=
  ApportionedRow (CFSAUID (of_fsa (base m))) (geometry (base m)) (apportion m).

Definition ward_fsa (gdf_combined : list (ward G)) (fsa_boundaries : list (fsa G))
  : list apportioned_row :=
  map finish (ward_fsa_merged gdf_combined fsa_boundaries).

(** The keys of the groups: the distinct FSA codes, sorted. *)
Definition group_keys (ward_fsa : list apportioned_row) : list string :=
  merge_sort String.le (remove_dups (map row_CFSAUID ward_fsa)).

(** The columns that are summed: those of the frame, read off its first
    row. *)
Definition sum_columns (ward_fsa : list apportioned_row) : list string :=
  match ward_fsa with
  | [] => []
  | r :: _ => map fst (apportioned r)
  end.

(** The cell of column [c] in a row (NaN if the row has no such cell). *)
Definition cell_at (c : string) (cells : list (string * float)) : float :=
  match List.find (fun cv => String.eqb (fst cv) c) cells with
  | Some cv => snd cv
  | None => Nan
  end.

(** [ward_fsa.drop(columns="geometry").groupby("CFSAUID").sum()
    .reset_index()]: for every FSA code and every column, the sum of the
    cells of the rows with that code, in the order of the rows. *)
Definition fsa_aggregated (ward_fsa : list apportioned_row)
  : list (string * list (string * float)) :=
  map (fun key =>
         (key,
          map (fun c =>
                 (c, group_sum
                       (map (fun r => cell_at c (apportioned r))
                            (List.filter (fun r => String.eqb (row_CFSAUID r) key)
                                         ward_fsa))))
              (sum_columns ward_fsa)))
      (group_keys ward_fsa).
End Apportion.

Arguments apportioned_row G : clear implicits.
End Rounded.

(** ** The functions of the NLP notebook on Python objects

    Lists, dicts and the [Counter] are objects of a store and are passed by
    reference: a function that is handed the article collection could
    append to it, and a library call that is handed a list could change it.
    The functions are written out once more with every object they create,
    read or change; strings and numbers are immutable values. *)

Module Heap.
Import Py NLP.

(** The address of an object. *)
Abbreviation loc := nat.

(** What a list holds. *)
Inductive val :=
| VNone
| VStr (s : string)
| VInt (n : Z)
| VFloat (x : pyfloat)
| VRef (l : loc).

(** A mutable object: a list, a dataset record (a dict from field names to
    strings or [None]), a [Counter], or one of the dicts that
    [build_person_sentiment_df] appends to [records]. *)
Inductive obj :=
| OList (items : list val)
| ODict (fields : article)
| OCounter (counts : gmap string Z)
| ORecord (article_id : Z) (person : string) (score : pyfloat).

(** The store: the objects by address; objects are never freed. *)
Abbreviation store := (list obj).

Definition val_of (v : pyval) : val :=
  match v with
  | PyNone => VNone
  | PyStr s => VStr s
  end.

(** The texts of a list that holds only strings. *)
Fixpoint texts_of (items : list val) : option (list string) :=
  match items with
  | [] => Some []
  | VStr s :: rest => cons s <$> texts_of rest
  | _ :: _ => None
  end.

(** What the code does with objects and with the libraries.  A library call
    is made on immutable arguments and the library's own objects
    ([Library]), or it is handed one of the lists of the store
    ([LibraryOn]). *)
Inductive py_ev : Type -> Type :=
| New (o : obj) : py_ev loc
| Items (l : loc) : py_ev (list val)
| DictGet (l : loc) (key : string) : py_ev pyval
| DictItem (l : loc) (key : string) : py_ev pyval
| Append (l : loc) (v : val) : py_ev unit
| Increment (l : loc) (key : string) : py_ev unit
| Library {X : Type} (c : nlp_ev X) : py_ev X
| LibraryOn {X : Type} (l : loc) (c : list string -> nlp_ev X) : py_ev X.

(** The libraries, and what they leave in a list they are handed. *)
Class Machine := {
  library : Runtime nlp_ev;
  rewrites : @globals nlp_ev library -> list val -> list val
}.

(** Libraries that only read the lists they are handed. *)
Definition reads_only `{MC : Machine} : Prop :=
  forall g items, rewrites g items = items.

Section Interpreter.
Context `{MC : Machine}.

Definition wrong_kind : exn := TypeError "object of the wrong kind".

(** One step of the interpreter.  An operation on an address that holds no
    object of the kind it needs raises (Python's AttributeError and
    TypeError are not told apart). *)
Definition run {X} (c : py_ev X) (s : store * @globals nlp_ev library)
  : result X * (store * @globals nlp_ev library) :=
  match c in py_ev X return result X * (store * @globals nlp_ev library) with
  | New o => (Ok (length (fst s)), (fst s ++ [o], snd s))
  | Items l =>
      match fst s !! l with
      | Some (OList items) => (Ok items, s)
      | _ => (Raised wrong_kind, s)
      end
  | DictGet l key =>
      match fst s !! l with
      | Some (ODict fields) => (Ok (get fields key), s)
      | _ => (Raised wrong_kind, s)
      end
  | DictItem l key =>
      match fst s !! l with
      | Some (ODict fields) =>
          match fields !! key with
          | Some v => (Ok v, s)
          | None => (Raised (KeyError key), s)
          end
      | _ => (Raised wrong_kind, s)
      end
  | Append l v =>
      match fst s !! l with
      | Some (OList items) => (Ok tt, (<[l := OList (items ++ [v])]> (fst s), snd s))
      | _ => (Raised wrong_kind, s)
      end
  | Increment l key =>
      match fst s !! l with
      | Some (OCounter counts) =>
          (Ok tt,
           (<[l := OCounter (<[key := default 0 (counts !! key) + 1]> counts)]> (fst s),
            snd s))
      | _ => (Raised wrong_kind, s)
      end
  | Library c =>
      let r := @perform nlp_ev library _ c (snd s) in
      (fst r, (fst s, snd r))
  | LibraryOn l c =>
      match fst s !! l with
      | Some (OList items) =>
          match texts_of items with
          | Some texts =>
              let r := @perform nlp_ev library _ (c texts) (snd s) in
              (fst r, (<[l := OList (rewrites (snd s) items)]> (fst s), snd r))
          | None => (Raised wrong_kind, s)
          end
      | _ => (Raised wrong_kind, s)
      end
  end.

#[global] Instance python : Runtime py_ev :=
  {| globals := store * @globals nlp_ev library;
     perform X c s := run c s |}.
End Interpreter.

Section Functions.
Context `{MC : Machine}.

(** An item of the article collection is a reference to a record. *)
Definition record_of (item : val) : M py_ev loc :=
  match item with
  | VRef a => ret a
  | _ => raise wrong_kind
  end.

Definition count_tokens_pipe (articles : loc) (batch_size : Z) : M py_ev loc :=
  token_counter <- call (New (OCounter ∅));;
  items <- call (Items articles);;
  selected <-
    for_each items
      (fun selected item =>
         article <- record_of item;;
         text <- call (DictGet article "text");;
         if is_not_none text
         then (text <- call (DictItem article "text");;
               ret (selected ++ [val_of text]))
         else ret selected)
      [];;
  texts <- call (New (OList selected));;
  docs <- call (LibraryOn texts (fun texts => NlpPipe texts ["ner"; "parser"] batch_size));;
  _ <- for_each docs
         (fun _ doc =>
            for_each (tokens doc)
              (fun _ token =>
                 if negb (is_stop token) && negb (is_punct token)
                    && (0 <? str_len (strip (lemma_ token)))
                 then call (Increment token_counter (lemma_ token))
                 else ret tt)
              tt)
         tt;;
  ret token_counter.
End Functions.

Module Spacy.
Section Functions.
Context `{MC : Machine}.

Definition extract_people (texts : loc) (batch_size : Z) : M py_ev loc :=
  people_per_doc <- call (New (OList []));;
  docs <- call (LibraryOn texts
                  (fun texts =>
                     NlpPipe texts
                       ["parser"; "tagger"; "attribute_ruler";
                        "lemmatizer"; "spacytextblob"]
                       batch_size));;
  _ <- for_each docs
         (fun _ doc =>
            names <- call (New (OList (map VStr (NLP.Spacy.person_names doc))));;
            call (Append people_per_doc (VRef names)))
         tt;;
  ret people_per_doc.

Definition score_sentiment (texts : loc) (batch_size : Z) : M py_ev loc :=
  polarities <- call (New (OList []));;
  docs <- call (LibraryOn texts
                  (fun texts =>
                     NlpPipe texts
                       ["parser"; "tagger"; "attribute_ruler";
                        "lemmatizer"; "ner"]
                       batch_size));;
  _ <- for_each docs
         (fun _ doc => call (Append polarities (VFloat (Finite (blob_polarity doc)))))
         tt;;
  ret polarities.

(** [[f(i, a) for i, a in enumerate(articles) if a.get(text_key)]] *)
Definition select (items : list val) (text_key : string)
           (f : Z -> loc -> M py_ev val) : M py_ev (list val) :=
  for_each (enumerate items)
    (fun selected '(i, item) =>
       a <- record_of item;;
       text <- call (DictGet a text_key);;
       if truthy text
       then (v <- f i a;; ret (selected ++ [v]))
       else ret selected)
    [].

(** The loop that fills [records]; [rows] is what [zip] yields. *)
Definition explode (records : loc) (rows : list (val * val * val)) : M py_ev unit :=
  for_each rows
    (fun _ '(art_id, names, score) =>
       match art_id, names, score with
       | VInt art_id, VRef names, VFloat score =>
           names <- call (Items names);;
           for_each names
             (fun _ name =>
                match name with
                | VStr name =>
                    record <- call (New (ORecord art_id name score));;
                    call (Append records (VRef record))
                | _ => raise wrong_kind
                end)
             tt
       | _, _, _ => raise wrong_kind
       end)
    tt.

Definition build_person_sentiment_df (articles : loc) (text_key : string)
           (max_records : option Z) : M py_ev loc :=
  items <- call (Items articles);;
  selected <- select items text_key
                (fun _ a => text <- call (DictItem a text_key);; ret (val_of text));;
  texts <- call (New (OList selected));;
  items <- call (Items articles);;
  selected <- select items text_key (fun i _ => ret (VInt i));;
  article_ids <- call (New (OList selected));;
  sliced <-
    match max_records with
    | Some n =>
        items <- call (Items texts);;
        texts <- call (New (OList (slice_to items n)));;
        items <- call (Items article_ids);;
        article_ids <- call (New (OList (slice_to items n)));;
        ret (texts, article_ids)
    | None => ret (texts, article_ids)
    end;;
  let '(texts, article_ids) := sliced in
  people_lists <- extract_people texts 64;;
  polarity_list <- score_sentiment texts 64;;
  records <- call (New (OList []));;
  article_ids <- call (Items article_ids);;
  people_lists <- call (Items people_lists);;
  polarity_list <- call (Items polarity_list);;
  _ <- explode records (zip3 article_ids people_lists polarity_list);;
  ret records.
End Functions.
End Spacy.

Module HF.
Section Functions.
Context `{MC : Machine}.

(** An argument that is either one string or a list. *)
Inductive texts_arg :=
| OneStr (s : string)
| ListAt (l : loc).

(** [if isinstance(texts, str): texts = [texts]] *)
Definition as_list (texts : texts_arg) : M py_ev loc :=
  match texts with
  | OneStr s => call (New (OList [VStr s]))
  | ListAt l => ret l
  end.

Definition extract_people (texts : texts_arg) (batch_size : Z)
           (stride : Z) (show_progress : bool) : M py_ev loc :=
  texts <- as_list texts;;
  persons_per_doc <- call (New (OList []));;
  items <- call (Items texts);;
  match range 0 (len items) batch_size with
  | None => raise (ValueError "range() arg 3 must not be zero")
  | Some starts =>
      _ <- for_each starts
             (fun _ start =>
                items <- call (Items texts);;
                batch <- call (New (OList (slice items start (start + batch_size))));;
                batch_entities <-
                  call (LibraryOn batch
                          (fun batch => NerPipeline batch (len batch) stride));;
                for_each batch_entities
                  (fun _ doc =>
                     names <- call (New (OList (map VStr (NLP.HF.persons_of doc))));;
                     call (Append persons_per_doc (VRef names)))
                  tt)
             tt;;
      ret persons_per_doc
  end.

Definition _score_long_text (text : string) (max_len stride batch_size : Z)
  : M py_ev pyfloat :=
  enc <- call (Library (Tokenizer text max_len stride));;
  chunks <- call (Library (BatchDecode (input_ids enc)));;
  chunk_preds <- call (Library (SentimentPipeline chunks batch_size));;
  let signed := map (fun p => NLP.score p * NLP.HF.sign_of (label p))%Q chunk_preds in
  _ <- call (New (OList (map (fun x => VFloat (Finite x)) signed)));;
  let avg := NLP.HF.np_mean signed in
  ret avg.

Definition extract_sentiment (texts : texts_arg) (batch_size : Z)
           (max_len stride : Z) : M py_ev loc :=
  texts <- as_list texts;;
  items <- call (Items texts);;
  scores <-
    comprehension
      (fun t =>
         match t with
         | VStr t => _score_long_text t max_len stride batch_size
         | _ => raise wrong_kind
         end)
      items;;
  call (New (OList (map VFloat scores))).

(** The collection loop, with its [break]: once [stopped], the rest of
    the articles is not looked at. *)
Definition collect (texts art_ids : loc) (items : list val) (text_key : string)
           (max_records : option Z) : M py_ev bool :=
  for_each (enumerate items)
    (fun (stopped : bool) '(i, item) =>
       if stopped then ret true
       else
         art <- record_of item;;
         text <- call (DictGet art text_key);;
         if truthy text
         then (text <- call (DictItem art text_key);;
               _ <- call (Append texts (val_of text));;
               _ <- call (Append art_ids (VInt i));;
               if truthy_int max_records
               then (collected <- call (Items texts);;
                     ret (default 0 max_records <=? len collected))
               else ret false)
         else ret false)
    false.

Definition build_person_sentiment_df (articles : loc) (text_key : string)
           (max_records : option Z) : M py_ev loc :=
  texts <- call (New (OList []));;
  art_ids <- call (New (OList []));;
  items <- call (Items articles);;
  _ <- collect texts art_ids items text_key max_records;;
  people_per_article <- extract_people (ListAt texts) 16 128 true;;
  sentiment_per_article <- extract_sentiment (ListAt texts) 16 512 128;;
  records <- call (New (OList []));;
  art_ids <- call (Items art_ids);;
  people_per_article <- call (Items people_per_article);;
  sentiment_per_article <- call (Items sentiment_per_article);;
  _ <- Spacy.explode records (zip3 art_ids people_per_article sentiment_per_article);;
  ret records.
End Functions.
End HF.
End Heap.

(** * Specification-level notions *)

(** ** How a computation treats the exceptions and the state of its runtime *)

Section Conduct.
Context {E : Type -> Type} `{RT : Runtime E}.

Definition succeeded (l : logged E) : Prop := failure_of l = None.

(** [m] hands on what its library calls raise: a failed call is the last
    call made and its exception is the outcome. *)
Definition propagates {A} (m : M E A) : Prop :=
  forall g,
    match value (m g) with
    | Ok _ => Forall succeeded (trace (m g))
    | Raised e =>
        Forall succeeded (trace (m g))
        \/ exists tr X (c : E X),
             trace (m g) = tr ++ [Log c (Some e)] /\ Forall succeeded tr
    end.

(** [m] leaves the part [obs] of the global state as it found it. *)
Definition preserves {T} (obs : globals -> T) {A} (m : M E A) : Prop :=
  forall g, obs (final (m g)) = obs g.

(** The runtime itself leaves [obs] alone in every call. *)
Definition library_preserves {T} (obs : globals -> T) : Prop :=
  forall X (c : E X) g, obs (snd (perform c g)) = obs g.
End Conduct.

(** A computation scripted from library calls alone: it returns, raises,
    calls the library, or continues a scripted computation with another. *)
Inductive scripted {E : Type -> Type} `{RT : Runtime E}
  : forall {A : Type}, M E A -> Prop :=
| scripted_ret {A} (a : A) : scripted (ret a)
| scripted_raise {A} (e : exn) : scripted (raise (A := A) e)
| scripted_call {X} (c : E X) : scripted (call c)
| scripted_bind {A B} (m : M E A) (f : A -> M E B) :
    scripted m -> (forall a, scripted (f a)) -> scripted (bind m f).

(** ** The operations of the two notebooks *)

Section Operations.
Import Py NLP.

Inductive nlp_operation : Type -> Type :=
| LemmatizeSentence (sentence : string) : nlp_operation unit
| PosTags (sentence : string) : nlp_operation unit
| CountTokensPipe (articles : list article) (batch_size : Z)
    : nlp_operation (gmap string Z)
| SpacyExtractPeople (texts : list string) (batch_size : Z)
    : nlp_operation (list (list string))
| ScoreSentiment (texts : list string) (batch_size : Z) : nlp_operation (list Q)
| SpacyBuildPersonSentimentDf (articles : list article) (text_key : string)
                              (max_records : option Z)
    : nlp_operation (list Spacy.row)
| HFExtractPeople (texts : texts_arg) (batch_size stride : Z) (show_progress : bool)
    : nlp_operation (list (list string))
| ScoreLongText (text : string) (max_len stride batch_size : Z)
    : nlp_operation pyfloat
| ExtractSentiment (texts : texts_arg) (batch_size max_len stride : Z)
    : nlp_operation (list pyfloat)
| HFBuildPersonSentimentDf (articles : list article) (text_key : string)
                           (max_records : option Z)
    : nlp_operation (list HF.row).

Definition nlp_program `{RT : Runtime nlp_ev} {A} (op : nlp_operation A)
  : M nlp_ev A :=
  match op with
  | LemmatizeSentence sentence => lemmatize_sentence sentence
  | PosTags sentence => pos_tags sentence
  | CountTokensPipe articles batch_size => count_tokens_pipe articles batch_size
  | SpacyExtractPeople texts batch_size => Spacy.extract_people texts batch_size
  | ScoreSentiment texts batch_size => Spacy.score_sentiment texts batch_size
  | SpacyBuildPersonSentimentDf articles text_key max_records =>
      Spacy.build_person_sentiment_df articles text_key max_records
  | HFExtractPeople texts batch_size stride show_progress =>
      HF.extract_people texts batch_size stride show_progress
  | ScoreLongText text max_len stride batch_size =>
      HF._score_long_text text max_len stride batch_size
  | ExtractSentiment texts batch_size max_len stride =>
      HF.extract_sentiment texts batch_size max_len stride
  | HFBuildPersonSentimentDf articles text_key max_records =>
      HF.build_person_sentiment_df articles text_key max_records
  end.

Inductive geo_operation : Type -> Type :=
| DownloadDatasets : geo_operation unit
| ReadServiceRequests : geo_operation Geo.table
| ReadRentals : geo_operation Geo.table
| ReadWards : geo_operation Geo.table
| ReadFsaBoundaries : geo_operation Geo.table.

Definition geo_program `{RT : Runtime Geo.io_ev} {A} (op : geo_operation A)
  : M Geo.io_ev A :=
  match op with
  | DownloadDatasets => Geo.download_datasets
  | ReadServiceRequests => Geo.read_service_requests
  | ReadRentals => Geo.read_rentals
  | ReadWards => Geo.read_wards
  | ReadFsaBoundaries => Geo.read_fsa_boundaries
  end.
End Operations.

(** ** What the notebook functions are expected to compute *)

Section Expected.
Import Py NLP.

(** The articles that have text, with their positions. *)
Definition with_text (text_key : string) (items : list (Z * article))
  : list (Z * article) :=
  List.filter (fun ia => truthy (get (snd ia) text_key)) items.

Definition text_at (text_key : string) (ia : Z * article) : string :=
  str_of (get (snd ia) text_key).

(** At most [max_records] of them, when a limit is given. *)
Definition limited {A} (max_records : option Z) (l : list A) : list A :=
  match max_records with
  | None => l
  | Some n => take (Z.to_nat n) l
  end.

(** A limit the two versions of [build_person_sentiment_df] read alike. *)
Definition usable_limit (max_records : option Z) : Prop :=
  match max_records with
  | None => True
  | Some n => 0 < n
  end.

Definition ner_only : list string :=
  ["parser"; "tagger"; "attribute_ruler"; "lemmatizer"; "spacytextblob"].
Definition textblob_only : list string :=
  ["parser"; "tagger"; "attribute_ruler"; "lemmatizer"; "ner"].

(** The texts [count_tokens_pipe] hands to spaCy. *)
Definition article_texts (articles : list article) : list string :=
  map (fun a => str_of (get a "text"))
      (List.filter (fun a => is_not_none (get a "text")) articles).

(** The tokens [count_tokens_pipe] counts. *)
Definition counted (t : token) : bool :=
  negb (is_stop t) && negb (is_punct t) && (0 <? str_len (strip (lemma_ t))).

Definition counted_as (lemma : string) (t : token) : bool :=
  counted t && String.eqb (lemma_ t) lemma.

(** A line of the table [lemmatize_sentence] prints. *)
Definition lemma_line (t : token) : string :=
  String.append (ljust (tok_text t) 20) (ljust (lemma_ t) 20).

Definition lemma_header : string :=
  String.append (ljust "Token" 20) (ljust "Lemma" 20).

Definition in_unit_range (q : Q) : Prop := (-1 <= q <= 1)%Q.

Context (md : models).

(** What the models say of one text. *)
Definition spacy_people (text : string) : list string :=
  Spacy.person_names (spacy_model md ner_only text).

Definition spacy_polarity (text : string) : Q :=
  blob_polarity (spacy_model md textblob_only text).

Definition hf_people (stride : Z) (text : string) : list string :=
  HF.persons_of (ner_model md stride text).

Definition windows (max_len stride : Z) (text : string) : list string :=
  map (decode_model md) (input_ids (tokenizer_model md text max_len stride)).

Definition signed_score (p : prediction) : Q :=
  (NLP.score p * HF.sign_of (label p))%Q.

Definition hf_sentiment (max_len stride : Z) (text : string) : pyfloat :=
  HF.np_mean (map signed_score (map (sentiment_model md) (windows max_len stride text))).

(** The calls the Hugging Face [extract_people] makes for the batches starting at [starts]. *)
Definition ner_calls (texts : list string) (batch_size stride : Z) (starts : list Z)
  : list (logged nlp_ev) :=
  map (fun start =>
         let batch := slice texts start (start + batch_size) in
         Log (NerPipeline batch (len batch) stride) None)
      starts.

(** The three calls [_score_long_text] makes for one text. *)
Definition sentiment_calls (max_len stride batch_size : Z) (text : string)
  : list (logged nlp_ev) :=
  [Log (Tokenizer text max_len stride) None;
   Log (BatchDecode (input_ids (tokenizer_model md text max_len stride))) None;
   Log (SentimentPipeline (windows max_len stride text) batch_size) None].

(** One row per person mention of each selected article. *)
Definition spacy_rows (selected : list (Z * article)) (text_key : string)
  : list Spacy.row :=
  flat_map
    (fun ia =>
       map (fun name => Spacy.Row (fst ia) name (spacy_polarity (text_at text_key ia)))
           (spacy_people (text_at text_key ia)))
    selected.

Definition hf_rows (selected : list (Z * article)) (text_key : string)
  : list HF.row :=
  flat_map
    (fun ia =>
       map (fun name => HF.Row (fst ia) name (hf_sentiment 512 128 (text_at text_key ia)))
           (hf_people 128 (text_at text_key ia)))
    selected.
End Expected.

(** ** What the apportioning is expected to compute *)

Section ExpectedShares.
Import Geo.
Context {G : Type} `{GE : Geometry G}.



(** The value of column [c] in a row of sums. *)
Definition cell (c : string) (row : list (string * Q)) : Q :=
  fold_right Qplus 0%Q
    (map snd (List.filter (fun cv => String.eqb (fst cv) c) row)).

(** The sum of column [c] over all groups of an aggregated table. *)
Definition column_total (c : string) (groups : list (string * list (string * Q)))
  : Q :=
  fold_right Qplus 0%Q (map (fun g => cell c (snd g)) groups).

(** All groups have the columns [names], in this order. *)
Definition uniform (names : list string) (groups : list (string * list (string * Q)))
  : Prop :=
  Forall (fun g => map fst (snd g) = names) groups.

(** The rows of [ward_fsa] that come from the ward with number [n]. *)
Definition contributions (gdf_combined : list (ward G))
           (fsa_boundaries : list (fsa G)) (n : Z) : list (merged G) :=
  List.filter (fun m => ward_number (of_ward (base m)) =? n)
              (ward_fsa_merged gdf_combined fsa_boundaries).

(** The area of a ward that its intersections with the FSAs cover. *)
Definition covered_area (ms : list (merged G)) : Q :=
  fold_right Qplus 0%Q (map area_overlap ms).
End ExpectedShares.

(** ** Sample data *)

Section Samples.
Import Py NLP.

Definition sample_article (text : string) : article := {[ "text" := PyStr text ]}.

(** A stand-in for the pre-trained models: every text mentions itself and
    "Sam"; windows are 4 tokens wide, overlap by one and are positive at 3/4. *)
Definition sample_models : models :=
  {| spacy_model := fun disable text =>
       Doc [Token text text "PROPN" false false; Token "the" "the" "DET" true false;
            Token "." "." "PUNCT" false true]
           [Span text "PERSON"; Span "OpenAI" "ORG"] (1 # 2);
     ner_model := fun stride text =>
       [Entity (String.append " " text) "PER"; Entity "Sam" "PER";
        Entity "Google Inc" "ORG"];
     tokenizer_model := fun text max_len stride =>
       Encoding [0; 1; 2; 3] [[3; 4; 5; 6]];
     decode_model := fun ids => "window";
     sentiment_model := fun chunk => Prediction "Positive" (3 # 4) |}.

(** A runtime without the pre-trained models: every model call raises,
    printing works. *)
Definition offline : exn := LibraryError "transformers" "model not found".

Definition offline_runtime : Runtime nlp_ev :=
  {| globals := list string;
     perform X c stdout :=
       match c in nlp_ev X return result X * list string with
       | Print line => (Ok tt, stdout ++ [line])
       | _ => (Raised offline, stdout)
       end |}.

(** A runtime without network: every request raises, the rest answers with
    empty data. *)
Definition unreachable : exn := LibraryError "requests" "connection error".

Definition no_network_runtime : Runtime Geo.io_ev :=
  {| globals := unit;
     perform X c g :=
       match c in Geo.io_ev X return result X * unit with
       | Geo.RequestsGet _ _ => (Raised unreachable, g)
       | Geo.ResponseJson _ => (Ok Geo.JNull, g)
       | Geo.WriteFile _ _ => (Ok tt, g)
       | Geo.ZipExtractAll _ _ => (Ok tt, g)
       | Geo.ReadCsv _ _ _ _ => (Ok [], g)
       | Geo.GpdReadFile _ => (Ok [], g)
       | Geo.PrintLine _ => (Ok tt, g)
       end |}.

(** A runtime whose global state holds the dataset [ds] next to what has
    been printed; the models answer as [md] says. *)
Definition notebook_runtime (md : models) : Runtime nlp_ev :=
  {| globals := list article * list string;
     perform X c g := (Ok (answer md c), (fst g, printed c (snd g))) |}.

(** Axis-parallel rectangles as polygons. *)
Record rectangle := Rectangle {
  west : Q; east : Q; south : Q; north : Q
}.

Definition qmax (a b : Q) : Q := if Qle_bool a b then b else a.
Definition qmin (a b : Q) : Q := if Qle_bool a b then a else b.

#[global] Instance rectangle_geometry : Geo.Geometry rectangle :=
  {| Geo.area r := ((east r - west r) * (north r - south r))%Q;
     Geo.intersection r s :=
       let w := qmax (west r) (west s) in
       let e := qmin (east r) (east s) in
       let so := qmax (south r) (south s) in
       let n := qmin (north r) (north s) in
       if Qle_bool e w || Qle_bool n so then None
       else Some (Rectangle w e so n) |}.


End Samples.

(** * Further specification-level notions *)

Section SelectionCounts.
Import Py NLP.

(** How many of the [total] articles with text the spaCy version of
    [build_person_sentiment_df] selects: a negative limit counts from the
    end, as a slice bound does. *)
Definition spacy_selected (max_records : option Z) (total : nat) : nat :=
  match max_records with
  | None => total
  | Some n =>
      if n <? 0 then (total - Z.to_nat (- n))%nat else Nat.min (Z.to_nat n) total
  end.

(** How many the Hugging Face version selects: a zero limit is no limit,
    a negative one stops the loop after the first text. *)
Definition hf_selected (max_records : option Z) (total : nat) : nat :=
  match max_records with
  | None => total
  | Some n =>
      if n =? 0 then total
      else if n <? 0 then Nat.min 1 total
      else Nat.min (Z.to_nat n) total
  end.

(** A selected position and text belong to an article of the input. *)
Definition selected_from (articles : list article) (text_key : string)
           (i : Z) (text : string) : Prop :=
  0 <= i
  /\ exists a, articles !! Z.to_nat i = Some a
               /\ get a text_key = PyStr text /\ text <> "".
End SelectionCounts.

Section CallsMade.
Context {E : Type -> Type} `{RT : Runtime E}.

(** Every call that [m] makes, from whatever state, satisfies [P]. *)
Definition calls_only (P : logged E -> Prop) {A} (m : M E A) : Prop :=
  forall g, Forall P (trace (m g)).
End CallsMade.

Section Batches.
Import Py NLP.

(** A call of the NER pipeline on a batch that is not empty, holds at most
    [batch_size] texts and is announced with its own length. *)
Definition ner_batch (batch_size stride : Z) (l : logged nlp_ev) : Prop :=
  match l with
  | Log c _ =>
      match c with
      | NerPipeline batch b s =>
          b = len batch /\ 0 < len batch <= batch_size /\ s = stride
      | _ => False
      end
  end.

(** [ceil(n / batch_size)] *)
Definition batches_needed (n batch_size : Z) : nat :=
  Z.to_nat ((n + batch_size - 1) / batch_size).
End Batches.

Section ResultsReturned.
Context {E : Type -> Type} `{RT : Runtime E}.

(** Whenever [m] returns, from whatever state, what it returns satisfies [Q]. *)
Definition returns_only {A} (Q : A -> Prop) (m : M E A) : Prop :=
  forall g, match value (m g) with Ok a => Q a | Raised _ => True end.
End ResultsReturned.

Section MoreNames.
Import Py NLP.

(** A name as the Hugging Face [extract_people] lets it through. *)
Definition clean_name (name : string) : Prop :=
  5 < str_len name /\ strip name = name.

(** A line of the table [pos_tags] prints. *)
Definition pos_line (t : token) : string :=
  String.append (ljust (tok_text t) 20) (ljust (pos_ t) 20).

Definition pos_header : string :=
  String.append (ljust "Token" 20) (ljust "Part of Speech" 20).

(** The tokens that [count_tokens_pipe] sees, run on models. *)
Definition tokens_seen (md : models) (articles : list article) : list token :=
  flat_map (fun text => tokens (spacy_model md ["ner"; "parser"] text))
           (article_texts articles).
End MoreNames.

Section MoreShares.
Import Geo.
Context {G : Type} `{GE : Geometry G}.

(** How many rows of [gdf_combined] carry the ward number [n]. *)
Definition same_number (gdf_combined : list (ward G)) (n : Z) : nat :=
  length (List.filter (fun w => ward_number w =? n) gdf_combined).

(** The order of the group keys. *)
Definition before (a b : string) : Prop := String.ltb a b = true.

(** The polygons a ward has in common with the FSAs, and the fraction of
    the ward's area that they cover. *)
Definition ward_overlaps (w : ward G) (fsa_boundaries : list (fsa G)) : list G :=
  omap (fun f => intersection (ward_geometry w) (fsa_geometry f)) fsa_boundaries.

Definition coverage (w : ward G) (fsa_boundaries : list (fsa G)) : Q :=
  (fold_right Qplus 0 (map area (ward_overlaps w fsa_boundaries))
   / area (ward_geometry w))%Q.
End MoreShares.

(** ** What the download loop leaves behind *)

Section FilesWritten.
Import Py Geo.

(** The files the download loop is meant to leave behind, in order. *)
Definition dataset_files : list string :=
  ["city-wards.geojson"; "311-service-requests-customer-initiated.zip";
   "short-term-rentals-registration.csv"].

(** The path a logged call writes to, if it is a write. *)
Definition written (l : logged io_ev) : option string :=
  match l with
  | Log c _ =>
      match c with
      | WriteFile path _ => Some path
      | _ => None
      end
  end.

Definition files_written (calls : list (logged io_ev)) : list string :=
  omap written calls.

(** The HTTP requests among the logged calls. *)
Definition is_request (l : logged io_ev) : bool :=
  match l with
  | Log c _ =>
      match c with
      | RequestsGet _ _ => true
      | _ => false
      end
  end.

(** A server that knows every package: the package description lists
    [resources] under ["result"]["resources"], and every download answers
    with [data]. *)
Definition serving (resources : list json) (data : string) : Runtime io_ev :=
  {| globals := list (string * string);     (* the files on disk *)
     perform X c disk :=
       match c in io_ev X return result X * list (string * string) with
       | RequestsGet _ [] => (Ok (Response data), disk)
       | RequestsGet _ _ => (Ok (Response "package"), disk)
       | ResponseJson _ =>
           (Ok (JDict [("success", JBool true);
                       ("result", JDict [("resources", JList resources)])]), disk)
       | WriteFile path content => (Ok tt, disk ++ [(path, content)])
       | ZipExtractAll _ _ => (Ok tt, disk)
       | ReadCsv _ _ _ _ => (Ok [], disk)
       | GpdReadFile _ => (Ok [], disk)
       | PrintLine _ => (Ok tt, disk)
       end |}.
End FilesWritten.

Section Turns.
Import Py Geo.
Context `{RT : Runtime io_ev}.

(** One turn of the download loop, for one dataset. *)
Definition download_one (dataset : string) (res_num : Z) (f_type : string)
  : M io_ev unit :=
  r <- call (RequestsGet (JStr base_url) [("id", dataset)]);;
  response <- call (ResponseJson r);;
  result <- lift (getitem_key response "result");;
  resources <- lift (getitem_key result "resources");;
  resource <- lift (getitem_index resources res_num);;
  url <- lift (getitem_key resource "url");;
  _ <- call (PrintLine
               (String.append "Dataset: "
                  (String.append dataset
                     (String.append ", Resource: " (format url)))));;
  url <- lift (getitem_key resource "url");;
  data_response <- call (RequestsGet url []);;
  call (WriteFile (String.append dataset (String.append "." f_type))
                  (content data_response)).

(** [m] writes no file and makes at most [n] requests. *)
Definition quiet (n : nat) {A} (m : M io_ev A) : Prop :=
  forall g,
    files_written (trace (m g)) = []
    /\ (length (List.filter is_request (trace (m g))) <= n)%nat.

(** [m] writes [file] and nothing else, or fails before writing; it makes
    at most [n] requests. *)
Definition writes_one (file : string) (n : nat) {A} (m : M io_ev A) : Prop :=
  forall g,
    ((files_written (trace (m g)) = [] /\ exists e, value (m g) = Raised e)
     \/ files_written (trace (m g)) = [file])
    /\ (length (List.filter is_request (trace (m g))) <= n)%nat.
End Turns.

(** ** What the frames of counts are expected to hold *)

Section CountsExpected.
Import Py Geo Combine.
Context {K : Type} {eq_dec : EqDecision K} {countable : Countable K}.

(** The row has the key [n] and the type [t]. *)
Definition has_keys (n : K) (t : string) (r : K * option string) : bool :=
  bool_decide (fst r = n)
  && match snd r with
     | Some t' => String.eqb t' t
     | None => false
     end.

(** How many rows have the key [n] and the type [t]. *)
Definition rows_of (rows : list (K * option string)) (n : K) (t : string) : Z :=
  Z.of_nat (length (List.filter (has_keys n t) rows)).

(** How many rows have type [t] and one of the keys [ns]. *)
Definition rows_in (ns : list K) (rows : list (K * option string)) (t : string) : Z :=
  Z.of_nat (length (List.filter
                      (fun r => existsb (fun n => has_keys n t r) ns) rows)).

(** The types that occur in the rows, sorted. *)
Definition types_of (rows : list (K * option string)) : list string :=
  type_levels (omap snd rows).

(** The count columns for the key [n]. *)
Definition counts_at (prefix : string) (rows : list (K * option string)) (n : K)
  : list (string * Q) :=
  map (fun t => (String.append prefix t, inject_Z (rows_of rows n t)))
      (types_of rows).

(** The counts that a merge finds for the key [n], NaN where the frame has
    no row of this key. *)
Definition found_counts (right : counts_frame K) (n : K) : list (string * option Q) :=
  match List.find (fun r => bool_decide (fst r = n)) (frame_rows right) with
  | Some r => map (fun cv => (fst cv, Some (inject_Z (snd cv)))) (snd r)
  | None => map (fun c => (c, None)) (frame_columns right)
  end.
End CountsExpected.

Section CombineSamples.
Import Py Geo Combine.

(** Two wards side by side; requests and rentals, some of them in a ward
    that is not on the map or without a type. *)
Definition sample_wards : list (ward_row rectangle) :=
  [WardRow 7 "Parkdale" (Rectangle 0 2 0 1);
   WardRow 4 "Davenport" (Rectangle 2 3 0 1)].

Definition sample_requests : list keyed :=
  [(7, Some "Noise"); (4, Some "Graffiti"); (7, Some "Noise"); (9, Some "Noise");
   (7, None); (4, Some "Noise")].

Definition sample_rentals : list keyed :=
  [(7, Some "Apartment"); (7, Some "Condominium"); (7, Some "Apartment")].

Definition sample_fsa_rows : list (fsa_row rectangle) :=
  [FsaRow "Ontario" (Fsa "M6R" (Rectangle 1 3 0 1));
   FsaRow "Ontario" (Fsa "M6K" (Rectangle (-1) 1 0 1));
   FsaRow "Ontario" (Fsa "K1A" (Rectangle 0 3 0 1));
   FsaRow "Quebec" (Fsa "M0Q" (Rectangle 0 3 0 1))].
End CombineSamples.

(** ** What the preview shows *)

Section PreviewExpected.
Import Py NLP Preview.

(** The three lines shown for an article with title [title] and text
    [text]. *)
Definition preview_lines (title : pyval) (text : string) : list string :=
  [String.append "Title: " (shown title);
   String.append "Content: " (String.append (String.substring 0 512 text) "...");
   times "-" 80].

(** The article has a title field and a text. *)
Definition showable (a : article) (title : pyval) (text : string) : Prop :=
  a !! "title" = Some title /\ a !! "text" = Some (PyStr text).
End PreviewExpected.

(** ** What the summary per person is expected to hold *)

Section StatsExpected.
Import Py NLP Stats.

(** The values recorded for [person] that are not NaN, in row order. *)
Definition values_of (person : string) (people : list (string * pyfloat)) : list Q :=
  omap (fun r => if String.eqb (fst r) person
                 then match snd r with
                      | Finite q => Some q
                      | NaN => None
                      end
                 else None)
       people.

(** The tally of the group [k], empty when there is no such group. *)
Definition tally_at (k : string) (groups : list (string * (Z * Q))) : Z * Q :=
  match List.find (fun g => String.eqb (fst g) k) groups with
  | Some g => snd g
  | None => (0, 0%Q)
  end.

(** The tally of a list of values. *)
Definition tally_all (t : Z * Q) (values : list Q) : Z * Q :=
  foldl (fun t q => tally (Finite q) t) t values.
End StatsExpected.

Section SummaryExpected.
Import Py NLP Stats.

(** The summary of [people] fails only for an empty frame, and otherwise
    every person in it has at least one mention and an average in
    [-1, 1]. *)
Definition summary_defined (people : list (string * pyfloat)) : Prop :=
  match person_stats people with
  | Raised e => people = [] /\ e = KeyError "person"
  | Ok stats =>
      people <> []
      /\ forall s, In s stats ->
                   1 <= mentions s
                   /\ exists a, avg_sentiment s = Finite a /\ in_unit_range a
  end.

Definition sample_stats : list stat :=
  [Stat "Ada Lovelace" 1 (Finite 0); Stat "Geoffrey Hinton" 3 (Finite (1 # 2));
   Stat "Sam Altman" 3 (Finite (-1 # 4))].
End SummaryExpected.

(** ** The person/sentiment table and the sentiment score, as the
       documentation words them

    These definitions are written from the description of the functions,
    not from their code, and use none of the helpers of the code
    ([person_names], [persons_of], [sign_of], [np_mean]). *)

Section Stated.
Import Py NLP.
Context (md : models).













End Stated.

(** ** What it would mean to leave missing values alone *)

Section Untreated.
Import Py Geo.

(** A feature whose properties hold no value for [key]. *)
Definition lacks_value (feat : json) (key : string) : Prop :=
  exists properties,
    getitem_key feat "properties" = Ok properties
    /\ getitem_key properties key = Ok JNull.

(** A style function that has nothing to fall back on fails on such a
    feature. *)
Definition no_fallback (style : json -> result Folium.style) : Prop :=
  forall feat, lacks_value feat "STR_Apartment" -> exists e, style feat = Raised e.

(** A step over the rows of a frame that leaves rows with missing values
    alone keeps every row. *)
Definition keeps_every_row (step : table -> table) : Prop :=
  forall df, step df = df.

(** A ward or FSA row that lacks a value. *)
Definition sample_feature : json :=
  JDict [("type", JStr "Feature");
         ("properties", JDict [("Ward Name", JStr "Parkdale");
                               ("STR_Apartment", JNull)])].

(** A colour scale with two colours. *)
Definition sample_colormap (v : json) : result string :=
  match v with
  | JNum n => Ok (if n <? 10 then "#fff7ec" else "#7f0000")
  | _ => Raised (TypeError "unsupported operand type(s)")
  end.
End Untreated.

(** ** Conservation up to rounding *)

Section Tolerance.
Import Py Geo Binary64.
Local Open Scope Q_scope.

(** The number a float holds. *)
Definition number (x : float) : Q :=
  match x with
  | Num q => q
  | _ => 0
  end.

Definition is_number (x : float) : Prop :=
  match x with
  | Num _ => True
  | _ => False
  end.

(** The cells of column [c] in an aggregated table, one per FSA. *)
Definition column_cells (c : string) (groups : list (string * list (string * float)))
  : list float :=
  map (fun g => Rounded.cell_at c (snd g)) groups.

(** The exact sum of the numbers in a list of cells. *)
Definition exact_sum (cells : list float) : Q :=
  fold_right Qplus 0 (map number cells).

(** The relative error of a quotient followed by a product, each rounded
    once: [(1 + u)^2 - 1], a little more than [2^-52]. *)
Definition two_roundings : Q := 2 * u + u * u.

(** A count: zero, or of a magnitude between 1 and [2^53] (up to which the
    floats hold every integer). *)
Definition is_count (x : Q) : Prop := x == 0 \/ 1 <= Qabs x <= pow2 53.

(** An overlap area that is neither vanishingly small nor huge next to the
    area of the ward: the quotient stays far from underflow and overflow. *)
Definition comparable (a ward_area : Q) : Prop :=
  pow2 (-900) * ward_area <= a <= pow2 900 * ward_area.

(** A ward that is a strip of ten unit squares, each its own FSA, with 7
    short-term rentals. *)
Definition strip_ward : ward rectangle :=
  Ward 1 "Strip" (Rectangle 0 10 0 1) [("STR_Apartment", 7)].

Definition strip_fsas : list (fsa rectangle) :=
  [Fsa "M1A" (Rectangle 0 1 0 1); Fsa "M1B" (Rectangle 1 2 0 1);
   Fsa "M1C" (Rectangle 2 3 0 1); Fsa "M1E" (Rectangle 3 4 0 1);
   Fsa "M1G" (Rectangle 4 5 0 1); Fsa "M1H" (Rectangle 5 6 0 1);
   Fsa "M1J" (Rectangle 6 7 0 1); Fsa "M1K" (Rectangle 7 8 0 1);
   Fsa "M1L" (Rectangle 8 9 0 1); Fsa "M1M" (Rectangle 9 10 0 1)].

(** The same squares as ten parts of one FSA. *)
Definition strip_parts : list (fsa rectangle) :=
  map (fun f => Fsa "M1A" (fsa_geometry f)) strip_fsas.
End Tolerance.

Section GroupTolerance.
Import Binary64.
Local Open Scope Q_scope.

(** The relative error allowed to the sum of a group of up to [n] rows. *)
Definition group_rounding (n : nat) : Q :=
  (10 * inject_Z (Z.of_nat n) + 16) * u.

(** The relative error allowed to a column total: two roundings for every
    apportioned value and the rounding of the group sums over [n] rows. *)
Definition total_rounding (n : nat) : Q :=
  (1 + two_roundings) * (1 + group_rounding n) - 1.

(** A value that a nonzero count and a comparable area give: not so small
    or so large that a sum of such values could leave the normal range. *)
Definition moderate (x : Q) : Prop := x == 0 \/ pow2 (-902) <= x <= pow2 955.
End GroupTolerance.

(** ** What a function leaves of the objects it is handed *)

Section Frame.
Import Py NLP Heap.
Context `{MC : Machine}.

(** Every object of [before] is still there in [after], as it was. *)
Definition unchanged (before after : store) : Prop :=
  forall l o, before !! l = Some o -> after !! l = Some o.

(** [m] leaves the objects below address [n] as they are and frees none,
    from whatever state it starts in which these objects exist; what it
    returns satisfies [P]. *)
Definition keeps (n : nat) {A} (P : A -> Prop) (m : M py_ev A) : Prop :=
  forall s,
    (n <= length (fst s))%nat ->
    (length (fst s) <= length (fst (final (m s))))%nat
    /\ (forall l, (l < n)%nat -> fst (final (m s)) !! l = fst s !! l)
    /\ (forall a, value (m s) = Ok a -> P a).
End Frame.

(** ** Sample objects *)

Section SampleObjects.
Import Py NLP Heap.

(** The sample models as libraries that only read what they are handed. *)
Definition careful_machine : Machine :=
  {| library := model_runtime sample_models;
     rewrites := fun _ items => items |}.

(** Libraries that empty every list they are handed. *)
Definition careless_machine : Machine :=
  {| library := model_runtime sample_models;
     rewrites := fun _ _ => [] |}.

(** Two articles with text, one without, and the collection that holds
    them (at address 3); a list of two texts (at address 4). *)
Definition sample_store : store :=
  [ODict (sample_article "Ada Lovelace");
   ODict ∅;
   ODict (sample_article "Grace Hopper");
   OList [VRef 0%nat; VRef 1%nat; VRef 2%nat];
   OList [VStr "Ada Lovelace"; VStr "Bob"]].
End SampleObjects.

Section Reading.
Import Py NLP Heap.

(** The objects a list of references refers to. *)
Definition objects_at (σ : store) (l : loc) : list obj :=
  match σ !! l with
  | Some (OList items) =>
      omap (fun v => match v with VRef r => σ !! r | _ => None end) items
  | _ => []
  end.
End Reading.

(** * Properties *)

(** ** The monad of library calls *)

Section MonadFacts.
Context {E : Type -> Type} `{RT : Runtime E}.

Lemma bind_ok {A B} (m : M E A) (f : A -> M E B) g a :
  value (m g) = Ok a ->
  bind m f g = Outcome (value (f a (final (m g))))
                       (final (f a (final (m g))))
                       (trace (m g) ++ trace (f a (final (m g)))).
Proof. intros H. unfold bind. rewrite H. reflexivity. Qed.

Lemma bind_raised {A B} (m : M E A) (f : A -> M E B) g e :
  value (m g) = Raised e ->
  bind m f g = Outcome (Raised e) (final (m g)) (trace (m g)).
Proof. intros H. unfold bind. rewrite H. reflexivity. Qed.

Lemma bind_returns {A B} (m : M E A) (f : A -> M E B) g a g' tr :
  m g = Outcome (Ok a) g' tr ->
  bind m f g = Outcome (value (f a g')) (final (f a g')) (tr ++ trace (f a g')).
Proof. intros H. unfold bind. rewrite H. reflexivity. Qed.

(** *** Exceptions are handed on *)

Lemma propagates_ret {A} (a : A) : propagates (ret a).
Proof. intros g. simpl. constructor. Qed.

Lemma propagates_raise {A} (e : exn) : propagates (raise (A := A) e).
Proof. intros g. simpl. left. constructor. Qed.

Lemma propagates_call {X} (c : E X) : propagates (call c).
Proof.
  intros g. unfold call. destruct (perform c g) as [[x|e] g']; simpl.
  - repeat constructor.
  - right. exists [], X, c. split; [reflexivity | constructor].
Qed.

Lemma propagates_bind {A B} (m : M E A) (f : A -> M E B) :
  propagates m -> (forall a, propagates (f a)) -> propagates (bind m f).
Proof.
  intros Hm Hf g. specialize (Hm g).
  destruct (value (m g)) as [a|e] eqn:Hv.
  - rewrite (bind_ok _ _ _ _ Hv). simpl.
    specialize (Hf a (final (m g))).
    destruct (value (f a (final (m g)))) as [b|e].
    + apply Forall_app. split; assumption.
    + destruct Hf as [Hall | (tr & X & c & Htr & Hall)].
      * left. apply Forall_app. split; assumption.
      * right. exists (trace (m g) ++ tr), X, c. split.
        -- rewrite Htr. apply app_assoc.
        -- apply Forall_app. split; assumption.
  - rewrite (bind_raised _ _ _ _ Hv). simpl. exact Hm.
Qed.

Lemma propagates_for_each {A S} (xs : list A) (body : S -> A -> M E S) acc :
  (forall acc x, propagates (body acc x)) -> propagates (for_each xs body acc).
Proof.
  intros Hbody. revert acc.
  induction xs as [|x xs IH]; intros acc; simpl.
  - apply propagates_ret.
  - apply propagates_bind; [apply Hbody | exact IH].
Qed.

Lemma propagates_comprehension {A B} (f : A -> M E B) (xs : list A) :
  (forall x, propagates (f x)) -> propagates (comprehension f xs).
Proof.
  intros Hf. induction xs as [|x xs IH]; simpl.
  - apply propagates_ret.
  - apply propagates_bind; [apply Hf|]. intros y.
    apply propagates_bind; [exact IH|]. intros ys. apply propagates_ret.
Qed.

(** What [propagates] means for a log with a failed call in it. *)
Lemma propagates_failure {A} (m : M E A) g tr1 l tr2 e :
  propagates m ->
  trace (m g) = tr1 ++ l :: tr2 -> failure_of l = Some e ->
  tr2 = [] /\ value (m g) = Raised e /\ Forall succeeded tr1.
Proof.
  intros Hm Htr Hl. specialize (Hm g).
  assert (~ Forall succeeded (trace (m g))) as Hnot.
  { rewrite Htr. intros Hall. apply Forall_app in Hall as [_ Hall].
    inversion Hall as [|? ? Hs _]. unfold succeeded in Hs. congruence. }
  destruct (value (m g)) as [a|e'].
  - contradiction.
  - destruct Hm as [Hall | (tr & X & c & Htr' & Hall)]; [contradiction|].
    rewrite Htr in Htr'.
    destruct tr2 as [|l2 tr2].
    + apply app_inj_tail in Htr' as [-> ->]. simpl in Hl.
      injection Hl as ->. auto.
    + exfalso.
      assert (In l tr) as Hin.
      { assert (tr1 ++ l :: l2 :: tr2 = (tr1 ++ [l]) ++ l2 :: tr2) as Heq
          by (rewrite <- app_assoc; reflexivity).
        rewrite Heq in Htr'.
        destruct (exists_last (l := l2 :: tr2)) as (tr2' & l' & Hlast); [discriminate|].
        rewrite Hlast, app_assoc in Htr'.
        apply app_inj_tail in Htr' as [<- _].
        apply in_or_app. left. apply in_or_app. right. left. reflexivity. }
      rewrite Forall_forall in Hall. apply list_elem_of_In in Hin.
      specialize (Hall l Hin). unfold succeeded in Hall. congruence.
Qed.

(** *** The frame of a computation *)

Section Frame.
Context {T : Type} (obs : globals -> T).
Hypothesis Hlib : library_preserves obs.

Lemma preserves_ret {A} (a : A) : preserves obs (ret a).
Proof. intros g. reflexivity. Qed.

Lemma preserves_raise {A} (e : exn) : preserves obs (raise (A := A) e).
Proof. intros g. reflexivity. Qed.

Lemma preserves_call {X} (c : E X) : preserves obs (call c).
Proof.
  intros g. unfold call. specialize (Hlib X c g).
  destruct (perform c g) as [[x|e] g']; simpl in *; exact Hlib.
Qed.

Lemma preserves_bind {A B} (m : M E A) (f : A -> M E B) :
  preserves obs m -> (forall a, preserves obs (f a)) -> preserves obs (bind m f).
Proof.
  intros Hm Hf g. specialize (Hm g).
  destruct (value (m g)) as [a|e] eqn:Hv.
  - rewrite (bind_ok _ _ _ _ Hv). simpl. rewrite (Hf a). exact Hm.
  - rewrite (bind_raised _ _ _ _ Hv). simpl. exact Hm.
Qed.

Lemma preserves_for_each {A S} (xs : list A) (body : S -> A -> M E S) acc :
  (forall acc x, preserves obs (body acc x)) -> preserves obs (for_each xs body acc).
Proof.
  intros Hbody. revert acc.
  induction xs as [|x xs IH]; intros acc; simpl.
  - apply preserves_ret.
  - apply preserves_bind; [apply Hbody | exact IH].
Qed.

Lemma preserves_comprehension {A B} (f : A -> M E B) (xs : list A) :
  (forall x, preserves obs (f x)) -> preserves obs (comprehension f xs).
Proof.
  intros Hf. induction xs as [|x xs IH]; simpl.
  - apply preserves_ret.
  - apply preserves_bind; [apply Hf|]. intros y.
    apply preserves_bind; [exact IH|]. intros ys. apply preserves_ret.
Qed.
End Frame.

(** *** Loops whose body always returns *)

Lemma for_each_returns {A S} (body : S -> A -> M E S)
      (h : S -> A -> S) (st : A -> globals -> globals) (tr : A -> list (logged E))
      (xs : list A) acc g :
  (forall acc x g, body acc x g = Outcome (Ok (h acc x)) (st x g) (tr x)) ->
  for_each xs body acc g
  = Outcome (Ok (foldl h acc xs)) (foldl (fun g x => st x g) g xs) (flat_map tr xs).
Proof.
  intros Hbody. revert acc g.
  induction xs as [|x xs IH]; intros acc g; simpl; [reflexivity|].
  rewrite (bind_returns _ _ _ _ _ _ (Hbody acc x g)), IH. reflexivity.
Qed.

Lemma comprehension_returns {A B} (f : A -> M E B)
      (h : A -> B) (st : A -> globals -> globals) (tr : A -> list (logged E))
      (xs : list A) g :
  (forall x g, f x g = Outcome (Ok (h x)) (st x g) (tr x)) ->
  comprehension f xs g
  = Outcome (Ok (map h xs)) (foldl (fun g x => st x g) g xs) (flat_map tr xs).
Proof.
  intros Hf. revert g.
  induction xs as [|x xs IH]; intros g; simpl; [reflexivity|].
  rewrite (bind_returns _ _ _ _ _ _ (Hf x g)). simpl.
  rewrite (bind_returns _ _ _ _ _ _ (IH (st x g))). simpl.
  rewrite app_nil_r. reflexivity.
Qed.
End MonadFacts.

(** ** Lists, slices and ranges *)

Section ListFacts.
Import Py.

Lemma foldl_snoc_map {A B} (f : A -> B) (l : list A) (acc : list B) :
  foldl (fun acc x => acc ++ [f x]) acc l = acc ++ map f l.
Proof.
  revert acc. induction l as [|x l IH]; intros acc; simpl.
  - symmetry. apply app_nil_r.
  - rewrite IH, <- app_assoc. reflexivity.
Qed.

Lemma foldl_app_flat_map {A B} (f : A -> list B) (l : list A) (acc : list B) :
  foldl (fun acc x => acc ++ f x) acc l = acc ++ flat_map f l.
Proof.
  revert acc. induction l as [|x l IH]; intros acc; simpl.
  - symmetry. apply app_nil_r.
  - rewrite IH, <- app_assoc. reflexivity.
Qed.

Lemma slice_nonneg {A} (l : list A) (lo hi : Z) :
  0 <= lo -> lo <= hi ->
  slice l lo hi = take (Z.to_nat hi - Z.to_nat lo) (drop (Z.to_nat lo) l).
Proof.
  intros Hlo Hhi. unfold slice, clamp, len.
  destruct (lo <? 0) eqn:H1; [apply Z.ltb_lt in H1; lia|].
  destruct (hi <? 0) eqn:H2; [apply Z.ltb_lt in H2; lia|].
  destruct (Z.le_gt_cases lo (Z.of_nat (length l))) as [Hl|Hl].
  - rewrite (Z.min_l lo) by lia.
    destruct (Z.le_gt_cases hi (Z.of_nat (length l))) as [Hh|Hh].
    + rewrite (Z.min_l hi) by lia. f_equal. lia.
    + rewrite (Z.min_r hi) by lia.
      rewrite !take_ge; [reflexivity | rewrite length_drop; lia | rewrite length_drop; lia].
  - rewrite (Z.min_r lo), (Z.min_r hi) by lia.
    rewrite Z.sub_diag. simpl. rewrite take_0.
    rewrite drop_ge by lia. symmetry. apply take_nil.
Qed.

(** Cutting a list into consecutive pieces of [b] elements loses nothing. *)
Lemma pieces_concat {A} (b : nat) (l : list A) (k : nat) :
  (0 < b)%nat -> (length l <= k * b)%nat ->
  flat_map (fun i => take b (drop (i * b) l)) (seq 0 k) = l.
Proof.
  intros Hb. revert l.
  induction k as [|k IH]; intros l Hlen; simpl.
  - destruct l; [reflexivity | simpl in Hlen; lia].
  - rewrite <- seq_shift, flat_map_concat_map, map_map, <- flat_map_concat_map.
    transitivity (take b l ++ drop b l); [|apply take_drop].
    f_equal.
    transitivity (flat_map (fun i => take b (drop (i * b) (drop b l))) (seq 0 k)).
    + apply flat_map_ext. intros i. rewrite drop_drop.
      do 2 f_equal; lia.
    + apply IH. rewrite length_drop. lia.
Qed.

Lemma range_positive (n step : Z) :
  0 < step ->
  range 0 n step
  = Some (map (fun i => Z.of_nat i * step)
              (seq 0 (Z.to_nat ((n + step - 1) / step)))).
Proof.
  intros Hs. unfold range, range_len.
  destruct (step =? 0) eqn:H0; [apply Z.eqb_eq in H0; lia|].
  destruct (0 <? step) eqn:H1; [|apply Z.ltb_ge in H1; lia].
  rewrite Z.sub_0_r. f_equal.
  rewrite Z2Nat.inj_max. simpl. reflexivity.
Qed.

(** The slices [l[start : start + step]] for [start] in
    [range(0, len(l), step)], put end to end, are [l]. *)
Lemma batches_concat {A B} (f : A -> B) (l : list A) (step : Z) starts :
  0 < step -> range 0 (len l) step = Some starts ->
  flat_map (fun start => map f (slice l start (start + step))) starts = map f l.
Proof.
  intros Hs Hr. rewrite range_positive in Hr by assumption.
  injection Hr as <-.
  rewrite flat_map_concat_map, map_map, <- flat_map_concat_map.
  set (k := Z.to_nat ((len l + step - 1) / step)).
  assert (length l <= k * Z.to_nat step)%nat as Hk.
  { unfold k, len.
    assert (Z.of_nat (length l) <= ((Z.of_nat (length l) + step - 1) / step) * step).
    { pose proof (Z.div_mod (Z.of_nat (length l) + step - 1) step ltac:(lia)) as Hd.
      pose proof (Z.mod_pos_bound (Z.of_nat (length l) + step - 1) step Hs). nia. }
    assert (0 <= (Z.of_nat (length l) + step - 1) / step)
      by (apply Z.div_pos; lia).
    nia. }
  transitivity (map f (flat_map (fun i => take (Z.to_nat step) (drop (i * Z.to_nat step) l))
                                (seq 0 k))).
  - rewrite !flat_map_concat_map, concat_map, map_map.
    f_equal. apply map_ext. intros i.
    assert (Z.to_nat (Z.of_nat i * step) = (i * Z.to_nat step)%nat) as Hlo
      by (rewrite Z2Nat.inj_mul, Nat2Z.id by lia; reflexivity).
    assert (Z.to_nat (Z.of_nat i * step + step)
            = (i * Z.to_nat step + Z.to_nat step)%nat) as Hhi
      by (rewrite Z2Nat.inj_add, Hlo by nia; reflexivity).
    rewrite slice_nonneg, Hlo, Hhi by nia.
    do 2 f_equal. lia.
  - f_equal. apply pieces_concat; [lia | exact Hk].
Qed.

Lemma zip3_map {A B C D} (i : A -> B) (f : A -> C) (h : A -> D) (l : list A) :
  zip3 (map i l) (map f l) (map h l) = map (fun x => (i x, f x, h x)) l.
Proof. induction l as [|x l IH]; simpl; [reflexivity | rewrite IH; reflexivity]. Qed.
End ListFacts.
(** ** Python primitives *)

Section PyFacts.
Import Py.

Lemma slice_to_nonneg {A} (l : list A) (n : Z) :
  0 <= n -> slice_to l n = take (Z.to_nat n) l.
Proof.
  intros Hn. unfold slice_to, slice, clamp, len.
  replace (0 <? 0) with false by reflexivity.
  destruct (n <? 0) eqn:Hneg; [apply Z.ltb_lt in Hneg; lia|].
  rewrite (Z.min_l 0) by lia. simpl. rewrite drop_0.
  destruct (Z.le_gt_cases n (Z.of_nat (length l))) as [Hle|Hgt].
  - rewrite (Z.min_l n) by lia. f_equal. lia.
  - rewrite (Z.min_r n) by lia. rewrite Z.sub_0_r, Nat2Z.id.
    rewrite !take_ge by lia. reflexivity.
Qed.

Lemma map_snd_imap {A} (l : list A) (f : nat -> Z) :
  map snd (imap (fun i a => (f i, a)) l) = l.
Proof.
  revert f. induction l as [|a l IH]; intros f; simpl; [reflexivity|].
  f_equal. apply (IH (f ∘ S)).
Qed.

Lemma map_snd_enumerate {A} (l : list A) : map snd (enumerate l) = l.
Proof. apply map_snd_imap. Qed.

Lemma map_filter_map {A B C} (f : B -> C) (P : B -> bool) (g : A -> B) (l : list A) :
  map f (List.filter P (map g l))
  = map (fun x => f (g x)) (List.filter (fun x => P (g x)) l).
Proof.
  induction l as [|a l IH]; simpl; [reflexivity|].
  destruct (P (g a)); simpl; rewrite IH; reflexivity.
Qed.
End PyFacts.

(** ** Selecting the texts to process *)

Section SelectTexts.
Import Py NLP.

Lemma spacy_select_unlimited articles text_key :
  Spacy.select_texts articles text_key None
  = (map (text_at text_key) (with_text text_key (enumerate articles)),
     map fst (with_text text_key (enumerate articles))).
Proof.
  unfold Spacy.select_texts, with_text, text_at. f_equal.
  rewrite <- (map_snd_enumerate articles) at 1.
  apply (map_filter_map (fun a => str_of (get a text_key))
                        (fun a => truthy (get a text_key)) snd).
Qed.

Lemma spacy_select_limited articles text_key n :
  0 <= n ->
  Spacy.select_texts articles text_key (Some n)
  = (take (Z.to_nat n) (map (text_at text_key) (with_text text_key (enumerate articles))),
     take (Z.to_nat n) (map fst (with_text text_key (enumerate articles)))).
Proof.
  intros Hn.
  pose proof (spacy_select_unlimited articles text_key) as Hu.
  unfold Spacy.select_texts in *. injection Hu as Ht.
  rewrite Ht, !slice_to_nonneg by assumption. reflexivity.
Qed.

Lemma collect_unlimited items text_key texts art_ids :
  HF.collect items text_key None texts art_ids
  = (texts ++ map (text_at text_key) (with_text text_key items),
     art_ids ++ map fst (with_text text_key items)).
Proof.
  revert texts art_ids.
  induction items as [|[i art] items IH]; intros texts art_ids; simpl.
  - rewrite !app_nil_r. reflexivity.
  - destruct (truthy (get art text_key)) eqn:Ht; simpl.
    + rewrite IH, <- !app_assoc. reflexivity.
    + apply IH.
Qed.

Lemma collect_limited items text_key n texts art_ids :
  0 < n -> (length texts < Z.to_nat n)%nat -> length art_ids = length texts ->
  HF.collect items text_key (Some n) texts art_ids
  = (texts ++ take (Z.to_nat n - length texts)
                   (map (text_at text_key) (with_text text_key items)),
     art_ids ++ take (Z.to_nat n - length texts)
                   (map fst (with_text text_key items))).
Proof.
  intros Hn. revert texts art_ids.
  induction items as [|[i art] items IH]; intros texts art_ids Hlt Hlen; simpl.
  - rewrite !take_nil, !app_nil_r. reflexivity.
  - destruct (truthy (get art text_key)) eqn:Ht; simpl; [|apply IH; assumption].
    destruct (n =? 0) eqn:H0; [apply Z.eqb_eq in H0; lia|]. simpl.
    unfold len. rewrite length_app. simpl.
    destruct (Z.to_nat n - length texts)%nat as [|k] eqn:Hk; [lia|]. simpl.
    destruct (n <=? Z.of_nat (length texts + 1)) eqn:Hfull.
    + apply Z.leb_le in Hfull. assert (k = 0)%nat as -> by lia.
      rewrite !take_0. reflexivity.
    + apply Z.leb_gt in Hfull.
      rewrite IH by (rewrite ?length_app; simpl; lia).
      rewrite length_app. simpl.
      replace (Z.to_nat n - (length texts + 1))%nat with k by lia.
      rewrite <- !app_assoc. reflexivity.
Qed.

Lemma hf_select_limited articles text_key n :
  0 < n ->
  HF.select_texts articles text_key (Some n)
  = (take (Z.to_nat n) (map (text_at text_key) (with_text text_key (enumerate articles))),
     take (Z.to_nat n) (map fst (with_text text_key (enumerate articles)))).
Proof.
  intros Hn. unfold HF.select_texts.
  rewrite collect_limited by (simpl; lia).
  simpl. rewrite Nat.sub_0_r. reflexivity.
Qed.

Lemma hf_select_unlimited articles text_key :
  HF.select_texts articles text_key None
  = (map (text_at text_key) (with_text text_key (enumerate articles)),
     map fst (with_text text_key (enumerate articles))).
Proof. unfold HF.select_texts. rewrite collect_unlimited. reflexivity. Qed.

(** C2, as the code has it: for [max_records] absent or positive the two
    definitions of [build_person_sentiment_df] select the same texts and
    the same article positions. *)
Theorem select_texts_agree (articles : list article) (text_key : string)
        (max_records : option Z) :
  usable_limit max_records ->
  Spacy.select_texts articles text_key max_records
  = HF.select_texts articles text_key max_records.
Proof.
  destruct max_records as [n|]; unfold usable_limit; intros Hn.
  - rewrite spacy_select_limited, hf_select_limited by lia. reflexivity.
  - rewrite spacy_select_unlimited, hf_select_unlimited. reflexivity.
Qed.

Lemma select_texts_agree_witness :
  Spacy.select_texts [sample_article "a"; sample_article ""; sample_article "b"] "text" (Some 1)
  = HF.select_texts [sample_article "a"; sample_article ""; sample_article "b"] "text" (Some 1).
Proof. apply select_texts_agree. reflexivity. Defined.

(** C2 as stated fails: with [max_records = 0] the spaCy version selects
    nothing and the Hugging Face version everything; with a negative
    [max_records] the first drops texts from the end and the second stops
    after one text. *)
Lemma select_texts_differ :
  let articles := [sample_article "a"; sample_article "b"; sample_article "c"] in
  Spacy.select_texts articles "text" (Some 0) = ([], [])
  /\ HF.select_texts articles "text" (Some 0) = (["a"; "b"; "c"], [0; 1; 2])
  /\ Spacy.select_texts articles "text" (Some (-1)) = (["a"; "b"], [0; 1])
  /\ HF.select_texts articles "text" (Some (-1)) = (["a"], [0])
  /\ ~ (forall max_records,
          Spacy.select_texts articles "text" max_records
          = HF.select_texts articles "text" max_records).
Proof.
  repeat split; try reflexivity.
  intros H. specialize (H (Some 0)). vm_compute in H. discriminate H.
Qed.
End SelectTexts.

(** ** The NLP functions run on pre-trained models *)

Section OnModels.
Import Py NLP.
Context (md : models).

Local Abbreviation RTm := (model_runtime md).
Local Abbreviation Returns a g t := (@Outcome nlp_ev (model_runtime md) _ (Ok a) g t).

Lemma foldl_same_state {A} (xs : list A) (g : list string) :
  foldl (fun g (_ : A) => g) g xs = g.
Proof. induction xs; simpl; [reflexivity | assumption]. Qed.

Lemma count_tokens_pipe_run articles batch_size (g : list string) :
  count_tokens_pipe (RT := RTm) articles batch_size g
  = let texts := map (fun a => str_of (get a "text"))
                     (List.filter (fun a => is_not_none (get a "text")) articles) in
    Returns ((foldl (fun counter doc => foldl count_token counter (tokens doc)) ∅
                       (map (spacy_model md ["ner"; "parser"]) texts)))
            g [Log (NlpPipe texts ["ner"; "parser"] batch_size) None].
Proof. reflexivity. Qed.

Lemma spacy_extract_people_run texts batch_size (g : list string) :
  Spacy.extract_people (RT := RTm) texts batch_size g
  = Returns ((map (spacy_people md) texts)) g
            [Log (NlpPipe texts ner_only batch_size) None].
Proof.
  unfold Spacy.extract_people, bind, call. simpl.
  rewrite foldl_snoc_map, map_map. reflexivity.
Qed.

Lemma score_sentiment_run texts batch_size (g : list string) :
  Spacy.score_sentiment (RT := RTm) texts batch_size g
  = Returns ((map (spacy_polarity md) texts)) g
            [Log (NlpPipe texts textblob_only batch_size) None].
Proof.
  unfold Spacy.score_sentiment, bind, call. simpl.
  rewrite foldl_snoc_map, map_map. reflexivity.
Qed.

Lemma hf_extract_people_run texts batch_size stride show_progress starts
      (g : list string) :
  0 < batch_size -> range 0 (len texts) batch_size = Some starts ->
  HF.extract_people (RT := RTm) (StrList texts) batch_size stride show_progress g
  = Returns ((map (hf_people md stride) texts)) g
            (ner_calls texts batch_size stride starts).
Proof.
  intros Hb Hr. unfold HF.extract_people. rewrite Hr.
  rewrite (for_each_returns _
             (fun acc start =>
                acc ++ map (hf_people md stride)
                           (slice texts start (start + batch_size)))
             (fun _ g => g)
             (fun start =>
                [Log (NerPipeline (slice texts start (start + batch_size))
                                  (len (slice texts start (start + batch_size)))
                                  stride) None])).
  - f_equal.
    + f_equal. rewrite foldl_app_flat_map. simpl.
      apply batches_concat; assumption.
    + apply foldl_same_state.
  - intros acc start g'. unfold bind, call. simpl.
    rewrite foldl_snoc_map, map_map. reflexivity.
Qed.

Lemma hf_extract_people_one_string s batch_size stride show_progress
      (g : list string) :
  HF.extract_people (RT := RTm) (OneStr s) batch_size stride show_progress g
  = HF.extract_people (RT := RTm) (StrList [s]) batch_size stride show_progress g.
Proof. reflexivity. Qed.

Lemma score_long_text_run text max_len stride batch_size (g : list string) :
  HF._score_long_text (RT := RTm) text max_len stride batch_size g
  = Returns ((hf_sentiment md max_len stride text)) g
            (sentiment_calls md max_len stride batch_size text).
Proof.
  unfold HF._score_long_text, bind, call. simpl.
  unfold hf_sentiment, signed_score, windows. rewrite !map_map. reflexivity.
Qed.

Lemma extract_sentiment_run texts batch_size max_len stride (g : list string) :
  HF.extract_sentiment (RT := RTm) (StrList texts) batch_size max_len stride g
  = Returns ((map (hf_sentiment md max_len stride) texts)) g
            (flat_map (sentiment_calls md max_len stride batch_size) texts).
Proof.
  unfold HF.extract_sentiment.
  rewrite (comprehension_returns _ (hf_sentiment md max_len stride) (fun _ g => g)
             (sentiment_calls md max_len stride batch_size)).
  - rewrite foldl_same_state. reflexivity.
  - intros x g'. apply score_long_text_run.
Qed.

Lemma extract_sentiment_one_string s batch_size max_len stride (g : list string) :
  HF.extract_sentiment (RT := RTm) (OneStr s) batch_size max_len stride g
  = HF.extract_sentiment (RT := RTm) (StrList [s]) batch_size max_len stride g.
Proof. reflexivity. Qed.
End OnModels.

(** ** Building the person/sentiment table *)

Section Build.
Import Py NLP.
Context (md : models).

Local Abbreviation RTm := (model_runtime md).
Local Abbreviation Returns a g t := (@Outcome nlp_ev (model_runtime md) _ (Ok a) g t).

Lemma foldl_rows {I N P R} (mk : I -> N -> P -> R) (l : list (I * list N * P))
      (acc : list R) :
  foldl (fun records '(i, names, p) =>
           foldl (fun records name => records ++ [mk i name p]) records names)
        acc l
  = acc ++ flat_map (fun x => map (fun name => mk (fst (fst x)) name (snd x))
                                  (snd (fst x))) l.
Proof.
  revert acc. induction l as [|[[i names] p] l IH]; intros acc; simpl.
  - symmetry. apply app_nil_r.
  - rewrite IH, foldl_snoc_map, <- app_assoc. reflexivity.
Qed.

Lemma flat_map_map {A B C} (f : B -> list C) (h : A -> B) (l : list A) :
  flat_map f (map h l) = flat_map (fun x => f (h x)) l.
Proof.
  induction l as [|x l IH]; simpl; [reflexivity | rewrite IH; reflexivity].
Qed.

Lemma spacy_select_texts_spec articles text_key max_records :
  usable_limit max_records ->
  Spacy.select_texts articles text_key max_records
  = (map (text_at text_key) (limited max_records (with_text text_key (enumerate articles))),
     map fst (limited max_records (with_text text_key (enumerate articles)))).
Proof.
  destruct max_records as [n|]; unfold usable_limit, limited; intros Hn.
  - rewrite spacy_select_limited by lia. rewrite !firstn_map. reflexivity.
  - apply spacy_select_unlimited.
Qed.


Lemma spacy_build_run articles text_key max_records (g : list string) :
  usable_limit max_records ->
  let selected := limited max_records (with_text text_key (enumerate articles)) in
  let texts := map (text_at text_key) selected in
  Spacy.build_person_sentiment_df (RT := RTm) articles text_key max_records g
  = Returns (spacy_rows md selected text_key) g
            [Log (NlpPipe texts ner_only 64) None;
             Log (NlpPipe texts textblob_only 64) None].
Proof.
  intros Hn selected texts. unfold Spacy.build_person_sentiment_df.
  rewrite spacy_select_texts_spec by assumption. fold selected. fold texts.
  rewrite (bind_returns _ _ _ _ _ _ (spacy_extract_people_run md texts 64 g)).
  rewrite (bind_returns _ _ _ _ _ _ (score_sentiment_run md texts 64 g)).
  simpl. unfold texts. rewrite !map_map, zip3_map, foldl_rows, flat_map_map.
  reflexivity.
Qed.

End Build.

(** ** Results follow the input texts *)

Section PerText.
Import Py NLP.

(** C8: on a list of texts each of the four functions returns one result
    per text, the result at a position being computed from the text at
    that position; the two Hugging Face functions read a single string as
    the list holding it.  (The Hugging Face [extract_people] steps through
    the texts by [batch_size], which has to be positive.) *)
Theorem results_follow_texts (md : models) (texts : list string)
        (batch_size stride max_len : Z) (show_progress : bool) (g : list string) :
  value (Spacy.extract_people (RT := model_runtime md) texts batch_size g)
  = Ok (map (spacy_people md) texts)
  /\ value (Spacy.score_sentiment (RT := model_runtime md) texts batch_size g)
     = Ok (map (spacy_polarity md) texts)
  /\ (0 < batch_size ->
      value (HF.extract_people (RT := model_runtime md) (StrList texts)
                               batch_size stride show_progress g)
      = Ok (map (hf_people md stride) texts))
  /\ value (HF.extract_sentiment (RT := model_runtime md) (StrList texts)
                                 batch_size max_len stride g)
     = Ok (map (hf_sentiment md max_len stride) texts)
  /\ (forall s,
        HF.extract_people (RT := model_runtime md) (OneStr s)
                          batch_size stride show_progress g
        = HF.extract_people (RT := model_runtime md) (StrList [s])
                            batch_size stride show_progress g
        /\ HF.extract_sentiment (RT := model_runtime md) (OneStr s)
                                batch_size max_len stride g
           = HF.extract_sentiment (RT := model_runtime md) (StrList [s])
                                  batch_size max_len stride g).
Proof.
  split; [|split; [|split; [|split]]].
  - rewrite spacy_extract_people_run. reflexivity.
  - rewrite score_sentiment_run. reflexivity.
  - intros Hb.
    rewrite (hf_extract_people_run md texts batch_size stride show_progress _ g Hb
               (range_positive (len texts) batch_size Hb)).
    reflexivity.
  - rewrite extract_sentiment_run. reflexivity.
  - intros s. split; reflexivity.
Qed.

Lemma results_follow_texts_witness :
  0 < 2
  /\ value (HF.extract_people (RT := model_runtime sample_models)
              (StrList ["Ada Lovelace"; "Bob"; "Grace Hopper"]) 2 128 true [])
     = Ok [["Ada Lovelace"]; []; ["Grace Hopper"]].
Proof.
  split; [lia|].
  apply (results_follow_texts sample_models ["Ada Lovelace"; "Bob"; "Grace Hopper"]
                              2 128 512 true []).
  lia.
Defined.
End PerText.

(** ** The rows of the person/sentiment table *)

Section Rows.
Import Py NLP.

Lemma enumerate_lookup {A} (l : list A) (i : Z) (a : A) :
  In (i, a) (enumerate l) -> 0 <= i /\ l !! Z.to_nat i = Some a.
Proof.
  unfold enumerate. intros Hin. apply list_elem_of_In in Hin.
  apply elem_of_lookup_imap in Hin as (k & x & Heq & Hk).
  injection Heq as -> ->. split; [lia|]. rewrite Nat2Z.id. exact Hk.
Qed.


End Rows.

(** ** The range of the sentiment score *)

Section SentimentRange.
Import Py NLP.
Local Open Scope Q_scope.

Lemma sign_of_cases (label : string) :
  (String.eqb (lower label) "positive" = true /\ HF.sign_of label = 1)
  \/ (String.eqb (lower label) "negative" = true /\ HF.sign_of label = -1)
  \/ (String.eqb (lower label) "positive" = false
      /\ String.eqb (lower label) "negative" = false /\ HF.sign_of label = 0).
Proof.
  unfold HF.sign_of.
  destruct (String.eqb (lower label) "positive") eqn:Hp; [left; auto|].
  destruct (String.eqb (lower label) "negative") eqn:Hn; [right; left; auto|].
  right. right. auto.
Qed.

Lemma signed_score_in_range (p : prediction) :
  0 <= score p <= 1 -> in_unit_range (signed_score p).
Proof.
  intros Hs. unfold in_unit_range, signed_score.
  destruct (sign_of_cases (label p)) as [[_ ->] | [[_ ->] | (_ & _ & ->)]]; lra.
Qed.

Lemma sum_in_range (xs : list Q) :
  Forall in_unit_range xs ->
  - inject_Z (len xs) <= fold_right Qplus 0 xs <= inject_Z (len xs).
Proof.
  unfold len. induction 1 as [|x xs Hx _ IH].
  - change (inject_Z (Z.of_nat (length (@nil Q)))) with 0. simpl. lra.
  - cbn [fold_right length]. rewrite Nat2Z.inj_succ.
    unfold Z.succ. rewrite inject_Z_plus.
    unfold in_unit_range in Hx.
    change (inject_Z 1) with 1. lra.
Qed.

Lemma np_mean_in_range (x : Q) (xs : list Q) :
  Forall in_unit_range (x :: xs) ->
  exists q, HF.np_mean (x :: xs) = Finite q /\ in_unit_range q.
Proof.
  intros Hall. eexists. split; [reflexivity|].
  pose proof (sum_in_range _ Hall) as Hsum.
  assert (0 < inject_Z (len (x :: xs))) as Hpos.
  { unfold len. cbn [length]. rewrite Nat2Z.inj_succ.
    change 0 with (inject_Z 0). rewrite <- Zlt_Qlt. lia. }
  unfold in_unit_range. split.
  - apply Qle_shift_div_l; [exact Hpos | lra].
  - apply Qle_shift_div_r; [exact Hpos | lra].
Qed.

Lemma hf_sentiment_in_range (md : models) (max_len stride : Z) (text : string) :
  (forall chunk, 0 <= score (sentiment_model md chunk) <= 1) ->
  exists q, hf_sentiment md max_len stride text = Finite q /\ in_unit_range q.
Proof.
  intros Hscore. unfold hf_sentiment, windows, input_ids. cbn [map].
  apply np_mean_in_range.
  constructor; [apply signed_score_in_range, Hscore|].
  apply Forall_forall. intros q Hq. apply list_elem_of_In in Hq.
  apply in_map_iff in Hq as (p & <- & Hp).
  apply in_map_iff in Hp as (chunk & <- & _).
  apply signed_score_in_range, Hscore.
Qed.






End SentimentRange.

(** ** The rows of the person/sentiment table *)

Section Table.
Import Py NLP.







End Table.

(** ** What the wrappers do around the model calls *)

Section Wrappers.
Import Py NLP.

Lemma call_run (md : models) {X} (c : nlp_ev X) (g : list string) :
  call (RT := model_runtime md) c g
  = @Outcome nlp_ev (model_runtime md) _ (Ok (answer md c)) (printed c g) [Log c None].
Proof. reflexivity. Qed.

Lemma foldl_snoc_state {A} (f : A -> string) (xs : list A) (g : list string) :
  foldl (fun g x => g ++ [f x]) g xs = g ++ map f xs.
Proof. apply foldl_snoc_map. Qed.

Lemma lemmatize_sentence_run (md : models) (sentence : string) (g : list string) :
  let doc := spacy_model md [] sentence in
  lemmatize_sentence (RT := model_runtime md) sentence g
  = @Outcome nlp_ev (model_runtime md) _ (Ok tt)
      (g ++ lemma_header :: map lemma_line (tokens doc))
      (Log (NlpCall sentence) None
       :: Log (Print lemma_header) None
       :: map (fun t => Log (Print (lemma_line t)) None) (tokens doc)).
Proof.
  intros doc. unfold lemmatize_sentence.
  rewrite (bind_returns _ _ _ _ _ _ (call_run md (NlpCall sentence) g)).
  rewrite (bind_returns _ _ _ _ _ _ (call_run md (Print lemma_header) _)).
  cbn [answer printed]. fold doc.
  rewrite (for_each_returns (RT := model_runtime md) _
             (fun _ _ => tt) (fun t g => g ++ [lemma_line t])
             (fun t => [Log (Print (lemma_line t)) None]));
    [|reflexivity].
  cbn [value final trace]. f_equal.
  - f_equal. clear. induction (tokens doc); [reflexivity | assumption].
  - rewrite foldl_snoc_state, <- app_assoc. reflexivity.
Qed.

(** *** What ends up in the token counter *)

Lemma count_token_lookup (c : gmap string Z) (t : token) (lemma : string) :
  default 0 (count_token c t !! lemma)
  = default 0 (c !! lemma) + (if counted_as lemma t then 1 else 0).
Proof.
  unfold count_token, counted_as. fold (counted t).
  destruct (counted t); simpl; [|lia].
  destruct (String.eqb_spec (lemma_ t) lemma) as [->|Hne].
  - rewrite lookup_insert_eq. reflexivity.
  - rewrite lookup_insert_ne by assumption. lia.
Qed.

Lemma count_tokens_lookup (ts : list token) (c : gmap string Z) (lemma : string) :
  default 0 (foldl count_token c ts !! lemma)
  = default 0 (c !! lemma) + Z.of_nat (length (List.filter (counted_as lemma) ts)).
Proof.
  revert c. induction ts as [|t ts IH]; intros c; simpl; [lia|].
  rewrite IH, count_token_lookup.
  destruct (counted_as lemma t); simpl length; lia.
Qed.

Lemma foldl_flat_map {A B S} (f : S -> B -> S) (h : A -> list B) (xs : list A) (s : S) :
  foldl (fun s x => foldl f s (h x)) s xs = foldl f s (flat_map h xs).
Proof.
  revert s. induction xs as [|x xs IH]; intros s; simpl; [reflexivity|].
  rewrite IH, foldl_app. reflexivity.
Qed.

Lemma person_names_spec (d : doc) (name : string) :
  In name (Spacy.person_names d)
  <-> exists ent, In ent (ents d) /\ label_ ent = "PERSON" /\ ent_text ent = name.
Proof.
  unfold Spacy.person_names. rewrite in_map_iff. split.
  - intros (ent & Hn & Hin). apply filter_In in Hin as [Hin Hl].
    apply String.eqb_eq in Hl. eauto.
  - intros (ent & Hin & Hl & Hn). exists ent. split; [assumption|].
    apply filter_In. split; [assumption|]. apply String.eqb_eq. assumption.
Qed.

Lemma persons_of_spec (es : list entity) (name : string) :
  In name (HF.persons_of es)
  <-> exists e, In e es /\ entity_group e = "PER"
                /\ 5 < str_len (strip (word e)) /\ strip (word e) = name.
Proof.
  unfold HF.persons_of. rewrite in_map_iff. split.
  - intros (e & Hn & Hin). apply filter_In in Hin as [Hin Hl].
    apply andb_prop in Hl as [Hg Hlen].
    apply String.eqb_eq in Hg. apply Z.ltb_lt in Hlen. eauto.
  - intros (e & Hin & Hg & Hlen & Hn). exists e. split; [assumption|].
    apply filter_In. split; [assumption|].
    apply andb_true_intro. split; [apply String.eqb_eq | apply Z.ltb_lt]; assumption.
Qed.

(** *** Batch sizes *)

(** C3, as the code has it: [count_tokens_pipe], the spaCy [extract_people]
    and [score_sentiment] make one [nlp.pipe] call over all their texts and
    hand their [batch_size] to it as it is; [extract_sentiment] hands its
    [batch_size] as it is to the sentiment pipeline, once per text.  The
    Hugging Face [extract_people] cuts the texts into consecutive slices of
    [batch_size] texts itself and calls the NER pipeline once per slice,
    with the length of the slice as batch size. *)
Theorem batch_size_passing (md : models) (articles : list article)
        (texts : list string) (batch_size stride max_len : Z)
        (show_progress : bool) (g : list string) :
  trace (count_tokens_pipe (RT := model_runtime md) articles batch_size g)
  = [Log (NlpPipe (article_texts articles) ["ner"; "parser"] batch_size) None]
  /\ trace (Spacy.extract_people (RT := model_runtime md) texts batch_size g)
     = [Log (NlpPipe texts ner_only batch_size) None]
  /\ trace (Spacy.score_sentiment (RT := model_runtime md) texts batch_size g)
     = [Log (NlpPipe texts textblob_only batch_size) None]
  /\ trace (HF.extract_sentiment (RT := model_runtime md) (StrList texts)
                                 batch_size max_len stride g)
     = flat_map (sentiment_calls md max_len stride batch_size) texts
  /\ (0 < batch_size ->
      exists starts,
        range 0 (len texts) batch_size = Some starts
        /\ trace (HF.extract_people (RT := model_runtime md) (StrList texts)
                                    batch_size stride show_progress g)
           = map (fun start =>
                    let batch := slice texts start (start + batch_size) in
                    Log (NerPipeline batch (len batch) stride) None)
                 starts).
Proof.
  split; [|split; [|split; [|split]]].
  - reflexivity.
  - rewrite spacy_extract_people_run. reflexivity.
  - rewrite score_sentiment_run. reflexivity.
  - rewrite extract_sentiment_run. reflexivity.
  - intros Hb. eexists. split; [apply range_positive; exact Hb|].
    rewrite (hf_extract_people_run md texts batch_size stride show_progress _ g Hb
               (range_positive (len texts) batch_size Hb)).
    reflexivity.
Qed.

Lemma batch_size_passing_witness :
  0 < 2
  /\ exists starts,
       range 0 (len ["a"; "b"; "c"]) 2 = Some starts
       /\ trace (HF.extract_people (RT := model_runtime sample_models)
                   (StrList ["a"; "b"; "c"]) 2 128 true [])
          = map (fun start =>
                   let batch := slice ["a"; "b"; "c"] start (start + 2) in
                   Log (NerPipeline batch (len batch) 128) None)
                starts.
Proof.
  split; [lia|].
  apply (batch_size_passing sample_models [] ["a"; "b"; "c"] 2 128 512 true []).
  lia.
Defined.

(** C3 as stated fails for the Hugging Face [extract_people]: with three
    texts and [batch_size = 2] it calls the NER pipeline twice, on the
    slices it cut itself, the second time with batch size 1. *)
Lemma hf_extract_people_cuts_batches :
  trace (HF.extract_people (RT := model_runtime sample_models)
           (StrList ["a"; "b"; "c"]) 2 128 true [])
  = [Log (NerPipeline ["a"; "b"] 2 128) None; Log (NerPipeline ["c"] 1 128) None]
  /\ trace (HF.extract_people (RT := model_runtime sample_models)
              (StrList ["a"; "b"; "c"]) 2 128 true [])
     <> [Log (NerPipeline ["a"; "b"; "c"] 2 128) None].
Proof.
  split; [reflexivity|].
  intros H. apply (f_equal (@length _)) in H. vm_compute in H. discriminate H.
Qed.

(** *** Single calls, filters and aggregation *)

(** C4, as the code has it: [lemmatize_sentence] makes one model call and
    prints one line per token; [score_sentiment] makes one call and returns
    the polarity of each document.  The other functions do more than
    reshape: [count_tokens_pipe] leaves out articles whose text is [None] and
    counts only the lemmas of tokens that are neither stop words nor
    punctuation and whose lemma is not blank; the spaCy [extract_people] keeps
    the entities labelled PERSON; the Hugging Face [extract_people] calls the
    model once per batch and keeps the PER entities whose stripped word is
    longer than 5 characters; [_score_long_text] scores the windows of a text
    and averages their signed scores; [build_person_sentiment_df] selects the
    articles with text and makes two passes over their texts. *)
Theorem wrappers_around_models (md : models) (sentence : string)
        (articles : list article) (texts : list string) (text_key : string)
        (max_records : option Z) (batch_size stride max_len : Z)
        (show_progress : bool) (g : list string) :
  0 < batch_size -> usable_limit max_records ->
  (let doc := spacy_model md [] sentence in
   lemmatize_sentence (RT := model_runtime md) sentence g
   = @Outcome nlp_ev (model_runtime md) _ (Ok tt)
       (g ++ lemma_header :: map lemma_line (tokens doc))
       (Log (NlpCall sentence) None
        :: Log (Print lemma_header) None
        :: map (fun t => Log (Print (lemma_line t)) None) (tokens doc)))
  /\ Spacy.score_sentiment (RT := model_runtime md) texts batch_size g
     = @Outcome nlp_ev (model_runtime md) _
         (Ok (map (fun text => blob_polarity (spacy_model md textblob_only text)) texts))
         g [Log (NlpPipe texts textblob_only batch_size) None]
  /\ (exists counter,
        count_tokens_pipe (RT := model_runtime md) articles batch_size g
        = @Outcome nlp_ev (model_runtime md) _ (Ok counter) g
            [Log (NlpPipe (article_texts articles) ["ner"; "parser"] batch_size) None]
        /\ forall lemma,
             default 0 (counter !! lemma)
             = Z.of_nat (length (List.filter (counted_as lemma)
                                   (flat_map (fun text => tokens (spacy_model md ["ner"; "parser"] text))
                                             (article_texts articles)))))
  /\ (Spacy.extract_people (RT := model_runtime md) texts batch_size g
      = @Outcome nlp_ev (model_runtime md) _
          (Ok (map (fun text => Spacy.person_names (spacy_model md ner_only text)) texts))
          g [Log (NlpPipe texts ner_only batch_size) None]
      /\ forall d name,
           In name (Spacy.person_names d)
           <-> exists ent, In ent (ents d) /\ label_ ent = "PERSON" /\ ent_text ent = name)
  /\ ((exists starts,
         range 0 (len texts) batch_size = Some starts
         /\ HF.extract_people (RT := model_runtime md) (StrList texts)
                              batch_size stride show_progress g
            = @Outcome nlp_ev (model_runtime md) _
                (Ok (map (fun text => HF.persons_of (ner_model md stride text)) texts))
                g (ner_calls texts batch_size stride starts))
      /\ forall es name,
           In name (HF.persons_of es)
           <-> exists e, In e es /\ entity_group e = "PER"
                         /\ 5 < str_len (strip (word e)) /\ strip (word e) = name)
  /\ (forall text,
        HF._score_long_text (RT := model_runtime md) text max_len stride batch_size g
        = @Outcome nlp_ev (model_runtime md) _
            (Ok (HF.np_mean
                   (map (fun p => (NLP.score p * HF.sign_of (label p))%Q)
                        (map (sentiment_model md) (windows md max_len stride text)))))
            g (sentiment_calls md max_len stride batch_size text))
  /\ (let selected := limited max_records (with_text text_key (enumerate articles)) in
      Spacy.build_person_sentiment_df (RT := model_runtime md)
        articles text_key max_records g
      = @Outcome nlp_ev (model_runtime md) _
          (Ok (spacy_rows md selected text_key)) g
          [Log (NlpPipe (map (text_at text_key) selected) ner_only 64) None;
           Log (NlpPipe (map (text_at text_key) selected) textblob_only 64) None]).
Proof.
  intros Hb Hn.
  split; [|split; [|split; [|split; [|split; [|split]]]]].
  - apply lemmatize_sentence_run.
  - apply score_sentiment_run.
  - eexists. split; [apply count_tokens_pipe_run|].
    intros lemma. rewrite foldl_flat_map, count_tokens_lookup.
    rewrite lookup_empty, flat_map_map. simpl. reflexivity.
  - split; [apply spacy_extract_people_run | apply person_names_spec].
  - split; [|apply persons_of_spec].
    eexists. split; [apply range_positive; exact Hb|].
    apply hf_extract_people_run; [exact Hb | apply range_positive; exact Hb].
  - intros text. apply score_long_text_run.
  - apply spacy_build_run. exact Hn.
Qed.

Lemma wrappers_around_models_witness :
  0 < 16 /\ usable_limit None
  /\ Spacy.score_sentiment (RT := model_runtime sample_models) ["a"; "b"] 16 []
     = @Outcome nlp_ev (model_runtime sample_models) _
         (Ok [1 # 2; 1 # 2]) [] [Log (NlpPipe ["a"; "b"] textblob_only 16) None].
Proof.
  split; [lia|]. split; [exact I|].
  refine (proj1 (proj2 (wrappers_around_models sample_models "" [] ["a"; "b"] "text"
                          None 16 128 512 true [] _ _))).
  - lia.
  - exact I.
Defined.

(** C4 as stated fails: the Hugging Face [extract_people] drops the entity
    "Sam" that the model returned as a person; [count_tokens_pipe] leaves
    out the stop word and the full stop; [_score_long_text] averages over two
    windows of one text; [build_person_sentiment_df] makes two model calls
    for one article. *)
Lemma wrappers_filter_and_aggregate :
  In (Entity "Sam" "PER") (ner_model sample_models 128 "Bob")
  /\ value (HF.extract_people (RT := model_runtime sample_models)
              (StrList ["Bob"]) 16 128 true []) = Ok [[]]
  /\ map tok_text (tokens (spacy_model sample_models ["ner"; "parser"] "Bob"))
     = ["Bob"; "the"; "."]
  /\ value (count_tokens_pipe (RT := model_runtime sample_models)
              [sample_article "Bob"] 100 []) = Ok {[ "Bob" := 1 ]}
  /\ HF._score_long_text (RT := model_runtime sample_models) "Bob" 512 128 16 []
     = @Outcome nlp_ev (model_runtime sample_models) _
         (Ok (Finite (((3 # 4) * 1 + ((3 # 4) * 1 + 0)) / inject_Z 2))) []
         [Log (Tokenizer "Bob" 512 128) None;
          Log (BatchDecode [[0; 1; 2; 3]; [3; 4; 5; 6]]) None;
          Log (SentimentPipeline ["window"; "window"] 16) None]
  /\ trace (Spacy.build_person_sentiment_df (RT := model_runtime sample_models)
              [sample_article "Bob"] "text" None [])
     = [Log (NlpPipe ["Bob"] ner_only 64) None;
        Log (NlpPipe ["Bob"] textblob_only 64) None].
Proof.
  split; [simpl; auto|].
  split; [reflexivity|].
  split; [reflexivity|].
  split; [vm_compute; reflexivity|].
  split; reflexivity.
Qed.
End Wrappers.

(** ** Exceptions and global state *)

Section Scripted.
Context {E : Type -> Type} `{RT : Runtime E}.

Lemma scripted_for_each {A S} (xs : list A) (body : S -> A -> M E S) acc :
  (forall acc x, scripted (body acc x)) -> scripted (for_each xs body acc).
Proof.
  intros Hbody. revert acc.
  induction xs as [|x xs IH]; intros acc; simpl.
  - constructor.
  - constructor; [apply Hbody | exact IH].
Qed.

Lemma scripted_comprehension {A B} (f : A -> M E B) (xs : list A) :
  (forall x, scripted (f x)) -> scripted (comprehension f xs).
Proof.
  intros Hf. induction xs as [|x xs IH]; simpl.
  - constructor.
  - constructor; [apply Hf|]. intros y.
    constructor; [exact IH|]. intros ys. constructor.
Qed.

Lemma scripted_propagates {A} (m : M E A) : scripted m -> propagates m.
Proof.
  induction 1.
  - apply propagates_ret.
  - apply propagates_raise.
  - apply propagates_call.
  - apply propagates_bind; assumption.
Qed.

Lemma scripted_preserves {T} (obs : globals -> T) {A} (m : M E A) :
  library_preserves obs -> scripted m -> preserves obs m.
Proof.
  intros Hlib. induction 1.
  - apply preserves_ret.
  - apply preserves_raise.
  - apply preserves_call. exact Hlib.
  - apply preserves_bind; assumption.
Qed.
End Scripted.

Ltac scripted_step :=
  first
    [ apply scripted_ret
    | apply scripted_raise
    | apply scripted_call
    | apply scripted_bind
    | apply scripted_for_each
    | apply scripted_comprehension
    | assumption
    | match goal with
      | |- scripted (match ?x with _ => _ end) => destruct x
      | |- scripted (let (_, _) := ?x in _) => destruct x
      end ].

Ltac scripted := repeat (intros; scripted_step).

Section NotebookConduct.
Import Py NLP.

Lemma nlp_scripted `{RT : Runtime nlp_ev} {A} (op : nlp_operation A) :
  scripted (nlp_program op).
Proof.
  assert (forall texts bs, scripted (Spacy.extract_people texts bs)) as Hpeople
      by (intros; unfold Spacy.extract_people; scripted).
  assert (forall texts bs, scripted (Spacy.score_sentiment texts bs)) as Hscore
      by (intros; unfold Spacy.score_sentiment; scripted).
  assert (forall texts bs stride sp, scripted (HF.extract_people texts bs stride sp))
    as Hhf by (intros; unfold HF.extract_people; scripted).
  assert (forall text max_len stride bs,
             scripted (HF._score_long_text text max_len stride bs)) as Hlong
      by (intros; unfold HF._score_long_text; scripted).
  assert (forall texts bs max_len stride,
             scripted (HF.extract_sentiment texts bs max_len stride)) as Hsent
      by (intros; unfold HF.extract_sentiment; scripted; apply Hlong).
  destruct op; simpl.
  - unfold lemmatize_sentence. scripted.
  - unfold pos_tags. scripted.
  - unfold count_tokens_pipe. scripted.
  - apply Hpeople.
  - apply Hscore.
  - unfold Spacy.build_person_sentiment_df. scripted; auto.
  - apply Hhf.
  - apply Hlong.
  - apply Hsent.
  - unfold HF.build_person_sentiment_df. scripted; auto.
Qed.

Lemma geo_scripted `{RT : Runtime Geo.io_ev} {A} (op : geo_operation A) :
  scripted (geo_program op).
Proof.
  destruct op; simpl.
  - unfold Geo.download_datasets, Geo.lift. scripted.
  - unfold Geo.read_service_requests. scripted.
  - unfold Geo.read_rentals. scripted.
  - unfold Geo.read_wards. scripted.
  - unfold Geo.read_fsa_boundaries. scripted.
Qed.

End NotebookConduct.

(** ** Failures are not caught; missing values are dealt with in the code *)

Section Handling.
Import Py NLP.

(** A failure that is caught does not reach the caller: with the models
    missing, a guarded [extract_people] returns the handler's value, and
    the log holds a failed call that is not the end of the run. *)
Lemma caught_failure_stays_inside :
  let guarded :=
    try_except (RT := offline_runtime)
               (Spacy.extract_people ["a"; "b"] 64) (fun _ => ret []) in
  value (guarded []) = Ok []
  /\ trace (guarded []) = [Log (NlpPipe ["a"; "b"] ner_only 64) (Some offline)]
  /\ ~ propagates guarded.
Proof.
  split; [reflexivity|]. split; [reflexivity|].
  intros H. specialize (H []). cbn in H.
  apply Forall_cons in H as [H _]. discriminate H.
Qed.

Lemma style_function_fallback (colormap : Geo.json -> result string) (feat : Geo.json) :
  lacks_value feat "STR_Apartment" ->
  Folium.style_function colormap feat
  = Ok (Folium.Style "#d3d3d3" "black" (8 # 10) (7 # 10)).
Proof.
  intros (properties & Hp & Hv). unfold Folium.style_function.
  rewrite Hp, Hv. reflexivity.
Qed.

Lemma style_function_coloured (colormap : Geo.json -> result string)
      (feat properties v : Geo.json) :
  Geo.getitem_key feat "properties" = Ok properties ->
  Geo.getitem_key properties "STR_Apartment" = Ok v ->
  v <> Geo.JNull ->
  Folium.style_function colormap feat
  = match colormap v with
    | Ok fill => Ok (Folium.Style fill "black" (8 # 10) (7 # 10))
    | Raised e => Raised e
    end.
Proof.
  intros Hp Hv Hn. unfold Folium.style_function.
  rewrite Hp, Hv. destruct v; try reflexivity. contradiction.
Qed.

Lemma dropna_spec (subset : list string) (df : Geo.table) (row : gmap string pyval) :
  In row (Cleaning.dropna subset df)
  <-> In row df /\ forall c, In c subset -> get row c <> PyNone.
Proof.
  unfold Cleaning.dropna. rewrite filter_In, forallb_forall.
  split; intros [Hin Hall]; (split; [exact Hin|]); intros c Hc; specialize (Hall c Hc).
  - destruct (get row c); [discriminate Hall | discriminate].
  - destruct (get row c); [contradiction | reflexivity].
Qed.

Lemma fillna_cells_spec (cells : list (string * option Q)) :
  map fst (Combine.fillna_cells cells) = map fst cells
  /\ (forall c, In (c, None) cells -> In (c, 0%Q) (Combine.fillna_cells cells))
  /\ (forall c v, In (c, Some v) cells -> In (c, v) (Combine.fillna_cells cells)).
Proof.
  unfold Combine.fillna_cells. split; [|split].
  - rewrite map_map. reflexivity.
  - intros c Hin. apply in_map_iff. exists (c, None). auto.
  - intros c v Hin. apply in_map_iff. exists (c, Some v). auto.
Qed.

(** C6, as the code has it.  No operation of the notebooks catches or
    retries: whatever the runtime does, when a library call of an operation
    raises (a network fetch, a file read, a model call), that call is the
    last one the operation makes and the operation ends with the exception
    of that call; every call before it had succeeded.  Malformed and missing
    input is dealt with in more places than the two [pd.read_csv] calls,
    which are made with [on_bad_lines='skip']: the style function of the
    maps substitutes the colour "#d3d3d3" for a missing "STR_Apartment"
    value and asks the colour scale otherwise; [fillna(0)] substitutes 0 for
    every missing count and keeps the others; [dropna] drops exactly the
    rows that lack a value in one of the named columns; [count_tokens_pipe]
    leaves out the articles without text and hands the others to spaCy. *)
Theorem exceptions_reach_the_caller :
  (forall (RT : Runtime nlp_ev) A (op : nlp_operation A) g tr1 l tr2 e,
      trace (nlp_program op g) = tr1 ++ l :: tr2 ->
      failure_of l = Some e ->
      tr2 = [] /\ value (nlp_program op g) = Raised e /\ Forall succeeded tr1)
  /\ (forall (RT : Runtime Geo.io_ev) A (op : geo_operation A) g tr1 l tr2 e,
        trace (geo_program op g) = tr1 ++ l :: tr2 ->
        failure_of l = Some e ->
        tr2 = [] /\ value (geo_program op g) = Raised e /\ Forall succeeded tr1)
  /\ (forall (RT : Runtime Geo.io_ev) g,
        (exists failure,
            trace (Geo.read_service_requests g)
            = [Log (Geo.ReadCsv "311-service-requests-customer-initiated.zip"
                                (Some "zip") "skip" false) failure])
        /\ (exists failure,
              trace (Geo.read_rentals g)
              = [Log (Geo.ReadCsv "short-term-rentals-registration.csv"
                                  None "skip" false) failure]))
  /\ (forall colormap feat,
        lacks_value feat "STR_Apartment" ->
        Folium.style_function colormap feat
        = Ok (Folium.Style "#d3d3d3" "black" (8 # 10) (7 # 10)))
  /\ (forall colormap feat properties v,
        Geo.getitem_key feat "properties" = Ok properties ->
        Geo.getitem_key properties "STR_Apartment" = Ok v ->
        v <> Geo.JNull ->
        Folium.style_function colormap feat
        = match colormap v with
          | Ok fill => Ok (Folium.Style fill "black" (8 # 10) (7 # 10))
          | Raised e => Raised e
          end)
  /\ (forall cells,
        map fst (Combine.fillna_cells cells) = map fst cells
        /\ (forall c, In (c, None) cells -> In (c, 0%Q) (Combine.fillna_cells cells))
        /\ (forall c v, In (c, Some v) cells -> In (c, v) (Combine.fillna_cells cells)))
  /\ (forall subset df row,
        In row (Cleaning.dropna subset df)
        <-> In row df /\ forall c, In c subset -> get row c <> PyNone)
  /\ (forall (RT : Runtime nlp_ev) articles batch_size g,
        exists failure,
          trace (count_tokens_pipe articles batch_size g)
          = [Log (NlpPipe (article_texts articles) ["ner"; "parser"] batch_size)
                 failure]).
Proof.
  split; [|split; [|split; [|split; [|split; [|split; [|split]]]]]].
  - intros RT A op g tr1 l tr2 e Htr Hl.
    eapply propagates_failure; [apply scripted_propagates, nlp_scripted | |]; eassumption.
  - intros RT A op g tr1 l tr2 e Htr Hl.
    eapply propagates_failure; [apply scripted_propagates, geo_scripted | |]; eassumption.
  - intros RT g. unfold Geo.read_service_requests, Geo.read_rentals, call.
    split.
    + destruct (perform _ g) as [[x|e] g']; eexists; reflexivity.
    + destruct (perform _ g) as [[x|e] g']; eexists; reflexivity.
  - apply style_function_fallback.
  - apply style_function_coloured.
  - apply fillna_cells_spec.
  - apply dropna_spec.
  - intros RT articles batch_size g.
    unfold count_tokens_pipe, bind, call, article_texts.
    destruct (perform _ g) as [[x|e] g']; eexists; reflexivity.
Qed.

Lemma exceptions_reach_the_caller_witness :
  trace (nlp_program (RT := offline_runtime) (SpacyExtractPeople ["a"; "b"] 64) [])
  = [] ++ Log (NlpPipe ["a"; "b"] ner_only 64) (Some offline) :: []
  /\ failure_of (Log (NlpPipe ["a"; "b"] ner_only 64) (Some offline)) = Some offline
  /\ value (nlp_program (RT := offline_runtime) (SpacyExtractPeople ["a"; "b"] 64) [])
     = Raised offline
  /\ lacks_value sample_feature "STR_Apartment"
  /\ Folium.style_function sample_colormap sample_feature
     = Ok (Folium.Style "#d3d3d3" "black" (8 # 10) (7 # 10)).
Proof.
  split; [reflexivity|]. split; [reflexivity|].
  assert (lacks_value sample_feature "STR_Apartment") as Hlacks.
  { eexists. split; reflexivity. }
  split; [|split; [exact Hlacks|]].
  - exact (proj1 (proj2 (proj1 exceptions_reach_the_caller offline_runtime _
                           (SpacyExtractPeople ["a"; "b"] 64) [] [] _ [] offline
                           eq_refl eq_refl))).
  - exact (proj1 (proj2 (proj2 (proj2 exceptions_reach_the_caller)))
             sample_colormap sample_feature Hlacks).
Defined.

(** C6 as stated fails: reading the files with [on_bad_lines='skip'] is not
    the only handling of malformed input, and fallback values are
    substituted.  A feature without a "STR_Apartment" value is painted in
    the fallback colour instead of failing, a missing count becomes 0, and a
    row without a ward number is dropped. *)
Lemma missing_values_are_replaced :
  let located : gmap string pyval :=
    {[ "Ward Name" := PyStr "Parkdale"; "Ward Number" := PyStr "4" ]} in
  let unlocated : gmap string pyval := {[ "Ward Name" := PyStr "Parkdale" ]} in
  Folium.style_function sample_colormap sample_feature
  = Ok (Folium.Style "#d3d3d3" "black" (8 # 10) (7 # 10))
  /\ ~ no_fallback (Folium.style_function sample_colormap)
  /\ Combine.fillna_cells [("311_Noise", None); ("STR_Apartment", Some 2%Q)]
     = [("311_Noise", 0%Q); ("STR_Apartment", 2%Q)]
  /\ Cleaning.drop_without_ward [located; unlocated] = [located]
  /\ ~ keeps_every_row Cleaning.drop_without_ward.
Proof.
  intros located unlocated.
  split; [reflexivity|]. split; [|split; [reflexivity|]].
  - intros H. destruct (H sample_feature) as (e & He); [|discriminate He].
    eexists. split; reflexivity.
  - assert (Cleaning.drop_without_ward [located; unlocated] = [located]) as Hd
        by reflexivity.
    split; [exact Hd|].
    intros H. specialize (H [located; unlocated]). rewrite Hd in H.
    apply (f_equal length) in H. discriminate H.
Qed.
End Handling.

(** ** The functions leave their arguments alone *)

Section Keeping.
Import Py NLP Heap.
Context `{MC : Machine}.

Lemma keeps_ret (n : nat) {A} (P : A -> Prop) (a : A) : P a -> keeps n P (ret a).
Proof.
  intros Ha s Hs. cbn. split; [reflexivity|]. split; [reflexivity|].
  intros a' [= <-]. exact Ha.
Qed.

Lemma keeps_raise (n : nat) {A} (P : A -> Prop) (e : exn) : keeps n P (raise e).
Proof.
  intros s Hs. cbn. split; [reflexivity|]. split; [reflexivity|]. intros a' [=].
Qed.

Lemma keeps_weaken (n : nat) {A} (P Q : A -> Prop) (m : M py_ev A) :
  (forall a, P a -> Q a) -> keeps n P m -> keeps n Q m.
Proof.
  intros HPQ Hm s Hs. destruct (Hm s Hs) as (H1 & H2 & H3).
  split; [exact H1|]. split; [exact H2|]. intros a Ha. apply HPQ, H3, Ha.
Qed.

Lemma keeps_bind (n : nat) {A B} (P : A -> Prop) (Q : B -> Prop)
      (m : M py_ev A) (k : A -> M py_ev B) :
  keeps n P m -> (forall a, P a -> keeps n Q (k a)) -> keeps n Q (bind m k).
Proof.
  intros Hm Hk s Hs. destruct (Hm s Hs) as (H1 & H2 & H3).
  unfold bind. destruct (value (m s)) as [a|e] eqn:Hv; cbn.
  - destruct (Hk a (H3 a eq_refl) (final (m s))) as (K1 & K2 & K3);
      [eapply Nat.le_trans; eassumption|].
    split; [eapply Nat.le_trans; eassumption|]. split.
    + intros l Hl. rewrite K2 by exact Hl. apply H2, Hl.
    + exact K3.
  - split; [exact H1|]. split; [exact H2|]. intros a [=].
Qed.

(** A new object gets a fresh address. *)
Lemma keeps_new (n : nat) (o : obj) : keeps n (fun l => (n <= l)%nat) (call (New o)).
Proof.
  intros [σ g] Hs. cbn in *. rewrite length_app. cbn. split; [apply Nat.le_add_r|]. split.
  - intros l Hl. apply lookup_app_l. lia.
  - intros a [= <-]. exact Hs.
Qed.

Lemma keeps_read (n : nat) {X} (c : py_ev X) :
  (forall s, snd (run c s) = s) -> keeps n (fun _ => True) (call c).
Proof.
  intros Hc s Hs. unfold call. cbn [perform python].
  pose proof (Hc s) as Hrun.
  destruct (run c s) as [[x|e] s'] eqn:Hr; cbn in Hrun; subst s'; cbn;
    (split; [reflexivity|]; split; [reflexivity | intros; exact I]).
Qed.

Lemma keeps_items (n : nat) (l : loc) : keeps n (fun _ => True) (call (Items l)).
Proof.
  apply keeps_read. intros s. cbn. destruct (fst s !! l) as [[]|]; reflexivity.
Qed.

Lemma keeps_dict_get (n : nat) (l : loc) (key : string) :
  keeps n (fun _ => True) (call (DictGet l key)).
Proof.
  apply keeps_read. intros s. cbn. destruct (fst s !! l) as [[]|]; reflexivity.
Qed.

Lemma keeps_dict_item (n : nat) (l : loc) (key : string) :
  keeps n (fun _ => True) (call (DictItem l key)).
Proof.
  apply keeps_read. intros s. cbn.
  destruct (fst s !! l) as [[| fields | |]|]; try reflexivity.
  destruct (fields !! key); reflexivity.
Qed.

(** A library call on immutable arguments changes no object. *)
Lemma keeps_library (n : nat) {X} (c : nlp_ev X) :
  keeps n (fun _ => True) (call (Library c)).
Proof.
  intros s Hs. unfold call. cbn [perform python run].
  match goal with
  | |- context [match fst ?p with _ => _ end] => destruct p as [[x|e] g']
  end; cbn; (split; [reflexivity|]; split; [reflexivity | intros; exact I]).
Qed.

Lemma keeps_write (n : nat) (l : loc) (o : obj) (σ : store) :
  (n <= l)%nat ->
  (length σ <= length (<[l := o]> σ))%nat
  /\ forall l', (l' < n)%nat -> <[l := o]> σ !! l' = σ !! l'.
Proof.
  intros Hl. rewrite length_insert. split; [reflexivity|].
  intros l' Hl'. apply list_lookup_insert_ne. lia.
Qed.

Lemma keeps_append (n : nat) (l : loc) (v : val) :
  (n <= l)%nat -> keeps n (fun _ => True) (call (Append l v)).
Proof.
  intros Hl s Hs. unfold call. cbn [perform python run].
  destruct (fst s !! l) as [[items| | |]|]; cbn;
    try (split; [reflexivity|]; split; [reflexivity | intros; exact I]).
  destruct (keeps_write n l (OList (items ++ [v])) (fst s) Hl) as [H1 H2].
  split; [exact H1|]. split; [exact H2 | intros; exact I].
Qed.

Lemma keeps_increment (n : nat) (l : loc) (key : string) :
  (n <= l)%nat -> keeps n (fun _ => True) (call (Increment l key)).
Proof.
  intros Hl s Hs. unfold call. cbn [perform python run].
  destruct (fst s !! l) as [[| |counts|]|]; cbn;
    try (split; [reflexivity|]; split; [reflexivity | intros; exact I]).
  destruct (keeps_write n l
              (OCounter (<[key := default 0 (counts !! key) + 1]> counts))
              (fst s) Hl) as [H1 H2].
  split; [exact H1|]. split; [exact H2 | intros; exact I].
Qed.

(** A library call that is handed a list: the list is fresh, or the
    library only reads it. *)
Lemma keeps_library_on (n : nat) {X} (l : loc) (c : list string -> nlp_ev X) :
  (n <= l)%nat \/ reads_only -> keeps n (fun _ => True) (call (LibraryOn l c)).
Proof.
  intros Hl s Hs. unfold call. cbn [perform python run].
  destruct (fst s !! l) as [[items| | |]|] eqn:Hlook; cbn;
    try (split; [reflexivity|]; split; [reflexivity | intros; exact I]).
  destruct (texts_of items) as [texts|]; cbn;
    [|split; [reflexivity|]; split; [reflexivity | intros; exact I]].
  assert ((length (fst s) <= length (<[l := OList (rewrites (snd s) items)]> (fst s)))%nat
          /\ forall l', (l' < n)%nat ->
               <[l := OList (rewrites (snd s) items)]> (fst s) !! l' = fst s !! l')
    as [H1 H2].
  { destruct Hl as [Hl | Hro]; [apply keeps_write, Hl|].
    rewrite Hro, (list_insert_id _ _ _ Hlook). split; reflexivity. }
  match goal with
  | |- context [match fst ?p with _ => _ end] => destruct p as [[x|e] g']
  end; cbn; (split; [exact H1|]; split; [exact H2 | intros; exact I]).
Qed.

Lemma keeps_for_each (n : nat) {A S} (xs : list A) (body : S -> A -> M py_ev S)
      (acc : S) :
  (forall acc x, keeps n (fun _ => True) (body acc x)) ->
  keeps n (fun _ => True) (for_each xs body acc).
Proof.
  intros Hbody. revert acc. induction xs as [|x xs IH]; intros acc; cbn [for_each].
  - apply keeps_ret. exact I.
  - eapply keeps_bind; [apply Hbody|]. intros acc' _. apply IH.
Qed.

Lemma keeps_comprehension (n : nat) {A B} (f : A -> M py_ev B) (xs : list A) :
  (forall x, keeps n (fun _ => True) (f x)) ->
  keeps n (fun _ => True) (comprehension f xs).
Proof.
  intros Hf. induction xs as [|x xs IH]; cbn [comprehension].
  - apply keeps_ret. exact I.
  - eapply keeps_bind; [apply Hf|]. intros y _.
    eapply keeps_bind; [apply IH|]. intros ys _. apply keeps_ret. exact I.
Qed.

Lemma keeps_unchanged (n : nat) {A} (P : A -> Prop) (m : M py_ev A)
      (σ : store) (g : @globals nlp_ev library) :
  keeps (length σ) P m -> unchanged σ (fst (final (m (σ, g)))).
Proof.
  intros Hm l o Hl. destruct (Hm (σ, g)) as (_ & H & _); [reflexivity|].
  cbn in H. rewrite H; [exact Hl|]. apply lookup_lt_Some in Hl. exact Hl.
Qed.
End Keeping.

Ltac keeps_call :=
  first
    [ apply keeps_items
    | apply keeps_dict_get
    | apply keeps_dict_item
    | apply keeps_library
    | apply keeps_append; assumption
    | apply keeps_increment; assumption
    | apply keeps_library_on; auto ].

Ltac keeps_step :=
  lazymatch goal with
  | |- keeps _ _ (bind (call (Heap.New _)) _) =>
      eapply keeps_bind; [apply keeps_new | intros ? ?]
  | |- keeps _ _ (bind _ _) =>
      apply (keeps_bind _ (fun _ => True)); [ | intros ? _]
  | |- keeps _ _ (ret _) => apply keeps_ret; exact I
  | |- keeps _ _ (raise _) => apply keeps_raise
  | |- keeps _ _ (call (Heap.New _)) =>
      eapply keeps_weaken; [|apply keeps_new]; intros; exact I
  | |- keeps _ _ (call _) => keeps_call
  | |- keeps _ _ (for_each _ _ _) => apply keeps_for_each; intros
  | |- keeps _ _ (comprehension _ _) => apply keeps_comprehension; intros
  | |- keeps _ _ (if ?b then _ else _) => destruct b
  | |- keeps _ _ (match ?x with _ => _ end) => destruct x
  end.

Ltac keeps := repeat keeps_step.

Section KeepingFunctions.
Import Py NLP Heap.
Context `{MC : Machine}.

Lemma keeps_record_of (n : nat) (item : val) :
  keeps n (fun _ => True) (record_of item).
Proof. unfold record_of. keeps. Qed.

Lemma keeps_count_tokens_pipe (n : nat) (articles : loc) (batch_size : Z) :
  keeps n (fun _ => True) (count_tokens_pipe articles batch_size).
Proof.
  unfold count_tokens_pipe. keeps; try apply keeps_record_of.
Qed.

Lemma keeps_spacy_extract_people (n : nat) (texts : loc) (batch_size : Z) :
  (n <= texts)%nat \/ reads_only ->
  keeps n (fun _ => True) (Spacy.extract_people texts batch_size).
Proof. intros Ht. unfold Spacy.extract_people. keeps. Qed.

Lemma keeps_score_sentiment (n : nat) (texts : loc) (batch_size : Z) :
  (n <= texts)%nat \/ reads_only ->
  keeps n (fun _ => True) (Spacy.score_sentiment texts batch_size).
Proof. intros Ht. unfold Spacy.score_sentiment. keeps. Qed.

Lemma keeps_select (n : nat) (items : list val) (text_key : string)
      (f : Z -> loc -> M py_ev val) :
  (forall i a, keeps n (fun _ => True) (f i a)) ->
  keeps n (fun _ => True) (Spacy.select items text_key f).
Proof.
  intros Hf. unfold Spacy.select. keeps; try apply keeps_record_of; try apply Hf.
Qed.

Lemma keeps_explode (n : nat) (records : loc) (rows : list (val * val * val)) :
  (n <= records)%nat -> keeps n (fun _ => True) (Spacy.explode records rows).
Proof. intros Hr. unfold Spacy.explode. keeps. Qed.

Lemma keeps_spacy_build (n : nat) (articles : loc) (text_key : string)
      (max_records : option Z) :
  keeps n (fun _ => True) (Spacy.build_person_sentiment_df articles text_key max_records).
Proof.
  unfold Spacy.build_person_sentiment_df.
  keeps_step; [keeps|].
  keeps_step; [apply keeps_select; intros; keeps|].
  keeps_step.
  keeps_step; [keeps|].
  keeps_step; [apply keeps_select; intros; keeps|].
  keeps_step.
  apply (keeps_bind _ (fun p : loc * loc => (n <= fst p)%nat /\ (n <= snd p)%nat)).
  - destruct max_records as [limit|].
    + keeps_step; [keeps|]. keeps_step. keeps_step; [keeps|]. keeps_step.
      apply keeps_ret. split; assumption.
    + apply keeps_ret. split; assumption.
  - intros [texts article_ids] [Ht Ha]. cbn [fst snd] in Ht, Ha.
    keeps_step; [apply keeps_spacy_extract_people; left; exact Ht|].
    keeps_step; [apply keeps_score_sentiment; left; exact Ht|].
    keeps_step. keeps; apply keeps_explode; assumption.
Qed.

Lemma keeps_as_list (n : nat) (texts : HF.texts_arg) :
  keeps n (fun _ => True) (HF.as_list texts).
Proof. unfold HF.as_list. keeps. Qed.

Lemma keeps_hf_extract_people (n : nat) (texts : HF.texts_arg)
      (batch_size stride : Z) (show_progress : bool) :
  keeps n (fun _ => True) (HF.extract_people texts batch_size stride show_progress).
Proof.
  unfold HF.extract_people.
  keeps_step; [apply keeps_as_list|]. keeps.
Qed.

Lemma keeps_score_long_text (n : nat) (text : string) (max_len stride batch_size : Z) :
  keeps n (fun _ => True) (HF._score_long_text text max_len stride batch_size).
Proof. unfold HF._score_long_text. keeps. Qed.

Lemma keeps_extract_sentiment (n : nat) (texts : HF.texts_arg)
      (batch_size max_len stride : Z) :
  keeps n (fun _ => True) (HF.extract_sentiment texts batch_size max_len stride).
Proof.
  unfold HF.extract_sentiment.
  keeps_step; [apply keeps_as_list|]. keeps; apply keeps_score_long_text.
Qed.

Lemma keeps_collect (n : nat) (texts art_ids : loc) (items : list val)
      (text_key : string) (max_records : option Z) :
  (n <= texts)%nat -> (n <= art_ids)%nat ->
  keeps n (fun _ => True) (HF.collect texts art_ids items text_key max_records).
Proof.
  intros Ht Ha. unfold HF.collect. keeps; try apply keeps_record_of.
Qed.

Lemma keeps_hf_build (n : nat) (articles : loc) (text_key : string)
      (max_records : option Z) :
  keeps n (fun _ => True) (HF.build_person_sentiment_df articles text_key max_records).
Proof.
  unfold HF.build_person_sentiment_df.
  keeps_step. keeps_step. keeps_step; [keeps|].
  keeps_step; [apply keeps_collect; assumption|].
  keeps_step; [apply keeps_hf_extract_people|].
  keeps_step; [apply keeps_extract_sentiment|].
  keeps_step. keeps; apply keeps_explode; assumption.
Qed.
End KeepingFunctions.

Section Unchanged.
Import Py NLP Heap.

(** C7: the functions change none of the objects that exist when they are
    called: not the article collection, not an article, not any other list,
    dict or counter of the program; they write only to objects they have
    created themselves.  [count_tokens_pipe], the two
    [build_person_sentiment_df], the Transformers [extract_people],
    [_score_long_text] and [extract_sentiment] hand the libraries strings
    and lists of their own and leave every object unchanged whatever the
    libraries do; the spaCy [extract_people] and [score_sentiment] hand
    their argument itself to [nlp.pipe] and leave every object unchanged
    when the libraries only read the lists they are handed.  The state of
    the libraries may change. *)
Theorem articles_unchanged (MC : Machine) (σ : store) (g : @globals nlp_ev library) :
  (forall articles batch_size,
      unchanged σ (fst (final (count_tokens_pipe articles batch_size (σ, g)))))
  /\ (forall articles text_key max_records,
        unchanged σ (fst (final (Spacy.build_person_sentiment_df
                                   articles text_key max_records (σ, g)))))
  /\ (forall texts batch_size stride show_progress,
        unchanged σ (fst (final (HF.extract_people
                                   texts batch_size stride show_progress (σ, g)))))
  /\ (forall text max_len stride batch_size,
        unchanged σ (fst (final (HF._score_long_text
                                   text max_len stride batch_size (σ, g)))))
  /\ (forall texts batch_size max_len stride,
        unchanged σ (fst (final (HF.extract_sentiment
                                   texts batch_size max_len stride (σ, g)))))
  /\ (forall articles text_key max_records,
        unchanged σ (fst (final (HF.build_person_sentiment_df
                                   articles text_key max_records (σ, g)))))
  /\ (reads_only ->
      forall texts batch_size,
        unchanged σ (fst (final (Spacy.extract_people texts batch_size (σ, g))))
        /\ unchanged σ (fst (final (Spacy.score_sentiment texts batch_size (σ, g))))).
Proof.
  repeat split; intros.
  - eapply (keeps_unchanged (length σ)), keeps_count_tokens_pipe.
  - eapply (keeps_unchanged (length σ)), keeps_spacy_build.
  - eapply (keeps_unchanged (length σ)), keeps_hf_extract_people.
  - eapply (keeps_unchanged (length σ)), keeps_score_long_text.
  - eapply (keeps_unchanged (length σ)), keeps_extract_sentiment.
  - eapply (keeps_unchanged (length σ)), keeps_hf_build.
  - eapply (keeps_unchanged (length σ)), keeps_spacy_extract_people. right. assumption.
  - eapply (keeps_unchanged (length σ)), keeps_score_sentiment. right. assumption.
Qed.

Lemma articles_unchanged_witness :
  let after :=
    final (Spacy.build_person_sentiment_df (MC := careful_machine) 3%nat "text" None
             (sample_store, [])) in
  reads_only (MC := careful_machine)
  /\ take 5 (fst after) = sample_store
  /\ unchanged sample_store (fst after)
  /\ value (Spacy.build_person_sentiment_df (MC := careful_machine) 3%nat "text" None
              (sample_store, []))
     = Ok 11%nat
  /\ objects_at (fst after) 11
     = [ORecord 0 "Ada Lovelace" (Finite (1 # 2));
        ORecord 2 "Grace Hopper" (Finite (1 # 2))]
  /\ unchanged sample_store
       (fst (final (Spacy.extract_people (MC := careful_machine) 4%nat 64
                      (sample_store, [])))).
Proof.
  intros after.
  assert (reads_only (MC := careful_machine)) as Hro by (intros g items; reflexivity).
  split; [exact Hro|]. split; [vm_compute; reflexivity|].
  pose proof (articles_unchanged careful_machine sample_store [])
    as (_ & Hbuild & _ & _ & _ & _ & Hread).
  split; [apply Hbuild|]. split; [vm_compute; reflexivity|].
  split; [vm_compute; reflexivity|].
  apply (Hread Hro).
Defined.

(** A function that appends to the collection it is handed changes it. *)
Lemma appending_changes_the_list :
  let after :=
    final (call (RT := python (MC := careful_machine)) (Append 3%nat (VRef 0%nat))
             (sample_store, [])) in
  fst after !! 3%nat = Some (OList [VRef 0%nat; VRef 1%nat; VRef 2%nat; VRef 0%nat])
  /\ ~ unchanged sample_store (fst after).
Proof.
  intros after. split; [reflexivity|].
  intros H. specialize (H 3%nat _ eq_refl). vm_compute in H. discriminate H.
Qed.

(** With libraries that empty the lists they are handed, the spaCy
    [extract_people] does not leave its argument as it was, while
    [build_person_sentiment_df], which hands over lists of its own, does. *)
Lemma careless_libraries :
  let after :=
    final (Spacy.extract_people (MC := careless_machine) 4%nat 64 (sample_store, [])) in
  ~ reads_only (MC := careless_machine)
  /\ fst after !! 4%nat = Some (OList [])
  /\ ~ unchanged sample_store (fst after)
  /\ unchanged sample_store
       (fst (final (Spacy.build_person_sentiment_df (MC := careless_machine)
                      3%nat "text" None (sample_store, [])))).
Proof.
  intros after. split; [|split; [|split]].
  - intros H. specialize (H [] [VNone]). discriminate H.
  - vm_compute. reflexivity.
  - intros H. specialize (H 4%nat _ eq_refl). vm_compute in H. discriminate H.
  - apply (keeps_unchanged (MC := careless_machine) (length sample_store)
             (fun _ => True)
             (Spacy.build_person_sentiment_df (MC := careless_machine) 3%nat "text" None)
             sample_store []).
    apply keeps_spacy_build.
Qed.
End Unchanged.

(** ** Apportioning ward counts to FSAs *)

Section Shares.
Import Py Geo.
Context {G : Type} `{GE : Geometry G}.

Lemma overlay_rows (gdf_combined : list (ward G)) (fsa_boundaries : list (fsa G))
      (o : overlap G) :
  In o (overlay gdf_combined fsa_boundaries)
  <-> In (of_ward o) gdf_combined /\ In (of_fsa o) fsa_boundaries
      /\ intersection (ward_geometry (of_ward o)) (fsa_geometry (of_fsa o))
         = Some (geometry o).
Proof.
  unfold overlay. rewrite in_flat_map. split.
  - intros (w & Hw & Hin). apply list_elem_of_In in Hin.
    apply list_elem_of_omap in Hin as (f & Hf & Hi).
    apply list_elem_of_In in Hf.
    destruct (intersection (ward_geometry w) (fsa_geometry f)) as [g|] eqn:Hg;
      [|discriminate].
    injection Hi as <-. simpl. auto.
  - intros (Hw & Hf & Hi). exists (of_ward o). split; [assumption|].
    apply list_elem_of_In. apply list_elem_of_omap.
    exists (of_fsa o). split; [apply list_elem_of_In; assumption|].
    rewrite Hi. destruct o; reflexivity.
Qed.

(** With ward numbers that identify the wards, the merge finds for a ward
    exactly its own area. *)
Lemma own_area (gdf_combined : list (ward G)) (w : ward G) :
  NoDup (map ward_number gdf_combined) -> In w gdf_combined ->
  List.filter (fun na => fst na =? ward_number w) (ward_area_table gdf_combined)
  = [(ward_number w, area (ward_geometry w))].
Proof.
  unfold ward_area_table.
  induction gdf_combined as [|w' l IH]; intros Hnd Hin; [destruct Hin|].
  simpl in Hnd. apply NoDup_cons in Hnd as [Hfresh Hnd].
  assert (forall w0, In w0 l -> ward_number w0 <> ward_number w') as Hother.
  { intros w0 Hw0 Heq. apply Hfresh. rewrite <- Heq.
    apply list_elem_of_In. apply in_map. exact Hw0. }
  simpl. destruct Hin as [->|Hin].
  - rewrite Z.eqb_refl. f_equal.
    clear IH Hnd Hfresh. induction l as [|w0 l IHl]; [reflexivity|].
    simpl. destruct (ward_number w0 =? ward_number w) eqn:He.
    + apply Z.eqb_eq in He. exfalso. apply (Hother w0); [left; reflexivity | exact He].
    + apply IHl. intros w1 Hw1. apply Hother. right. exact Hw1.
  - destruct (ward_number w' =? ward_number w) eqn:He.
    + apply Z.eqb_eq in He. exfalso. apply (Hother w Hin). symmetry. exact He.
    + apply IH; assumption.
Qed.

Lemma merge_own_area (gdf_combined : list (ward G)) (os : list (overlap G)) :
  NoDup (map ward_number gdf_combined) ->
  (forall o, In o os -> In (of_ward o) gdf_combined) ->
  merge_ward_area os (ward_area_table gdf_combined)
  = map (fun o => Merged o (area (geometry o))
                         (Some (area (ward_geometry (of_ward o))))) os.
Proof.
  intros Hnd. induction os as [|o os IH]; intros Hin; [reflexivity|].
  simpl. rewrite (own_area gdf_combined (of_ward o) Hnd) by (apply Hin; left; reflexivity).
  simpl. f_equal. apply IH. intros o' Ho'. apply Hin. right. exact Ho'.
Qed.

Lemma ward_fsa_merged_rows (gdf_combined : list (ward G)) (fsa_boundaries : list (fsa G)) :
  NoDup (map ward_number gdf_combined) ->
  ward_fsa_merged gdf_combined fsa_boundaries
  = map (fun o => Merged o (area (geometry o))
                         (Some (area (ward_geometry (of_ward o)))))
        (overlay gdf_combined fsa_boundaries).
Proof.
  intros Hnd. unfold ward_fsa_merged. apply merge_own_area; [exact Hnd|].
  intros o Ho. apply overlay_rows in Ho. apply Ho.
Qed.


End Shares.


(** ** The rows and sums of the wards *)

Section StringFacts.
Lemma length_append (a b : string) :
  String.length (String.append a b) = (String.length a + String.length b)%nat.
Proof. induction a as [|c a IH]; simpl; [reflexivity | rewrite IH; reflexivity]. Qed.

Lemma append_inj_r (a b s : string) :
  String.append a s = String.append b s -> a = b.
Proof.
  revert b. induction a as [|c a IH]; intros [|d b] H.
  - reflexivity.
  - apply (f_equal String.length) in H. rewrite !length_append in H. simpl in H. lia.
  - apply (f_equal String.length) in H. rewrite !length_append in H. simpl in H. lia.
  - change (String c (String.append a s) = String d (String.append b s)) in H.
    injection H as -> H. f_equal. apply IH. exact H.
Qed.
End StringFacts.

Section Conservation.
Import Py Geo.
Context {G : Type} `{GE : Geometry G}.
Local Open Scope Q_scope.

Lemma cell_cons (c : string) (name : string) (x : Q) (row : list (string * Q)) :
  cell c ((name, x) :: row)
  = if String.eqb name c then x + cell c row else cell c row.
Proof. unfold cell. simpl. destruct (String.eqb name c); reflexivity. Qed.

Lemma sum_ext {A} (f h : A -> Q) (l : list A) :
  (forall x, In x l -> f x == h x) ->
  fold_right Qplus 0 (map f l) == fold_right Qplus 0 (map h l).
Proof.
  induction l as [|x l IH]; intros Hfh; simpl; [lra|].
  rewrite (Hfh x) by (left; reflexivity).
  rewrite IH by (intros y Hy; apply Hfh; right; exact Hy). lra.
Qed.

(** *** The rows of one ward *)

Lemma ward_by_number (gdf_combined : list (ward G)) (w1 w2 : ward G) :
  NoDup (map ward_number gdf_combined) ->
  In w1 gdf_combined -> In w2 gdf_combined ->
  ward_number w1 = ward_number w2 -> w1 = w2.
Proof.
  induction gdf_combined as [|w l IH]; intros Hnd H1 H2 Heq; [destruct H1|].
  simpl in Hnd. apply NoDup_cons in Hnd as [Hfresh Hnd].
  assert (forall w0, In w0 l -> ward_number w0 <> ward_number w) as Hother.
  { intros w0 Hw0 He. apply Hfresh. rewrite <- He.
    apply list_elem_of_In. apply in_map. exact Hw0. }
  destruct H1 as [->|H1], H2 as [->|H2].
  - reflexivity.
  - exfalso. apply (Hother w2 H2). symmetry. exact Heq.
  - exfalso. apply (Hother w1 H1). exact Heq.
  - apply IH; assumption.
Qed.

Lemma contribution_rows (gdf_combined : list (ward G)) (fsa_boundaries : list (fsa G))
      (w : ward G) (m : merged G) :
  NoDup (map ward_number gdf_combined) -> In w gdf_combined ->
  In m (contributions gdf_combined fsa_boundaries (ward_number w)) ->
  of_ward (base m) = w /\ ward_area m = Some (area (ward_geometry w)).
Proof.
  intros Hnd Hw Hm. unfold contributions in Hm.
  apply filter_In in Hm as [Hm Hn]. apply Z.eqb_eq in Hn.
  rewrite ward_fsa_merged_rows in Hm by exact Hnd.
  apply in_map_iff in Hm as (o & <- & Ho). simpl in *.
  apply overlay_rows in Ho as (Ho & _).
  assert (of_ward o = w) as -> by (apply (ward_by_number gdf_combined); assumption).
  auto.
Qed.

Lemma shares_sum (count a : Q) (ms : list (merged G)) :
  fold_right Qplus 0 (map (fun m => count * (area_overlap m / a)) ms)
  == count * (covered_area ms / a).
Proof.
  unfold covered_area. induction ms as [|m ms IH]; simpl.
  - unfold Qdiv. ring.
  - rewrite IH. unfold Qdiv. ring.
Qed.

End Conservation.

(** ** Rounding to the nearest float *)

Section Rounding.
Import Binary64.
Local Open Scope Q_scope.

Lemma pow2_pos (e : Z) : 0 < pow2 e.
Proof. apply Qpower_0_lt. reflexivity. Qed.

Lemma pow2_plus (a b : Z) : pow2 (a + b) == pow2 a * pow2 b.
Proof. apply Qpower_plus. discriminate. Qed.

Lemma pow2_le (a b : Z) : (a <= b)%Z -> pow2 a <= pow2 b.
Proof. intros H. apply Qpower_le_compat_l; [exact H | discriminate]. Qed.

Lemma pow2_lt (a b : Z) : (a < b)%Z -> pow2 a < pow2 b.
Proof. intros H. apply Qpower_lt_compat_l; [exact H | reflexivity]. Qed.

Lemma pow2_lt_inv (a b : Z) : pow2 a < pow2 b -> (a < b)%Z.
Proof. intros H. eapply Qpower_lt_compat_l_inv; [exact H | reflexivity]. Qed.

Lemma pow2_succ (e : Z) : pow2 (e + 1) == 2 * pow2 e.
Proof. rewrite pow2_plus. change (pow2 1) with 2. ring. Qed.

Lemma pow2_inject (e : Z) : (0 <= e)%Z -> pow2 e == inject_Z (2 ^ e).
Proof. intros H. unfold pow2. rewrite Zpower_Qpower by exact H. reflexivity. Qed.

Lemma ilog2_spec (a : Q) : 0 < a -> pow2 (ilog2 a) <= a < pow2 (ilog2 a + 1).
Proof.
  intros Ha. destruct a as [n d]. unfold ilog2. cbn [Qnum Qden].
  assert (0 < n)%Z as Hn by (unfold Qlt in Ha; simpl in Ha; lia).
  set (ln := Z.log2 n). set (ld := Z.log2 (Z.pos d)).
  assert (0 <= ln)%Z as Hln0 by apply Z.log2_nonneg.
  assert (0 <= ld)%Z as Hld0 by apply Z.log2_nonneg.
  pose proof (Z.log2_spec n Hn) as [Hn1 Hn2]. fold ln in Hn1, Hn2.
  pose proof (Z.log2_spec (Z.pos d) eq_refl) as [Hd1 Hd2]. fold ld in Hd1, Hd2.
  assert (pow2 ln <= inject_Z n) as HX1
      by (rewrite pow2_inject by exact Hln0; rewrite <- Zle_Qle; exact Hn1).
  assert (inject_Z n < 2 * pow2 ln) as HX2.
  { rewrite <- pow2_succ, pow2_inject by lia. rewrite <- Zlt_Qlt.
    replace (ln + 1)%Z with (Z.succ ln) by lia. exact Hn2. }
  assert (pow2 ld <= inject_Z (Z.pos d)) as HY1
      by (rewrite pow2_inject by exact Hld0; rewrite <- Zle_Qle; exact Hd1).
  assert (inject_Z (Z.pos d) < 2 * pow2 ld) as HY2.
  { rewrite <- pow2_succ, pow2_inject by lia. rewrite <- Zlt_Qlt.
    replace (ld + 1)%Z with (Z.succ ld) by lia. exact Hd2. }
  pose proof (pow2_pos ln) as HXp. pose proof (pow2_pos ld) as HYp.
  assert (n # d == inject_Z n / inject_Z (Z.pos d)) as Hq by apply Qmake_Qdiv.
  assert (0 < inject_Z (Z.pos d)) as HD by (change 0 with (inject_Z 0); rewrite <- Zlt_Qlt; lia).
  assert (pow2 (ln - ld) * pow2 ld == pow2 ln) as He.
  { rewrite <- pow2_plus. replace (ln - ld + ld)%Z with ln by lia. reflexivity. }
  set (E := pow2 (ln - ld)) in *.
  assert (0 < E) as HE by apply pow2_pos.
  set (N := inject_Z n) in *. set (D := inject_Z (Z.pos d)) in *.
  set (X := pow2 ln) in *. set (Y := pow2 ld) in *.
  assert ((n # d) * D == N) as Hmul.
  { rewrite Hq. field. lra. }
  set (A := n # d) in *.
  assert (0 < A) as HA by exact Ha.
  destruct (Qle_bool E A) eqn:Hle.
  - apply Qle_bool_iff in Hle. split; [exact Hle|].
    rewrite pow2_succ. fold E.
    (* A * D = N < 2 X = 2 E Y <= 2 E D *)
    apply Qnot_le_lt. intros Hc. nra.
  - assert (A < E) as Hlt.
    { apply Qnot_le_lt. intros Hc. apply Qle_bool_iff in Hc. congruence. }
    replace (ln - ld - 1 + 1)%Z with (ln - ld)%Z by lia. fold E.
    split; [|exact Hlt].
    assert (2 * pow2 (ln - ld - 1) == E) as Hhalf.
    { rewrite <- pow2_succ. replace (ln - ld - 1 + 1)%Z with (ln - ld)%Z by lia.
      reflexivity. }
    set (E' := pow2 (ln - ld - 1)) in *.
    apply Qnot_lt_le. intros Hc. nra.
Qed.

Lemma ilog2_unique (a : Q) (e : Z) :
  pow2 e <= a < pow2 (e + 1) -> ilog2 a = e.
Proof.
  intros [H1 H2].
  assert (0 < a) as Ha by (pose proof (pow2_pos e); lra).
  destruct (ilog2_spec a Ha) as [H3 H4].
  assert (pow2 (ilog2 a) < pow2 (e + 1)) as H5 by lra.
  assert (pow2 e < pow2 (ilog2 a + 1)) as H6 by lra.
  apply pow2_lt_inv in H5, H6. lia.
Qed.

Lemma nearest_even_spec (x : Q) :
  x - (1 # 2) <= inject_Z (nearest_even x) <= x + (1 # 2).
Proof.
  unfold nearest_even.
  pose proof (Qfloor_le x) as Hlo. pose proof (Qlt_floor x) as Hhi.
  rewrite inject_Z_plus in Hhi. change (inject_Z 1) with 1 in Hhi.
  destruct (Qcompare (x - inject_Z (Qfloor x)) (1 # 2)) eqn:Hc.
  - apply Qeq_alt in Hc.
    destruct (Z.even (Qfloor x)); [|rewrite inject_Z_plus; change (inject_Z 1) with 1]; lra.
  - apply Qlt_alt in Hc. lra.
  - apply Qgt_alt in Hc. rewrite inject_Z_plus. change (inject_Z 1) with 1. lra.
Qed.

Lemma nearest_even_proper (x y : Q) : x == y -> nearest_even x = nearest_even y.
Proof.
  intros H. unfold nearest_even. rewrite (Qfloor_comp _ _ H).
  assert (Qcompare (x - inject_Z (Qfloor y)) (1 # 2)
          = Qcompare (y - inject_Z (Qfloor y)) (1 # 2)) as ->
      by (apply Qcompare_comp; [rewrite H|]; reflexivity).
  reflexivity.
Qed.

Lemma nearest_even_int (x : Q) (k : Z) : x == inject_Z k -> nearest_even x = k.
Proof.
  intros H. rewrite (nearest_even_proper _ _ H). unfold nearest_even.
  rewrite Qfloor_Z.
  assert (inject_Z k - inject_Z k < 1 # 2) as Hlt.
  { setoid_replace (inject_Z k - inject_Z k) with 0 using relation Qeq by ring. reflexivity. }
  assert (Qcompare (inject_Z k - inject_Z k) (1 # 2) = Lt) as ->
      by exact (proj1 (Qlt_alt _ _) Hlt).
  reflexivity.
Qed.

Lemma nearest_even_between (x : Q) (lo hi : Z) :
  inject_Z lo <= x -> x <= inject_Z hi -> (lo <= nearest_even x <= hi)%Z.
Proof.
  intros Hlo Hhi.
  destruct (Qeq_dec x (inject_Z hi)) as [Heq|Hne].
  - rewrite (nearest_even_int _ _ Heq). split; [|lia].
    rewrite Zle_Qle. lra.
  - assert (x < inject_Z hi) as Hlt by lra.
    pose proof (Qfloor_resp_le _ _ Hlo) as H1. rewrite Qfloor_Z in H1.
    assert (Qfloor x < hi)%Z as H2.
    { rewrite Zlt_Qlt. pose proof (Qfloor_le x). lra. }
    unfold nearest_even.
    destruct (Qcompare _ _); [destruct (Z.even _)| |]; lia.
Qed.

Lemma u_pos : 0 < u.
Proof. apply pow2_pos. Qed.

Lemma u_small : u <= 1 # 1000000.
Proof. unfold Qle. vm_compute. discriminate. Qed.

(** Rounding a number of the normal range: the result is finite and its
    relative error is at most [u]. *)
Lemma round_pos_normal (a : Q) :
  pow2 (-1022) <= a <= pow2 1023 ->
  exists r, round_pos a = Num r /\ a * (1 - u) <= r <= a * (1 + u).
Proof.
  intros [Hlo Hhi].
  assert (0 < a) as Ha by (pose proof (pow2_pos (-1022)); lra).
  destruct (ilog2_spec a Ha) as [He1 He2].
  assert (-1022 <= ilog2 a)%Z as Hemin.
  { assert (pow2 (-1022) < pow2 (ilog2 a + 1)) as H by lra.
    apply pow2_lt_inv in H. lia. }
  unfold round_pos. rewrite Z.max_l by lia.
  set (e := ilog2 a) in *. set (ulp := pow2 (e - 52)).
  assert (0 < ulp) as Hulp by apply pow2_pos.
  pose proof (nearest_even_spec (a / ulp)) as [Hm1 Hm2].
  set (m := inject_Z (nearest_even (a / ulp))) in *.
  assert (2 * (u * pow2 e) == ulp) as Hu.
  { unfold u, ulp. rewrite <- pow2_plus, <- pow2_succ.
    replace (-53 + e + 1)%Z with (e - 52)%Z by lia. reflexivity. }
  assert (a - ulp * (1 # 2) <= m * ulp <= a + ulp * (1 # 2)) as [Hr1 Hr2].
  { assert (a / ulp * ulp == a) as Hd by (field; lra).
    split.
    - setoid_replace (a - ulp * (1 # 2)) with ((a / ulp - (1 # 2)) * ulp)
        using relation Qeq by (rewrite <- Hd at 1; ring).
      apply Qmult_le_compat_r; lra.
    - setoid_replace (a + ulp * (1 # 2)) with ((a / ulp + (1 # 2)) * ulp)
        using relation Qeq by (rewrite <- Hd at 1; ring).
      apply Qmult_le_compat_r; lra. }
  pose proof u_pos as Hup. pose proof u_small as Hus.
  assert (u * pow2 e <= u * a) as Hua by (apply Qmult_le_l; assumption).
  assert (a * (1 - u) <= m * ulp <= a * (1 + u)) as Hr by (split; lra).
  destruct (Qle_bool (pow2 1024) (m * ulp)) eqn:Hover.
  - apply Qle_bool_iff in Hover. exfalso.
    assert (pow2 1024 == 2 * pow2 1023) as H24 by (rewrite <- pow2_succ; reflexivity).
    pose proof (pow2_pos 1023).
    assert (u * a <= u * pow2 1023) as H3 by (apply Qmult_le_l; assumption).
    nra.
  - exists (Qred (m * ulp)). split; [reflexivity|]. rewrite Qred_correct. exact Hr.
Qed.

Lemma round_pos_proper (a b : Q) : 0 < a -> a == b -> round_pos a = round_pos b.
Proof.
  intros Ha Hab.
  assert (ilog2 b = ilog2 a) as He.
  { apply ilog2_unique. rewrite <- Hab. apply ilog2_spec, Ha. }
  unfold round_pos. rewrite He.
  set (ulp := pow2 (Z.max (ilog2 a) (-1022) - 52)).
  rewrite (nearest_even_proper (b / ulp) (a / ulp)) by (rewrite Hab; reflexivity).
  reflexivity.
Qed.

Lemma Qred_Qred (q : Q) : Qred (Qred q) = Qred q.
Proof. apply Qred_complete, Qred_correct. Qed.

Lemma Qle_bool_false (a b : Q) : b < a -> Qle_bool a b = false.
Proof.
  intros H. destruct (Qle_bool a b) eqn:Hb; [|reflexivity].
  apply Qle_bool_iff in Hb. lra.
Qed.

(** A number that has the form of a float is left as it is. *)
Lemma round_pos_exact (r : Q) (e k : Z) :
  (-1022 <= e)%Z -> pow2 e <= r < pow2 (e + 1) ->
  r == inject_Z k * pow2 (e - 52) -> r < pow2 1024 ->
  round_pos r = Num (Qred r).
Proof.
  intros He Hr Hk Hmax. unfold round_pos.
  rewrite (ilog2_unique r e Hr), Z.max_l by lia.
  set (ulp := pow2 (e - 52)) in *.
  assert (0 < ulp) as Hulp by apply pow2_pos.
  rewrite (nearest_even_int (r / ulp) k) by (rewrite Hk; field; lra).
  rewrite Qle_bool_false by (rewrite <- Hk; exact Hmax).
  f_equal. apply Qred_complete. symmetry. exact Hk.
Qed.

Lemma round_pos_idem (a r : Q) :
  pow2 (-1022) <= a <= pow2 1023 -> round_pos a = Num r -> round_pos r = Num r.
Proof.
  intros [Hlo Hhi] Hround.
  assert (0 < a) as Ha by (pose proof (pow2_pos (-1022)); lra).
  destruct (ilog2_spec a Ha) as [He1 He2].
  assert (-1022 <= ilog2 a)%Z as Hemin.
  { assert (pow2 (-1022) < pow2 (ilog2 a + 1)) as H by lra.
    apply pow2_lt_inv in H. lia. }
  unfold round_pos in Hround. rewrite Z.max_l in Hround by lia.
  set (e := ilog2 a) in *. set (ulp := pow2 (e - 52)) in *.
  assert (0 < ulp) as Hulp by apply pow2_pos.
  assert (inject_Z (2 ^ 52) * ulp == pow2 e) as H52.
  { rewrite <- pow2_inject by lia. unfold ulp. rewrite <- pow2_plus.
    replace (52 + (e - 52))%Z with e by lia. reflexivity. }
  assert (inject_Z (2 ^ 53) * ulp == pow2 (e + 1)) as H53.
  { rewrite <- pow2_inject by lia. unfold ulp. rewrite <- pow2_plus.
    replace (53 + (e - 52))%Z with (e + 1)%Z by lia. reflexivity. }
  assert (2 ^ 52 <= nearest_even (a / ulp) <= 2 ^ 53)%Z as Hm.
  { apply nearest_even_between.
    - apply Qle_shift_div_l; [exact Hulp | lra].
    - apply Qle_shift_div_r; [exact Hulp | lra]. }
  set (m := nearest_even (a / ulp)) in *.
  set (x := Qred (inject_Z m * ulp)) in Hround.
  destruct (Qle_bool (pow2 1024) (inject_Z m * ulp)) eqn:Hover; [discriminate|].
  assert (r = x) as Hr by congruence.
  assert (inject_Z m * ulp < pow2 1024) as Hmax.
  { apply Qnot_le_lt. intros Hc. apply Qle_bool_iff in Hc. congruence. }
  assert (r == inject_Z m * ulp) as Hx by (rewrite Hr; apply Qred_correct).
  assert (Qred r = r) as Hrr by (rewrite Hr; apply Qred_Qred).
  clearbody x. clear Hround Hr x.
  transitivity (Num (Qred r)); [|f_equal; exact Hrr].
  destruct (Z.eq_dec m (2 ^ 53)%Z) as [Hm53 | Hm53].
  - rewrite Hm53, H53 in Hx.
    apply (round_pos_exact r (e + 1)%Z (2 ^ 52)%Z).
    + lia.
    + rewrite Hx. split; [lra|]. apply pow2_lt. lia.
    + rewrite Hx. rewrite <- pow2_inject, <- pow2_plus by lia.
      replace (52 + (e + 1 - 52))%Z with (e + 1)%Z by lia. reflexivity.
    + rewrite Hx. rewrite <- H53, <- Hm53. exact Hmax.
  - apply (round_pos_exact r e m).
    + lia.
    + rewrite Hx, <- H52, <- H53. split.
      * apply Qmult_le_compat_r; [rewrite <- Zle_Qle; lia | lra].
      * apply Qmult_lt_compat_r; [exact Hulp | rewrite <- Zlt_Qlt; lia].
    + exact Hx.
    + rewrite Hx. exact Hmax.
Qed.

Lemma rnd_zero (q : Q) : q == 0 -> rnd q = Num 0.
Proof.
  intros H. unfold rnd.
  assert (Qcompare q 0 = Eq) as -> by exact (proj1 (Qeq_alt _ _) H).
  reflexivity.
Qed.

Lemma rnd_pos (q : Q) : 0 < q -> rnd q = round_pos q.
Proof.
  intros H. unfold rnd.
  assert (Qcompare q 0 = Gt) as -> by exact (proj1 (Qgt_alt _ _) H).
  reflexivity.
Qed.

Lemma rnd_neg (q : Q) : q < 0 -> rnd q = fneg (round_pos (- q)).
Proof.
  intros H. unfold rnd.
  assert (Qcompare q 0 = Lt) as -> by exact (proj1 (Qlt_alt _ _) H).
  reflexivity.
Qed.

Lemma rnd_proper (x y : Q) : x == y -> rnd x = rnd y.
Proof.
  intros H. unfold rnd. rewrite (Qcompare_comp x y H 0 0 (Qeq_refl 0)).
  destruct (Qcompare y 0) eqn:Hc.
  - reflexivity.
  - apply Qlt_alt in Hc. f_equal. apply round_pos_proper; [|rewrite H; reflexivity].
    rewrite H. lra.
  - apply Qgt_alt in Hc. apply round_pos_proper; [|exact H]. rewrite H. exact Hc.
Qed.

(** Rounding a number of the normal range: the result is finite, has the
    form of a float, and its relative error is at most [u]. *)
Lemma rnd_normal (q : Q) :
  normal q ->
  exists r, rnd q = Num r /\ representable r /\ Qabs (r - q) <= u * Qabs q.
Proof.
  intros [Hlo Hhi]. pose proof (pow2_pos (-1022)) as Hp.
  pose proof u_pos as Hu. pose proof u_small as Hus.
  destruct (Qlt_le_dec q 0) as [Hneg | Hpos].
  - rewrite Qabs_neg in Hlo, Hhi by lra.
    destruct (round_pos_normal (- q) (conj Hlo Hhi)) as (r & Hr & Hb1 & Hb2).
    exists (- r). rewrite (rnd_neg q Hneg), Hr. split; [reflexivity|].
    assert (0 < r) as Hrpos by nra.
    split.
    + unfold representable. rewrite rnd_neg by lra.
      rewrite (round_pos_proper (- - r) r) by (try ring; lra).
      rewrite (round_pos_idem (- q) r (conj Hlo Hhi) Hr). reflexivity.
    + rewrite (Qabs_neg q) by lra. apply Qabs_Qle_condition. split; nra.
  - assert (0 < q) as Hq.
    { destruct (Qeq_dec q 0) as [H0|H0]; [|lra].
      rewrite H0 in Hlo. change (Qabs 0) with 0 in Hlo. lra. }
    rewrite Qabs_pos in Hlo, Hhi by lra.
    destruct (round_pos_normal q (conj Hlo Hhi)) as (r & Hr & Hb1 & Hb2).
    exists r. rewrite (rnd_pos q Hq), Hr. split; [reflexivity|].
    assert (0 < r) as Hrpos by nra.
    split.
    + unfold representable. rewrite rnd_pos by exact Hrpos.
      apply (round_pos_idem q r (conj Hlo Hhi) Hr).
    + rewrite (Qabs_pos q) by lra. apply Qabs_Qle_condition. split; nra.
Qed.

Lemma representable_zero : representable 0.
Proof. reflexivity. Qed.

(** The sum of a group of one row is the value of that row. *)
Lemma group_sum_one (p : Q) : representable p -> group_sum [Num p] = Num p.
Proof.
  intros Hp. unfold group_sum. cbn [foldl kahan_step is_nan fst].
  unfold fsub, fadd. cbn [fneg].
  assert (rnd (p + Qopp 0) = Num p) as Hy
      by (rewrite (rnd_proper _ p) by ring; exact Hp).
  rewrite Hy.
  assert (rnd (0 + p) = Num p) as Ht by (rewrite (rnd_proper _ p) by ring; exact Hp).
  rewrite Ht. reflexivity.
Qed.
End Rounding.

(** * Further properties of the notebooks' code *)

(** ** Which texts are selected, for every [max_records] *)

Section Selection.
Import Py NLP.

Lemma slice_to_take {A} (l : list A) (n : Z) :
  slice_to l n = take (Z.to_nat (clamp (len l) n)) l.
Proof.
  unfold slice_to, slice.
  assert (clamp (len l) 0 = 0) as ->.
  { unfold clamp, len. simpl. lia. }
  rewrite Z.sub_0_r. simpl. rewrite drop_0. reflexivity.
Qed.

Lemma clamp_count {A} (l : list A) (n : Z) :
  Z.to_nat (clamp (len l) n) = spacy_selected (Some n) (length l).
Proof.
  unfold clamp, spacy_selected, len.
  destruct (n <? 0) eqn:Hn.
  - apply Z.ltb_lt in Hn. lia.
  - apply Z.ltb_ge in Hn. lia.
Qed.

Lemma spacy_select_any articles text_key max_records :
  let all := with_text text_key (enumerate articles) in
  let k := spacy_selected max_records (length all) in
  Spacy.select_texts articles text_key max_records
  = (map (text_at text_key) (take k all), map fst (take k all)).
Proof.
  intros all k. destruct max_records as [n|].
  - pose proof (spacy_select_unlimited articles text_key) as Hu.
    unfold Spacy.select_texts in *. injection Hu as Ht.
    rewrite Ht, !slice_to_take, !clamp_count. fold all.
    rewrite !length_map. fold k. rewrite !firstn_map. reflexivity.
  - rewrite spacy_select_unlimited. fold all. unfold k. simpl.
    rewrite take_ge by lia. reflexivity.
Qed.

Lemma collect_first_only items text_key n texts art_ids :
  n < 0 ->
  HF.collect items text_key (Some n) texts art_ids
  = (texts ++ take 1 (map (text_at text_key) (with_text text_key items)),
     art_ids ++ take 1 (map fst (with_text text_key items))).
Proof.
  intros Hn. revert texts art_ids.
  induction items as [|[i art] items IH]; intros texts art_ids; simpl.
  - rewrite !app_nil_r. reflexivity.
  - destruct (truthy (get art text_key)) eqn:Ht; simpl; [|apply IH].
    destruct (n =? 0) eqn:H0; [apply Z.eqb_eq in H0; lia|]. simpl.
    destruct (n <=? len (texts ++ [str_of (get art text_key)])) eqn:Hle.
    + rewrite !take_0. reflexivity.
    + apply Z.leb_gt in Hle. unfold len in Hle. lia.
Qed.

Lemma collect_zero items text_key texts art_ids :
  HF.collect items text_key (Some 0) texts art_ids
  = HF.collect items text_key None texts art_ids.
Proof.
  revert texts art_ids.
  induction items as [|[i art] items IH]; intros texts art_ids; simpl.
  - reflexivity.
  - destruct (truthy (get art text_key)); simpl; apply IH.
Qed.

Lemma hf_select_any articles text_key max_records :
  let all := with_text text_key (enumerate articles) in
  let k := hf_selected max_records (length all) in
  HF.select_texts articles text_key max_records
  = (map (text_at text_key) (take k all), map fst (take k all)).
Proof.
  intros all k. destruct max_records as [n|].
  - unfold k, hf_selected.
    destruct (n =? 0) eqn:H0.
    + apply Z.eqb_eq in H0. subst n. unfold HF.select_texts.
      rewrite collect_zero. fold (HF.select_texts articles text_key None).
      rewrite hf_select_unlimited. fold all.
      rewrite take_ge by lia. reflexivity.
    + apply Z.eqb_neq in H0. destruct (n <? 0) eqn:Hneg.
      * apply Z.ltb_lt in Hneg. unfold HF.select_texts.
        rewrite collect_first_only by exact Hneg. fold all. simpl.
        rewrite <- !firstn_map.
        destruct all as [|x all']; [reflexivity|].
        destruct all'; reflexivity.
      * apply Z.ltb_ge in Hneg. rewrite hf_select_limited by lia. fold all.
        rewrite <- !firstn_map.
        destruct (Nat.le_gt_cases (Z.to_nat n) (length all)) as [Hle|Hgt].
        -- rewrite Nat.min_l by exact Hle. reflexivity.
        -- rewrite Nat.min_r by lia.
           rewrite !(take_ge _ (Z.to_nat n)) by (rewrite ?length_map; lia).
           rewrite !take_ge by (rewrite ?length_map; lia). reflexivity.
  - rewrite hf_select_unlimited. fold all. unfold k. simpl.
    rewrite take_ge by lia. reflexivity.
Qed.

(** X1: for every [max_records], also zero and negative ones, the spaCy
    version selects a prefix of the articles with text: all of them without
    a limit, the first [n] for a limit [n >= 0], all but the last [-n] for a
    negative limit (a slice bound counted from the end). *)
Theorem spacy_selects_prefix (articles : list article) (text_key : string)
        (max_records : option Z) :
  let all := with_text text_key (enumerate articles) in
  let k := spacy_selected max_records (length all) in
  Spacy.select_texts articles text_key max_records
  = (map (text_at text_key) (take k all), map fst (take k all)).
Proof. apply spacy_select_any. Qed.

(** X2: for every [max_records] the Hugging Face version selects a prefix
    of the articles with text too, but reads the limit differently: zero is
    no limit, and a negative limit ends the loop after the first text. *)
Theorem hf_selects_prefix (articles : list article) (text_key : string)
        (max_records : option Z) :
  let all := with_text text_key (enumerate articles) in
  let k := hf_selected max_records (length all) in
  HF.select_texts articles text_key max_records
  = (map (text_at text_key) (take k all), map fst (take k all)).
Proof. apply hf_select_any. Qed.

Lemma sorted_filter {A B} (R : B -> B -> Prop) (f : A -> B) (P : A -> bool) (l : list A) :
  StronglySorted R (map f l) -> StronglySorted R (map f (List.filter P l)).
Proof.
  induction l as [|x l IH]; simpl; intros Hs; [constructor|].
  apply StronglySorted_inv in Hs as [Hs Hx].
  destruct (P x); simpl; [|apply IH; exact Hs].
  constructor; [apply IH; exact Hs|].
  rewrite Forall_forall in Hx. apply Forall_forall. intros y Hy.
  apply Hx. apply list_elem_of_In in Hy. apply list_elem_of_In.
  apply in_map_iff in Hy as (z & <- & Hz). apply filter_In in Hz as [Hz _].
  apply in_map. exact Hz.
Qed.

Lemma sorted_take {B} (R : B -> B -> Prop) (k : nat) (l : list B) :
  StronglySorted R l -> StronglySorted R (take k l).
Proof.
  revert k. induction l as [|x l IH]; intros [|k] Hs; simpl; try constructor.
  - apply IH. apply StronglySorted_inv in Hs. apply Hs.
  - apply StronglySorted_inv in Hs as [_ Hx].
    rewrite Forall_forall in Hx. apply Forall_forall. intros y Hy.
    apply Hx. apply list_elem_of_In in Hy. apply list_elem_of_In.
    rewrite <- (take_drop k l). apply in_or_app. left. exact Hy.
Qed.

Lemma imap_positions_sorted {A} (l : list A) (off : nat) :
  StronglySorted Z.lt (map fst (imap (fun i a => (Z.of_nat (off + i), a)) l)).
Proof.
  revert off. induction l as [|a l IH]; intros off; simpl; [constructor|].
  constructor.
  - specialize (IH (S off)).
    erewrite imap_ext; [exact IH|]. intros i x _. simpl. f_equal. f_equal. lia.
  - apply Forall_forall. intros y Hy. apply list_elem_of_In in Hy.
    apply in_map_iff in Hy as ([j b] & <- & Hjb). apply list_elem_of_In in Hjb.
    apply elem_of_lookup_imap in Hjb as (i & x & Heq & _).
    injection Heq as -> _. simpl. lia.
Qed.

Lemma enumerate_sorted {A} (l : list A) :
  StronglySorted Z.lt (map fst (enumerate l)).
Proof. apply (imap_positions_sorted l 0). Qed.

Lemma Forall2_map_same {A B C} (P : B -> C -> Prop) (f : A -> B) (h : A -> C)
      (l : list A) :
  (forall x, In x l -> P (f x) (h x)) -> Forall2 P (map f l) (map h l).
Proof.
  induction l as [|x l IH]; intros H; simpl; constructor.
  - apply H. left. reflexivity.
  - apply IH. intros y Hy. apply H. right. exact Hy.
Qed.

Lemma prefix_well_formed (articles : list article) (text_key : string) (k : nat) :
  let sel := take k (with_text text_key (enumerate articles)) in
  Forall2 (selected_from articles text_key) (map fst sel) (map (text_at text_key) sel)
  /\ StronglySorted Z.lt (map fst sel).
Proof.
  intros sel. split.
  - apply Forall2_map_same. intros [i a] Hin. unfold selected_from, text_at. simpl.
    assert (In (i, a) (with_text text_key (enumerate articles))) as Hin'.
    { rewrite <- (take_drop k (with_text text_key (enumerate articles))).
      apply in_or_app. left. exact Hin. }
    unfold with_text in Hin'. apply filter_In in Hin' as [Hin' Ht]. simpl in Ht.
    apply enumerate_lookup in Hin' as [Hi Ha].
    split; [exact Hi|]. exists a. split; [exact Ha|].
    destruct (get a text_key) as [|s]; [discriminate|]. simpl in *.
    split; [reflexivity|]. intros ->. discriminate.
  - unfold sel. rewrite <- firstn_map. apply sorted_take.
    apply sorted_filter. apply enumerate_sorted.
Qed.

(** X3: whatever [max_records] is, in both versions the selected texts and
    article positions are aligned: the j-th position is the place in the
    input of an article whose text under [text_key] is the j-th text, this
    text is not empty, and the positions increase strictly. *)
Theorem selection_well_formed (articles : list article) (text_key : string)
        (max_records : option Z) :
  (Forall2 (selected_from articles text_key)
           (snd (Spacy.select_texts articles text_key max_records))
           (fst (Spacy.select_texts articles text_key max_records))
   /\ StronglySorted Z.lt (snd (Spacy.select_texts articles text_key max_records)))
  /\ (Forall2 (selected_from articles text_key)
              (snd (HF.select_texts articles text_key max_records))
              (fst (HF.select_texts articles text_key max_records))
      /\ StronglySorted Z.lt (snd (HF.select_texts articles text_key max_records))).
Proof.
  split.
  - rewrite spacy_select_any. simpl. apply prefix_well_formed.
  - rewrite hf_select_any. simpl. apply prefix_well_formed.
Qed.
End Selection.

(** ** The calls a computation makes *)

Section CallsOnly.
Context {E : Type -> Type} `{RT : Runtime E}.
Context (P : logged E -> Prop).

Lemma calls_only_ret {A} (a : A) : calls_only P (ret a).
Proof. intros g. constructor. Qed.

Lemma calls_only_raise {A} (e : exn) : calls_only P (raise (A := A) e).
Proof. intros g. constructor. Qed.

Lemma calls_only_call {X} (c : E X) :
  (forall failure, P (Log c failure)) -> calls_only P (call c).
Proof.
  intros Hc g. unfold call.
  destruct (perform c g) as [[x|e] g']; simpl; repeat constructor; apply Hc.
Qed.

Lemma calls_only_bind {A B} (m : M E A) (f : A -> M E B) :
  calls_only P m -> (forall a, calls_only P (f a)) -> calls_only P (bind m f).
Proof.
  intros Hm Hf g. specialize (Hm g).
  destruct (value (m g)) as [a|e] eqn:Hv.
  - rewrite (bind_ok _ _ _ _ Hv). simpl. apply Forall_app. split; [exact Hm | apply Hf].
  - rewrite (bind_raised _ _ _ _ Hv). simpl. exact Hm.
Qed.

Lemma calls_only_for_each {A S} (xs : list A) (body : S -> A -> M E S) acc :
  (forall acc x, In x xs -> calls_only P (body acc x)) ->
  calls_only P (for_each xs body acc).
Proof.
  revert acc. induction xs as [|x xs IH]; intros acc Hbody; simpl.
  - apply calls_only_ret.
  - apply calls_only_bind.
    + apply Hbody. left. reflexivity.
    + intros acc'. apply IH. intros acc'' y Hy. apply Hbody. right. exact Hy.
Qed.

Lemma calls_only_comprehension {A B} (f : A -> M E B) (xs : list A) :
  (forall x, In x xs -> calls_only P (f x)) -> calls_only P (comprehension f xs).
Proof.
  induction xs as [|x xs IH]; intros Hf; simpl.
  - apply calls_only_ret.
  - apply calls_only_bind; [apply Hf; left; reflexivity|]. intros y.
    apply calls_only_bind.
    + apply IH. intros z Hz. apply Hf. right. exact Hz.
    + intros ys. apply calls_only_ret.
Qed.
End CallsOnly.

(** ** The batches of the Hugging Face [extract_people] *)

Section BatchFacts.
Import Py NLP.

Lemma range_start_bounds (n step : Z) (starts : list Z) (start : Z) :
  0 < step -> range 0 n step = Some starts -> In start starts ->
  0 <= start < n.
Proof.
  intros Hs Hr Hin. rewrite range_positive in Hr by exact Hs. injection Hr as <-.
  apply in_map_iff in Hin as (i & <- & Hi). apply in_seq in Hi.
  destruct (Z.le_gt_cases ((n + step - 1) / step) 0) as [Hle|Hgt]; [lia|].
  pose proof (Z.mul_div_le (n + step - 1) step Hs) as Hmul.
  split; [nia|].
  assert (Z.of_nat i + 1 <= (n + step - 1) / step) as Hi' by lia.
  nia.
Qed.

Lemma batch_length {A} (l : list A) (start step : Z) :
  0 < step -> 0 <= start < len l ->
  0 < len (slice l start (start + step)) <= step.
Proof.
  intros Hs Hst. rewrite slice_nonneg by lia. unfold len in *.
  rewrite length_take, length_drop. lia.
Qed.

Lemma range_negative_step (n step : Z) :
  step < 0 -> 0 <= n -> range 0 n step = Some [].
Proof.
  intros Hs Hn. unfold range, range_len.
  destruct (step =? 0) eqn:H0; [apply Z.eqb_eq in H0; lia|].
  destruct (0 <? step) eqn:H1; [apply Z.ltb_lt in H1; lia|].
  assert ((0 - n - step - 1) / - step <= 0) as Hq.
  { apply Z.lt_succ_r. apply Z.div_lt_upper_bound; lia. }
  rewrite Z.max_l by lia. reflexivity.
Qed.

Lemma hf_extract_people_calls `{RT : Runtime nlp_ev} (texts : texts_arg)
      (batch_size stride : Z) (show_progress : bool) :
  0 < batch_size ->
  calls_only (ner_batch batch_size stride)
             (HF.extract_people texts batch_size stride show_progress).
Proof.
  intros Hb. unfold HF.extract_people.
  set (l := match texts with OneStr s => [s] | StrList l => l end).
  destruct (range 0 (len l) batch_size) as [starts|] eqn:Hr;
    [|apply calls_only_raise].
  apply calls_only_for_each. intros acc start Hin.
  apply calls_only_bind; [|intros; apply calls_only_ret].
  apply calls_only_call. intros failure. simpl.
  split; [reflexivity|]. split; [|reflexivity].
  apply batch_length; [exact Hb|].
  eapply range_start_bounds; eassumption.
Qed.

(** X4: whatever the runtime does, with a positive [batch_size] every call
    the Hugging Face [extract_people] makes is a call of the NER pipeline on
    a batch that is not empty and holds at most [batch_size] texts, with the
    length of the batch passed as batch size; run on models it makes
    [ceil(len(texts) / batch_size)] such calls. *)
Theorem hf_extract_people_batches (texts : list string) (batch_size stride : Z)
        (show_progress : bool) :
  0 < batch_size ->
  (forall (RT : Runtime nlp_ev) g,
      Forall (ner_batch batch_size stride)
             (trace (HF.extract_people (StrList texts) batch_size stride
                                       show_progress g)))
  /\ (forall (md : models) (g : list string),
        length (trace (HF.extract_people (RT := model_runtime md) (StrList texts)
                                         batch_size stride show_progress g))
        = batches_needed (len texts) batch_size).
Proof.
  intros Hb. split.
  - intros RT g. apply hf_extract_people_calls. exact Hb.
  - intros md g.
    rewrite (hf_extract_people_run md texts batch_size stride show_progress _ g Hb
               (range_positive (len texts) batch_size Hb)).
    simpl. unfold ner_calls. rewrite !length_map, length_seq. reflexivity.
Qed.

Lemma hf_extract_people_batches_witness :
  0 < 2
  /\ length (trace (HF.extract_people (RT := model_runtime sample_models)
                      (StrList ["a"; "b"; "c"; "d"; "e"]) 2 128 true []))
     = 3%nat.
Proof.
  split; [lia|].
  exact (proj2 (hf_extract_people_batches ["a"; "b"; "c"; "d"; "e"] 2 128 true
                  ltac:(lia)) sample_models []).
Defined.

(** X5: a [batch_size] that is not positive never reaches the model.  With
    zero the Hugging Face [extract_people] raises [ValueError] (from
    [range]) on any input, an empty one too; with a negative one it returns
    the empty list, losing every text.  No library call is made and the
    global state is left alone. *)
Theorem hf_extract_people_bad_batch_size (RT : Runtime nlp_ev) (texts : texts_arg)
        (batch_size stride : Z) (show_progress : bool) g :
  batch_size <= 0 ->
  trace (HF.extract_people texts batch_size stride show_progress g) = []
  /\ final (HF.extract_people texts batch_size stride show_progress g) = g
  /\ value (HF.extract_people texts batch_size stride show_progress g)
     = if batch_size =? 0
       then Raised (ValueError "range() arg 3 must not be zero")
       else Ok [].
Proof.
  intros Hb. unfold HF.extract_people.
  set (l := match texts with OneStr s => [s] | StrList l => l end).
  destruct (batch_size =? 0) eqn:H0.
  - apply Z.eqb_eq in H0. subst batch_size. simpl. auto.
  - apply Z.eqb_neq in H0.
    rewrite range_negative_step by (unfold len; lia). simpl. auto.
Qed.

Lemma hf_extract_people_bad_batch_size_witness :
  (-4) <= 0
  /\ value (HF.extract_people (RT := model_runtime sample_models)
              (StrList ["Ada Lovelace"; "Grace Hopper"]) (-4) 128 true [])
     = Ok [].
Proof.
  split; [lia|].
  exact (proj2 (proj2 (hf_extract_people_bad_batch_size (model_runtime sample_models)
                         (StrList ["Ada Lovelace"; "Grace Hopper"]) (-4) 128 true []
                         ltac:(lia)))).
Defined.
End BatchFacts.

(** ** What a computation returns *)

Section ReturnsOnly.
Context {E : Type -> Type} `{RT : Runtime E}.

Lemma returns_only_ret {A} (Q : A -> Prop) (a : A) : Q a -> returns_only Q (ret a).
Proof. intros Ha g. exact Ha. Qed.

Lemma returns_only_raise {A} (Q : A -> Prop) (e : exn) :
  returns_only Q (raise (A := A) e).
Proof. intros g. exact I. Qed.

Lemma returns_only_bind {A B} (P : A -> Prop) (Q : B -> Prop)
      (m : M E A) (f : A -> M E B) :
  returns_only P m -> (forall a, P a -> returns_only Q (f a)) ->
  returns_only Q (bind m f).
Proof.
  intros Hm Hf g. specialize (Hm g).
  destruct (value (m g)) as [a|e] eqn:Hv.
  - rewrite (bind_ok _ _ _ _ Hv). simpl. apply (Hf a Hm).
  - rewrite (bind_raised _ _ _ _ Hv). exact I.
Qed.

Lemma returns_only_any {A} (m : M E A) : returns_only (fun _ => True) m.
Proof. intros g. destruct (value (m g)); exact I. Qed.

Lemma returns_only_for_each {A S} (Q : S -> Prop) (xs : list A)
      (body : S -> A -> M E S) acc :
  (forall acc x, Q acc -> returns_only Q (body acc x)) ->
  Q acc -> returns_only Q (for_each xs body acc).
Proof.
  intros Hbody. revert acc. induction xs as [|x xs IH]; intros acc Hacc; simpl.
  - apply returns_only_ret. exact Hacc.
  - apply (returns_only_bind Q Q); [apply Hbody; exact Hacc | exact IH].
Qed.
End ReturnsOnly.

(** ** The names the Hugging Face [extract_people] returns *)

Section CleanNames.
Import Py NLP.

Lemma rstrip_idempotent (s : string) : rstrip (rstrip s) = rstrip s.
Proof.
  induction s as [|c s IH]; [reflexivity|].
  simpl. destruct (rstrip s) as [|d r] eqn:Hr.
  - destruct (is_space c) eqn:Hc; simpl; [reflexivity|]. rewrite Hc. reflexivity.
  - simpl in IH. cbn [rstrip]. fold rstrip.
    change (rstrip (String c (String d r))
            = String c (String d r)).
    simpl. simpl in IH. rewrite IH. reflexivity.
Qed.

Lemma lstrip_fixed (c : Ascii.ascii) (s : string) :
  is_space c = false -> lstrip (String c s) = String c s.
Proof. intros Hc. simpl. rewrite Hc. reflexivity. Qed.

Lemma lstrip_head (s : string) :
  lstrip s = EmptyString
  \/ exists c r, lstrip s = String c r /\ is_space c = false.
Proof.
  induction s as [|c s IH]; [left; reflexivity|].
  simpl. destruct (is_space c) eqn:Hc; [exact IH|].
  right. exists c, s. auto.
Qed.

Lemma rstrip_head (c : Ascii.ascii) (s : string) :
  is_space c = false -> exists r, rstrip (String c s) = String c r.
Proof.
  intros Hc. simpl. destruct (rstrip s) as [|d r].
  - rewrite Hc. eexists. reflexivity.
  - eexists. reflexivity.
Qed.

Lemma strip_idempotent (s : string) : strip (strip s) = strip s.
Proof.
  unfold strip.
  destruct (lstrip_head s) as [He | (c & r & He & Hc)]; rewrite He.
  - reflexivity.
  - destruct (rstrip_head c r Hc) as (r' & Hr'). rewrite Hr'.
    rewrite (lstrip_fixed c r' Hc), <- Hr'. apply rstrip_idempotent.
Qed.

Lemma persons_of_clean (es : list entity) :
  Forall clean_name (HF.persons_of es).
Proof.
  apply Forall_forall. intros name Hin. apply list_elem_of_In in Hin.
  apply persons_of_spec in Hin as (e & _ & _ & Hlen & <-).
  split; [exact Hlen | apply strip_idempotent].
Qed.

Lemma hf_extract_people_returns `{RT : Runtime nlp_ev} (texts : texts_arg)
      (batch_size stride : Z) (show_progress : bool) :
  returns_only (Forall (Forall clean_name))
               (HF.extract_people texts batch_size stride show_progress).
Proof.
  unfold HF.extract_people.
  destruct (range 0 _ batch_size) as [starts|]; [|apply returns_only_raise].
  apply returns_only_for_each; [|constructor].
  intros acc start Hacc.
  apply (returns_only_bind (fun _ => True)); [apply returns_only_any|].
  intros batch_entities _. apply returns_only_ret.
  rewrite foldl_snoc_map. apply Forall_app. split; [exact Hacc|].
  apply Forall_forall. intros names Hn. apply list_elem_of_In in Hn.
  apply in_map_iff in Hn as (es & <- & _). apply persons_of_clean.
Qed.

(** X6: whatever the NER pipeline answers, every name in every list that
    the Hugging Face [extract_people] returns is longer than 5 characters
    and has no white space at either end ([strip] leaves it as it is). *)
Theorem hf_names_are_clean (RT : Runtime nlp_ev) (texts : texts_arg)
        (batch_size stride : Z) (show_progress : bool) g people :
  value (HF.extract_people texts batch_size stride show_progress g) = Ok people ->
  Forall (Forall clean_name) people.
Proof.
  intros Hv.
  pose proof (hf_extract_people_returns texts batch_size stride show_progress g) as H.
  rewrite Hv in H. exact H.
Qed.

Lemma hf_names_are_clean_witness :
  value (HF.extract_people (RT := model_runtime sample_models)
           (StrList ["Ada Lovelace"; "Bob"]) 16 128 true [])
  = Ok [["Ada Lovelace"]; []]
  /\ Forall (Forall clean_name) [["Ada Lovelace"]; []].
Proof.
  split; [reflexivity|].
  exact (hf_names_are_clean (model_runtime sample_models)
           (StrList ["Ada Lovelace"; "Bob"]) 16 128 true [] _ eq_refl).
Defined.
End CleanNames.

(** ** The token counter *)

Section Counter.
Import Py NLP.

Lemma count_tokens_exact (ts : list token) (c : gmap string Z) (lemma : string) :
  foldl count_token c ts !! lemma
  = match length (List.filter (counted_as lemma) ts) with
    | O => c !! lemma
    | S n => Some (default 0 (c !! lemma) + Z.of_nat (S n))
    end.
Proof.
  revert c. induction ts as [|t ts IH]; intros c; [reflexivity|].
  cbn [foldl List.filter]. rewrite IH.
  unfold count_token, counted_as at 2. fold (counted t).
  destruct (counted t) eqn:Hc; cbn [andb].
  - destruct (String.eqb_spec (lemma_ t) lemma) as [He|Hne].
    + subst lemma. rewrite lookup_insert_eq. cbn [length default].
      destruct (length (List.filter (counted_as (lemma_ t)) ts));
        unfold id; f_equal; lia.
    + rewrite lookup_insert_ne by exact Hne. reflexivity.
  - reflexivity.
Qed.

Lemma blank_never_counted (lemma : string) (ts : list token) :
  strip lemma = "" -> List.filter (counted_as lemma) ts = [].
Proof.
  intros Hb. induction ts as [|t ts IH]; [reflexivity|].
  simpl. rewrite IH. unfold counted_as, counted.
  destruct (String.eqb_spec (lemma_ t) lemma) as [->|_].
  - rewrite Hb. simpl. rewrite !andb_false_r. reflexivity.
  - rewrite andb_false_r. reflexivity.
Qed.

(** X7: run on models, [count_tokens_pipe] returns a counter whose keys are
    exactly the lemmas of the tokens it counts (those that are neither stop
    words nor punctuation and whose lemma is not blank): a lemma is absent
    when no such token has it, and otherwise stored with the number of such
    tokens, which is at least 1.  A blank lemma is never a key. *)
Theorem token_counter_keys (md : models) (articles : list article)
        (batch_size : Z) (g : list string) :
  exists counter,
    value (count_tokens_pipe (RT := model_runtime md) articles batch_size g)
    = Ok counter
    /\ (forall lemma,
          counter !! lemma
          = match length (List.filter (counted_as lemma) (tokens_seen md articles)) with
            | O => None
            | S n => Some (Z.of_nat (S n))
            end)
    /\ (forall lemma, strip lemma = "" -> counter !! lemma = None).
Proof.
  eexists. split; [rewrite count_tokens_pipe_run; reflexivity|].
  assert (forall lemma,
             foldl (fun counter doc => foldl count_token counter (tokens doc)) ∅
                   (map (spacy_model md ["ner"; "parser"])
                        (map (fun a => str_of (get a "text"))
                             (List.filter (fun a => is_not_none (get a "text")) articles)))
               !! lemma
             = match length (List.filter (counted_as lemma) (tokens_seen md articles)) with
               | O => None
               | S n => Some (Z.of_nat (S n))
               end) as Hkeys.
  { intros lemma. rewrite foldl_flat_map, count_tokens_exact, lookup_empty.
    unfold tokens_seen, article_texts. rewrite flat_map_map.
    destruct (length _); [reflexivity|]. simpl default. f_equal. }
  split; [exact Hkeys|].
  intros lemma Hb. rewrite Hkeys, blank_never_counted by exact Hb. reflexivity.
Qed.
End Counter.

(** ** The sign of a sentiment score *)

Section SentimentSign.
Import Py NLP.
Local Open Scope Q_scope.

Lemma sum_nonneg (xs : list Q) :
  Forall (fun x => 0 <= x) xs -> 0 <= fold_right Qplus 0 xs.
Proof. induction 1 as [|x xs Hx _ IH]; simpl; lra. Qed.

Lemma sum_nonpos (xs : list Q) :
  Forall (fun x => x <= 0) xs -> fold_right Qplus 0 xs <= 0.
Proof. induction 1 as [|x xs Hx _ IH]; simpl; lra. Qed.

Lemma len_positive {A} (x : A) (xs : list A) : 0 < inject_Z (len (x :: xs)).
Proof.
  unfold len. cbn [length]. rewrite Nat2Z.inj_succ.
  change 0 with (inject_Z 0). rewrite <- Zlt_Qlt. lia.
Qed.

Lemma np_mean_sign (x : Q) (xs : list Q) :
  exists q, HF.np_mean (x :: xs) = Finite q
            /\ (Forall (fun y => 0 <= y) (x :: xs) -> 0 <= q)
            /\ (Forall (fun y => y <= 0) (x :: xs) -> q <= 0).
Proof.
  eexists. split; [reflexivity|].
  pose proof (len_positive x xs) as Hpos. split; intros Hall.
  - apply sum_nonneg in Hall. apply Qle_shift_div_l; [exact Hpos | lra].
  - apply sum_nonpos in Hall. apply Qle_shift_div_r; [exact Hpos | lra].
Qed.

Lemma signed_score_sign (p : prediction) :
  0 <= score p ->
  (lower (label p) <> "negative" -> 0 <= signed_score p)
  /\ (lower (label p) <> "positive" -> signed_score p <= 0).
Proof.
  intros Hs. unfold signed_score.
  destruct (sign_of_cases (label p)) as [[He ->] | [[He ->] | (_ & _ & ->)]].
  - apply String.eqb_eq in He. split; intros H; [lra | contradiction].
  - apply String.eqb_eq in He. split; intros H; [contradiction | lra].
  - split; intros _; lra.
Qed.

(** X8: with scores that are not negative, the score [_score_long_text]
    returns for a text is not negative when no window of the text is
    labelled negative, not positive when no window is labelled positive, and
    hence zero when every window has another label (a neutral text). *)
Theorem sentiment_sign_follows_labels (md : models) (text : string)
        (max_len stride batch_size : Z) (g : list string) :
  (forall chunk, 0 <= score (sentiment_model md chunk)) ->
  exists q,
    value (HF._score_long_text (RT := model_runtime md)
             text max_len stride batch_size g) = Ok (Finite q)
    /\ ((forall w, In w (windows md max_len stride text) ->
                   lower (label (sentiment_model md w)) <> "negative") -> 0 <= q)
    /\ ((forall w, In w (windows md max_len stride text) ->
                   lower (label (sentiment_model md w)) <> "positive") -> q <= 0).
Proof.
  intros Hscore. rewrite score_long_text_run. cbn [value].
  unfold hf_sentiment.
  assert (exists w ws, windows md max_len stride text = w :: ws) as (w & ws & Hw).
  { unfold windows, input_ids. cbn [map]. eauto. }
  rewrite Hw. cbn [map].
  destruct (np_mean_sign (signed_score (sentiment_model md w))
                         (map signed_score (map (sentiment_model md) ws)))
    as (q & Hq & Hpos & Hneg).
  exists q. split; [rewrite Hq; reflexivity|].
  assert (forall (R : Q -> Prop),
             (forall v, In v (w :: ws) -> R (signed_score (sentiment_model md v))) ->
             Forall R (signed_score (sentiment_model md w)
                       :: map signed_score (map (sentiment_model md) ws))) as Hall.
  { intros R HR. rewrite map_map.
    change (Forall R (map (fun v => signed_score (sentiment_model md v)) (w :: ws))).
    apply Forall_forall. intros y Hy. apply list_elem_of_In in Hy.
    apply in_map_iff in Hy as (v & <- & Hv). apply HR. exact Hv. }
  split; intros Hlab.
  - apply Hpos. apply Hall. intros v Hv.
    apply (signed_score_sign _ (Hscore v)). apply Hlab. exact Hv.
  - apply Hneg. apply Hall. intros v Hv.
    apply (signed_score_sign _ (Hscore v)). apply Hlab. exact Hv.
Qed.

Lemma sentiment_sign_follows_labels_witness :
  (forall chunk, 0 <= score (sentiment_model sample_models chunk))
  /\ exists q,
       value (HF._score_long_text (RT := model_runtime sample_models)
                "Hiring is up." 512 128 16 []) = Ok (Finite q)
       /\ 0 <= q.
Proof.
  assert (forall chunk, 0 <= score (sentiment_model sample_models chunk)) as H
      by (intros chunk; simpl; lra).
  split; [exact H|].
  destruct (sentiment_sign_follows_labels sample_models "Hiring is up." 512 128 16 [] H)
    as (q & Hv & Hpos & _).
  exists q. split; [exact Hv|]. apply Hpos. intros w _. simpl. discriminate.
Defined.
End SentimentSign.

(** ** The person/sentiment table at every limit *)

Section BuildAnyLimit.
Import Py NLP.

Lemma spacy_build_run_prefix (md : models) articles text_key max_records
      (g : list string) :
  let all := with_text text_key (enumerate articles) in
  let selected := take (spacy_selected max_records (length all)) all in
  value (Spacy.build_person_sentiment_df (RT := model_runtime md)
           articles text_key max_records g)
  = Ok (spacy_rows md selected text_key).
Proof.
  intros all selected. unfold Spacy.build_person_sentiment_df.
  rewrite spacy_select_any. fold all. fold selected.
  rewrite (bind_returns _ _ _ _ _ _
             (spacy_extract_people_run md (map (text_at text_key) selected) 64 g)).
  rewrite (bind_returns _ _ _ _ _ _
             (score_sentiment_run md (map (text_at text_key) selected) 64 g)).
  simpl. rewrite !map_map, zip3_map, foldl_rows, flat_map_map.
  reflexivity.
Qed.

Lemma hf_build_run_prefix (md : models) articles text_key max_records
      (g : list string) :
  let all := with_text text_key (enumerate articles) in
  let selected := take (hf_selected max_records (length all)) all in
  value (HF.build_person_sentiment_df (RT := model_runtime md)
           articles text_key max_records g)
  = Ok (hf_rows md selected text_key).
Proof.
  intros all selected. unfold HF.build_person_sentiment_df.
  rewrite hf_select_any. fold all. fold selected.
  rewrite (bind_returns _ _ _ _ _ _
             (hf_extract_people_run md (map (text_at text_key) selected) 16 128 true _ g
                ltac:(lia)
                (range_positive (len (map (text_at text_key) selected)) 16 ltac:(lia)))).
  rewrite (bind_returns _ _ _ _ _ _
             (extract_sentiment_run md (map (text_at text_key) selected) 16 512 128 g)).
  simpl. rewrite !map_map, zip3_map, foldl_rows, flat_map_map.
  reflexivity.
Qed.

(** X9: for every [max_records], zero and negative ones too, both versions
    of [build_person_sentiment_df] return the rows of a prefix of the
    articles with text; the two differ in the length of the prefix.  With
    [max_records = 0] the spaCy version returns an empty table and the
    Hugging Face version the rows of all articles. *)
Theorem person_sentiment_rows_any_limit (md : models) (articles : list article)
        (text_key : string) (max_records : option Z) (g : list string) :
  let all := with_text text_key (enumerate articles) in
  value (Spacy.build_person_sentiment_df (RT := model_runtime md)
           articles text_key max_records g)
  = Ok (spacy_rows md (take (spacy_selected max_records (length all)) all) text_key)
  /\ value (HF.build_person_sentiment_df (RT := model_runtime md)
              articles text_key max_records g)
     = Ok (hf_rows md (take (hf_selected max_records (length all)) all) text_key)
  /\ value (Spacy.build_person_sentiment_df (RT := model_runtime md)
              articles text_key (Some 0) g) = Ok []
  /\ value (HF.build_person_sentiment_df (RT := model_runtime md)
              articles text_key (Some 0) g)
     = Ok (hf_rows md all text_key).
Proof.
  intros all. split; [apply spacy_build_run_prefix|].
  split; [apply hf_build_run_prefix|]. split.
  - rewrite spacy_build_run_prefix. reflexivity.
  - rewrite hf_build_run_prefix. fold all. simpl.
    rewrite take_ge by lia. reflexivity.
Qed.

Lemma trace_bind_prefix `{RT : Runtime nlp_ev} {A B} (m : M nlp_ev A)
      (f : A -> M nlp_ev B) g :
  exists rest, trace (bind m f g) = trace (m g) ++ rest.
Proof.
  destruct (value (m g)) as [a|e] eqn:Hv.
  - rewrite (bind_ok _ _ _ _ Hv). simpl. eauto.
  - rewrite (bind_raised _ _ _ _ Hv). simpl. exists []. rewrite app_nil_r. reflexivity.
Qed.

Lemma trace_call `{RT : Runtime nlp_ev} {X} (c : nlp_ev X) g :
  exists failure, trace (call c g) = [Log c failure].
Proof. unfold call. destruct (perform c g) as [[x|e] g']; simpl; eauto. Qed.

Lemma no_text_selected (articles : list article) (text_key : string) :
  (forall a, In a articles -> truthy (get a text_key) = false) ->
  with_text text_key (enumerate articles) = [].
Proof.
  intros Hnone. unfold with_text.
  destruct (List.filter _ (enumerate articles)) as [|[i a] rest] eqn:Hf; [reflexivity|].
  assert (In (i, a) (List.filter (fun ia => truthy (get (snd ia) text_key))
                                 (enumerate articles))) as Hin
      by (rewrite Hf; left; reflexivity).
  apply filter_In in Hin as [Hin Ht]. simpl in Ht.
  apply enumerate_lookup in Hin as [_ Ha].
  rewrite (Hnone a) in Ht; [discriminate|].
  apply list_elem_of_In. eapply list_elem_of_lookup_2. exact Ha.
Qed.

(** X10: when no article has text under [text_key] (missing, [None] or
    empty), the Hugging Face [build_person_sentiment_df] returns the empty
    table without calling a model or touching the global state, whatever the
    runtime and the limit; the spaCy version still begins with a call of
    [nlp.pipe] on the empty list. *)
Theorem build_without_texts (RT : Runtime nlp_ev) (articles : list article)
        (text_key : string) (max_records : option Z) g :
  (forall a, In a articles -> truthy (get a text_key) = false) ->
  HF.build_person_sentiment_df articles text_key max_records g
  = Outcome (Ok []) g []
  /\ exists failure rest,
       trace (Spacy.build_person_sentiment_df articles text_key max_records g)
       = Log (NlpPipe [] ner_only 64) failure :: rest.
Proof.
  intros Hnone. pose proof (no_text_selected articles text_key Hnone) as Hsel.
  split.
  - unfold HF.build_person_sentiment_df.
    rewrite hf_select_any, Hsel, take_nil. reflexivity.
  - unfold Spacy.build_person_sentiment_df.
    rewrite spacy_select_any, Hsel, take_nil. cbn [map].
    unfold Spacy.extract_people. fold ner_only.
    destruct (trace_bind_prefix
                (bind (call (NlpPipe [] ner_only 64))
                      (fun docs =>
                         ret (foldl (fun people_per_doc doc =>
                                       people_per_doc ++ [Spacy.person_names doc])
                                    [] docs)))
                (fun people_lists =>
                   bind (Spacy.score_sentiment [] 64)
                        (fun polarity_list =>
                           ret (foldl
                                  (fun records '(art_id, names, pol) =>
                                     foldl (fun records name =>
                                              records ++ [Spacy.Row art_id name pol])
                                           records names)
                                  [] (zip3 [] people_lists polarity_list))))
                g) as (rest2 & ->).
    destruct (trace_bind_prefix (call (NlpPipe [] ner_only 64))
                (fun docs =>
                   ret (foldl (fun people_per_doc doc =>
                                 people_per_doc ++ [Spacy.person_names doc])
                              [] docs)) g) as (rest1 & ->).
    destruct (trace_call (NlpPipe [] ner_only 64) g) as (failure & ->).
    exists failure, (rest1 ++ rest2). reflexivity.
Qed.

Lemma build_without_texts_witness :
  (forall a, In a [sample_article ""; ∅] -> truthy (get a "text") = false)
  /\ HF.build_person_sentiment_df (RT := offline_runtime)
       [sample_article ""; ∅] "text" None []
     = @Outcome nlp_ev offline_runtime _ (Ok []) [] [].
Proof.
  assert (forall a, In a [sample_article ""; ∅] -> truthy (get a "text") = false) as H.
  { intros a [<- | [<- | []]]; reflexivity. }
  split; [exact H|].
  exact (proj1 (build_without_texts offline_runtime [sample_article ""; ∅] "text"
                  None [] H)).
Defined.
End BuildAnyLimit.

(** ** Printing the part-of-speech table *)

Section PosTags.
Import Py NLP.

Lemma length_spaces (n : nat) : String.length (spaces n) = n.
Proof. induction n as [|n IH]; simpl; [reflexivity | rewrite IH; reflexivity]. Qed.

Lemma length_ljust (s : string) (n : nat) :
  String.length (ljust s n) = Nat.max n (String.length s).
Proof. unfold ljust. rewrite length_append, length_spaces. lia. Qed.

Lemma pos_tags_run (md : models) (sentence : string) (g : list string) :
  let doc := spacy_model md [] sentence in
  pos_tags (RT := model_runtime md) sentence g
  = @Outcome nlp_ev (model_runtime md) _ (Ok tt)
      (g ++ pos_header :: map pos_line (tokens doc))
      (Log (NlpCall sentence) None
       :: Log (Print pos_header) None
       :: map (fun t => Log (Print (pos_line t)) None) (tokens doc)).
Proof.
  intros doc. unfold pos_tags.
  rewrite (bind_returns _ _ _ _ _ _ (call_run md (NlpCall sentence) g)).
  rewrite (bind_returns _ _ _ _ _ _ (call_run md (Print pos_header) _)).
  cbn [answer printed]. fold doc.
  rewrite (for_each_returns (RT := model_runtime md) _
             (fun _ _ => tt) (fun t g => g ++ [pos_line t])
             (fun t => [Log (Print (pos_line t)) None]));
    [|reflexivity].
  cbn [value final trace]. f_equal.
  - f_equal. clear. induction (tokens doc); [reflexivity | assumption].
  - rewrite foldl_snoc_state, <- app_assoc. reflexivity.
Qed.

(** X11: run on models, [pos_tags] makes one model call on the sentence and
    prints a header and then one line per token, in order; a line is the
    token and its tag, each padded to 20 characters, so it is as long as
    [max(20, len(token)) + max(20, len(tag))]: columns line up as long as no
    token is longer than 20 characters, and nothing is ever cut. *)
Theorem pos_tags_table (md : models) (sentence : string) (g : list string) :
  let doc := spacy_model md [] sentence in
  pos_tags (RT := model_runtime md) sentence g
  = @Outcome nlp_ev (model_runtime md) _ (Ok tt)
      (g ++ pos_header :: map pos_line (tokens doc))
      (Log (NlpCall sentence) None
       :: Log (Print pos_header) None
       :: map (fun t => Log (Print (pos_line t)) None) (tokens doc))
  /\ forall t,
       String.length (pos_line t)
       = (Nat.max 20 (String.length (tok_text t))
          + Nat.max 20 (String.length (pos_ t)))%nat.
Proof.
  intros doc. split; [apply pos_tags_run|].
  intros t. unfold pos_line. rewrite length_append, !length_ljust. reflexivity.
Qed.
End PosTags.

(** ** The merge with the ward areas, without unique ward numbers *)

Section MergeFacts.
Import Py Geo.
Context {G : Type} `{GE : Geometry G}.

Lemma found_areas (gdf_combined : list (ward G)) (n : Z) :
  List.filter (fun na => fst na =? n) (ward_area_table gdf_combined)
  = map (fun w => (ward_number w, area (ward_geometry w)))
        (List.filter (fun w => ward_number w =? n) gdf_combined).
Proof.
  unfold ward_area_table.
  induction gdf_combined as [|w l IH]; [reflexivity|].
  simpl. destruct (ward_number w =? n); simpl; rewrite IH; reflexivity.
Qed.

Lemma merge_one_row (gdf_combined : list (ward G)) (o : overlap G) :
  In (of_ward o) gdf_combined ->
  merge_ward_area [o] (ward_area_table gdf_combined)
  = map (fun w => Merged o (area (geometry o)) (Some (area (ward_geometry w))))
        (List.filter (fun w => ward_number w =? ward_number (of_ward o)) gdf_combined).
Proof.
  intros Hin. unfold merge_ward_area. simpl. rewrite app_nil_r, found_areas.
  destruct (List.filter _ gdf_combined) as [|w ws] eqn:Hf.
  - exfalso.
    assert (In (of_ward o)
               (List.filter (fun w => ward_number w =? ward_number (of_ward o))
                            gdf_combined)) as Hin'
        by (apply filter_In; split; [exact Hin | apply Z.eqb_refl]).
    rewrite Hf in Hin'. destruct Hin'.
  - simpl. rewrite map_map. reflexivity.
Qed.

Lemma merge_rows (gdf_combined : list (ward G)) (os : list (overlap G)) :
  (forall o, In o os -> In (of_ward o) gdf_combined) ->
  merge_ward_area os (ward_area_table gdf_combined)
  = flat_map
      (fun o =>
         map (fun w => Merged o (area (geometry o)) (Some (area (ward_geometry w))))
             (List.filter (fun w => ward_number w =? ward_number (of_ward o))
                          gdf_combined))
      os.
Proof.
  induction os as [|o os IH]; intros Hin; [reflexivity|].
  assert (merge_ward_area (o :: os) (ward_area_table gdf_combined)
          = merge_ward_area [o] (ward_area_table gdf_combined)
            ++ merge_ward_area os (ward_area_table gdf_combined)) as ->.
  { unfold merge_ward_area. simpl. rewrite app_nil_r. reflexivity. }
  rewrite merge_one_row by (apply Hin; left; reflexivity).
  rewrite IH by (intros o' Ho'; apply Hin; right; exact Ho'). reflexivity.
Qed.

Lemma ward_fsa_merged_any (gdf_combined : list (ward G)) (fsa_boundaries : list (fsa G)) :
  ward_fsa_merged gdf_combined fsa_boundaries
  = flat_map
      (fun o =>
         map (fun w => Merged o (area (geometry o)) (Some (area (ward_geometry w))))
             (List.filter (fun w => ward_number w =? ward_number (of_ward o))
                          gdf_combined))
      (overlay gdf_combined fsa_boundaries).
Proof.
  unfold ward_fsa_merged. apply merge_rows.
  intros o Ho. apply overlay_rows in Ho. apply Ho.
Qed.

Lemma length_flat_map_sum {A B} (f : A -> list B) (l : list A) :
  length (flat_map f l) = fold_right Nat.add 0%nat (map (fun x => length (f x)) l).
Proof.
  induction l as [|x l IH]; simpl; [reflexivity|].
  rewrite length_app, IH. reflexivity.
Qed.

(** X12: whatever the ward numbers are, the left merge on "Ward Number"
    finds a ward area for every row of the overlay, so that no NaN enters
    [area_frac] or an apportioned column; the area found is that of a ward
    with the row's ward number.  An overlay row occurs once for each ward of
    [gdf_combined] that has its number, so rows multiply when a ward number
    occurs twice. *)
Theorem merge_finds_a_ward_area (gdf_combined : list (ward G))
        (fsa_boundaries : list (fsa G)) :
  (forall m, In m (ward_fsa_merged gdf_combined fsa_boundaries) ->
     In (base m) (overlay gdf_combined fsa_boundaries)
     /\ area_overlap m = area (geometry (base m))
     /\ (exists w, In w gdf_combined
                   /\ ward_number w = ward_number (of_ward (base m))
                   /\ ward_area m = Some (area (ward_geometry w)))
     /\ Forall (fun cv => is_Some (snd cv)) (apportion m))
  /\ length (ward_fsa gdf_combined fsa_boundaries)
     = fold_right Nat.add 0%nat
         (map (fun o => same_number gdf_combined (ward_number (of_ward o)))
              (overlay gdf_combined fsa_boundaries)).
Proof.
  split.
  - intros m Hm. rewrite ward_fsa_merged_any in Hm.
    apply in_flat_map in Hm as (o & Ho & Hm).
    apply in_map_iff in Hm as (w & <- & Hw).
    apply filter_In in Hw as [Hw Hn]. apply Z.eqb_eq in Hn. simpl.
    split; [exact Ho|]. split; [reflexivity|]. split; [eauto|].
    unfold apportion, area_frac. simpl.
    apply Forall_forall. intros cv Hcv. apply list_elem_of_In in Hcv.
    apply in_map_iff in Hcv as (cv' & <- & _). simpl. eauto.
  - unfold ward_fsa. rewrite length_map, ward_fsa_merged_any, length_flat_map_sum.
    f_equal. apply map_ext. intros o. rewrite length_map. reflexivity.
Qed.
End MergeFacts.

(** ** The groups of the aggregated table *)

Section Groups.
Import Py Geo.
Context {G : Type} `{GE : Geometry G}.

Lemma ltb_lt (a b : string) : String.ltb a b = true <-> String.compare a b = Lt.
Proof.
  unfold String.ltb. destruct (String.compare a b); split; congruence.
Qed.

Lemma leb_of_ltb (a b : string) : String.ltb a b = true -> String.leb a b = true.
Proof.
  intros H. apply ltb_lt in H. unfold String.leb. rewrite H. reflexivity.
Qed.

Lemma ltb_irrefl (a : string) : String.ltb a a = false.
Proof.
  unfold String.ltb. pose proof (String.compare_antisym a a) as H.
  destruct (String.compare a a); [reflexivity | discriminate | reflexivity].
Qed.

Lemma before_trans (a b c : string) : before a b -> before b c -> before a c.
Proof.
  unfold before. intros Hab Hbc.
  assert (String.le a c) as Hac.
  { transitivity b; unfold String.le; apply Is_true_true; apply leb_of_ltb; assumption. }
  destruct (String.ltb a c) eqn:Hlt; [reflexivity|].
  exfalso. unfold String.le in Hac. apply Is_true_true in Hac.
  assert (a = c) as ->.
  { unfold String.leb in Hac. unfold String.ltb in Hlt.
    destruct (String.compare a c) eqn:Hc; try discriminate.
    apply String.compare_eq_iff. exact Hc. }
  assert (b = c) as ->.
  { apply String.leb_antisym; apply leb_of_ltb; assumption. }
  rewrite ltb_irrefl in Hab. discriminate.
Qed.

Lemma before_total (a b : string) :
  String.eqb a b = false -> String.ltb a b = false -> before b a.
Proof.
  intros Hne Hlt. apply String.eqb_neq in Hne. unfold before.
  unfold String.ltb in *. rewrite String.compare_antisym.
  destruct (String.compare a b) eqn:Hc; try discriminate.
  - apply String.compare_eq_iff in Hc. contradiction.
  - reflexivity.
Qed.

Lemma group_add_keys (key : string) (r : list (string * option Q)) groups (k : string) :
  In k (map fst (group_add key r groups)) <-> k = key \/ In k (map fst groups).
Proof.
  induction groups as [|[k0 total] groups IH]; simpl.
  - intuition.
  - destruct (String.eqb_spec key k0) as [->|Hne]; simpl.
    + intuition.
    + destruct (String.ltb key k0); simpl.
      * intuition.
      * rewrite IH. intuition.
Qed.

Lemma group_add_sorted (key : string) (r : list (string * option Q)) groups :
  StronglySorted before (map fst groups) ->
  StronglySorted before (map fst (group_add key r groups)).
Proof.
  induction groups as [|[k0 total] groups IH]; simpl; intros Hs.
  - repeat constructor.
  - apply StronglySorted_inv in Hs as [Hs Hk0].
    destruct (String.eqb key k0) eqn:He; simpl.
    + constructor; assumption.
    + destruct (String.ltb key k0) eqn:Hlt; simpl.
      * constructor; [constructor; assumption|].
        constructor; [exact Hlt|].
        eapply Forall_impl; [exact Hk0|]. intros x Hx.
        apply (before_trans key k0 x); assumption.
      * constructor; [apply IH; exact Hs|].
        apply Forall_forall. intros x Hx. apply list_elem_of_In in Hx.
        apply group_add_keys in Hx as [->|Hx].
        -- apply before_total; assumption.
        -- rewrite Forall_forall in Hk0. apply Hk0. apply list_elem_of_In. exact Hx.
Qed.

Lemma aggregated_keys (rows : list (apportioned_row G)) groups :
  StronglySorted before (map fst groups) ->
  let result := foldl (fun groups r => group_add (row_CFSAUID r) (apportioned r) groups)
                      groups rows in
  StronglySorted before (map fst result)
  /\ forall k, In k (map fst result)
               <-> In k (map fst groups) \/ exists r, In r rows /\ row_CFSAUID r = k.
Proof.
  revert groups. induction rows as [|r rows IH]; intros groups Hs; simpl.
  - split; [exact Hs|]. intros k. split; [auto|]. intros [H|(r & [] & _)]. exact H.
  - destruct (IH _ (group_add_sorted (row_CFSAUID r) (apportioned r) groups Hs))
      as [Hs' Hk].
    split; [exact Hs'|]. intros k. rewrite Hk, group_add_keys. split.
    + intros [[->|H]|(r' & Hr' & He)]; eauto.
    + intros [H|(r' & [<-|Hr'] & He)]; eauto.
Qed.

(** X13: [fsa_aggregated] has exactly one group for each CFSAUID that
    occurs in [ward_fsa], and the groups come in strictly increasing order
    of CFSAUID. *)
Theorem fsa_aggregated_groups (rows : list (apportioned_row G)) :
  StronglySorted before (map fst (fsa_aggregated rows))
  /\ forall k, In k (map fst (fsa_aggregated rows))
               <-> exists r, In r rows /\ row_CFSAUID r = k.
Proof.
  destruct (aggregated_keys rows [] ltac:(constructor)) as [Hs Hk].
  split; [exact Hs|]. intros k. unfold fsa_aggregated. rewrite Hk.
  split; [intros [[]|H]; exact H | auto].
Qed.
End Groups.

(** ** City-wide totals *)

Section Citywide.
Import Py Geo.
Context {G : Type} `{GE : Geometry G}.
Local Open Scope Q_scope.

Lemma sum_app (xs ys : list Q) :
  fold_right Qplus 0 (xs ++ ys) == fold_right Qplus 0 xs + fold_right Qplus 0 ys.
Proof. induction xs as [|x xs IH]; simpl; [lra | rewrite IH; lra]. Qed.

Lemma sum_flat_map {A B} (h : B -> Q) (f : A -> list B) (l : list A) :
  fold_right Qplus 0 (map h (flat_map f l))
  == fold_right Qplus 0 (map (fun x => fold_right Qplus 0 (map h (f x))) l).
Proof.
  induction l as [|x l IH]; simpl; [lra|].
  rewrite map_app, sum_app, IH. lra.
Qed.

Lemma sum_scaled (k a : Q) (xs : list Q) :
  fold_right Qplus 0 (map (fun x => k * (x / a)) xs)
  == k * (fold_right Qplus 0 xs / a).
Proof.
  induction xs as [|x xs IH]; simpl.
  - unfold Qdiv. ring.
  - rewrite IH. unfold Qdiv. ring.
Qed.

Lemma overlap_polygons (w : ward G) (fsa_boundaries : list (fsa G)) :
  map geometry
      (omap (fun f => Overlap w f <$> intersection (ward_geometry w) (fsa_geometry f))
            fsa_boundaries)
  = ward_overlaps w fsa_boundaries.
Proof.
  unfold ward_overlaps. induction fsa_boundaries as [|f l IH]; [reflexivity|].
  cbn. destruct (intersection (ward_geometry w) (fsa_geometry f)); cbn.
  - f_equal. exact IH.
  - exact IH.
Qed.

Lemma ward_rows_sum (w : ward G) (fsa_boundaries : list (fsa G)) (k : Q) :
  fold_right Qplus 0
    (map (fun o => k * (area (geometry o) / area (ward_geometry w)))
         (omap (fun f => Overlap w f <$> intersection (ward_geometry w) (fsa_geometry f))
               fsa_boundaries))
  == k * coverage w fsa_boundaries.
Proof.
  unfold coverage. rewrite <- sum_scaled, map_map.
  rewrite <- (overlap_polygons w fsa_boundaries), map_map. reflexivity.
Qed.

Lemma overlay_ward (w : ward G) (fsa_boundaries : list (fsa G)) (o : overlap G) :
  In o (omap (fun f => Overlap w f <$> intersection (ward_geometry w) (fsa_geometry f))
             fsa_boundaries) ->
  of_ward o = w.
Proof.
  intros Hin. apply list_elem_of_In in Hin.
  apply list_elem_of_omap in Hin as (f & _ & Hf).
  destruct (intersection (ward_geometry w) (fsa_geometry f)); [|discriminate].
  injection Hf as <-. reflexivity.
Qed.

End Citywide.

(** ** Sums of groups *)

Section GroupSums.
Import Binary64.
Local Open Scope Q_scope.

Lemma eta_pos : 0 < eta.
Proof. apply pow2_pos. Qed.

Lemma eta_u : eta == u * pow2 (-1022).
Proof. unfold eta, u. rewrite <- pow2_plus. reflexivity. Qed.

(** Rounding a positive number that does not overflow. *)
Lemma round_pos_bounded (a : Q) :
  0 < a -> a <= pow2 1023 ->
  exists r, round_pos a = Num r /\ a * (1 - u) - eta <= r <= a * (1 + u) + eta.
Proof.
  intros Ha Hhi. pose proof eta_pos as Heta. pose proof u_pos as Hu.
  destruct (Qlt_le_dec a (pow2 (-1022))) as [Hsub | Hnorm].
  - destruct (ilog2_spec a Ha) as [He1 He2].
    assert (ilog2 a < -1022)%Z as Hemin.
    { apply pow2_lt_inv. lra. }
    unfold round_pos. rewrite Z.max_r by lia.
    change (-1022 - 52)%Z with (-1074)%Z.
    set (ulp := pow2 (-1074)).
    assert (0 < ulp) as Hulp by apply pow2_pos.
    assert (ulp == 2 * eta) as Hhalf.
    { unfold ulp, eta. rewrite <- pow2_succ. reflexivity. }
    pose proof (nearest_even_spec (a / ulp)) as [Hm1 Hm2].
    set (m := inject_Z (nearest_even (a / ulp))) in *.
    assert (a / ulp * ulp == a) as Hd by (field; lra).
    assert ((a / ulp - (1 # 2)) * ulp <= m * ulp) as Hr1
        by (apply Qmult_le_compat_r; lra).
    assert (m * ulp <= (a / ulp + (1 # 2)) * ulp) as Hr2
        by (apply Qmult_le_compat_r; lra).
    assert (a - eta <= m * ulp <= a + eta) as [Hr3 Hr4] by (split; nra).
    pose proof (pow2_pos 1023) as H1023.
    assert (pow2 1024 == 2 * pow2 1023) as H24 by (rewrite <- pow2_succ; reflexivity).
    assert (eta <= pow2 1023) as Hsmall.
    { unfold eta. apply pow2_le. lia. }
    assert (pow2 (-1022) <= pow2 1023) as Hrange by (apply pow2_le; lia).
    rewrite Qle_bool_false by lra.
    exists (Qred (m * ulp)). split; [reflexivity|]. rewrite Qred_correct.
    split; nra.
  - destruct (round_pos_normal a (conj Hnorm Hhi)) as (r & Hr & Hb1 & Hb2).
    exists r. split; [exact Hr|]. split; lra.
Qed.

(** Rounding a number of magnitude at most [B]. *)
Lemma rnd_within (z B : Q) :
  Qabs z <= B -> B <= pow2 1023 ->
  exists r, rnd z = Num r /\ - (u * B + eta) <= r - z <= u * B + eta.
Proof.
  intros Hz HB. pose proof eta_pos as Heta. pose proof u_pos as Hu.
  pose proof (Qabs_nonneg z) as Hz0.
  assert (u * Qabs z <= u * B) as HuB by (apply Qmult_le_l; assumption).
  destruct (Qlt_le_dec z 0) as [Hneg | Hpos].
  - rewrite Qabs_neg in Hz, HuB by lra.
    destruct (round_pos_bounded (- z)) as (r & Hr & Hb1 & Hb2); [lra | lra |].
    exists (- r). rewrite (rnd_neg z Hneg), Hr. split; [reflexivity|]. split; lra.
  - destruct (Qeq_dec z 0) as [H0 | H0].
    + exists 0. rewrite (rnd_zero z H0). split; [reflexivity|].
      rewrite H0. assert (0 <= u * B) by nra. split; lra.
    + assert (0 < z) as Hz1 by lra.
      rewrite Qabs_pos in Hz, HuB by lra.
      destruct (round_pos_bounded z) as (r & Hr & Hb1 & Hb2); [lra | lra |].
      exists r. rewrite (rnd_pos z Hz1), Hr. split; [reflexivity|]. split; lra.
Qed.

(** One step of the compensated sum of nonnegative numbers whose sum is at
    most [M]: the compensation stays small, and the compensated sum
    [s - c] takes up the new value up to [10 u M]. *)
Lemma kahan_step_bound (M s c x : Q) :
  pow2 (-1022) <= M -> M <= pow2 1020 ->
  0 <= x <= M -> Qabs c <= 16 * (u * M) -> Qabs s <= 2 * M ->
  exists s' c',
    kahan_step (Num s, Num c) (Num x) = (Num s', Num c')
    /\ Qabs c' <= 16 * (u * M)
    /\ Qabs ((s' - c') - (s - c) - x) <= 10 * (u * M).
Proof.
  intros HM1 HM2 [Hx1 Hx2] Hc Hs.
  pose proof u_pos as Hu. pose proof u_small as Hus. pose proof eta_pos as Heta.
  pose proof (pow2_pos (-1022)) as Hmin.
  assert (0 < M) as HM by lra.
  assert (eta <= u * M) as HetaM.
  { rewrite eta_u. apply Qmult_le_l; assumption. }
  assert (0 < u * M) as HuM by nra.
  assert (1000000 * (u * M) <= M) as HuM' by nra.
  assert (8 * M <= pow2 1023) as Hmax.
  { assert (pow2 1023 == 8 * pow2 1020) as ->; [|lra].
    change 8 with (pow2 3). rewrite <- pow2_plus. reflexivity. }
  apply Qabs_Qle_condition in Hc as [Hc1 Hc2].
  apply Qabs_Qle_condition in Hs as [Hs1 Hs2].
  unfold kahan_step. cbn [is_nan]. unfold fsub. cbn [fneg fadd].
  destruct (rnd_within (x + - c) (2 * M)) as (y & Hy & Hy1 & Hy2);
    [apply Qabs_Qle_condition; split; lra | lra |].
  rewrite Hy. cbn [fneg fadd].
  destruct (rnd_within (s + y) (5 * M)) as (t & Ht & Ht1 & Ht2);
    [apply Qabs_Qle_condition; split; lra | lra |].
  rewrite Ht. cbn [fneg fadd].
  destruct (rnd_within (t + - s) (3 * M)) as (d & Hd & Hd1 & Hd2);
    [apply Qabs_Qle_condition; split; lra | lra |].
  rewrite Hd. cbn [fneg fadd].
  destruct (rnd_within (d + - y) M) as (c' & Hc' & Hc'1 & Hc'2);
    [apply Qabs_Qle_condition; split; lra | lra |].
  rewrite Hc'. cbn [is_nan].
  exists t, c'. split; [reflexivity|].
  split; apply Qabs_Qle_condition; split; lra.
Qed.

Lemma kahan_fold (M : Q) (xs : list Q) :
  pow2 (-1022) <= M -> M <= pow2 1020 ->
  forall (s c S : Q) (i : Z),
    (0 <= i)%Z ->
    (10 * inject_Z (i + Z.of_nat (length xs)) + 16) * u <= 1 ->
    Forall (fun x => 0 <= x) xs ->
    0 <= S -> S + fold_right Qplus 0 xs <= M ->
    Qabs c <= 16 * (u * M) ->
    Qabs (s - c - S) <= 10 * inject_Z i * (u * M) ->
    exists s' c',
      foldl kahan_step (Num s, Num c) (map Num xs) = (Num s', Num c')
      /\ Qabs c' <= 16 * (u * M)
      /\ Qabs (s' - c' - (S + fold_right Qplus 0 xs))
         <= 10 * inject_Z (i + Z.of_nat (length xs)) * (u * M).
Proof.
  intros HM1 HM2. pose proof u_pos as Hu. pose proof (pow2_pos (-1022)) as Hmin.
  assert (0 < M) as HM by lra.
  induction xs as [|x xs IH]; intros s c S i Hi Hn Hxs HS Hsum Hc Hg.
  - exists s, c. cbn [map foldl length fold_right]. split; [reflexivity|].
    split; [exact Hc|].
    replace (i + Z.of_nat 0)%Z with i by lia.
    setoid_replace (s - c - (S + 0)) with (s - c - S) using relation Qeq by ring.
    exact Hg.
  - apply Forall_cons in Hxs as [Hx Hxs].
    pose proof (sum_nonneg xs Hxs) as Hrest.
    cbn [fold_right] in Hsum.
    cbn [length] in Hn. rewrite Nat2Z.inj_succ in Hn.
    assert (0 <= inject_Z i) as Hi' by (change 0 with (inject_Z 0); rewrite <- Zle_Qle; lia).
    assert (inject_Z (i + Z.succ (Z.of_nat (length xs)))
            == inject_Z i + 1 + inject_Z (Z.of_nat (length xs))) as Hsplit.
    { change 1 with (inject_Z 1). rewrite <- !inject_Z_plus.
      apply inject_Z_injective. lia. }
    assert (0 <= inject_Z (Z.of_nat (length xs))) as Hlen
        by (change 0 with (inject_Z 0); rewrite <- Zle_Qle; lia).
    assert ((10 * inject_Z i + 16) * (u * M) <= M) as Hroom.
    { assert ((10 * inject_Z i + 16) * u <= 1) as H1 by (rewrite Hsplit in Hn; nra).
      setoid_replace ((10 * inject_Z i + 16) * (u * M))
        with (((10 * inject_Z i + 16) * u) * M) using relation Qeq by ring.
      setoid_replace M with (1 * M) using relation Qeq at 2 by ring.
      apply Qmult_le_compat_r; lra. }
    apply Qabs_Qle_condition in Hc as Hc0. destruct Hc0 as [Hc1 Hc2].
    apply Qabs_Qle_condition in Hg as Hg0. destruct Hg0 as [Hg1 Hg2].
    destruct (kahan_step_bound M s c x HM1 HM2) as (s1 & c1 & Hstep & Hc1' & Hg');
      [split; lra | exact Hc | apply Qabs_Qle_condition; split; lra |].
    cbn [map foldl]. rewrite Hstep.
    destruct (IH s1 c1 (S + x) (i + 1)%Z) as (s' & c' & Hfold & Hc' & Hfinal).
    + lia.
    + replace (i + 1 + Z.of_nat (length xs))%Z
        with (i + Z.succ (Z.of_nat (length xs)))%Z by lia. exact Hn.
    + exact Hxs.
    + lra.
    + lra.
    + exact Hc1'.
    + apply Qabs_Qle_condition in Hg' as [Hg'1 Hg'2].
      rewrite inject_Z_plus. change (inject_Z 1) with 1.
      apply Qabs_Qle_condition. split; lra.
    + exists s', c'. split; [exact Hfold|]. split; [exact Hc'|].
      cbn [length fold_right]. rewrite Nat2Z.inj_succ.
      replace (i + Z.succ (Z.of_nat (length xs)))%Z
        with (i + 1 + Z.of_nat (length xs))%Z by lia.
      setoid_replace (s' - c' - (S + (x + fold_right Qplus 0 xs)))
        with (s' - c' - (S + x + fold_right Qplus 0 xs)) using relation Qeq by ring.
      exact Hfinal.
Qed.

(** The sum of a group of nonnegative numbers: a float within
    [(10 n + 16) u] of the exact sum, in relative terms. *)
Lemma group_sum_bound (xs : list Q) :
  Forall (fun x => 0 <= x) xs ->
  pow2 (-1022) <= fold_right Qplus 0 xs -> fold_right Qplus 0 xs <= pow2 1020 ->
  (10 * inject_Z (Z.of_nat (length xs)) + 16) * u <= 1 ->
  exists T,
    group_sum (map Num xs) = Num T
    /\ Qabs (T - fold_right Qplus 0 xs)
       <= (10 * inject_Z (Z.of_nat (length xs)) + 16) * u * fold_right Qplus 0 xs.
Proof.
  intros Hxs HM1 HM2 Hn. set (M := fold_right Qplus 0 xs) in *.
  pose proof u_pos as Hu. pose proof (pow2_pos (-1022)) as Hmin.
  assert (0 < u * M) as HuM by nra.
  destruct (kahan_fold M xs HM1 HM2 0 0 0 0%Z) as (s' & c' & Hfold & Hc' & Hfinal).
  - lia.
  - exact Hn.
  - exact Hxs.
  - lra.
  - fold M. lra.
  - rewrite Qabs_pos; lra.
  - setoid_replace (0 - 0 - 0) with 0 using relation Qeq by ring.
    change (Qabs 0) with 0. change (inject_Z 0) with 0. lra.
  - exists s'. unfold group_sum. rewrite Hfold. split; [reflexivity|].
    fold M in Hfinal.
    replace (0 + Z.of_nat (length xs))%Z with (Z.of_nat (length xs)) in Hfinal by lia.
    apply Qabs_Qle_condition in Hc' as [Hc1 Hc2].
    apply Qabs_Qle_condition in Hfinal as [Hf1 Hf2].
    apply Qabs_Qle_condition. split; lra.
Qed.

Lemma group_sum_zeros (xs : list Q) :
  Forall (fun x => x == 0) xs -> group_sum (map Num xs) = Num 0.
Proof.
  intros Hxs. unfold group_sum.
  assert (foldl kahan_step (Num 0, Num 0) (map Num xs) = (Num 0, Num 0)) as ->;
    [|reflexivity].
  induction Hxs as [|x xs Hx _ IH]; [reflexivity|].
  cbn [map foldl]. unfold kahan_step at 2. cbn [is_nan]. unfold fsub. cbn [fneg fadd].
  rewrite (rnd_zero (x + - 0)) by (rewrite Hx; ring).
  cbn [fneg fadd]. rewrite (rnd_zero (0 + 0)) by ring.
  cbn [fneg fadd]. rewrite (rnd_zero (0 + - 0)) by ring.
  cbn [is_nan]. exact IH.
Qed.
End GroupSums.

(** ** Conservation of the ward totals, up to rounding *)

Section RoundedConservation.
Import Py Geo Binary64.
Context {G : Type} `{GE : Geometry G}.
Local Open Scope Q_scope.

Local Abbreviation ward_rows w fsa_boundaries :=
  (omap (fun f => Overlap w f <$> intersection (ward_geometry w) (fsa_geometry f))
        fsa_boundaries).

Local Abbreviation with_areas :=
  (fun o => Merged o (area (geometry o)) (Some (area (ward_geometry (of_ward o))))).

Lemma filter_nothing {A} (P : A -> bool) (l : list A) :
  (forall x, In x l -> P x = false) -> List.filter P l = [].
Proof.
  induction l as [|x l IH]; intros H; [reflexivity|].
  simpl. rewrite (H x) by (left; reflexivity).
  apply IH. intros y Hy. apply H. right. exact Hy.
Qed.

Lemma filter_everything {A} (P : A -> bool) (l : list A) :
  (forall x, In x l -> P x = true) -> List.filter P l = l.
Proof.
  induction l as [|x l IH]; intros H; [reflexivity|].
  simpl. rewrite (H x) by (left; reflexivity).
  f_equal. apply IH. intros y Hy. apply H. right. exact Hy.
Qed.

(** *** The rows of one ward *)

Lemma contributions_of_ward (gdf_combined : list (ward G))
      (fsa_boundaries : list (fsa G)) (w : ward G) :
  NoDup (map ward_number gdf_combined) -> In w gdf_combined ->
  contributions gdf_combined fsa_boundaries (ward_number w)
  = map with_areas (ward_rows w fsa_boundaries).
Proof.
  intros Hnd Hw. unfold contributions.
  rewrite ward_fsa_merged_rows by exact Hnd. unfold overlay.
  assert (forall w', ward_number w' <> ward_number w ->
            List.filter (fun m => (ward_number (of_ward (base m)) =? ward_number w)%Z)
                        (map with_areas (ward_rows w' fsa_boundaries)) = []) as Hother.
  { intros w' Hne. apply filter_nothing. intros m Hm.
    apply in_map_iff in Hm as (o & <- & Ho). simpl.
    rewrite (overlay_ward w' fsa_boundaries o Ho). apply Z.eqb_neq. exact Hne. }
  assert (List.filter (fun m => (ward_number (of_ward (base m)) =? ward_number w)%Z)
                      (map with_areas (ward_rows w fsa_boundaries))
          = map with_areas (ward_rows w fsa_boundaries)) as Hown.
  { apply filter_everything. intros m Hm.
    apply in_map_iff in Hm as (o & <- & Ho). simpl.
    rewrite (overlay_ward w fsa_boundaries o Ho). apply Z.eqb_refl. }
  induction gdf_combined as [|w' l IH]; [destruct Hw|].
  simpl in Hnd. apply NoDup_cons in Hnd as [Hfresh Hnd].
  assert (forall w0, In w0 l -> ward_number w0 <> ward_number w') as Hl.
  { intros w0 Hw0 Heq. apply Hfresh. rewrite <- Heq.
    apply list_elem_of_In. apply in_map. exact Hw0. }
  cbn [flat_map]. rewrite map_app, List.filter_app.
  destruct Hw as [-> | Hw].
  - rewrite Hown.
    rewrite (filter_nothing _ (map _ (flat_map _ l))); [apply app_nil_r|].
    intros m Hm. apply in_map_iff in Hm as (o & <- & Ho). simpl.
    apply in_flat_map in Ho as (w0 & Hw0 & Ho).
    rewrite (overlay_ward w0 fsa_boundaries o Ho). apply Z.eqb_neq.
    apply Hl. exact Hw0.
  - rewrite Hother by (intros Heq; apply (Hl w Hw); symmetry; exact Heq).
    apply IH; assumption.
Qed.

Lemma ward_rows_codes (w : ward G) (fsa_boundaries : list (fsa G)) :
  NoDup (map CFSAUID fsa_boundaries) ->
  NoDup (map (fun o => CFSAUID (of_fsa o)) (ward_rows w fsa_boundaries)).
Proof.
  induction fsa_boundaries as [|f l IH]; intros Hnd; [constructor|].
  simpl in Hnd. apply NoDup_cons in Hnd as [Hfresh Hnd].
  cbn. destruct (intersection (ward_geometry w) (fsa_geometry f)); cbn.
  - apply NoDup_cons. split; [|apply IH, Hnd].
    intros Hin. apply Hfresh. apply list_elem_of_In in Hin.
    apply in_map_iff in Hin as (o & <- & Ho). apply list_elem_of_In in Ho.
    apply list_elem_of_omap in Ho as (f' & Hf' & Ho).
    destruct (intersection (ward_geometry w) (fsa_geometry f')); [|discriminate].
    injection Ho as <-. simpl. apply list_elem_of_In, in_map, list_elem_of_In, Hf'.
  - apply IH, Hnd.
Qed.

(** *** Groups of one row *)

Lemma only_row_of_its_key (rows : list (Rounded.apportioned_row G))
      (r : Rounded.apportioned_row G) :
  NoDup (map Rounded.row_CFSAUID rows) -> In r rows ->
  List.filter (fun r' => String.eqb (Rounded.row_CFSAUID r') (Rounded.row_CFSAUID r)) rows
  = [r].
Proof.
  induction rows as [|r0 rows IH]; intros Hnd Hin; [destruct Hin|].
  simpl in Hnd. apply NoDup_cons in Hnd as [Hfresh Hnd].
  simpl. destruct Hin as [-> | Hin].
  - rewrite String.eqb_refl. f_equal. apply filter_nothing.
    intros r' Hr'. apply String.eqb_neq. intros Heq. apply Hfresh.
    rewrite <- Heq. apply list_elem_of_In, in_map, Hr'.
  - destruct (String.eqb_spec (Rounded.row_CFSAUID r0) (Rounded.row_CFSAUID r)) as [Heq|_].
    + exfalso. apply Hfresh. rewrite Heq. apply list_elem_of_In, in_map, Hin.
    + apply IH; assumption.
Qed.

Lemma group_keys_Permutation (rows : list (Rounded.apportioned_row G)) :
  NoDup (map Rounded.row_CFSAUID rows) ->
  Rounded.group_keys rows ≡ₚ map Rounded.row_CFSAUID rows.
Proof.
  intros Hnd. unfold Rounded.group_keys. rewrite merge_sort_Permutation.
  apply NoDup_Permutation; [apply NoDup_remove_dups | exact Hnd |].
  intros k. apply elem_of_remove_dups.
Qed.

Lemma cell_at_named (c : string) (f : string -> float) (columns : list string) :
  In c columns -> Rounded.cell_at c (map (fun c' => (c', f c')) columns) = f c.
Proof.
  unfold Rounded.cell_at. induction columns as [|c0 columns IH]; intros Hin; [destruct Hin|].
  cbn [map List.find fst]. destruct (String.eqb_spec c0 c) as [-> | Hne]; [reflexivity|].
  destruct Hin as [Heq | Hin]; [contradiction|]. apply IH, Hin.
Qed.

Lemma exact_sum_Permutation (xs ys : list float) :
  xs ≡ₚ ys -> exact_sum xs == exact_sum ys.
Proof.
  unfold exact_sum. induction 1 as [|x xs ys _ IH|x y xs|xs ys zs _ IH1 _ IH2]; simpl.
  - reflexivity.
  - rewrite IH. reflexivity.
  - ring.
  - rewrite IH1. exact IH2.
Qed.

(** With FSA codes that differ from row to row, every group has one row
    and a cell of the aggregated table is the sum of one value. *)
Lemma aggregated_column (rows : list (Rounded.apportioned_row G)) (c : string) :
  NoDup (map Rounded.row_CFSAUID rows) ->
  In c (Rounded.sum_columns rows) ->
  column_cells c (Rounded.fsa_aggregated rows)
  ≡ₚ map (fun r => group_sum [Rounded.cell_at c (Rounded.apportioned r)]) rows.
Proof.
  intros Hnd Hc. unfold column_cells, Rounded.fsa_aggregated.
  rewrite map_map. cbn [snd].
  set (F := fun key =>
              group_sum
                (map (fun r => Rounded.cell_at c (Rounded.apportioned r))
                     (List.filter (fun r => String.eqb (Rounded.row_CFSAUID r) key) rows))).
  rewrite (map_ext _ F)
    by (intros key;
        apply (cell_at_named c
                 (fun c' =>
                    group_sum
                      (map (fun r => Rounded.cell_at c' (Rounded.apportioned r))
                           (List.filter
                              (fun r => String.eqb (Rounded.row_CFSAUID r) key) rows)))
                 _ Hc)).
  rewrite (group_keys_Permutation rows Hnd), map_map.
  rewrite (map_ext_in _ (fun r => group_sum [Rounded.cell_at c (Rounded.apportioned r)]));
    [reflexivity|].
  intros r Hr. unfold F. rewrite only_row_of_its_key by assumption. reflexivity.
Qed.

(** *** The value of one row *)

Lemma cell_at_share (c sfx : string) (v : Q) (g : string * Q -> float)
      (l : list (string * Q)) :
  NoDup (map fst l) -> In (c, v) l -> is_numeric_col c = true ->
  Rounded.cell_at (String.append c sfx)
    (map (fun cv => (String.append (fst cv) sfx, g cv))
         (List.filter (fun cv => is_numeric_col (fst cv)) l))
  = g (c, v).
Proof.
  unfold Rounded.cell_at.
  induction l as [|[c0 v0] l IH]; intros Hnd Hin Hc; [destruct Hin|].
  simpl in Hnd. apply NoDup_cons in Hnd as [Hfresh Hnd].
  cbn [List.filter fst].
  destruct Hin as [Heq | Hin].
  - injection Heq as -> ->. rewrite Hc. cbn [map List.find fst].
    rewrite String.eqb_refl. reflexivity.
  - assert (c0 <> c) as Hne.
    { intros ->. apply Hfresh. apply list_elem_of_In.
      apply (in_map fst) in Hin. exact Hin. }
    destruct (is_numeric_col c0); [|apply IH; assumption].
    cbn [map List.find fst].
    destruct (String.eqb_spec (String.append c0 sfx) (String.append c sfx)) as [Heq|_].
    + apply append_inj_r in Heq. contradiction.
    + apply IH; assumption.
Qed.

Lemma Qeq_bool_false (a b : Q) : ~ a == b -> Qeq_bool a b = false.
Proof.
  intros H. destruct (Qeq_bool a b) eqn:Hb; [|reflexivity].
  apply Qeq_bool_eq in Hb. contradiction.
Qed.

(** The quotient of two areas and the product of a count with it: a float
    within two roundings of the exact share. *)
Lemma share_rounded (count a ward_area : Q) :
  0 < ward_area -> is_count count -> comparable a ward_area ->
  let share := fmul (Num count) (fdiv (Num a) (Num ward_area)) in
  share = Num (number share)
  /\ representable (number share)
  /\ (count - two_roundings * Qabs count) * (a / ward_area) <= number share
     /\ number share <= (count + two_roundings * Qabs count) * (a / ward_area).
Proof.
  intros HA Hcount [Hlo Hhi]. cbv zeta.
  pose proof u_pos as Hu. pose proof u_small as Hus.
  set (x := a / ward_area).
  assert (pow2 (-900) <= x) as Hx1 by (apply Qle_shift_div_l; assumption).
  assert (x <= pow2 900) as Hx2 by (apply Qle_shift_div_r; assumption).
  pose proof (pow2_pos (-900)) as Hp900.
  assert (0 < x) as Hx by lra.
  assert (normal x) as Hnx.
  { unfold normal. rewrite Qabs_pos by lra. split.
    - apply Qle_trans with (pow2 (-900)); [apply pow2_le; lia | exact Hx1].
    - apply Qle_trans with (pow2 900); [exact Hx2 | apply pow2_le; lia]. }
  destruct (rnd_normal x Hnx) as (q & Hq & _ & Hqe).
  rewrite (Qabs_pos x) in Hqe by lra. apply Qabs_Qle_condition in Hqe as [Hq1 Hq2].
  assert (fdiv (Num a) (Num ward_area) = Num q) as Hdiv.
  { unfold fdiv. rewrite Qeq_bool_false by lra. exact Hq. }
  rewrite Hdiv. unfold fmul.
  pose proof (Qabs_nonneg count) as Hk0.
  destruct Hcount as [Hzero | [Hk1 Hk2]].
  - rewrite (rnd_zero (count * q)) by (rewrite Hzero; ring).
    cbn [number]. split; [reflexivity|]. split; [apply representable_zero|].
    rewrite Hzero. change (Qabs 0) with 0. split; ring_simplify; lra.
  - set (k := Qabs count) in *.
    assert (0 < q) as Hqpos by nra.
    assert (Qabs (count * q) == k * q) as Habs
        by (rewrite Qabs_Qmult, (Qabs_pos q) by lra; reflexivity).
    assert (pow2 (-901) * 2 == pow2 (-900)) as H901.
    { rewrite Qmult_comm, <- pow2_succ. reflexivity. }
    assert (pow2 (-1022) <= pow2 (-901)) as Hmin by (apply pow2_le; lia).
    assert (pow2 53 * pow2 900 * 2 == pow2 954) as H954.
    { rewrite <- pow2_plus, Qmult_comm, <- pow2_succ. reflexivity. }
    assert (pow2 954 <= pow2 1023) as Hmax by (apply pow2_le; lia).
    assert (q <= k * q) as Hkq1 by nra.
    assert (k * q <= pow2 53 * q) as Hkq2 by nra.
    assert (pow2 53 * q <= pow2 53 * (x * 2)) as Hkq3.
    { apply Qmult_le_l; [apply pow2_pos | nra]. }
    assert (pow2 53 * (x * 2) <= pow2 53 * (pow2 900 * 2)) as Hkq4.
    { apply Qmult_le_l; [apply pow2_pos | lra]. }
    assert (normal (count * q)) as Hnp.
    { unfold normal. rewrite Habs. split; [nra | lra]. }
    destruct (rnd_normal (count * q) Hnp) as (p & Hp & Hrep & Hpe).
    rewrite Hp. cbn [number]. split; [reflexivity|]. split; [exact Hrep|].
    rewrite Habs in Hpe. apply Qabs_Qle_condition in Hpe as [Hp1 Hp2].
    assert (k * q <= k * (x * (1 + u))) as Hkx by (apply Qmult_le_l; lra).
    assert (u * (k * q) <= u * (k * (x * (1 + u)))) as Hukx
        by (apply Qmult_le_l; lra).
    unfold two_roundings.
    destruct (Qlt_le_dec count 0) as [Hneg | Hpos].
    + assert (k == - count) as Hk by (unfold k; apply Qabs_neg; lra).
      assert (k * (q - x) <= k * (u * x)) as Hd1 by (apply Qmult_le_l; lra).
      assert (k * (- (u * x)) <= k * (q - x)) as Hd2 by (apply Qmult_le_l; lra).
      rewrite Hk in *. split; lra.
    + assert (k == count) as Hk by (unfold k; apply Qabs_pos; lra).
      assert (k * (q - x) <= k * (u * x)) as Hd1 by (apply Qmult_le_l; lra).
      assert (k * (- (u * x)) <= k * (q - x)) as Hd2 by (apply Qmult_le_l; lra).
      rewrite Hk in *. split; lra.
Qed.

Lemma sum_between {A} (lo f hi : A -> Q) (l : list A) :
  (forall x, In x l -> lo x <= f x /\ f x <= hi x) ->
  fold_right Qplus 0 (map lo l) <= fold_right Qplus 0 (map f l)
  /\ fold_right Qplus 0 (map f l) <= fold_right Qplus 0 (map hi l).
Proof.
  induction l as [|x l IH]; intros H; simpl; [lra|].
  destruct (H x (or_introl eq_refl)) as [H1 H2].
  destruct IH as [IH1 IH2]; [intros y Hy; apply H; right; exact Hy|].
  lra.
Qed.

Lemma covered_nonneg (ms : list (merged G)) :
  (forall m, In m ms -> 0 <= area_overlap m) -> 0 <= covered_area ms.
Proof.
  unfold covered_area. induction ms as [|m ms IH]; intros H; simpl; [lra|].
  pose proof (H m (or_introl eq_refl)).
  assert (0 <= fold_right Qplus 0 (map area_overlap ms))
    by (apply IH; intros m' Hm'; apply H; right; exact Hm').
  lra.
Qed.

(** C9, as the floats have it.  With ward numbers that identify the wards,
    FSA codes that identify the FSAs and column names that identify the
    columns, what a ward of positive area contributes to a "311_" or "STR_"
    column is conserved up to the rounding of one quotient and one product:
    the cells of the aggregated table are numbers, and their sum over all
    FSAs differs from the ward's count times the covered fraction of its
    area by at most [2u + u^2] of it, [u = 2^-53].  With full coverage the
    sum is within that distance of the ward's count; with a nonnegative
    count and intersections that cover no more than the ward it does not
    exceed the count by more. *)
Theorem apportioning_conserves_up_to_rounding (gdf_combined : list (ward G))
        (fsa_boundaries : list (fsa G)) (w : ward G) (c : string) (count : Q) :
  NoDup (map ward_number gdf_combined) -> In w gdf_combined ->
  NoDup (map fst (counts w)) -> In (c, count) (counts w) ->
  startswith c "311_" = true \/ startswith c "STR_" = true ->
  NoDup (map CFSAUID fsa_boundaries) ->
  0 < area (ward_geometry w) ->
  is_count count ->
  let mine := contributions gdf_combined fsa_boundaries (ward_number w) in
  (forall m, In m mine -> comparable (area_overlap m) (area (ward_geometry w))) ->
  let cells := column_cells (String.append c "_apportioned")
                            (Rounded.fsa_aggregated (map Rounded.finish mine)) in
  let total := exact_sum cells in
  let share := count * (covered_area mine / area (ward_geometry w)) in
  Forall is_number cells
  /\ Qabs (total - share) <= two_roundings * Qabs share
  /\ (covered_area mine == area (ward_geometry w) ->
      Qabs (total - count) <= two_roundings * Qabs count)
  /\ (0 <= count -> covered_area mine <= area (ward_geometry w) ->
      total <= count * (1 + two_roundings)).
Proof.
  intros Hnd Hw Hcols Hin Hc Hcodes Hpos Hcount mine Hareas cells total share.
  assert (is_numeric_col c = true) as Hnum.
  { unfold is_numeric_col. destruct Hc as [-> | ->]; [reflexivity | apply orb_true_r]. }
  set (A := area (ward_geometry w)) in *.
  set (sfx := "_apportioned") in *.
  set (value := fun m : merged G =>
                  fmul (Num count) (fdiv (Num (area_overlap m)) (Num A))).
  (* every row of the ward holds the rounded share *)
  assert (forall m, In m mine ->
            Rounded.cell_at (String.append c sfx) (Rounded.apportion m) = value m)
    as Hcell.
  { intros m Hm.
    destruct (contribution_rows _ _ _ _ Hnd Hw Hm) as [Hb Ha].
    unfold Rounded.apportion, Rounded.area_frac. rewrite Hb, Ha. cbn [from_option].
    apply (cell_at_share c sfx count
             (fun cv => fmul (Num (snd cv)) (fdiv (Num (area_overlap m)) (Num A))));
      assumption. }
  assert (forall m, In m mine ->
            value m = Num (number (value m))
            /\ representable (number (value m))
            /\ (count - two_roundings * Qabs count) * (area_overlap m / A)
               <= number (value m)
               /\ number (value m)
                  <= (count + two_roundings * Qabs count) * (area_overlap m / A))
    as Hvalue.
  { intros m Hm. apply share_rounded; [exact Hpos | exact Hcount | apply Hareas, Hm]. }
  (* the column of the aggregated table *)
  assert (cells ≡ₚ map value mine) as Hperm.
  { assert (forall l : list (merged G), l = [] \/ exists m0 rest, l = m0 :: rest)
      as Hcases.
    { intros [|m0 rest]; [left; reflexivity | right; exists m0, rest; reflexivity]. }
    destruct (Hcases mine) as [Hmine | (m0 & rest & Hmine)].
    - subst cells. rewrite Hmine. cbn. reflexivity.
    - subst cells.
      rewrite aggregated_column.
      + rewrite map_map.
        rewrite (map_ext_in _ value); [reflexivity|].
        intros m Hm. cbn [Rounded.finish Rounded.apportioned].
        rewrite (Hcell m Hm).
        destruct (Hvalue m Hm) as (Hv & Hrep & _). rewrite Hv.
        rewrite (group_sum_one _ Hrep). reflexivity.
      + rewrite map_map. cbn [Rounded.finish Rounded.row_CFSAUID].
        subst mine. rewrite contributions_of_ward by assumption.
        rewrite map_map. cbn [base]. apply ward_rows_codes, Hcodes.
      + assert (In m0 mine) as Hm0 by (rewrite Hmine; left; reflexivity).
        rewrite Hmine. cbn [map Rounded.sum_columns Rounded.finish Rounded.apportioned].
        destruct (contribution_rows _ _ _ _ Hnd Hw Hm0) as [Hb _].
        unfold Rounded.apportion. rewrite Hb, map_map. cbn [fst].
        apply in_map_iff. exists (c, count). split; [reflexivity|].
        apply filter_In. auto. }
  assert (Forall is_number cells) as Hnumbers.
  { rewrite Hperm. apply Forall_forall. intros v Hv. apply list_elem_of_In in Hv.
    apply in_map_iff in Hv as (m & <- & Hm).
    destruct (Hvalue m Hm) as (-> & _). exact I. }
  assert (total == fold_right Qplus 0 (map (fun m => number (value m)) mine)) as Htotal.
  { subst total. rewrite (exact_sum_Permutation _ _ Hperm).
    unfold exact_sum. rewrite map_map. reflexivity. }
  pose proof (sum_between
                (fun m => (count - two_roundings * Qabs count) * (area_overlap m / A))
                (fun m => number (value m))
                (fun m => (count + two_roundings * Qabs count) * (area_overlap m / A))
                mine (fun m Hm => proj2 (proj2 (Hvalue m Hm)))) as [Hlo Hhi].
  rewrite !shares_sum in Hlo, Hhi. rewrite <- Htotal in Hlo, Hhi.
  set (X := covered_area mine / A) in *.
  assert (0 <= covered_area mine) as Hcov.
  { apply covered_nonneg. intros m Hm. destruct (Hareas m Hm) as [H1 _].
    pose proof (pow2_pos (-900)). fold A in H1. nra. }
  assert (0 <= X) as HX by (apply Qle_shift_div_l; lra).
  pose proof (Qabs_nonneg count) as Hk.
  assert (0 < two_roundings) as Heps.
  { unfold two_roundings. pose proof u_pos. nra. }
  assert (Qabs share == Qabs count * X) as Hshare.
  { subst share. fold X. rewrite Qabs_Qmult, (Qabs_pos X) by exact HX. reflexivity. }
  split; [exact Hnumbers|]. split; [|split].
  - rewrite Hshare. apply Qabs_Qle_condition. subst share. fold X. split; lra.
  - intros Hfull.
    assert (X == 1) as HX1 by (unfold X; rewrite Hfull; field; lra).
    apply Qabs_Qle_condition. rewrite HX1 in Hlo, Hhi. split; lra.
  - intros Hcount0 Hcover.
    assert (X <= 1) as HX1 by (apply Qle_shift_div_r; lra).
    rewrite (Qabs_pos count) in Hhi by exact Hcount0.
    assert ((count + two_roundings * count) * X
            <= (count + two_roundings * count) * 1) as Hmul.
    { assert (0 <= count + two_roundings * count) as Hnn by nra. nra. }
    lra.
Qed.
End RoundedConservation.

Section RoundedStrip.
Import Py Geo Binary64.
Local Open Scope Q_scope.

Lemma apportioning_conserves_up_to_rounding_witness :
  let mine := contributions (GE := rectangle_geometry) [strip_ward] strip_fsas 1 in
  let cells := column_cells "STR_Apartment_apportioned"
                            (Rounded.fsa_aggregated (map Rounded.finish mine)) in
  (NoDup (map ward_number [strip_ward]) /\ In strip_ward [strip_ward]
   /\ NoDup (map fst (counts strip_ward))
   /\ In ("STR_Apartment", 7) (counts strip_ward)
   /\ (startswith "STR_Apartment" "311_" = true
       \/ startswith "STR_Apartment" "STR_" = true)
   /\ NoDup (map CFSAUID strip_fsas)
   /\ 0 < area (ward_geometry strip_ward)
   /\ is_count 7
   /\ (forall m, In m mine ->
         comparable (area_overlap m) (area (ward_geometry strip_ward)))
   /\ covered_area mine == area (ward_geometry strip_ward))
  /\ Forall is_number cells
  /\ Qabs (exact_sum cells - 7) <= two_roundings * Qabs 7.
Proof.
  intros mine cells.
  assert (NoDup (map ward_number [strip_ward])) as H1 by (apply (@bool_decide_unpack _ (NoDup_dec _)); vm_compute; exact I).
  assert (In strip_ward [strip_ward]) as H2 by (left; reflexivity).
  assert (NoDup (map fst (counts strip_ward))) as H3 by (apply (@bool_decide_unpack _ (NoDup_dec _)); vm_compute; exact I).
  assert (In ("STR_Apartment", 7) (counts strip_ward)) as H4 by (left; reflexivity).
  assert (startswith "STR_Apartment" "311_" = true
          \/ startswith "STR_Apartment" "STR_" = true) as H5 by (right; reflexivity).
  assert (NoDup (map CFSAUID strip_fsas)) as H6 by (apply (@bool_decide_unpack _ (NoDup_dec _)); vm_compute; exact I).
  assert (0 < area (ward_geometry strip_ward)) as H7 by reflexivity.
  assert (is_count 7) as H8.
  { right. split; vm_compute; discriminate. }
  assert (forall m, In m mine ->
            comparable (area_overlap m) (area (ward_geometry strip_ward))) as H9.
  { intros m Hm. vm_compute in Hm.
    repeat (destruct Hm as [<- | Hm]; [split; vm_compute; discriminate|]).
    destruct Hm. }
  assert (covered_area mine == area (ward_geometry strip_ward)) as H10 by reflexivity.
  split.
  { exact (conj H1 (conj H2 (conj H3 (conj H4 (conj H5 (conj H6 (conj H7
             (conj H8 (conj H9 H10))))))))). }
  destruct (apportioning_conserves_up_to_rounding (GE := rectangle_geometry)
              [strip_ward] strip_fsas strip_ward "STR_Apartment" 7
              H1 H2 H3 H4 H5 H6 H7 H8 H9) as (Hn & _ & Hfull & _).
  split; [exact Hn | exact (Hfull H10)].
Defined.

(** C9 as stated fails on the floats: a ward of area 10 with 7 rentals that
    ten unit squares cover completely gives every FSA
    0.7000000000000001, and the ten cells sum to more than 7.  When the
    ten squares are parts of one FSA, the one cell of the aggregated table
    holds 7.000000000000001. *)
Lemma rounding_breaks_conservation :
  let mine := contributions (GE := rectangle_geometry) [strip_ward] strip_fsas 1 in
  let cells := column_cells "STR_Apartment_apportioned"
                            (Rounded.fsa_aggregated (map Rounded.finish mine)) in
  let parts := contributions (GE := rectangle_geometry) [strip_ward] strip_parts 1 in
  covered_area mine == area (ward_geometry strip_ward)
  /\ cells = repeat (Num (6305039478318695 # 9007199254740992)) 10
  /\ exact_sum cells == 7 + (6 # 9007199254740992)
  /\ ~ exact_sum cells == 7
  /\ ~ exact_sum cells <= 7
  /\ covered_area parts == area (ward_geometry strip_ward)
  /\ column_cells "STR_Apartment_apportioned"
                  (Rounded.fsa_aggregated (map Rounded.finish parts))
     = [Num (7881299347898369 # 1125899906842624)]
  /\ ~ (7881299347898369 # 1125899906842624) <= 7.
Proof.
  intros mine cells parts.
  assert (cells = repeat (Num (6305039478318695 # 9007199254740992)) 10) as Hcells
      by (vm_compute; reflexivity).
  split; [reflexivity|]. split; [exact Hcells|].
  rewrite Hcells.
  split; [reflexivity|]. split; [intros H; vm_compute in H; discriminate H|].
  split; [intros H; vm_compute in H; apply H; reflexivity|].
  split; [reflexivity|]. split; [vm_compute; reflexivity|].
  intros H. vm_compute in H. apply H. reflexivity.
Qed.
End RoundedStrip.

(** ** The download loop *)

Section Download.
Import Py Geo.
Context `{RT : Runtime io_ev}.

Lemma files_written_app (a b : list (logged io_ev)) :
  files_written (a ++ b) = files_written a ++ files_written b.
Proof. apply omap_app. Qed.

Lemma requests_app (a b : list (logged io_ev)) :
  length (List.filter is_request (a ++ b))
  = (length (List.filter is_request a) + length (List.filter is_request b))%nat.
Proof. rewrite List.filter_app, length_app. reflexivity. Qed.

Lemma quiet_lift {A} (r : result A) : quiet 0 (lift r).
Proof. intros g. destruct r; simpl; auto. Qed.

Lemma quiet_call {X} (c : io_ev X) :
  (forall failure, written (Log c failure) = None) ->
  quiet (if is_request (Log c None) then 1 else 0) (call c).
Proof.
  intros Hc g. unfold call.
  assert (forall failure, is_request (Log c failure) = is_request (Log c None)) as Hr
      by reflexivity.
  destruct (perform c g) as [[x|e] g']; cbn [trace];
    unfold files_written; cbn [omap list_omap]; rewrite Hc; cbn [List.filter];
    (split; [reflexivity|]);
    match goal with
    | |- context [is_request (Log c ?f)] =>
        pose proof (Hr f) as Hf; destruct (is_request (Log c f)); try rewrite <- Hf
    end; simpl; lia.
Qed.

Lemma quiet_bind {A B} (n1 n2 : nat) (m : M io_ev A) (f : A -> M io_ev B) :
  quiet n1 m -> (forall a, quiet n2 (f a)) -> quiet (n1 + n2) (bind m f).
Proof.
  intros Hm Hf g. destruct (Hm g) as [Hw Hr].
  destruct (value (m g)) as [a|e] eqn:Hv.
  - rewrite (bind_ok _ _ _ _ Hv). cbn [trace].
    destruct (Hf a (final (m g))) as [Hw' Hr'].
    rewrite files_written_app, requests_app, Hw, Hw'. split; [reflexivity | lia].
  - rewrite (bind_raised _ _ _ _ Hv). cbn [trace]. split; [exact Hw | lia].
Qed.

Lemma writes_one_bind {A B} (file : string) (n1 n2 : nat)
      (m : M io_ev A) (f : A -> M io_ev B) :
  quiet n1 m -> (forall a, writes_one file n2 (f a)) ->
  writes_one file (n1 + n2) (bind m f).
Proof.
  intros Hm Hf g. destruct (Hm g) as [Hw Hr].
  destruct (value (m g)) as [a|e] eqn:Hv.
  - rewrite (bind_ok _ _ _ _ Hv). cbn [trace value].
    destruct (Hf a (final (m g))) as [Hw' Hr'].
    rewrite files_written_app, requests_app, Hw. split; [exact Hw' | lia].
  - rewrite (bind_raised _ _ _ _ Hv). cbn [trace value].
    split; [left; eauto | lia].
Qed.

Lemma writes_one_write (file data : string) :
  writes_one file 0 (call (WriteFile file data)).
Proof.
  intros g. unfold call.
  destruct (perform (WriteFile file data) g) as [[x|e] g']; simpl; auto.
Qed.

Lemma download_one_writes (dataset : string) (res_num : Z) (f_type : string) :
  writes_one (String.append dataset (String.append "." f_type)) 2
             (download_one dataset res_num f_type).
Proof.
  unfold download_one.
  apply (writes_one_bind _ 1 1); [apply (quiet_call (RequestsGet _ _)); reflexivity|].
  intros r.
  apply (writes_one_bind _ 0 1); [apply (quiet_call (ResponseJson _)); reflexivity|].
  intros response.
  apply (writes_one_bind _ 0 1); [apply quiet_lift|]. intros result.
  apply (writes_one_bind _ 0 1); [apply quiet_lift|]. intros resources.
  apply (writes_one_bind _ 0 1); [apply quiet_lift|]. intros resource.
  apply (writes_one_bind _ 0 1); [apply quiet_lift|]. intros url.
  apply (writes_one_bind _ 0 1); [apply (quiet_call (PrintLine _)); reflexivity|].
  intros _.
  apply (writes_one_bind _ 0 1); [apply quiet_lift|]. intros url'.
  apply (writes_one_bind _ 1 0); [apply (quiet_call (RequestsGet _ _)); reflexivity|].
  intros data_response. apply writes_one_write.
Qed.

Lemma download_datasets_turns g :
  download_datasets g
  = (_ <- download_one "city-wards" 11 "geojson";;
     _ <- download_one "311-service-requests-customer-initiated" 1 "zip";;
     u <- download_one "short-term-rentals-registration" 1 "csv";;
     ret u) g.
Proof. reflexivity. Qed.

Lemma download_in_order g :
  files_written (trace (download_datasets g)) `prefix_of` dataset_files
  /\ (forall u, value (download_datasets g) = Ok u ->
                files_written (trace (download_datasets g)) = dataset_files)
  /\ (length (List.filter is_request (trace (download_datasets g))) <= 6)%nat.
Proof.
  rewrite download_datasets_turns.
  set (m1 := download_one "city-wards" 11 "geojson").
  set (m2 := download_one "311-service-requests-customer-initiated" 1 "zip").
  set (m3 := download_one "short-term-rentals-registration" 1 "csv").
  destruct (download_one_writes "city-wards" 11 "geojson" g) as [H1 R1].
  fold m1 in H1, R1.
  destruct (value (m1 g)) as [u1|e1] eqn:V1.
  2:{ rewrite (bind_raised _ _ _ _ V1). cbn [trace value].
      split; [|split; [discriminate | lia]].
      destruct H1 as [[-> _] | ->]; [apply prefix_nil | by exists (tail dataset_files)]. }
  rewrite (bind_ok _ _ _ _ V1). cbn [trace value].
  destruct H1 as [[_ [e He]] | H1]; [discriminate|].
  set (g1 := final (m1 g)).
  destruct (download_one_writes "311-service-requests-customer-initiated" 1 "zip" g1)
    as [H2 R2].
  fold m2 in H2, R2.
  destruct (value (m2 g1)) as [u2|e2] eqn:V2.
  2:{ rewrite (bind_raised _ _ _ _ V2). cbn [trace value].
      rewrite files_written_app, requests_app, H1.
      split; [|split; [discriminate | lia]].
      destruct H2 as [[-> _] | ->];
        [by exists (tail dataset_files) | by exists (drop 2 dataset_files)]. }
  rewrite (bind_ok _ _ _ _ V2). cbn [trace value].
  destruct H2 as [[_ [e He]] | H2]; [discriminate|].
  set (g2 := final (m2 g1)).
  destruct (download_one_writes "short-term-rentals-registration" 1 "csv" g2)
    as [H3 R3].
  fold m3 in H3, R3.
  destruct (value (m3 g2)) as [u3|e3] eqn:V3.
  - rewrite (bind_ok _ _ _ _ V3). cbn [trace value ret].
    destruct H3 as [[_ [e He]] | H3]; [discriminate|].
    rewrite !files_written_app, !requests_app, H1, H2, H3, app_nil_r.
    split; [reflexivity|]. split; [reflexivity | simpl; lia].
  - rewrite (bind_raised _ _ _ _ V3). cbn [trace value].
    rewrite !files_written_app, !requests_app, H1, H2.
    split; [|split; [discriminate | lia]].
    destruct H3 as [[-> _] | ->]; [by exists (drop 2 dataset_files) | reflexivity].
Qed.

(** X15: whatever the servers and the file system do, the download loop
    writes the three dataset files in order and nothing else: the files
    written are a prefix of [city-wards.geojson],
    [311-service-requests-customer-initiated.zip],
    [short-term-rentals-registration.csv]; all three when the loop returns;
    and it makes at most six HTTP requests.  A failure for one dataset
    leaves the files of the datasets before it in place. *)
Theorem download_writes_in_order g :
  files_written (trace (download_datasets g)) `prefix_of` dataset_files
  /\ (forall u, value (download_datasets g) = Ok u ->
                files_written (trace (download_datasets g)) = dataset_files)
  /\ (length (List.filter is_request (trace (download_datasets g))) <= 6)%nat.
Proof. apply download_in_order. Qed.
End Download.

Section Served.
Import Py Geo.
Context (resources : list json) (data : string).

Abbreviation Served := (@Outcome io_ev (serving resources data) _).

Lemma download_one_served (dataset : string) (res_num : Z) (f_type : string)
      (resource url : json) (disk : list (string * string)) :
  getitem_index (JList resources) res_num = Ok resource ->
  getitem_key resource "url" = Ok url ->
  exists calls,
    download_one (RT := serving resources data) dataset res_num f_type disk
    = Served (Ok tt)
             (disk ++ [(String.append dataset (String.append "." f_type), data)])
             calls.
Proof.
  intros Hres Hurl. unfold download_one.
  erewrite bind_returns by reflexivity.
  erewrite bind_returns by reflexivity.
  erewrite (bind_returns _ _ _ (JDict [("resources", JList resources)]))
    by reflexivity.
  erewrite (bind_returns _ _ _ (JList resources)) by reflexivity.
  erewrite bind_returns by (rewrite Hres; reflexivity).
  erewrite bind_returns by (rewrite Hurl; reflexivity).
  erewrite bind_returns by reflexivity.
  erewrite bind_returns by (rewrite Hurl; reflexivity).
  erewrite bind_returns by reflexivity.
  eexists. reflexivity.
Qed.

Lemma download_one_short (dataset : string) (res_num : Z) (f_type : string)
      (disk : list (string * string)) :
  0 <= res_num -> len resources <= res_num ->
  download_one (RT := serving resources data) dataset res_num f_type disk
  = Served (Raised (IndexError "list index out of range")) disk
           [Log (RequestsGet (JStr base_url) [("id", dataset)]) None;
            Log (ResponseJson (Response "package")) None].
Proof.
  intros H0 Hn. unfold download_one.
  erewrite bind_returns by reflexivity.
  erewrite bind_returns by reflexivity.
  erewrite (bind_returns _ _ _ (JDict [("resources", JList resources)]))
    by reflexivity.
  erewrite (bind_returns _ _ _ (JList resources)) by reflexivity.
  assert (getitem_index (JList resources) res_num
          = Raised (IndexError "list index out of range")) as Hidx.
  { unfold getitem_index.
    destruct (res_num <? 0) eqn:Hneg; [apply Z.ltb_lt in Hneg; lia|].
    rewrite Hneg. simpl.
    destruct (len resources <=? res_num) eqn:Hle; [reflexivity|].
    apply Z.leb_gt in Hle. lia. }
  erewrite bind_raised by (rewrite Hidx; reflexivity).
  rewrite Hidx. reflexivity.
Qed.

Lemma download_served (r1 r11 url1 url11 : json) (disk : list (string * string)) :
  getitem_index (JList resources) 1 = Ok r1 -> getitem_key r1 "url" = Ok url1 ->
  getitem_index (JList resources) 11 = Ok r11 -> getitem_key r11 "url" = Ok url11 ->
  value (download_datasets (RT := serving resources data) disk) = Ok tt
  /\ final (download_datasets (RT := serving resources data) disk)
     = disk ++ map (fun file => (file, data)) dataset_files.
Proof.
  intros H1 U1 H11 U11. rewrite download_datasets_turns.
  destruct (download_one_served "city-wards" 11 "geojson" r11 url11 disk H11 U11)
    as [c1 E1].
  erewrite bind_returns by exact E1.
  destruct (download_one_served "311-service-requests-customer-initiated" 1 "zip"
              r1 url1 (disk ++ [("city-wards.geojson", data)]) H1 U1) as [c2 E2].
  erewrite bind_returns by exact E2.
  destruct (download_one_served "short-term-rentals-registration" 1 "csv"
              r1 url1
              ((disk ++ [("city-wards.geojson", data)])
                 ++ [("311-service-requests-customer-initiated.zip", data)]) H1 U1)
    as [c3 E3].
  erewrite bind_returns by exact E3.
  cbn [value final ret]. split; [reflexivity|].
  rewrite <- !app_assoc. reflexivity.
Qed.

(** X16: against a server that answers every package request with the same
    resource list and every download with [data]: when the list has fewer
    than 12 resources, the loop raises [IndexError] at the first dataset
    (resource number 11 of city-wards) after two calls, and no file has been
    written; when resources 1 and 11 exist and carry a ["url"], the loop
    returns and leaves exactly the three dataset files on disk, each
    holding [data]. *)
Theorem download_from_server (r1 r11 url1 url11 : json) (disk : list (string * string)) :
  (len resources <= 11 ->
   download_datasets (RT := serving resources data) disk
   = Served (Raised (IndexError "list index out of range")) disk
            [Log (RequestsGet (JStr base_url) [("id", "city-wards")]) None;
             Log (ResponseJson (Response "package")) None])
  /\ (getitem_index (JList resources) 1 = Ok r1 -> getitem_key r1 "url" = Ok url1 ->
      getitem_index (JList resources) 11 = Ok r11 -> getitem_key r11 "url" = Ok url11 ->
      value (download_datasets (RT := serving resources data) disk) = Ok tt
      /\ final (download_datasets (RT := serving resources data) disk)
         = disk ++ map (fun file => (file, data)) dataset_files).
Proof.
  split.
  - intros Hn. rewrite download_datasets_turns.
    erewrite bind_raised by (rewrite download_one_short by lia; reflexivity).
    rewrite download_one_short by lia. reflexivity.
  - apply download_served.
Qed.
End Served.

Lemma download_from_server_witness :
  final (Geo.download_datasets
           (RT := serving (replicate 12 (Geo.JDict [("url", Geo.JStr "https://host/file")]))
                          "bytes")
           [])
  = [("city-wards.geojson", "bytes");
     ("311-service-requests-customer-initiated.zip", "bytes");
     ("short-term-rentals-registration.csv", "bytes")].
Proof.
  exact (proj2 (proj2 (download_from_server
                         (replicate 12 (Geo.JDict [("url", Geo.JStr "https://host/file")]))
                         "bytes"
                         (Geo.JDict [("url", Geo.JStr "https://host/file")])
                         (Geo.JDict [("url", Geo.JStr "https://host/file")])
                         (Geo.JStr "https://host/file") (Geo.JStr "https://host/file") [])
                 eq_refl eq_refl eq_refl eq_refl)).
Defined.

(** ** Counts per ward and the combined frame *)

Section GroupSizes.
Import Py Geo Combine.
Context {K : Type} {eq_dec : EqDecision K} {countable : Countable K}.
Context (R : relation K) `{!RelDecision R}.

Lemma has_keys_spec (n : K) (t : string) (r : K * option string) :
  has_keys n t r = true <-> r = (n, Some t).
Proof.
  destruct r as [m [t'|]]; unfold has_keys; simpl.
  - rewrite andb_true_iff, bool_decide_eq_true, String.eqb_eq. split.
    + intros [-> ->]. reflexivity.
    + intros Heq. injection Heq as -> ->. auto.
  - rewrite andb_false_r. split; [discriminate | intros Heq; discriminate].
Qed.

Lemma count_row_lookup (sizes : gmap (K * string) Z) (r : K * option string)
      (n : K) (t : string) :
  default 0 (count_row sizes r !! (n, t))
  = default 0 (sizes !! (n, t)) + (if has_keys n t r then 1 else 0).
Proof.
  destruct (has_keys n t r) eqn:Hk.
  - apply has_keys_spec in Hk. subst r. unfold count_row. simpl.
    rewrite lookup_insert_eq. reflexivity.
  - destruct r as [m [t'|]]; unfold count_row; simpl; [|lia].
    rewrite lookup_insert_ne; [lia|].
    intros Heq. injection Heq as -> ->.
    assert (has_keys n t (n, Some t) = true) as Hk' by (apply has_keys_spec; reflexivity).
    congruence.
Qed.

Lemma foldl_count_row_lookup (rows : list (K * option string))
      (sizes : gmap (K * string) Z) (n : K) (t : string) :
  default 0 (foldl count_row sizes rows !! (n, t))
  = default 0 (sizes !! (n, t)) + rows_of rows n t.
Proof.
  unfold rows_of. revert sizes.
  induction rows as [|r rows IH]; intros sizes; simpl; [lia|].
  rewrite IH, count_row_lookup.
  destruct (has_keys n t r); simpl length; lia.
Qed.

Lemma group_sizes_lookup (rows : list (K * option string)) (n : K) (t : string) :
  default 0 (group_sizes rows !! (n, t)) = rows_of rows n t.
Proof.
  unfold group_sizes. rewrite foldl_count_row_lookup, lookup_empty. reflexivity.
Qed.

Lemma rows_of_zero (rows : list (K * option string)) (n : K) (t : string) :
  ~ In (n, Some t) rows -> rows_of rows n t = 0.
Proof.
  intros Hn. unfold rows_of.
  induction rows as [|r rows IH]; [reflexivity|]. simpl.
  destruct (has_keys n t r) eqn:Hk.
  - apply has_keys_spec in Hk. subst r. exfalso. apply Hn. left. reflexivity.
  - apply IH. intros Hin. apply Hn. right. exact Hin.
Qed.

Lemma foldl_count_row_keys (rows : list (K * option string))
      (sizes : gmap (K * string) Z) (k : K * string) :
  is_Some (foldl count_row sizes rows !! k)
  <-> is_Some (sizes !! k) \/ In (fst k, Some (snd k)) rows.
Proof.
  revert sizes. induction rows as [|r rows IH]; intros sizes; simpl.
  - intuition.
  - rewrite IH. destruct r as [m [t'|]]; unfold count_row; simpl.
    + destruct (decide ((m, t') = k)) as [<-|Hne].
      * rewrite lookup_insert_eq. simpl. split; [auto|]. intros _. left. eauto.
      * rewrite lookup_insert_ne by exact Hne. split.
        -- intros [Hs|Hs]; auto.
        -- intros [Hs|[Hs|Hs]]; auto.
           exfalso. apply Hne. destruct k. simpl in Hs. congruence.
    + split.
      * intros [Hs|Hs]; auto.
      * intros [Hs|[Hs|Hs]]; auto. discriminate.
Qed.

Lemma group_sizes_keys (rows : list (K * option string)) (n : K) (t : string) :
  (n, t) ∈ map fst (map_to_list (group_sizes rows)) <-> In (n, Some t) rows.
Proof.
  rewrite list_elem_of_In, in_map_iff. split.
  - intros ([k v] & Hk & Hin). simpl in Hk. subst k.
    apply list_elem_of_In, elem_of_map_to_list in Hin.
    assert (is_Some (foldl count_row ∅ rows !! (n, t))) as Hs
        by (unfold group_sizes in Hin; rewrite Hin; eauto).
    apply (foldl_count_row_keys rows ∅ (n, t)) in Hs as [Hs|Hs]; [|exact Hs].
    rewrite lookup_empty in Hs. destruct Hs as [? Hs]. discriminate.
  - intros Hin.
    destruct (proj2 (foldl_count_row_keys rows ∅ (n, t)) (or_intror Hin)) as [v Hv].
    exists ((n, t), v). split; [reflexivity|].
    apply list_elem_of_In, elem_of_map_to_list. exact Hv.
Qed.

Lemma type_levels_of_keys (rows : list (K * option string)) :
  type_levels (map snd (map fst (map_to_list (group_sizes rows)))) = types_of rows.
Proof.
  unfold types_of, type_levels.
  apply (StronglySorted_unique String.le);
    try (apply StronglySorted_merge_sort; apply _).
  rewrite !merge_sort_Permutation.
  apply NoDup_Permutation; try apply NoDup_remove_dups.
  intros t. rewrite !elem_of_remove_dups, list_elem_of_omap, !list_elem_of_In, in_map_iff.
  split.
  - intros ([n t'] & Ht & Hin). simpl in Ht. subst t'.
    apply list_elem_of_In, group_sizes_keys in Hin.
    exists (n, Some t). split; [apply list_elem_of_In; exact Hin | reflexivity].
  - intros ([n ot] & Hin & Ht). simpl in Ht. subst ot.
    exists (n, t). split; [reflexivity|].
    apply list_elem_of_In, group_sizes_keys, list_elem_of_In. exact Hin.
Qed.

Lemma key_levels_NoDup (l : list K) : NoDup (key_levels R l).
Proof.
  unfold key_levels. rewrite merge_sort_Permutation. apply NoDup_remove_dups.
Qed.

Lemma key_levels_of_keys (rows : list (K * option string)) (n : K) :
  In n (key_levels R (map fst (map fst (map_to_list (group_sizes rows)))))
  <-> exists t, In (n, Some t) rows.
Proof.
  unfold key_levels.
  rewrite <- list_elem_of_In, merge_sort_Permutation, elem_of_remove_dups,
    list_elem_of_In, in_map_iff.
  split.
  - intros ([n' t] & Hn & Hin). simpl in Hn. subst n'.
    exists t. apply group_sizes_keys, list_elem_of_In. exact Hin.
  - intros [t Hin]. exists (n, t). split; [reflexivity|].
    apply list_elem_of_In, group_sizes_keys. exact Hin.
Qed.

Lemma agg_columns (prefix : string) (rows : list (K * option string)) :
  frame_columns (agg R prefix rows) = map (String.append prefix) (types_of rows).
Proof.
  unfold agg, add_prefix, unstack. simpl. rewrite type_levels_of_keys. reflexivity.
Qed.

Lemma agg_rows (prefix : string) (rows : list (K * option string)) :
  frame_rows (agg R prefix rows)
  = map (fun n => (n, map (fun t => (String.append prefix t, rows_of rows n t))
                          (types_of rows)))
        (key_levels R (map fst (map fst (map_to_list (group_sizes rows))))).
Proof.
  unfold agg, add_prefix, unstack. simpl.
  rewrite type_levels_of_keys, map_map. apply map_ext. intros n. simpl.
  f_equal. rewrite map_map. apply map_ext. intros t. simpl.
  rewrite group_sizes_lookup. reflexivity.
Qed.

Lemma find_by_key {B} (f : K -> B) (index : list K) (n : K) :
  List.find (fun r => bool_decide (fst r = n)) (map (fun m => (m, f m)) index)
  = if bool_decide (n ∈ index) then Some (n, f n) else None.
Proof.
  induction index as [|m index IH]; simpl; [reflexivity|].
  destruct (decide (m = n)) as [->|Hne].
  - rewrite bool_decide_eq_true_2 by reflexivity.
    rewrite bool_decide_eq_true_2 by apply list_elem_of_here. reflexivity.
  - rewrite (bool_decide_eq_false_2 (m = n)) by exact Hne.
    rewrite IH. destruct (bool_decide (n ∈ index)) eqn:Hd.
    + apply bool_decide_eq_true_1 in Hd.
      rewrite bool_decide_eq_true_2 by (apply list_elem_of_further; exact Hd).
      reflexivity.
    + apply bool_decide_eq_false_1 in Hd.
      rewrite bool_decide_eq_false_2; [reflexivity|].
      intros Hin. apply elem_of_cons in Hin as [Hin|Hin]; [congruence | auto].
Qed.

Lemma agg_found (prefix : string) (rows : list (K * option string)) (n : K) :
  fillna_cells (found_counts (agg R prefix rows) n) = counts_at prefix rows n.
Proof.
  unfold fillna_cells, found_counts, counts_at. rewrite agg_rows, agg_columns.
  rewrite (find_by_key
             (fun n => map (fun t => (String.append prefix t, rows_of rows n t))
                           (types_of rows))).
  destruct (bool_decide _) eqn:Hd.
  - cbn [snd]. rewrite !map_map. reflexivity.
  - apply bool_decide_eq_false_1 in Hd. rewrite !map_map.
    apply map_ext. intros t. simpl. f_equal.
    rewrite rows_of_zero; [reflexivity|].
    intros Hin. apply Hd. apply list_elem_of_In, key_levels_of_keys. eauto.
Qed.

Lemma agg_keys_NoDup (prefix : string) (rows : list (K * option string)) :
  NoDup (map fst (frame_rows (agg R prefix rows))).
Proof.
  rewrite agg_rows, map_map. simpl. rewrite map_id. apply key_levels_NoDup.
Qed.

Lemma filter_unique_key {B} (rows : list (K * B)) (n : K) :
  NoDup (map fst rows) ->
  List.filter (fun r => bool_decide (fst r = n)) rows
  = match List.find (fun r => bool_decide (fst r = n)) rows with
    | Some r => [r]
    | None => []
    end.
Proof.
  induction rows as [|[m b] rows IH]; intros Hnd; [reflexivity|].
  simpl in Hnd. apply NoDup_cons in Hnd as [Hfresh Hnd]. simpl.
  destruct (decide (m = n)) as [->|Hne].
  - rewrite bool_decide_eq_true_2 by reflexivity. f_equal.
    assert (forall rows', ~ n ∈ map fst rows' ->
               List.filter (fun r : K * B => bool_decide (fst r = n)) rows' = [])
      as Hnone.
    { clear. induction rows' as [|[m b] rows' IH]; intros Hn; [reflexivity|]. simpl.
      destruct (decide (m = n)) as [->|Hne].
      - exfalso. apply Hn. simpl. left.
      - rewrite bool_decide_eq_false_2 by exact Hne.
        apply IH. intros Hin. apply Hn. simpl. right. exact Hin. }
    apply Hnone. exact Hfresh.
  - rewrite bool_decide_eq_false_2 by exact Hne. apply IH. exact Hnd.
Qed.

Lemma merge_counts_found {L} (key : L -> K)
      (left : list (L * list (string * option Q))) (right : counts_frame K) :
  NoDup (map fst (frame_rows right)) ->
  merge_counts key left right
  = map (fun l => (fst l, snd l ++ found_counts right (key (fst l)))) left.
Proof.
  intros Hnd. unfold merge_counts.
  induction left as [|l left IH]; [reflexivity|].
  change (l :: left) with ([l] ++ left).
  rewrite flat_map_app, map_app, IH. f_equal.
  cbn [flat_map map]. rewrite app_nil_r, (filter_unique_key _ _ Hnd).
  unfold found_counts.
  destruct (List.find _ (frame_rows right)) as [r|]; reflexivity.
Qed.
End GroupSizes.

Section Merge.
Import Py Geo Combine.
Context {G : Type}.

Lemma gdf_combined_rows (wards : list (ward_row G))
      (service_requests rentals : list keyed) :
  gdf_combined wards service_requests rentals
  = map (fun w => Ward (number w) (name w) (boundary w)
                       (counts_at "311_" service_requests (number w)
                        ++ counts_at "STR_" rentals (number w)))
        wards.
Proof.
  unfold gdf_combined, agg_311, agg_str.
  rewrite !merge_counts_found by apply agg_keys_NoDup.
  rewrite !map_map. apply map_ext. intros w. unfold fillna. simpl.
  unfold fillna_cells. rewrite map_app.
  fold (fillna_cells (found_counts (agg Z.le "311_" service_requests) (number w))).
  fold (fillna_cells (found_counts (agg Z.le "STR_" rentals) (number w))).
  rewrite !agg_found. reflexivity.
Qed.
End Merge.

Section Cells.
Import Py Geo Combine.
Context {K : Type} {eq_dec : EqDecision K} {countable : Countable K}.
Local Open Scope Q_scope.

Lemma append_inj_l (p a b : string) :
  String.append p a = String.append p b -> a = b.
Proof.
  induction p as [|c p IH]; intros H; [exact H|].
  change (String c (String.append p a) = String c (String.append p b)) in H.
  injection H as H. apply IH. exact H.
Qed.

Lemma startswith_nil (s : string) : startswith s "" = true.
Proof. destruct s; reflexivity. Qed.

Lemma startswith_append (p t : string) : startswith (String.append p t) p = true.
Proof.
  induction p as [|c p IH]; [apply startswith_nil|].
  change (startswith (String c (String.append p t)) (String c p) = true).
  cbn [startswith]. rewrite Ascii.eqb_refl. exact IH.
Qed.

Lemma numeric_311 (t : string) : is_numeric_col (String.append "311_" t) = true.
Proof. unfold is_numeric_col. rewrite startswith_append. reflexivity. Qed.

Lemma numeric_STR (t : string) : is_numeric_col (String.append "STR_" t) = true.
Proof. unfold is_numeric_col. rewrite startswith_append. apply orb_true_r. Qed.

Lemma cell_app (c : string) (a b : list (string * Q)) :
  cell c (a ++ b) == cell c a + cell c b.
Proof.
  induction a as [|[name0 x] a IH]; [unfold cell; simpl; lra|].
  change (((name0, x) :: a) ++ b) with ((name0, x) :: (a ++ b)).
  rewrite !cell_cons. destruct (String.eqb name0 c); rewrite IH; lra.
Qed.

Lemma cell_foreign (c : string) (row : list (string * Q)) :
  (forall cv, In cv row -> String.eqb (fst cv) c = false) -> cell c row == 0.
Proof.
  induction row as [|[name0 x] row IH]; intros Hne; [reflexivity|].
  rewrite cell_cons.
  pose proof (Hne (name0, x) ltac:(left; reflexivity)) as H0. simpl in H0.
  rewrite H0. apply IH. intros cv Hcv. apply Hne. right. exact Hcv.
Qed.

Lemma cell_named (p t : string) (v : string -> Q) (ts : list string) :
  NoDup ts ->
  cell (String.append p t) (map (fun t' => (String.append p t', v t')) ts)
  == if bool_decide (t ∈ ts) then v t else 0.
Proof.
  induction ts as [|t0 ts IH]; intros Hnd; [reflexivity|].
  apply NoDup_cons in Hnd as [Hfresh Hnd]. cbn [map]. rewrite cell_cons.
  specialize (IH Hnd).
  destruct (String.eqb_spec (String.append p t0) (String.append p t)) as [He|Hne];
    rewrite IH.
  - apply append_inj_l in He. subst t0.
    rewrite (bool_decide_eq_true_2 (t ∈ t :: ts)) by apply list_elem_of_here.
    rewrite (bool_decide_eq_false_2 (t ∈ ts)) by exact Hfresh. lra.
  - destruct (bool_decide (t ∈ ts)) eqn:Hd.
    + apply bool_decide_eq_true_1 in Hd.
      rewrite bool_decide_eq_true_2 by (apply list_elem_of_further; exact Hd).
      reflexivity.
    + apply bool_decide_eq_false_1 in Hd.
      rewrite bool_decide_eq_false_2; [reflexivity|].
      intros H. apply elem_of_cons in H as [->|H]; [congruence | auto].
Qed.

Lemma types_of_NoDup (rows : list (K * option string)) : NoDup (types_of rows).
Proof.
  unfold types_of, type_levels. rewrite merge_sort_Permutation.
  apply NoDup_remove_dups.
Qed.

Lemma types_of_spec (rows : list (K * option string)) (t : string) :
  t ∈ types_of rows <-> exists n, In (n, Some t) rows.
Proof.
  unfold types_of, type_levels.
  rewrite merge_sort_Permutation, elem_of_remove_dups, list_elem_of_omap. split.
  - intros ([n ot] & Hin & Ht). simpl in Ht. subst ot.
    exists n. apply list_elem_of_In. exact Hin.
  - intros [n Hin]. exists (n, Some t). split; [apply list_elem_of_In; exact Hin|].
    reflexivity.
Qed.

Lemma counts_at_names (prefix : string) (rows : list (K * option string)) (n : K) :
  map fst (counts_at prefix rows n) = map (String.append prefix) (types_of rows).
Proof. unfold counts_at. rewrite map_map. reflexivity. Qed.

Lemma cell_counts_at (prefix : string) (rows : list (K * option string)) (n : K)
      (t : string) :
  cell (String.append prefix t) (counts_at prefix rows n)
  == inject_Z (rows_of rows n t).
Proof.
  unfold counts_at.
  rewrite (cell_named prefix t (fun t => inject_Z (rows_of rows n t)))
    by apply types_of_NoDup.
  destruct (bool_decide (t ∈ types_of rows)) eqn:Hd; [reflexivity|].
  apply bool_decide_eq_false_1 in Hd.
  rewrite rows_of_zero; [reflexivity|].
  intros Hin. apply Hd. apply types_of_spec. eauto.
Qed.

Lemma cell_other_frame (c prefix : string) (rows : list (K * option string)) (n : K) :
  (forall t, String.eqb (String.append prefix t) c = false) ->
  cell c (counts_at prefix rows n) == 0.
Proof.
  intros Hne. apply cell_foreign. intros cv Hcv. unfold counts_at in Hcv.
  apply in_map_iff in Hcv as (t & <- & _). apply Hne.
Qed.

Lemma combined_cells (service_requests rentals : list (K * option string)) (n : K)
      (t : string) :
  let row := counts_at "311_" service_requests n ++ counts_at "STR_" rentals n in
  cell (String.append "311_" t) row == inject_Z (rows_of service_requests n t)
  /\ cell (String.append "STR_" t) row == inject_Z (rows_of rentals n t).
Proof.
  intros row. unfold row. rewrite !cell_app, !cell_counts_at. split.
  - rewrite (cell_other_frame _ "STR_") by (intros t'; reflexivity). lra.
  - rewrite (cell_other_frame _ "311_") by (intros t'; reflexivity). lra.
Qed.
End Cells.

Section CombinedFrame.
Import Py Geo Combine.
Context {G : Type}.
Local Open Scope Q_scope.

(** X17: [gdf_combined] has one row per row of [wards], in the same order
    and whatever the ward numbers are; its count columns are the request
    types that occur, sorted and prefixed with "311_", followed by the
    property types, sorted and prefixed with "STR_"; and the cell of a ward
    under "311_t" (under "STR_t") is the number of service requests
    (rentals) with the ward's number and type [t], which is 0 for a ward
    without any ([fillna]).  Rows whose type is missing are counted
    nowhere. *)
Theorem gdf_combined_counts (wards : list (ward_row G))
        (service_requests rentals : list keyed) :
  gdf_combined wards service_requests rentals
  = map (fun w => Ward (number w) (name w) (boundary w)
                       (counts_at "311_" service_requests (number w)
                        ++ counts_at "STR_" rentals (number w)))
        wards
  /\ forall n t,
       let row := counts_at "311_" service_requests n
                  ++ counts_at "STR_" rentals n in
       cell (String.append "311_" t) row == inject_Z (rows_of service_requests n t)
       /\ cell (String.append "STR_" t) row == inject_Z (rows_of rentals n t).
Proof.
  split; [apply gdf_combined_rows|]. intros n t. apply combined_cells.
Qed.
End CombinedFrame.

Section RowsInWards.
Import Py Geo Combine.
Context {K : Type} {eq_dec : EqDecision K} {countable : Countable K}.
Local Open Scope Q_scope.

Lemma rows_in_cons (n : K) (ns : list K) (rows : list (K * option string)) (t : string) :
  ~ In n ns ->
  rows_in (n :: ns) rows t = (rows_of rows n t + rows_in ns rows t)%Z.
Proof.
  intros Hfresh. unfold rows_in, rows_of.
  induction rows as [|r rows IH]; [reflexivity|].
  cbn [List.filter existsb] in *.
  destruct (has_keys n t r) eqn:Hk; cbn [orb].
  - assert (existsb (fun m => has_keys m t r) ns = false) as ->.
    { apply has_keys_spec in Hk. subst r.
      destruct (existsb _ ns) eqn:He; [|reflexivity].
      apply existsb_exists in He as (m & Hm & Hkm).
      apply has_keys_spec in Hkm. injection Hkm as ->. contradiction. }
    cbn [length]. lia.
  - destruct (existsb (fun m => has_keys m t r) ns); cbn [length]; lia.
Qed.

Lemma sum_rows_of (ns : list K) (rows : list (K * option string)) (t : string) :
  NoDup ns ->
  fold_right Qplus 0 (map (fun n => inject_Z (rows_of rows n t)) ns)
  == inject_Z (rows_in ns rows t).
Proof.
  induction ns as [|n ns IH]; intros Hnd.
  - unfold rows_in. simpl.
    assert (List.filter (fun _ : K * option string => false) rows = []) as ->
        by (clear; induction rows; [reflexivity | assumption]).
    reflexivity.
  - apply NoDup_cons in Hnd as [Hfresh Hnd]. cbn [map fold_right].
    rewrite (IH Hnd), rows_in_cons.
    + rewrite inject_Z_plus. reflexivity.
    + intros H. apply Hfresh. apply list_elem_of_In. exact H.
Qed.
End RowsInWards.

Section EndToEnd.
Import Py Geo Combine.
Context {G : Type} `{GE : Geometry G}.
Local Open Scope Q_scope.

Lemma combined_numbers (wards : list (ward_row G))
      (service_requests rentals : list keyed) :
  map ward_number (gdf_combined wards service_requests rentals) = map number wards.
Proof. rewrite gdf_combined_rows, map_map. reflexivity. Qed.

Lemma combined_columns (wards : list (ward_row G))
      (service_requests rentals : list keyed) (w : ward G) :
  In w (gdf_combined wards service_requests rentals) ->
  map fst (counts w)
  = map (String.append "311_") (types_of service_requests)
    ++ map (String.append "STR_") (types_of rentals).
Proof.
  rewrite gdf_combined_rows. intros Hw. apply in_map_iff in Hw as (r & <- & _).
  simpl. rewrite map_app, !counts_at_names. reflexivity.
Qed.

End EndToEnd.

Section Columns.
Import Py Geo Combine.

Lemma filter_all {A} (P : A -> bool) (l : list A) :
  (forall x, In x l -> P x = true) -> List.filter P l = l.
Proof.
  induction l as [|x l IH]; intros H; [reflexivity|]. simpl.
  rewrite (H x) by (left; reflexivity). f_equal. apply IH.
  intros y Hy. apply H. right. exact Hy.
Qed.

Lemma filter_none {A} (P : A -> bool) (l : list A) :
  (forall x, In x l -> P x = false) -> List.filter P l = [].
Proof.
  induction l as [|x l IH]; intros H; [reflexivity|]. simpl.
  rewrite (H x) by (left; reflexivity). apply IH.
  intros y Hy. apply H. right. exact Hy.
Qed.

Lemma filter_prefixed (P : string -> bool) (prefix : string) (b : bool)
      (ts : list string) :
  (forall t, P (String.append prefix t) = b) ->
  List.filter P (map (String.append prefix) ts)
  = if b then map (String.append prefix) ts else [].
Proof.
  intros HP. destruct b.
  - apply filter_all. intros c Hc. apply in_map_iff in Hc as (t & <- & _). apply HP.
  - apply filter_none. intros c Hc. apply in_map_iff in Hc as (t & <- & _). apply HP.
Qed.

Lemma column_lists (service_requests rentals : list keyed) :
  target_cols service_requests rentals
  = map (String.append "311_") (types_of service_requests)
  /\ str_cols service_requests rentals
     = map (String.append "STR_") (types_of rentals)
  /\ numeric_cols service_requests rentals
     = target_cols service_requests rentals ++ str_cols service_requests rentals.
Proof.
  unfold target_cols, str_cols, numeric_cols, numeric_df_columns,
    gdf_combined_columns, agg_311, agg_str.
  rewrite !agg_columns, !List.filter_app.
  rewrite !(filter_prefixed (fun c => negb (String.eqb c "geometry")) "311_" true),
    !(filter_prefixed (fun c => negb (String.eqb c "geometry")) "STR_" true)
    by (intros t; reflexivity).
  rewrite ?List.filter_app.
  rewrite (filter_prefixed (fun c => startswith c "311_") "311_" true),
    (filter_prefixed (fun c => startswith c "311_") "STR_" false),
    (filter_prefixed (fun c => startswith c "STR_") "311_" false),
    (filter_prefixed (fun c => startswith c "STR_") "STR_" true),
    (filter_prefixed is_numeric_col "311_" true),
    (filter_prefixed is_numeric_col "STR_" true)
    by (intros t;
        first [apply startswith_append | apply numeric_311 | apply numeric_STR
              | reflexivity]).
  rewrite app_nil_r. auto.
Qed.

(** X19: the predictor and target columns of the model cell are what the
    aggregation made them: [target_cols] are the request types prefixed
    with "311_", [str_cols] the property types prefixed with "STR_", each in
    sorted order; no column is both; the two together, targets first, are
    the [numeric_cols] that get apportioned, and these are all the count
    columns of every row of [gdf_combined]: "Ward Number", "Ward Name" and
    "geometry" are in neither list. *)
Theorem predictors_and_targets {G : Type} (wards : list (ward_row G))
        (service_requests rentals : list keyed) :
  target_cols service_requests rentals
  = map (String.append "311_") (types_of service_requests)
  /\ str_cols service_requests rentals
     = map (String.append "STR_") (types_of rentals)
  /\ numeric_cols service_requests rentals
     = target_cols service_requests rentals ++ str_cols service_requests rentals
  /\ (forall c, In c (target_cols service_requests rentals) ->
                ~ In c (str_cols service_requests rentals))
  /\ (forall w, In w (gdf_combined wards service_requests rentals) ->
                map fst (counts w) = numeric_cols service_requests rentals).
Proof.
  destruct (column_lists service_requests rentals) as (Ht & Hs & Hn).
  split; [exact Ht|]. split; [exact Hs|]. split; [exact Hn|]. split.
  - intros c Hc Hc'. unfold target_cols in Hc. unfold str_cols in Hc'.
    apply filter_In in Hc as [_ Hc]. apply filter_In in Hc' as [_ Hc'].
    destruct c as [|a c]; [discriminate|].
    cbn [startswith] in Hc, Hc'.
    match type of Hc with
    | context [Ascii.eqb ?x a] => destruct (Ascii.eqb_spec x a) as [<-|]
    end; discriminate.
  - intros w Hw. rewrite Hn, Ht, Hs.
    rewrite gdf_combined_rows in Hw. apply in_map_iff in Hw as (r & <- & _).
    simpl. rewrite map_app, !counts_at_names. reflexivity.
Qed.
End Columns.

(** ** The FSAs of Toronto and the FSA map *)

Section FsaGroups.
Import Py Geo Combine.
Context {G : Type} `{GE : Geometry G}.

Lemma aggregated_key_overlap (gdf_combined : list (ward G))
      (fsa_boundaries : list (fsa G)) (k : string) :
  In k (map fst (fsa_aggregated (ward_fsa gdf_combined fsa_boundaries)))
  <-> exists w f, In w gdf_combined /\ In f fsa_boundaries /\ CFSAUID f = k
                  /\ is_Some (intersection (ward_geometry w) (fsa_geometry f)).
Proof.
  destruct (aggregated_keys (ward_fsa gdf_combined fsa_boundaries) []
              ltac:(constructor)) as [_ Hk].
  unfold fsa_aggregated. rewrite Hk. clear Hk. split.
  - intros [[]|(r & Hr & <-)]. unfold ward_fsa in Hr.
    apply in_map_iff in Hr as (m & <- & Hm). rewrite ward_fsa_merged_any in Hm.
    apply in_flat_map in Hm as (o & Ho & Hm).
    apply in_map_iff in Hm as (w' & <- & _). simpl.
    apply overlay_rows in Ho as (Hw & Hf & Hi).
    exists (of_ward o), (of_fsa o). rewrite Hi. eauto.
  - intros (w & f & Hw & Hf & <- & [g Hg]). right.
    exists (finish (Merged (Overlap w f g) (area g) (Some (area (ward_geometry w))))).
    split; [|reflexivity].
    unfold ward_fsa. apply in_map. rewrite ward_fsa_merged_any.
    apply in_flat_map. exists (Overlap w f g). split.
    + apply overlay_rows. simpl. auto.
    + simpl. apply in_map_iff. exists w. split; [reflexivity|].
      apply filter_In. split; [exact Hw | apply Z.eqb_refl].
Qed.

(** X20: the groups of [fsa_aggregated], when the FSA layer is the one the
    notebook selects, are the codes of the selected FSAs that overlap a
    ward: a code is a group exactly when some row of the boundary file has
    it, starts with "M", names a province containing "Ontario", and its
    polygon intersects the polygon of some ward.  No other FSA receives an
    apportioned count. *)
Theorem toronto_groups (gdf_combined : list (ward G)) (rows : list (fsa_row G))
        (k : string) :
  In k (map fst (fsa_aggregated (ward_fsa gdf_combined (map fsa_of (toronto rows)))))
  <-> exists r w,
        In r rows /\ In w gdf_combined /\ CFSAUID (fsa_of r) = k
        /\ contains (PRNAME r) "Ontario" = true /\ startswith k "M" = true
        /\ is_Some (intersection (ward_geometry w) (fsa_geometry (fsa_of r))).
Proof.
  rewrite aggregated_key_overlap. unfold toronto. split.
  - intros (w & f & Hw & Hf & <- & Hi).
    apply in_map_iff in Hf as (r & <- & Hr).
    apply filter_In in Hr as [Hr Hkeep]. apply andb_true_iff in Hkeep as [Ho Hm].
    exists r, w. auto 10.
  - intros (r & w & Hr & Hw & <- & Ho & Hm & Hi).
    exists w, (fsa_of r). split; [exact Hw|]. split; [|auto].
    apply in_map. apply filter_In. split; [exact Hr|].
    rewrite Ho, Hm. reflexivity.
Qed.
End FsaGroups.

Section FsaMapFacts.
Import Py Geo Combine.
Context {G : Type} `{GE : Geometry G}.
Local Open Scope Q_scope.

Lemma sorted_NoDup (l : list string) : StronglySorted before l -> NoDup l.
Proof.
  induction 1 as [|k l Hs IH Hk]; [apply NoDup_nil_2|].
  apply NoDup_cons. split; [|exact IH].
  intros Hin. rewrite Forall_forall in Hk. specialize (Hk k Hin).
  unfold before in Hk. rewrite ltb_irrefl in Hk. discriminate.
Qed.

Lemma filter_by_key {B} (rows : list (string * B)) (k : string) :
  NoDup (map fst rows) ->
  (length (List.filter (fun g => String.eqb (fst g) k) rows) <= 1)%nat.
Proof.
  induction rows as [|[k0 b] rows IH]; intros Hnd; [simpl; lia|].
  simpl in Hnd. apply NoDup_cons in Hnd as [Hfresh Hnd]. simpl.
  destruct (String.eqb_spec k0 k) as [->|Hne]; [|apply IH; exact Hnd].
  assert (List.filter (fun g : string * B => String.eqb (fst g) k) rows = []) as ->.
  { clear -Hfresh. induction rows as [|[k1 b1] rows IH]; [reflexivity|]. simpl.
    destruct (String.eqb_spec k1 k) as [->|Hne].
    - exfalso. apply Hfresh. simpl. left.
    - apply IH. intros H. apply Hfresh. simpl. right. exact H. }
  simpl. lia.
Qed.

Lemma fsa_map_one_each (fsa_boundaries : list (fsa G)) (columns : list string)
      (groups : list (string * list (string * Q))) :
  NoDup (map fst groups) ->
  map fst (fsa_map fsa_boundaries columns groups) = fsa_boundaries.
Proof.
  intros Hnd. unfold fsa_map.
  induction fsa_boundaries as [|f l IH]; [reflexivity|].
  change (f :: l) with ([f] ++ l) at 1.
  rewrite flat_map_app, map_app, IH. cbn [flat_map]. rewrite app_nil_r.
  pose proof (filter_by_key groups (CFSAUID f) Hnd) as Hlen.
  destruct (List.filter _ groups) as [|g [|g' gs]]; simpl in Hlen; try lia;
    reflexivity.
Qed.

Lemma cell_zeros (c : string) (columns : list string) :
  cell c (map (fun c' => (c', 0)) columns) == 0.
Proof.
  induction columns as [|c0 columns IH]; [reflexivity|].
  cbn [map]. rewrite cell_cons. destruct (String.eqb c0 c); rewrite IH; lra.
Qed.

Lemma sum_filter {A} (x : A -> Q) (P : A -> bool) (l : list A) :
  fold_right Qplus 0 (map x (List.filter P l))
  == fold_right Qplus 0 (map (fun a => if P a then x a else 0) l).
Proof.
  induction l as [|a l IH]; [reflexivity|]. simpl.
  destruct (P a); simpl; rewrite IH; lra.
Qed.

Lemma sum_plus {A} (x y : A -> Q) (l : list A) :
  fold_right Qplus 0 (map (fun a => x a + y a) l)
  == fold_right Qplus 0 (map x l) + fold_right Qplus 0 (map y l).
Proof. induction l as [|a l IH]; simpl; [lra | rewrite IH; lra]. Qed.

Lemma sum_zero {A} (l : list A) : fold_right Qplus 0 (map (fun _ => 0) l) == 0.
Proof. induction l as [|a l IH]; simpl; [lra | rewrite IH; lra]. Qed.

Lemma sum_swap {A B} (F : A -> B -> Q) (la : list A) (lb : list B) :
  fold_right Qplus 0 (map (fun a => fold_right Qplus 0 (map (F a) lb)) la)
  == fold_right Qplus 0 (map (fun b => fold_right Qplus 0 (map (fun a => F a b) la)) lb).
Proof.
  induction la as [|a la IH]; simpl.
  - rewrite sum_zero. reflexivity.
  - rewrite IH, <- sum_plus. reflexivity.
Qed.

Lemma sum_indicator (fsa_boundaries : list (fsa G)) (k : string) (v : Q) :
  NoDup (map CFSAUID fsa_boundaries) -> In k (map CFSAUID fsa_boundaries) ->
  fold_right Qplus 0
    (map (fun f => if String.eqb k (CFSAUID f) then v else 0) fsa_boundaries)
  == v.
Proof.
  induction fsa_boundaries as [|f l IH]; intros Hnd Hin; [destruct Hin|].
  simpl in Hnd. apply NoDup_cons in Hnd as [Hfresh Hnd]. cbn [map fold_right].
  destruct (String.eqb_spec k (CFSAUID f)) as [->|Hne].
  - assert (fold_right Qplus 0
              (map (fun f0 => if String.eqb (CFSAUID f) (CFSAUID f0) then v else 0) l)
            == 0) as ->; [|lra].
    transitivity (fold_right Qplus 0 (map (fun _ : fsa G => 0) l));
      [|apply sum_zero].
    apply sum_ext. intros f0 Hf0.
    destruct (String.eqb_spec (CFSAUID f) (CFSAUID f0)) as [He|_]; [|reflexivity].
    exfalso. apply Hfresh. rewrite He. apply list_elem_of_In, in_map. exact Hf0.
  - rewrite IH; [lra | exact Hnd|].
    destruct Hin as [He|Hin]; [congruence | exact Hin].
Qed.

Lemma fsa_map_total (fsa_boundaries : list (fsa G)) (columns : list string)
      (groups : list (string * list (string * Q))) (c : string) :
  column_total c (map (fun r => (CFSAUID (fst r), snd r))
                      (fsa_map fsa_boundaries columns groups))
  == fold_right Qplus 0
       (map (fun f =>
               fold_right Qplus 0
                 (map (fun g => if String.eqb (fst g) (CFSAUID f)
                                then cell c (snd g) else 0) groups))
            fsa_boundaries).
Proof.
  unfold column_total, fsa_map. rewrite map_map. cbn [snd].
  rewrite sum_flat_map. apply sum_ext. intros f _.
  rewrite <- sum_filter.
  destruct (List.filter _ groups) as [|g gs].
  - simpl. rewrite cell_zeros. lra.
  - rewrite map_map. reflexivity.
Qed.

Lemma fsa_map_conserves (fsa_boundaries : list (fsa G)) (columns : list string)
      (groups : list (string * list (string * Q))) (c : string) :
  NoDup (map CFSAUID fsa_boundaries) ->
  (forall k, In k (map fst groups) -> In k (map CFSAUID fsa_boundaries)) ->
  column_total c (map (fun r => (CFSAUID (fst r), snd r))
                      (fsa_map fsa_boundaries columns groups))
  == column_total c groups.
Proof.
  intros Hnd Hkeys. rewrite fsa_map_total.
  rewrite (sum_swap (fun f g => if String.eqb (fst g) (CFSAUID f)
                                then cell c (snd g) else 0)).
  unfold column_total. apply sum_ext. intros g Hg.
  apply sum_indicator; [exact Hnd|]. apply Hkeys. apply in_map. exact Hg.
Qed.

(** X21: the FSA map.  [fsa_map] has exactly one row for each row of
    [fsa_boundaries], in the same order; an FSA whose code is that of no
    FSA overlapping a ward has 0 in every column ([fillna]); and when the
    codes of [fsa_boundaries] are distinct, every column of the map sums to
    what it sums to in [fsa_aggregated]: putting the counts on the map
    loses and duplicates none. *)
Theorem fsa_map_totals (gdf_combined : list (ward G)) (fsa_boundaries : list (fsa G))
        (columns : list string) :
  let fsa_table := fsa_aggregated (ward_fsa gdf_combined fsa_boundaries) in
  let on_map := fsa_map fsa_boundaries columns fsa_table in
  map fst on_map = fsa_boundaries
  /\ (forall f row,
        In (f, row) on_map ->
        (forall w f', In w gdf_combined -> In f' fsa_boundaries ->
                      CFSAUID f' = CFSAUID f ->
                      intersection (ward_geometry w) (fsa_geometry f') = None) ->
        row = map (fun c => (c, 0)) columns)
  /\ (NoDup (map CFSAUID fsa_boundaries) ->
      forall c,
        column_total c (map (fun r => (CFSAUID (fst r), snd r)) on_map)
        == column_total c fsa_table).
Proof.
  intros fsa_table on_map.
  destruct (aggregated_keys (ward_fsa gdf_combined fsa_boundaries) []
              ltac:(constructor)) as [Hs _].
  fold (fsa_aggregated (ward_fsa gdf_combined fsa_boundaries)) in Hs.
  fold fsa_table in Hs. apply sorted_NoDup in Hs.
  split; [apply fsa_map_one_each; exact Hs|]. split.
  - intros f row Hin Hnone. unfold on_map, fsa_map in Hin.
    apply in_flat_map in Hin as (f0 & Hf0 & Hin).
    destruct (List.filter _ fsa_table) as [|g gs] eqn:Hfound.
    + destruct Hin as [Hin|[]]. injection Hin as _ <-. reflexivity.
    + exfalso.
      assert (In g (List.filter
                      (fun g => String.eqb (fst g) (CFSAUID f0)) fsa_table)) as Hg
          by (rewrite Hfound; left; reflexivity).
      apply filter_In in Hg as [Hg Hk]. apply String.eqb_eq in Hk.
      assert (f0 = f) as ->.
      { apply in_map_iff in Hin as (g' & Hin & _). injection Hin as ->. reflexivity. }
      assert (In (CFSAUID f) (map fst fsa_table)) as Hkey
          by (rewrite <- Hk; apply in_map; exact Hg).
      apply aggregated_key_overlap in Hkey as (w & f' & Hw & Hf' & He & [p Hp]).
      rewrite (Hnone w f' Hw Hf' He) in Hp. discriminate.
  - intros Hnd c. apply fsa_map_conserves; [exact Hnd|].
    intros k Hk. apply aggregated_key_overlap in Hk as (w & f & _ & Hf & <- & _).
    apply in_map. exact Hf.
Qed.
End FsaMapFacts.

(** ** A first look at the dataset *)

Section PreviewFacts.
Import Py NLP Preview.

Lemma length_substring (n : nat) (s : string) :
  (String.length (String.substring 0 n s) <= n)%nat.
Proof.
  revert s. induction n as [|n IH]; intros [|c s]; simpl; try lia.
  specialize (IH s). lia.
Qed.

Lemma preview_article_run (md : models) (ds : list article) (i : Z) (a : article)
      (title : pyval) (text : string) (g : list string) :
  ds !! Z.to_nat i = Some a -> showable a title text ->
  preview_article (RT := model_runtime md) ds i g
  = @Outcome nlp_ev (model_runtime md) _ (Ok tt)
      (g ++ preview_lines title text)
      (map (fun line => Log (Print line) None) (preview_lines title text)).
Proof.
  intros Ha [Htitle Htext]. unfold preview_article, preview_lines.
  erewrite bind_returns by (unfold row; rewrite Ha; reflexivity).
  erewrite bind_returns by (unfold getitem; rewrite Htitle; reflexivity).
  erewrite bind_returns by apply call_run.
  erewrite bind_returns by (unfold getitem; rewrite Htext; reflexivity).
  erewrite bind_returns by reflexivity.
  erewrite bind_returns by apply call_run.
  rewrite call_run. cbn [value final trace printed answer app map].
  rewrite <- !app_assoc. reflexivity.
Qed.

Lemma preview_run (md : models) (a0 a1 a2 : article) (rest : list article)
      (t0 t1 t2 : pyval) (s0 s1 s2 : string) (g : list string) :
  showable a0 t0 s0 -> showable a1 t1 s1 -> showable a2 t2 s2 ->
  let lines := preview_lines t0 s0 ++ preview_lines t1 s1 ++ preview_lines t2 s2 in
  preview (RT := model_runtime md) (a0 :: a1 :: a2 :: rest) g
  = @Outcome nlp_ev (model_runtime md) _ (Ok tt) (g ++ lines)
      (map (fun line => Log (Print line) None) lines).
Proof.
  intros H0 H1 H2 lines. unfold preview. cbn [for_each].
  erewrite bind_returns
    by (apply (preview_article_run md _ 0 a0 t0 s0); [reflexivity | exact H0]).
  erewrite bind_returns
    by (apply (preview_article_run md _ 1 a1 t1 s1); [reflexivity | exact H1]).
  erewrite bind_returns
    by (apply (preview_article_run md _ 2 a2 t2 s2); [reflexivity | exact H2]).
  cbn [value final trace ret]. unfold lines.
  rewrite !map_app, app_nil_r, <- !app_assoc. reflexivity.
Qed.

Lemma preview_article_missing `{RT : Runtime nlp_ev} (ds : list article) (i : Z) g :
  ds !! Z.to_nat i = None ->
  preview_article ds i g
  = Outcome (Raised (IndexError "index out of range for dataset")) g [].
Proof.
  intros Hi. unfold preview_article, row. rewrite Hi. reflexivity.
Qed.

Lemma preview_short `{RT : Runtime nlp_ev} (ds : list article) g :
  (length ds < 3)%nat -> exists e, value (preview ds g) = Raised e.
Proof.
  intros Hlen. unfold preview. cbn [for_each].
  destruct (value (preview_article ds 0 g)) as [u0|e0] eqn:V0.
  2:{ rewrite (bind_raised _ _ _ _ V0). eauto. }
  rewrite (bind_ok _ _ _ _ V0). cbn [value].
  set (g0 := final (preview_article ds 0 g)).
  destruct (value (preview_article ds 1 g0)) as [u1|e1] eqn:V1.
  2:{ rewrite (bind_raised _ _ _ _ V1). eauto. }
  rewrite (bind_ok _ _ _ _ V1). cbn [value].
  set (g1 := final (preview_article ds 1 g0)).
  assert (ds !! Z.to_nat 2 = None) as H2
      by (apply lookup_ge_None; change (Z.to_nat 2) with 2%nat; lia).
  rewrite (bind_raised _ _ g1 _ (f_equal value (preview_article_missing ds 2 g1 H2))).
  eauto.
Qed.

Lemma preview_without_text (md : models) (a : article) (rest : list article)
      (title : pyval) (g : list string) :
  a !! "title" = Some title -> a !! "text" = Some PyNone ->
  preview (RT := model_runtime md) (a :: rest) g
  = @Outcome nlp_ev (model_runtime md) _
      (Raised (TypeError "'NoneType' object is not subscriptable"))
      (g ++ [String.append "Title: " (shown title)])
      [Log (Print (String.append "Title: " (shown title))) None].
Proof.
  intros Htitle Htext. unfold preview. cbn [for_each].
  assert (preview_article (RT := model_runtime md) (a :: rest) 0 g
          = @Outcome nlp_ev (model_runtime md) _
              (Raised (TypeError "'NoneType' object is not subscriptable"))
              (g ++ [String.append "Title: " (shown title)])
              [Log (Print (String.append "Title: " (shown title))) None]) as Hrun.
  { unfold preview_article.
    erewrite (bind_returns _ _ _ a) by reflexivity.
    erewrite bind_returns by (unfold getitem; rewrite Htitle; reflexivity).
    erewrite bind_returns by apply call_run.
    erewrite bind_returns by (unfold getitem; rewrite Htext; reflexivity).
    reflexivity. }
  rewrite (bind_raised _ _ _ _ (f_equal value Hrun)), Hrun. reflexivity.
Qed.

(** X22: the preview loop.  When the first three articles each have a
    title field and a text, the loop prints nine lines, three per article in
    order: the title (["None"] for a missing value), the first 512
    characters of the text followed by ["..."] (whether or not the text is
    longer), so at most 524 characters, and a rule of 80 dashes.  With
    fewer than three articles the loop ends in an exception, whatever the
    runtime; and for an article whose text is [None] the title is printed
    before [TypeError] is raised. *)
Theorem preview_prints (md : models) (a0 a1 a2 : article) (rest : list article)
        (t0 t1 t2 : pyval) (s0 s1 s2 : string) (g : list string) :
  showable a0 t0 s0 -> showable a1 t1 s1 -> showable a2 t2 s2 ->
  let lines := preview_lines t0 s0 ++ preview_lines t1 s1 ++ preview_lines t2 s2 in
  preview (RT := model_runtime md) (a0 :: a1 :: a2 :: rest) g
  = @Outcome nlp_ev (model_runtime md) _ (Ok tt) (g ++ lines)
      (map (fun line => Log (Print line) None) lines)
  /\ length lines = 9%nat
  /\ (forall title text,
        (String.length (nth 1 (preview_lines title text) "") <= 524)%nat
        /\ String.length (nth 2 (preview_lines title text) "") = 80%nat)
  /\ (forall (RT : Runtime nlp_ev) ds g',
        (length ds < 3)%nat -> exists e, value (preview ds g') = Raised e)
  /\ (forall a title,
        a !! "title" = Some title -> a !! "text" = Some PyNone ->
        preview (RT := model_runtime md) (a :: rest) g
        = @Outcome nlp_ev (model_runtime md) _
            (Raised (TypeError "'NoneType' object is not subscriptable"))
            (g ++ [String.append "Title: " (shown title)])
            [Log (Print (String.append "Title: " (shown title))) None]).
Proof.
  intros H0 H1 H2 lines.
  split; [apply preview_run; assumption|].
  split; [reflexivity|]. split.
  - intros title text. cbn [nth preview_lines]. split; [|reflexivity].
    rewrite !length_append. pose proof (length_substring 512 text).
    change (String.length "Content: ") with 9%nat.
    change (String.length "...") with 3%nat. lia.
  - split.
    + intros RT ds g'. apply preview_short.
    + intros a title. apply preview_without_text.
Qed.

Lemma preview_prints_witness :
  let a := ({[ "title" := PyStr "AI jobs"; "text" := PyStr "Hiring is up." ]} : article) in
  showable a (PyStr "AI jobs") "Hiring is up."
  /\ final (preview (RT := model_runtime sample_models) [a; a; a] [])
     = ["Title: AI jobs"; "Content: Hiring is up...."; times "-" 80;
        "Title: AI jobs"; "Content: Hiring is up...."; times "-" 80;
        "Title: AI jobs"; "Content: Hiring is up...."; times "-" 80].
Proof.
  intros a.
  assert (showable a (PyStr "AI jobs") "Hiring is up.") as Ha
      by (split; reflexivity).
  split; [exact Ha|].
  exact (f_equal final
           (proj1 (preview_prints sample_models a a a [] (PyStr "AI jobs")
                     (PyStr "AI jobs") (PyStr "AI jobs") "Hiring is up."
                     "Hiring is up." "Hiring is up." [] Ha Ha Ha))).
Defined.
End PreviewFacts.

(** ** Mentions and average sentiment per person *)

Section StatsFacts.
Import Py NLP Stats.

Lemma stat_add_keys (person : string) (v : pyfloat) groups (k : string) :
  In k (map fst (stat_add person v groups)) <-> k = person \/ In k (map fst groups).
Proof.
  induction groups as [|[k0 t] groups IH]; simpl.
  - intuition.
  - destruct (String.eqb_spec person k0) as [->|Hne]; simpl.
    + intuition.
    + destruct (String.ltb person k0); simpl.
      * intuition.
      * rewrite IH. intuition.
Qed.

Lemma stat_add_sorted (person : string) (v : pyfloat) groups :
  StronglySorted before (map fst groups) ->
  StronglySorted before (map fst (stat_add person v groups)).
Proof.
  induction groups as [|[k0 t] groups IH]; simpl; intros Hs.
  - repeat constructor.
  - apply StronglySorted_inv in Hs as [Hs Hk0].
    destruct (String.eqb person k0) eqn:He; simpl.
    + constructor; assumption.
    + destruct (String.ltb person k0) eqn:Hlt; simpl.
      * constructor; [constructor; assumption|].
        constructor; [exact Hlt|].
        eapply Forall_impl; [exact Hk0|]. intros x Hx.
        apply (before_trans person k0 x); assumption.
      * constructor; [apply IH; exact Hs|].
        apply Forall_forall. intros x Hx. apply list_elem_of_In in Hx.
        apply stat_add_keys in Hx as [->|Hx].
        -- apply before_total; assumption.
        -- rewrite Forall_forall in Hk0. apply Hk0. apply list_elem_of_In. exact Hx.
Qed.

Lemma tally_at_absent (k : string) (groups : list (string * (Z * Q))) :
  ~ In k (map fst groups) -> tally_at k groups = (0, 0%Q).
Proof.
  unfold tally_at. induction groups as [|[k0 t] groups IH]; intros Hk; [reflexivity|].
  simpl. destruct (String.eqb_spec k0 k) as [->|Hne].
  - exfalso. apply Hk. left. reflexivity.
  - apply IH. intros H. apply Hk. right. exact H.
Qed.

Lemma before_differs (a b : string) : before a b -> a <> b.
Proof.
  unfold before. intros H ->. rewrite ltb_irrefl in H. discriminate.
Qed.

Lemma tally_at_cons (k k0 : string) (t : Z * Q) groups :
  tally_at k ((k0, t) :: groups) = if String.eqb k0 k then t else tally_at k groups.
Proof. unfold tally_at. simpl. destruct (String.eqb k0 k); reflexivity. Qed.

Lemma stat_add_at (person : string) (v : pyfloat) groups (k : string) :
  StronglySorted before (map fst groups) ->
  tally_at k (stat_add person v groups)
  = if String.eqb person k then tally v (tally_at k groups) else tally_at k groups.
Proof.
  induction groups as [|[k0 t] groups IH]; intros Hs.
  - cbn [stat_add]. rewrite tally_at_cons. reflexivity.
  - simpl in Hs. apply StronglySorted_inv in Hs as [Hs Hk0]. cbn [stat_add].
    destruct (String.eqb_spec person k0) as [->|Hne].
    + rewrite !tally_at_cons. destruct (String.eqb k0 k); reflexivity.
    + destruct (String.ltb person k0) eqn:Hlt.
      * rewrite (tally_at_cons k person).
        destruct (String.eqb_spec person k) as [->|Hpk]; [|reflexivity].
        rewrite (tally_at_absent k ((k0, t) :: groups)); [reflexivity|].
        simpl. intros [->|Hin]; [contradiction|].
        rewrite Forall_forall in Hk0.
        apply (before_differs k k); [|reflexivity].
        apply (before_trans k k0 k); [exact Hlt|].
        apply Hk0. apply list_elem_of_In. exact Hin.
      * rewrite !tally_at_cons, (IH Hs).
        destruct (String.eqb_spec k0 k) as [->|Hk0k]; [|reflexivity].
        destruct (String.eqb_spec person k) as [->|_]; [contradiction | reflexivity].
Qed.

Lemma values_of_cons (p : string) (v : pyfloat) (people : list (string * pyfloat))
      (k : string) :
  values_of k ((p, v) :: people)
  = if String.eqb p k
    then match v with
         | Finite q => q :: values_of k people
         | NaN => values_of k people
         end
    else values_of k people.
Proof.
  unfold values_of. cbn [omap list_omap fst snd].
  destruct (String.eqb p k); [|reflexivity]. destruct v; reflexivity.
Qed.

Lemma grouped_from (people : list (string * pyfloat)) groups :
  StronglySorted before (map fst groups) ->
  let result := foldl (fun groups r => stat_add (fst r) (snd r) groups) groups people in
  StronglySorted before (map fst result)
  /\ (forall k, In k (map fst result) <-> In k (map fst groups) \/ In k (map fst people))
  /\ (forall k, tally_at k result = tally_all (tally_at k groups) (values_of k people)).
Proof.
  revert groups. induction people as [|[p v] people IH]; intros groups Hs;
    cbn [foldl fst snd].
  - split; [exact Hs|]. split; [simpl; intuition | reflexivity].
  - destruct (IH _ (stat_add_sorted p v groups Hs)) as (Hs' & Hk & Ht).
    split; [exact Hs'|]. split.
    + intros k. rewrite Hk, stat_add_keys. simpl. intuition.
    + intros k. rewrite Ht, (stat_add_at _ _ _ _ Hs), values_of_cons.
      destruct (String.eqb p k); [|reflexivity]. destruct v; reflexivity.
Qed.
End StatsFacts.

Section StatsTable.
Import Py NLP Stats.
Local Open Scope Q_scope.

Lemma tally_all_count (values : list Q) (t : Z * Q) :
  fst (tally_all t values) = (fst t + len values)%Z.
Proof.
  unfold tally_all, len. revert t.
  induction values as [|q values IH]; intros t; cbn [foldl length].
  - simpl. lia.
  - rewrite IH. simpl fst. lia.
Qed.

Lemma tally_all_sum (values : list Q) (t : Z * Q) :
  snd (tally_all t values) == snd t + fold_right Qplus 0 values.
Proof.
  unfold tally_all. revert t.
  induction values as [|q values IH]; intros t; cbn [foldl fold_right].
  - lra.
  - rewrite IH. simpl snd. lra.
Qed.

Lemma mean_of_values (values : list Q) :
  match mean (tally_all (0%Z, 0) values) with
  | NaN => values = []
  | Finite a =>
      values <> []
      /\ a * inject_Z (len values) == fold_right Qplus 0 values
      /\ ((forall q, In q values -> in_unit_range q) -> in_unit_range a)
  end.
Proof.
  unfold mean. rewrite tally_all_count. cbn [fst].
  destruct values as [|q values]; [reflexivity|].
  pose proof (len_positive q values) as Hpos.
  destruct (0 + len (q :: values) =? 0)%Z eqn:Hz.
  { exfalso. apply Z.eqb_eq in Hz. rewrite Z.add_0_l in Hz. rewrite Hz in Hpos.
    change (inject_Z 0) with 0 in Hpos. lra. }
  rewrite Z.add_0_l.
  pose proof (tally_all_sum (q :: values) (0%Z, 0)) as Hsum. cbn [snd] in Hsum.
  split; [discriminate|]. split.
  - rewrite Hsum. field. lra.
  - intros Hall.
    assert (Forall in_unit_range (q :: values)) as Hall'
        by (apply Forall_forall; intros x Hx; apply Hall, list_elem_of_In; exact Hx).
    pose proof (sum_in_range _ Hall') as Hrange.
    unfold in_unit_range. rewrite Hsum. split.
    + apply Qle_shift_div_l; [exact Hpos | lra].
    + apply Qle_shift_div_r; [exact Hpos | lra].
Qed.

Lemma tally_at_present (k : string) (t : Z * Q) groups :
  NoDup (map fst groups) -> In (k, t) groups -> tally_at k groups = t.
Proof.
  induction groups as [|[k0 t0] groups IH]; intros Hnd Hin; [destruct Hin|].
  simpl in Hnd. apply NoDup_cons in Hnd as [Hfresh Hnd]. rewrite tally_at_cons.
  destruct Hin as [Hin|Hin].
  - injection Hin as -> ->. rewrite String.eqb_refl. reflexivity.
  - destruct (String.eqb_spec k0 k) as [->|_]; [|apply IH; assumption].
    exfalso. apply Hfresh. apply list_elem_of_In.
    apply (in_map fst) in Hin. exact Hin.
Qed.

Lemma stats_of_people (p : string * pyfloat) (people : list (string * pyfloat)) :
  exists stats,
    person_stats (p :: people) = Ok stats
    /\ StronglySorted before (map stat_person stats)
    /\ (forall k, In k (map stat_person stats) <-> In k (map fst (p :: people)))
    /\ (forall s, In s stats ->
          let values := values_of (stat_person s) (p :: people) in
          mentions s = len values
          /\ match avg_sentiment s with
             | NaN => values = []
             | Finite a =>
                 values <> []
                 /\ a * inject_Z (len values) == fold_right Qplus 0 values
                 /\ ((forall q, In q values -> in_unit_range q) -> in_unit_range a)
             end).
Proof.
  destruct (grouped_from (p :: people) [] ltac:(constructor)) as (Hs & Hk & Ht).
  fold (grouped (p :: people)) in Hs, Hk, Ht.
  eexists. split; [reflexivity|].
  assert (forall l : list (string * (Z * Q)),
             map stat_person (map (fun g => Stat (fst g) (fst (snd g)) (mean (snd g))) l)
             = map fst l) as Hnames
      by (intros l; rewrite map_map; reflexivity).
  rewrite Hnames. split; [exact Hs|]. split.
  - intros k. rewrite Hk. simpl. intuition.
  - intros s Hin values. apply in_map_iff in Hin as ([k t] & <- & Hin).
    cbn [stat_person mentions avg_sentiment fst snd] in *.
    assert (t = tally_all (0%Z, 0) values) as ->.
    { rewrite <- (tally_at_present k t (grouped (p :: people)));
        [|apply sorted_NoDup; exact Hs | exact Hin].
      rewrite Ht. reflexivity. }
    split; [rewrite tally_all_count; simpl; lia|].
    apply mean_of_values.
Qed.


Lemma top_of_sorted (stats sorted : list stat) (n : nat) :
  sorted_by_mentions stats sorted ->
  length (head n sorted) = Nat.min n (length stats)
  /\ (forall a, In a (head n sorted) -> In a stats)
  /\ (forall a b, In a (head n sorted) -> In b (drop n sorted) ->
                  (mentions b <= mentions a)%Z).
Proof.
  intros [Hperm Hsorted]. unfold head. split.
  - rewrite length_take, (Permutation_length Hperm). reflexivity.
  - split.
    + intros a Ha. apply list_elem_of_In. rewrite <- Hperm.
      apply list_elem_of_In. rewrite <- (take_drop n sorted).
      apply in_or_app. left. exact Ha.
    + intros a b Ha Hb. rewrite <- (take_drop n sorted) in Hsorted.
      apply (StronglySorted_app_1_elem_of _ _ _ a b Hsorted);
        apply list_elem_of_In; assumption.
Qed.

(** X24: the rows shown.  Whatever arrangement [sort_values] produces
    among rows with equal mentions, [head(n)] of it holds [min(n, number of
    persons)] rows of the summary, and every row it leaves out has at most
    as many mentions as every row it shows. *)
Theorem top_mentions (stats sorted : list stat) (n : nat) :
  sorted_by_mentions stats sorted ->
  length (head n sorted) = Nat.min n (length stats)
  /\ (forall a, In a (head n sorted) -> In a stats)
  /\ (forall a b, In a (head n sorted) -> In b (drop n sorted) ->
                  (mentions b <= mentions a)%Z).
Proof. apply top_of_sorted. Qed.
End StatsTable.

Lemma top_mentions_witness :
  let sorted := [Stats.Stat "Geoffrey Hinton" 3 (NLP.Finite (1 # 2));
                 Stats.Stat "Sam Altman" 3 (NLP.Finite (-1 # 4));
                 Stats.Stat "Ada Lovelace" 1 (NLP.Finite 0)] in
  Stats.sorted_by_mentions sample_stats sorted
  /\ length (Stats.head 2 sorted) = 2%nat.
Proof.
  intros sorted.
  assert (Stats.sorted_by_mentions sample_stats sorted) as Hs.
  { split.
    - unfold sorted, sample_stats.
      apply (perm_trans
               (l' := [Stats.Stat "Geoffrey Hinton" 3 (NLP.Finite (1 # 2));
                       Stats.Stat "Ada Lovelace" 1 (NLP.Finite 0);
                       Stats.Stat "Sam Altman" 3 (NLP.Finite (-1 # 4))])).
      + apply perm_skip. apply perm_swap.
      + apply perm_swap.
    - unfold sorted. repeat constructor; simpl; lia. }
  split; [exact Hs|].
  exact (proj1 (top_mentions sample_stats sorted 2 Hs)).
Defined.

Section Summaries.
Import Py NLP Stats.
Local Open Scope Q_scope.

Lemma values_of_spec (k : string) (people : list (string * pyfloat)) (q : Q) :
  In q (values_of k people) <-> In (k, Finite q) people.
Proof.
  unfold values_of. rewrite <- !list_elem_of_In, list_elem_of_omap. split.
  - intros ([p v] & Hin & Hq). simpl in Hq.
    destruct (String.eqb_spec p k) as [->|_]; [|discriminate].
    destruct v as [q'|]; [|discriminate]. injection Hq as ->. exact Hin.
  - intros Hin. exists (k, Finite q). split; [exact Hin|].
    simpl. rewrite String.eqb_refl. reflexivity.
Qed.

Lemma summary_of_finite (people : list (string * pyfloat)) :
  (forall r, In r people -> exists q, snd r = Finite q /\ in_unit_range q) ->
  summary_defined people.
Proof.
  intros Hfin. unfold summary_defined.
  destruct people as [|p people]; [simpl; auto|].
  destruct (stats_of_people p people) as (stats & -> & _ & Hk & Hs).
  split; [discriminate|]. intros s Hin.
  destruct (Hs s Hin) as [Hm Havg].
  assert (In (stat_person s) (map fst (p :: people))) as Hp
      by (apply Hk; apply in_map; exact Hin).
  apply in_map_iff in Hp as ([k v] & Hkv & Hr). simpl in Hkv. subst k.
  destruct (Hfin _ Hr) as (q & Hv & _). simpl in Hv. subst v.
  apply values_of_spec in Hr.
  assert (forall q', In q' (values_of (stat_person s) (p :: people)) -> in_unit_range q')
    as Hrange.
  { intros q' Hq'. apply values_of_spec in Hq'.
    destruct (Hfin _ Hq') as (q'' & He & Hq''). simpl in He.
    injection He as ->. exact Hq''. }
  split.
  - rewrite Hm. unfold len.
    destruct (values_of (stat_person s) (p :: people)); [destruct Hr|].
    simpl length. lia.
  - destruct (avg_sentiment s) as [a|].
    + exists a. split; [reflexivity|]. apply Havg. exact Hrange.
    + rewrite Havg in Hr. destruct Hr.
Qed.

(** X25: from the articles to the summary.  With models whose polarities
    lie in [-1, 1] and whose scores lie in [0, 1], the summary cell applied
    to the frame that [build_person_sentiment_df] returns (either version,
    any limit) fails only when the frame is empty, that is when no person
    was found in any selected article; otherwise every person of the
    summary has at least one mention and an average sentiment that is a
    number in [-1, 1], never NaN. *)
Theorem summaries_are_defined (md : models) (articles : list article)
        (text_key : string) (max_records : option Z) (g : list string)
        (people : list Spacy.row) (people' : list HF.row) :
  (forall disable text, in_unit_range (blob_polarity (spacy_model md disable text))) ->
  (forall chunk, 0 <= score (sentiment_model md chunk) <= 1) ->
  value (Spacy.build_person_sentiment_df (RT := model_runtime md)
           articles text_key max_records g) = Ok people ->
  value (HF.build_person_sentiment_df (RT := model_runtime md)
           articles text_key max_records g) = Ok people' ->
  summary_defined (of_spacy people) /\ summary_defined (of_hf people').
Proof.
  intros Hpol Hscore Hs Hh.
  rewrite spacy_build_run_prefix in Hs. injection Hs as <-.
  rewrite hf_build_run_prefix in Hh. injection Hh as <-.
  split; apply summary_of_finite; intros r Hr.
  - unfold of_spacy in Hr. apply in_map_iff in Hr as (row & <- & Hrow).
    unfold spacy_rows in Hrow. apply in_flat_map in Hrow as (ia & _ & Hrow).
    apply in_map_iff in Hrow as (name & <- & _). simpl.
    eexists. split; [reflexivity|]. apply Hpol.
  - unfold of_hf in Hr. apply in_map_iff in Hr as (row & <- & Hrow).
    unfold hf_rows in Hrow. apply in_flat_map in Hrow as (ia & _ & Hrow).
    apply in_map_iff in Hrow as (name & <- & _). simpl.
    apply hf_sentiment_in_range. exact Hscore.
Qed.

Lemma summaries_are_defined_witness :
  ((forall disable text,
       in_unit_range (blob_polarity (spacy_model sample_models disable text)))
   /\ (forall chunk, 0 <= score (sentiment_model sample_models chunk) <= 1))
  /\ summary_defined (of_spacy [Spacy.Row 0 "Ada Lovelace" (1 # 2)]).
Proof.
  assert (forall disable text,
             in_unit_range (blob_polarity (spacy_model sample_models disable text)))
    as H1 by (intros; unfold in_unit_range; simpl; lra).
  assert (forall chunk, 0 <= score (sentiment_model sample_models chunk) <= 1) as H2
      by (intros; simpl; lra).
  split; [split; assumption|].
  pose proof (proj1 (summaries_are_defined sample_models
                       [sample_article "Ada Lovelace"] "text" None [] _ _
                       H1 H2 eq_refl eq_refl)) as H.
  exact H.
Defined.
End Summaries.

(** ** Counts per FSA, from the postal codes *)

Section PostalFacts.
Import Py Geo Combine Postal.
Context {G : Type}.

Lemma find_in_filter {A} (Q P : A -> bool) (l : list A) :
  (forall a, Q a = true -> P a = true) ->
  List.find Q (List.filter P l) = List.find Q l.
Proof.
  intros HQP. induction l as [|a l IH]; [reflexivity|]. simpl.
  destruct (P a) eqn:HP; simpl.
  - destruct (Q a); [reflexivity | exact IH].
  - destruct (Q a) eqn:HQ; [|exact IH].
    apply HQP in HQ. congruence.
Qed.

Lemma find_not_in_filter {A} (Q P : A -> bool) (l : list A) :
  (forall a, P a = true -> Q a = false) ->
  List.find Q (List.filter P l) = None.
Proof.
  intros HPQ. induction l as [|a l IH]; [reflexivity|]. simpl.
  destruct (P a) eqn:HP; simpl; [|exact IH].
  rewrite (HPQ a HP). exact IH.
Qed.

Lemma filter_keeps_NoDup {B} (P : string * B -> bool) (rows : list (string * B)) :
  NoDup (map fst rows) -> NoDup (map fst (List.filter P rows)).
Proof.
  induction rows as [|r rows IH]; intros Hnd; [exact Hnd|].
  simpl in Hnd. apply NoDup_cons in Hnd as [Hfresh Hnd]. simpl.
  destruct (P r); [|apply IH; exact Hnd].
  simpl. apply NoDup_cons. split; [|apply IH; exact Hnd].
  intros Hin. apply Hfresh. apply list_elem_of_In in Hin.
  apply in_map_iff in Hin as (r' & He & Hin). apply filter_In in Hin as [Hin _].
  rewrite <- He. apply list_elem_of_In, in_map. exact Hin.
Qed.

Lemma agg_311_found (service_requests : list located) (code : string) :
  fillna_cells (found_counts (agg_311 service_requests) code)
  = if String.eqb code "Intersection"
    then map (fun cv => (fst cv, 0%Q))
             (counts_at "311_" (with_code service_requests) code)
    else counts_at "311_" (with_code service_requests) code.
Proof.
  unfold found_counts, agg_311. cbn [frame_rows frame_columns].
  destruct (String.eqb_spec code "Intersection") as [->|Hne].
  - rewrite find_not_in_filter.
    + rewrite agg_columns. unfold fillna_cells, counts_at.
      rewrite !map_map. reflexivity.
    + intros [k cells] Hk. simpl in *.
      apply bool_decide_eq_false_2. intros ->. discriminate.
  - rewrite find_in_filter.
    + apply (agg_found String.le).
    + intros [k cells] Hk. simpl in *. apply bool_decide_eq_true_1 in Hk. subst k.
      apply negb_true_iff. apply String.eqb_neq. exact Hne.
Qed.

Lemma agg_311_keys_NoDup (service_requests : list located) :
  NoDup (map fst (frame_rows (agg_311 service_requests))).
Proof.
  unfold agg_311. cbn [frame_rows]. apply filter_keeps_NoDup.
  apply (agg_keys_NoDup String.le).
Qed.

Lemma gdf_fsa_rows (fsa_boundaries : list (fsa G))
      (service_requests rentals : list located) :
  gdf_fsa fsa_boundaries service_requests rentals
  = map (fun f =>
           (f, (if String.eqb (CFSAUID f) "Intersection"
                then map (fun cv => (fst cv, 0%Q))
                         (counts_at "311_" (with_code service_requests) (CFSAUID f))
                else counts_at "311_" (with_code service_requests) (CFSAUID f))
               ++ counts_at "STR_" (with_code rentals) (CFSAUID f)))
        fsa_boundaries.
Proof.
  unfold gdf_fsa.
  rewrite (merge_counts_found _ _ (agg_311 service_requests))
    by apply agg_311_keys_NoDup.
  rewrite merge_counts_found by (apply (agg_keys_NoDup String.le)).
  rewrite !map_map. apply map_ext. intros f. cbn [fst snd app].
  f_equal. unfold fillna_cells at 1. rewrite map_app.
  fold (fillna_cells (found_counts (agg_311 service_requests) (CFSAUID f))).
  fold (fillna_cells (found_counts (agg_str rentals) (CFSAUID f))).
  rewrite agg_311_found. unfold agg_str. rewrite (agg_found String.le).
  reflexivity.
Qed.

Lemma toronto_code (rows : list (fsa_row G)) (f : fsa G) :
  In f (map fsa_of (toronto rows)) -> String.eqb (CFSAUID f) "Intersection" = false.
Proof.
  intros Hin. apply in_map_iff in Hin as (r & <- & Hr).
  unfold toronto in Hr. apply filter_In in Hr as [_ Hkeep].
  apply andb_true_iff in Hkeep as [_ Hm].
  destruct (String.eqb_spec (CFSAUID (fsa_of r)) "Intersection") as [He|_];
    [|reflexivity].
  rewrite He in Hm. discriminate.
Qed.

(** X26: the counts by postal code.  [gdf_fsa] has one row for each FSA
    polygon, in order; its count columns are the request types that occur
    with a postal code, sorted and prefixed with "311_", followed by the
    property types prefixed with "STR_"; the cell of an FSA under "311_t"
    is the number of service requests of type [t] whose first three postal
    characters are the code of the FSA, except that an FSA coded
    "Intersection" gets 0 there (its row was dropped); rows without postal
    code or without type are counted nowhere.  For the FSAs the notebook
    selects (codes starting with "M") the dropped row changes nothing. *)
Theorem gdf_fsa_counts (fsa_boundaries : list (fsa G)) (rows : list (fsa_row G))
        (service_requests rentals : list located) :
  gdf_fsa fsa_boundaries service_requests rentals
  = map (fun f =>
           (f, (if String.eqb (CFSAUID f) "Intersection"
                then map (fun cv => (fst cv, 0%Q))
                         (counts_at "311_" (with_code service_requests) (CFSAUID f))
                else counts_at "311_" (with_code service_requests) (CFSAUID f))
               ++ counts_at "STR_" (with_code rentals) (CFSAUID f)))
        fsa_boundaries
  /\ gdf_fsa (map fsa_of (toronto rows)) service_requests rentals
     = map (fun f =>
              (f, counts_at "311_" (with_code service_requests) (CFSAUID f)
                  ++ counts_at "STR_" (with_code rentals) (CFSAUID f)))
           (map fsa_of (toronto rows)).
Proof.
  split; [apply gdf_fsa_rows|].
  rewrite gdf_fsa_rows. apply map_ext_in. intros f Hf.
  rewrite (toronto_code rows f Hf). reflexivity.
Qed.
End PostalFacts.

(** ** Column totals of the aggregated table, up to rounding *)

Section RoundedGroups.
Import Py Geo Binary64.
Context {G : Type} `{GE : Geometry G}.
Local Open Scope Q_scope.

Lemma sum_one_key (keys : list string) (k0 : string) (v : Q) :
  NoDup keys -> In k0 keys ->
  fold_right Qplus 0 (map (fun k => if String.eqb k0 k then v else 0) keys) == v.
Proof.
  induction keys as [|k keys IH]; intros Hnd Hin; [destruct Hin|].
  apply NoDup_cons in Hnd as [Hfresh Hnd]. cbn [map fold_right].
  destruct (String.eqb_spec k0 k) as [->|Hne].
  - assert (fold_right Qplus 0 (map (fun k' => if String.eqb k k' then v else 0) keys)
            == 0) as ->; [|lra].
    transitivity (fold_right Qplus 0 (map (fun _ : string => 0) keys));
      [|apply sum_zero].
    apply sum_ext. intros k' Hk'.
    destruct (String.eqb_spec k k') as [He|_]; [|reflexivity].
    exfalso. apply Hfresh. rewrite He. apply list_elem_of_In. exact Hk'.
  - rewrite IH; [lra | exact Hnd|].
    destruct Hin as [He|Hin]; [congruence | exact Hin].
Qed.

Lemma group_keys_NoDup (rows : list (Rounded.apportioned_row G)) :
  NoDup (Rounded.group_keys rows).
Proof.
  unfold Rounded.group_keys. rewrite merge_sort_Permutation. apply NoDup_remove_dups.
Qed.

Lemma group_keys_spec (rows : list (Rounded.apportioned_row G)) (k : string) :
  In k (Rounded.group_keys rows) <-> In k (map Rounded.row_CFSAUID rows).
Proof.
  unfold Rounded.group_keys. rewrite <- !list_elem_of_In.
  rewrite merge_sort_Permutation. apply elem_of_remove_dups.
Qed.

(** Every row is in the group of its key, and in no other. *)
Lemma sum_over_groups (f : Rounded.apportioned_row G -> Q)
      (rows : list (Rounded.apportioned_row G)) :
  fold_right Qplus 0
    (map (fun key =>
            fold_right Qplus 0
              (map f (List.filter
                        (fun r => String.eqb (Rounded.row_CFSAUID r) key) rows)))
         (Rounded.group_keys rows))
  == fold_right Qplus 0 (map f rows).
Proof.
  transitivity
    (fold_right Qplus 0
       (map (fun key =>
               fold_right Qplus 0
                 (map (fun r => if String.eqb (Rounded.row_CFSAUID r) key
                                then f r else 0) rows))
            (Rounded.group_keys rows))).
  { apply sum_ext. intros key _. apply sum_filter. }
  rewrite (sum_swap (fun key r => if String.eqb (Rounded.row_CFSAUID r) key
                                  then f r else 0)).
  apply sum_ext. intros r Hr.
  apply sum_one_key; [apply group_keys_NoDup|].
  apply group_keys_spec, in_map, Hr.
Qed.

Lemma moderate_nonneg (x : Q) : moderate x -> 0 <= x.
Proof.
  intros [H0 | [H1 _]]; [lra|]. pose proof (pow2_pos (-902)). lra.
Qed.

Lemma zeros_or_normal (xs : list Q) :
  Forall moderate xs ->
  Forall (fun x => x == 0) xs \/ pow2 (-902) <= fold_right Qplus 0 xs.
Proof.
  induction 1 as [|x xs Hx Hxs IH]; [left; constructor|].
  pose proof (sum_nonneg xs ltac:(eapply Forall_impl; [exact Hxs | apply moderate_nonneg]))
    as Hrest.
  cbn [fold_right]. destruct Hx as [H0 | [H1 _]].
  - destruct IH as [IH | IH]; [left; constructor; assumption | right; lra].
  - right. lra.
Qed.

Lemma sum_at_most (B : Q) (xs : list Q) :
  Forall (fun x => x <= B) xs ->
  fold_right Qplus 0 xs <= inject_Z (Z.of_nat (length xs)) * B.
Proof.
  induction 1 as [|x xs Hx _ IH]; cbn [fold_right length].
  - change (inject_Z (Z.of_nat 0)) with 0. lra.
  - rewrite Nat2Z.inj_succ. unfold Z.succ. rewrite inject_Z_plus.
    change (inject_Z 1) with 1. lra.
Qed.

Lemma group_rounding_mono (n m : nat) :
  (n <= m)%nat -> group_rounding n <= group_rounding m.
Proof.
  intros H. unfold group_rounding. pose proof u_pos.
  assert (inject_Z (Z.of_nat n) <= inject_Z (Z.of_nat m)) by (rewrite <- Zle_Qle; lia).
  nra.
Qed.

Lemma group_rounding_small (n : nat) :
  (Z.of_nat n <= 2 ^ 40)%Z -> group_rounding n <= 1 # 100.
Proof.
  intros H. unfold group_rounding.
  assert (inject_Z (Z.of_nat n) <= inject_Z (2 ^ 40)) as Hn by (rewrite <- Zle_Qle; exact H).
  assert ((10 * inject_Z (2 ^ 40) + 16) * u <= 1 # 100) as Hmax
      by (unfold Qle; vm_compute; discriminate).
  pose proof u_pos. nra.
Qed.

(** The sum of a group of moderate values. *)
Lemma group_sum_moderate (n : nat) (xs : list Q) :
  Forall moderate xs -> (length xs <= n)%nat -> (Z.of_nat n <= 2 ^ 40)%Z ->
  exists T,
    group_sum (map Num xs) = Num T
    /\ (1 - group_rounding n) * fold_right Qplus 0 xs <= T
    /\ T <= (1 + group_rounding n) * fold_right Qplus 0 xs.
Proof.
  intros Hxs Hlen Hn.
  pose proof (group_rounding_small n Hn) as Hsmall.
  pose proof (group_rounding_mono _ _ Hlen) as Hmono.
  assert (Forall (fun x => 0 <= x) xs) as Hpos
      by (eapply Forall_impl; [exact Hxs | apply moderate_nonneg]).
  pose proof (sum_nonneg xs Hpos) as Hsum.
  destruct (zeros_or_normal xs Hxs) as [Hzero | Hbig].
  - exists 0. rewrite (group_sum_zeros xs Hzero). split; [reflexivity|].
    assert (fold_right Qplus 0 xs == 0) as ->.
    { clear -Hzero. induction Hzero as [|x xs Hx _ IH]; cbn [fold_right]; [reflexivity|].
      rewrite Hx, IH. reflexivity. }
    split; lra.
  - assert (fold_right Qplus 0 xs <= pow2 1020) as Hmax.
    { assert (Forall (fun x => x <= pow2 955) xs) as Hle.
      { eapply Forall_impl; [exact Hxs|]. intros x [H0 | [_ H1]]; [|exact H1].
        pose proof (pow2_pos 955). lra. }
      apply sum_at_most in Hle.
      assert (inject_Z (Z.of_nat (length xs)) <= pow2 40) as Hl.
      { rewrite pow2_inject by lia. rewrite <- Zle_Qle. lia. }
      assert (pow2 40 * pow2 955 <= pow2 1020) as Hp
          by (rewrite <- pow2_plus; apply pow2_le; lia).
      pose proof (pow2_pos 955). pose proof (pow2_pos 40).
      assert (0 <= inject_Z (Z.of_nat (length xs)))
        by (change 0 with (inject_Z 0); rewrite <- Zle_Qle; lia).
      nra. }
    assert (pow2 (-1022) <= pow2 (-902)) as Hmin by (apply pow2_le; lia).
    destruct (group_sum_bound xs Hpos) as (T & HT & Herr); [lra | exact Hmax | |].
    + fold (group_rounding (length xs)). lra.
    + exists T. split; [exact HT|].
      fold (group_rounding (length xs)) in Herr.
      apply Qabs_Qle_condition in Herr as [H1 H2].
      assert (group_rounding (length xs) * fold_right Qplus 0 xs
              <= group_rounding n * fold_right Qplus 0 xs) as Hm
          by (apply Qmult_le_compat_r; assumption).
      split; lra.
Qed.

(** The column of the aggregated table: every cell is a number, and the
    cells sum to the sum of the values of the rows, up to the rounding of
    the group sums. *)
Lemma aggregated_column_bound (rows : list (Rounded.apportioned_row G)) (c : string) :
  In c (Rounded.sum_columns rows) ->
  (forall r, In r rows ->
     is_number (Rounded.cell_at c (Rounded.apportioned r))
     /\ moderate (number (Rounded.cell_at c (Rounded.apportioned r)))) ->
  (Z.of_nat (length rows) <= 2 ^ 40)%Z ->
  let cells := column_cells c (Rounded.fsa_aggregated rows) in
  let values :=
    fold_right Qplus 0
      (map (fun r => number (Rounded.cell_at c (Rounded.apportioned r))) rows) in
  Forall is_number cells
  /\ (1 - group_rounding (length rows)) * values <= exact_sum cells
  /\ exact_sum cells <= (1 + group_rounding (length rows)) * values.
Proof.
  intros Hc Hrows Hn cells values.
  set (n := length rows) in *.
  set (v := fun r => number (Rounded.cell_at c (Rounded.apportioned r))) in *.
  set (group := fun key =>
                  List.filter (fun r => String.eqb (Rounded.row_CFSAUID r) key) rows).
  assert (cells
          = map (fun key =>
                   group_sum (map (fun r => Rounded.cell_at c (Rounded.apportioned r))
                                  (group key)))
                (Rounded.group_keys rows)) as Hcells.
  { subst cells. unfold column_cells, Rounded.fsa_aggregated.
    rewrite map_map. cbn [snd]. apply map_ext. intros key.
    apply (cell_at_named c
             (fun c' =>
                group_sum
                  (map (fun r => Rounded.cell_at c' (Rounded.apportioned r))
                       (List.filter
                          (fun r => String.eqb (Rounded.row_CFSAUID r) key) rows)))
             _ Hc). }
  assert (forall key,
            exists T,
              group_sum (map (fun r => Rounded.cell_at c (Rounded.apportioned r))
                             (group key)) = Num T
              /\ (1 - group_rounding n) * fold_right Qplus 0 (map v (group key)) <= T
              /\ T <= (1 + group_rounding n) * fold_right Qplus 0 (map v (group key)))
    as Hgroup.
  { intros key.
    assert (map (fun r => Rounded.cell_at c (Rounded.apportioned r)) (group key)
            = map Num (map v (group key))) as ->.
    { rewrite map_map. apply map_ext_in. intros r Hr.
      apply filter_In in Hr as [Hr _]. destruct (Hrows r Hr) as [Hnum _].
      unfold v. destruct (Rounded.cell_at c (Rounded.apportioned r));
        [reflexivity | destruct Hnum..]. }
    apply group_sum_moderate.
    - apply Forall_forall. intros x Hx. apply list_elem_of_In in Hx.
      apply in_map_iff in Hx as (r & <- & Hr). apply filter_In in Hr as [Hr _].
      apply (Hrows r Hr).
    - rewrite length_map. unfold group, n.
      clear. induction rows as [|r rows IH]; [reflexivity|].
      cbn [List.filter length]. destruct (String.eqb _ _); cbn [length]; lia.
    - exact Hn. }
  split.
  - rewrite Hcells. apply Forall_forall. intros x Hx. apply list_elem_of_In in Hx.
    apply in_map_iff in Hx as (key & <- & _).
    destruct (Hgroup key) as (T & -> & _). exact I.
  - pose proof (sum_between
                  (fun key => (1 - group_rounding n)
                              * fold_right Qplus 0 (map v (group key)))
                  (fun key => number
                                (group_sum
                                   (map (fun r => Rounded.cell_at c (Rounded.apportioned r))
                                        (group key))))
                  (fun key => (1 + group_rounding n)
                              * fold_right Qplus 0 (map v (group key)))
                  (Rounded.group_keys rows)) as [Hlo Hhi].
    { intros key _. destruct (Hgroup key) as (T & -> & H1 & H2). cbn [number]. auto. }
    assert (forall k : Q,
              fold_right Qplus 0
                (map (fun key => k * fold_right Qplus 0 (map v (group key)))
                     (Rounded.group_keys rows))
              == k * values) as Hscale.
    { intros k. subst values. rewrite <- (sum_over_groups v rows).
      fold group. generalize (Rounded.group_keys rows). intros keys.
      induction keys as [|key keys IH]; cbn [map fold_right].
      - symmetry. apply Qmult_0_r.
      - rewrite IH. symmetry. apply Qmult_plus_distr_r. }
    rewrite Hscale in Hlo, Hhi.
    assert (exact_sum cells
            == fold_right Qplus 0
                 (map (fun key =>
                         number
                           (group_sum
                              (map (fun r => Rounded.cell_at c (Rounded.apportioned r))
                                   (group key))))
                      (Rounded.group_keys rows))) as ->.
    { rewrite Hcells. unfold exact_sum. rewrite map_map. reflexivity. }
    split; assumption.
Qed.

(** *** From the wards to the table *)

Lemma cell_unique (c : string) (v : Q) (l : list (string * Q)) :
  NoDup (map fst l) -> In (c, v) l -> cell c l == v.
Proof.
  induction l as [|[c0 v0] l IH]; intros Hnd Hin; [destruct Hin|].
  simpl in Hnd. apply NoDup_cons in Hnd as [Hfresh Hnd].
  rewrite cell_cons. destruct Hin as [Heq | Hin].
  - injection Heq as -> ->. rewrite String.eqb_refl.
    assert (cell c l == 0) as ->; [|lra].
    clear -Hfresh. induction l as [|[c1 v1] l IH]; [reflexivity|].
    rewrite cell_cons. destruct (String.eqb_spec c1 c) as [->|_].
    + exfalso. apply Hfresh. left.
    + apply IH. intros H. apply Hfresh. right. exact H.
  - destruct (String.eqb_spec c0 c) as [->|_]; [|apply IH; assumption].
    exfalso. apply Hfresh. apply list_elem_of_In.
    apply (in_map fst) in Hin. exact Hin.
Qed.

Lemma is_count_proper (x y : Q) : x == y -> is_count x -> is_count y.
Proof.
  intros Hxy [H0 | H1]; [left | right]; rewrite <- Hxy; assumption.
Qed.

(** The value of one row for a count that is not negative. *)
Lemma share_value (count a ward_area : Q) :
  0 < ward_area -> 0 <= count -> is_count count -> comparable a ward_area ->
  let share := fmul (Num count) (fdiv (Num a) (Num ward_area)) in
  share = Num (number share)
  /\ moderate (number share)
  /\ (1 - two_roundings) * (count * (a / ward_area)) <= number share
  /\ number share <= (1 + two_roundings) * (count * (a / ward_area)).
Proof.
  intros HA Hpos Hcount Hcomp share.
  destruct (share_rounded count a ward_area HA Hcount Hcomp) as (Hnum & _ & Hlo & Hhi).
  fold share in Hnum, Hlo, Hhi. rewrite (Qabs_pos count) in Hlo, Hhi by exact Hpos.
  destruct Hcomp as [Ha1 Ha2].
  set (x := a / ward_area) in *.
  assert (pow2 (-900) <= x) as Hx1 by (apply Qle_shift_div_l; assumption).
  assert (x <= pow2 900) as Hx2 by (apply Qle_shift_div_r; assumption).
  pose proof (pow2_pos (-900)) as Hp. pose proof (pow2_pos 900) as Hp'.
  assert (0 < two_roundings <= 1 # 2) as [He1 He2].
  { unfold two_roundings. pose proof u_pos. pose proof u_small. split; nra. }
  split; [exact Hnum|]. split; [|split; lra].
  destruct Hcount as [Hzero | [Hk1 Hk2]].
  - left. rewrite Hzero in Hlo, Hhi. lra.
  - right. rewrite (Qabs_pos count) in Hk1, Hk2 by exact Hpos.
    assert (pow2 (-902) * 4 == pow2 (-900)) as H902.
    { change 4 with (pow2 2). rewrite <- pow2_plus. reflexivity. }
    assert (pow2 53 * pow2 900 * 4 == pow2 955) as H955.
    { change 4 with (pow2 2). rewrite <- !pow2_plus. reflexivity. }
    pose proof (pow2_pos 53) as Hp53.
    assert (x <= count * x) as H1 by nra.
    assert (count * x <= pow2 53 * pow2 900) as H2 by nra.
    split; nra.
Qed.

Lemma expected_by_rows (cnt : ward G -> Q) (gdf_combined : list (ward G))
      (fsa_boundaries : list (fsa G)) :
  fold_right Qplus 0
    (map (fun o => cnt (of_ward o)
                   * (area (geometry o) / area (ward_geometry (of_ward o))))
         (overlay gdf_combined fsa_boundaries))
  == fold_right Qplus 0
       (map (fun w => cnt w * coverage w fsa_boundaries) gdf_combined).
Proof.
  unfold overlay. rewrite sum_flat_map. apply sum_ext. intros w _.
  rewrite <- ward_rows_sum. apply sum_ext. intros o Ho.
  rewrite (overlay_ward w fsa_boundaries o Ho). reflexivity.
Qed.

Lemma scaled_sum {A} (k : Q) (f : A -> Q) (l : list A) :
  fold_right Qplus 0 (map (fun x => k * f x) l) == k * fold_right Qplus 0 (map f l).
Proof.
  induction l as [|x l IH]; cbn [map fold_right].
  - symmetry. apply Qmult_0_r.
  - rewrite IH. symmetry. apply Qmult_plus_distr_r.
Qed.

(** The column total against the totals of the wards. *)
Lemma rounded_citywide_total (gdf_combined : list (ward G))
        (fsa_boundaries : list (fsa G)) (columns : list string) (c : string) :
  NoDup (map ward_number gdf_combined) ->
  NoDup columns ->
  (forall w, In w gdf_combined -> map fst (counts w) = columns) ->
  startswith c "311_" = true \/ startswith c "STR_" = true ->
  (forall w, In w gdf_combined ->
     0 < area (ward_geometry w)
     /\ exists count, In (c, count) (counts w) /\ 0 <= count /\ is_count count) ->
  (forall o, In o (overlay gdf_combined fsa_boundaries) ->
     comparable (area (geometry o)) (area (ward_geometry (of_ward o)))) ->
  (Z.of_nat (length (overlay gdf_combined fsa_boundaries)) <= 2 ^ 40)%Z ->
  let rows := Rounded.ward_fsa gdf_combined fsa_boundaries in
  let cells := column_cells (String.append c "_apportioned")
                            (Rounded.fsa_aggregated rows) in
  let expected :=
    fold_right Qplus 0
      (map (fun w => cell c (counts w) * coverage w fsa_boundaries) gdf_combined) in
  let citywide := fold_right Qplus 0 (map (fun w => cell c (counts w)) gdf_combined) in
  Forall is_number cells
  /\ Qabs (exact_sum cells - expected) <= total_rounding (length rows) * expected
  /\ ((forall w, In w gdf_combined -> coverage w fsa_boundaries == 1) ->
      Qabs (exact_sum cells - citywide) <= total_rounding (length rows) * citywide).
Proof.
  intros Hnd Hcolsnd Hcols Hc Hwards Hareas Hn rows cells expected citywide.
  assert (is_numeric_col c = true) as Hnum.
  { unfold is_numeric_col. destruct Hc as [-> | ->]; [reflexivity | apply orb_true_r]. }
  set (sfx := "_apportioned") in *.
  set (with_areas := fun o : overlap G =>
                       Merged o (area (geometry o))
                              (Some (area (ward_geometry (of_ward o))))).
  assert (rows = map (fun o => Rounded.finish (with_areas o))
                     (overlay gdf_combined fsa_boundaries)) as Hrows.
  { subst rows. unfold Rounded.ward_fsa. rewrite ward_fsa_merged_rows by exact Hnd.
    rewrite map_map. reflexivity. }
  set (value := fun o : overlap G =>
                  Rounded.cell_at (String.append c sfx)
                                  (Rounded.apportion (with_areas o))).
  assert (forall o, In o (overlay gdf_combined fsa_boundaries) ->
            is_number (value o) /\ moderate (number (value o))
            /\ (1 - two_roundings)
               * (cell c (counts (of_ward o))
                  * (area (geometry o) / area (ward_geometry (of_ward o))))
               <= number (value o)
            /\ number (value o)
               <= (1 + two_roundings)
                  * (cell c (counts (of_ward o))
                     * (area (geometry o) / area (ward_geometry (of_ward o)))))
    as Hvalue.
  { intros o Ho. pose proof Ho as Hw. apply overlay_rows in Hw as (Hw & _).
    destruct (Hwards _ Hw) as (HA & count & Hin & Hpos & Hcount).
    assert (NoDup (map fst (counts (of_ward o)))) as Hnames
        by (rewrite (Hcols _ Hw); exact Hcolsnd).
    assert (value o
            = fmul (Num count)
                   (fdiv (Num (area (geometry o)))
                         (Num (area (ward_geometry (of_ward o)))))) as Hv.
    { unfold value, Rounded.apportion, Rounded.area_frac, with_areas.
      cbn [base area_overlap ward_area from_option].
      apply (cell_at_share c sfx count
               (fun cv => fmul (Num (snd cv))
                               (fdiv (Num (area (geometry o)))
                                     (Num (area (ward_geometry (of_ward o)))))));
        assumption. }
    destruct (share_value count (area (geometry o)) (area (ward_geometry (of_ward o)))
                HA Hpos Hcount (Hareas o Ho)) as (Hnumber & Hmod & Hlo & Hhi).
    rewrite <- Hv in Hnumber, Hmod, Hlo, Hhi.
    rewrite (cell_unique c count _ Hnames Hin).
    split; [rewrite Hnumber; exact I|]. auto. }
  (* the values of the rows against the expected total *)
  set (V := fold_right Qplus 0
              (map (fun o => number (value o)) (overlay gdf_combined fsa_boundaries))).
  assert ((1 - two_roundings) * expected <= V /\ V <= (1 + two_roundings) * expected)
    as [HV1 HV2].
  { pose proof (sum_between
                  (fun o => (1 - two_roundings)
                            * (cell c (counts (of_ward o))
                               * (area (geometry o) / area (ward_geometry (of_ward o)))))
                  (fun o => number (value o))
                  (fun o => (1 + two_roundings)
                            * (cell c (counts (of_ward o))
                               * (area (geometry o) / area (ward_geometry (of_ward o)))))
                  (overlay gdf_combined fsa_boundaries)
                  (fun o Ho => proj2 (proj2 (Hvalue o Ho)))) as [Hlo Hhi].
    rewrite !scaled_sum in Hlo, Hhi.
    rewrite (expected_by_rows (fun w => cell c (counts w))) in Hlo, Hhi.
    split; assumption. }
  assert (0 <= V) as HV0.
  { apply sum_nonneg. apply Forall_forall. intros x Hx. apply list_elem_of_In in Hx.
    apply in_map_iff in Hx as (o & <- & Ho).
    apply moderate_nonneg. apply (Hvalue o Ho). }
  assert (0 < two_roundings <= 1 # 2) as [He1 He2].
  { unfold two_roundings. pose proof u_pos. pose proof u_small. split; nra. }
  assert (0 <= expected) as HE by nra.
  (* the cells against the values of the rows *)
  assert (Forall is_number cells
          /\ (1 - group_rounding (length rows)) * V <= exact_sum cells
          /\ exact_sum cells <= (1 + group_rounding (length rows)) * V)
    as (Hnumbers & HT1 & HT2).
  { assert (forall l : list (overlap G), l = [] \/ exists o0 rest, l = o0 :: rest)
      as Hcases.
    { intros [|o0 rest]; [left; reflexivity | right; exists o0, rest; reflexivity]. }
    destruct (Hcases (overlay gdf_combined fsa_boundaries))
      as [Hempty | (o0 & rest & Hfirst)].
    - subst cells V. rewrite Hrows, Hempty. cbn. split; [constructor|].
      unfold exact_sum. cbn. split; lra.
    - assert (V = fold_right Qplus 0
                    (map (fun r => number (Rounded.cell_at (String.append c sfx)
                                             (Rounded.apportioned r))) rows)) as ->.
      { subst V. rewrite Hrows, map_map. reflexivity. }
      apply aggregated_column_bound.
      + rewrite Hrows, Hfirst.
        cbn [map Rounded.sum_columns Rounded.finish Rounded.apportioned].
        assert (In o0 (overlay gdf_combined fsa_boundaries)) as Ho0
            by (rewrite Hfirst; left; reflexivity).
        pose proof Ho0 as Hw. apply overlay_rows in Hw as (Hw & _).
        destruct (Hwards _ Hw) as (_ & count & Hin & _).
        unfold Rounded.apportion, with_areas. cbn [base]. rewrite map_map. cbn [fst].
        apply in_map_iff. exists (c, count). split; [reflexivity|].
        apply filter_In. auto.
      + intros r Hr. rewrite Hrows in Hr. apply in_map_iff in Hr as (o & <- & Ho).
        cbn [Rounded.finish Rounded.apportioned].
        destruct (Hvalue o Ho) as (H1 & H2 & _). split; assumption.
      + rewrite Hrows, length_map. exact Hn. }
  assert (0 <= group_rounding (length rows) <= 1 # 100) as [Hd1 Hd2].
  { split.
    - unfold group_rounding. pose proof u_pos.
      assert (0 <= inject_Z (Z.of_nat (length rows)))
        by (change 0 with (inject_Z 0); rewrite <- Zle_Qle; lia).
      nra.
    - apply group_rounding_small. rewrite Hrows, length_map. exact Hn. }
  assert (Qabs (exact_sum cells - expected) <= total_rounding (length rows) * expected)
    as Hmain.
  { unfold total_rounding. apply Qabs_Qle_condition.
    set (d := group_rounding (length rows)) in *. set (e := two_roundings) in *.
    set (T := exact_sum cells) in *.
    assert ((1 - d) * ((1 - e) * expected) <= (1 - d) * V) as H1
        by (apply Qmult_le_l; lra).
    assert ((1 + d) * V <= (1 + d) * ((1 + e) * expected)) as H2
        by (apply Qmult_le_l; lra).
    assert (0 <= d * e * expected) as H3.
    { assert (0 <= d * e) by nra. nra. }
    split; lra. }
  split; [exact Hnumbers|]. split; [exact Hmain|].
  intros Hfull.
  assert (expected == citywide) as Heq.
  { subst expected citywide. apply sum_ext. intros w Hw. rewrite (Hfull w Hw). ring. }
  rewrite <- Heq. exact Hmain.
Qed.
(** X14: the city-wide totals, as the floats have them.  With ward numbers
    and column names that identify the wards and the columns, counts that
    are not negative and intersections of comparable area, every cell of an
    apportioned "311_" or "STR_" column of [fsa_aggregated] is a number, and
    the cells sum, over all FSAs, to the sum over the wards of the ward's
    count times the covered fraction of its area, with a relative error of
    at most [total_rounding]: two roundings for every apportioned value and
    the rounding of the group sums.  When the FSAs cover every ward
    completely this is the city-wide total of the column. *)
Theorem citywide_totals_conserved (gdf_combined : list (ward G))
        (fsa_boundaries : list (fsa G)) (columns : list string) (c : string) :
  NoDup (map ward_number gdf_combined) ->
  NoDup columns ->
  (forall w, In w gdf_combined -> map fst (counts w) = columns) ->
  startswith c "311_" = true \/ startswith c "STR_" = true ->
  (forall w, In w gdf_combined ->
     0 < area (ward_geometry w)
     /\ exists count, In (c, count) (counts w) /\ 0 <= count /\ is_count count) ->
  (forall o, In o (overlay gdf_combined fsa_boundaries) ->
     comparable (area (geometry o)) (area (ward_geometry (of_ward o)))) ->
  (Z.of_nat (length (overlay gdf_combined fsa_boundaries)) <= 2 ^ 40)%Z ->
  let rows := Rounded.ward_fsa gdf_combined fsa_boundaries in
  let cells := column_cells (String.append c "_apportioned")
                            (Rounded.fsa_aggregated rows) in
  let expected :=
    fold_right Qplus 0
      (map (fun w => cell c (counts w) * coverage w fsa_boundaries) gdf_combined) in
  let citywide := fold_right Qplus 0 (map (fun w => cell c (counts w)) gdf_combined) in
  Forall is_number cells
  /\ Qabs (exact_sum cells - expected) <= total_rounding (length rows) * expected
  /\ ((forall w, In w gdf_combined -> coverage w fsa_boundaries == 1) ->
      Qabs (exact_sum cells - citywide) <= total_rounding (length rows) * citywide).
Proof. apply rounded_citywide_total. Qed.
End RoundedGroups.

Section RoundedDistricts.
Import Py Geo Binary64.
Local Open Scope Q_scope.

Lemma citywide_totals_conserved_witness :
  let rows := Rounded.ward_fsa (GE := rectangle_geometry) [strip_ward] strip_parts in
  let cells := column_cells "STR_Apartment_apportioned" (Rounded.fsa_aggregated rows) in
  (NoDup (map ward_number [strip_ward])
   /\ NoDup ["STR_Apartment"]
   /\ (forall w, In w [strip_ward] -> map fst (counts w) = ["STR_Apartment"])
   /\ (startswith "STR_Apartment" "311_" = true
       \/ startswith "STR_Apartment" "STR_" = true)
   /\ (forall w, In w [strip_ward] ->
         0 < area (ward_geometry w)
         /\ exists count,
              In ("STR_Apartment", count) (counts w) /\ 0 <= count /\ is_count count)
   /\ (forall o, In o (overlay (GE := rectangle_geometry) [strip_ward] strip_parts) ->
         comparable (area (geometry o)) (area (ward_geometry (of_ward o))))
   /\ (Z.of_nat (length (overlay (GE := rectangle_geometry) [strip_ward] strip_parts))
       <= 2 ^ 40)%Z
   /\ (forall w, In w [strip_ward] -> coverage w strip_parts == 1))
  /\ cells = [Num (7881299347898369 # 1125899906842624)]
  /\ Qabs (exact_sum cells - 7) <= total_rounding 10 * 7.
Proof.
  intros rows cells.
  assert (NoDup (map ward_number [strip_ward])) as H1
      by (apply (@bool_decide_unpack _ (NoDup_dec _)); vm_compute; exact I).
  assert (NoDup ["STR_Apartment"]) as H2
      by (apply (@bool_decide_unpack _ (NoDup_dec _)); vm_compute; exact I).
  assert (forall w, In w [strip_ward] -> map fst (counts w) = ["STR_Apartment"]) as H3
      by (intros w [<- | []]; reflexivity).
  assert (startswith "STR_Apartment" "311_" = true
          \/ startswith "STR_Apartment" "STR_" = true) as H4 by (right; reflexivity).
  assert (forall w, In w [strip_ward] ->
            0 < area (ward_geometry w)
            /\ exists count,
                 In ("STR_Apartment", count) (counts w) /\ 0 <= count /\ is_count count)
    as H5.
  { intros w [<- | []]. split; [reflexivity|]. exists 7.
    split; [left; reflexivity|]. split; [discriminate|].
    right. split; vm_compute; discriminate. }
  assert (forall o, In o (overlay (GE := rectangle_geometry) [strip_ward] strip_parts) ->
            comparable (area (geometry o)) (area (ward_geometry (of_ward o)))) as H6.
  { intros o Ho. vm_compute in Ho.
    repeat (destruct Ho as [<- | Ho]; [split; vm_compute; discriminate|]).
    destruct Ho. }
  assert (Z.of_nat (length (overlay (GE := rectangle_geometry) [strip_ward] strip_parts))
          <= 2 ^ 40)%Z as H7 by (vm_compute; discriminate).
  assert (forall w, In w [strip_ward] -> coverage w strip_parts == 1) as H8
      by (intros w [<- | []]; reflexivity).
  split.
  { exact (conj H1 (conj H2 (conj H3 (conj H4 (conj H5 (conj H6 (conj H7 H8))))))). }
  split; [vm_compute; reflexivity|].
  destruct (citywide_totals_conserved (GE := rectangle_geometry)
              [strip_ward] strip_parts ["STR_Apartment"] "STR_Apartment"
              H1 H2 H3 H4 H5 H6 H7) as (_ & _ & Hfull).
  exact (Hfull H8).
Defined.
End RoundedDistricts.

(** ** From the raw rows to the FSA table, as the floats have it *)

Section RoundedEndToEnd.
Import Py Geo Combine Binary64.
Context {G : Type} `{GE : Geometry G}.
Local Open Scope Q_scope.

Lemma prefixed_columns_NoDup (xs ys : list string) :
  NoDup xs -> NoDup ys ->
  NoDup (map (String.append "311_") xs ++ map (String.append "STR_") ys).
Proof.
  intros Hx Hy. apply NoDup_app. split; [|split].
  - apply (NoDup_fmap_2_strong (String.append "311_")); [|exact Hx].
    intros a b _ _ H. exact (append_inj_l _ _ _ H).
  - intros c Hc Hc'.
    apply list_elem_of_fmap in Hc as (a & -> & _).
    apply list_elem_of_fmap in Hc' as (b & Hab & _). discriminate Hab.
  - apply (NoDup_fmap_2_strong (String.append "STR_")); [|exact Hy].
    intros a b _ _ H. exact (append_inj_l _ _ _ H).
Qed.

Lemma rows_of_bounds (rows : list keyed) (n : Z) (t : string) :
  (0 <= rows_of rows n t <= Z.of_nat (length rows))%Z.
Proof.
  unfold rows_of. split; [lia|].
  apply Nat2Z.inj_le. apply List.filter_length_le.
Qed.

Lemma is_count_rows (z : Z) : (0 <= z <= 2 ^ 53)%Z -> is_count (inject_Z z).
Proof.
  intros [H0 H1]. destruct (Z.eq_dec z 0%Z) as [->|Hz]; [left; reflexivity|].
  right. rewrite Qabs_pos by (change 0 with (inject_Z 0); rewrite <- Zle_Qle; exact H0).
  rewrite (pow2_inject 53) by discriminate.
  change 1 with (inject_Z 1). rewrite <- !Zle_Qle. lia.
Qed.

(** The column of the type [t] of one of the two frames of counts. *)
Lemma rounded_apportioned_total (wards : list (ward_row G))
      (service_requests rentals : list keyed) (fsa_boundaries : list (fsa G))
      (prefix : string) (rows : list keyed) (t : string) :
  NoDup (map number wards) ->
  (forall r, In r wards -> 0 < area (boundary r)) ->
  (forall w, In w (gdf_combined wards service_requests rentals) ->
             coverage w fsa_boundaries == 1) ->
  (forall o, In o (overlay (gdf_combined wards service_requests rentals)
                           fsa_boundaries) ->
     comparable (area (geometry o)) (area (ward_geometry (of_ward o)))) ->
  (Z.of_nat (length (overlay (gdf_combined wards service_requests rentals)
                             fsa_boundaries)) <= 2 ^ 40)%Z ->
  (Z.of_nat (length rows) <= 2 ^ 53)%Z ->
  startswith (String.append prefix t) "311_" = true
  \/ startswith (String.append prefix t) "STR_" = true ->
  (forall n, In (String.append prefix t, inject_Z (rows_of rows n t))
                (counts_at "311_" service_requests n
                 ++ counts_at "STR_" rentals n)) ->
  (forall n, cell (String.append prefix t)
                  (counts_at "311_" service_requests n
                   ++ counts_at "STR_" rentals n)
             == inject_Z (rows_of rows n t)) ->
  let ward_fsa :=
    Rounded.ward_fsa (gdf_combined wards service_requests rentals) fsa_boundaries in
  let cells :=
    column_cells (String.append (String.append prefix t) "_apportioned")
                 (Rounded.fsa_aggregated ward_fsa) in
  let found := inject_Z (rows_in (map number wards) rows t) in
  Forall is_number cells
  /\ Qabs (exact_sum cells - found) <= total_rounding (length ward_fsa) * found.
Proof.
  intros Hnd Harea Hfull Hcomp Hlen Hrows Hc Hin Hcell ward_fsa cells found.
  destruct (rounded_citywide_total
              (gdf_combined wards service_requests rentals) fsa_boundaries
              (map (String.append "311_") (types_of service_requests)
               ++ map (String.append "STR_") (types_of rentals))
              (String.append prefix t)) as (Hnum & _ & Htotal).
  - rewrite combined_numbers. exact Hnd.
  - apply prefixed_columns_NoDup; apply types_of_NoDup.
  - intros w Hw. eapply combined_columns. exact Hw.
  - exact Hc.
  - intros w Hw. rewrite gdf_combined_rows in Hw.
    apply in_map_iff in Hw as (r & <- & Hr). cbn [ward_geometry counts].
    split; [exact (Harea r Hr)|].
    exists (inject_Z (rows_of rows (number r) t)).
    pose proof (rows_of_bounds rows (number r) t) as [H0 H1].
    split; [apply Hin|]. split; [change 0 with (inject_Z 0); rewrite <- Zle_Qle; exact H0|].
    apply is_count_rows. lia.
  - exact Hcomp.
  - exact Hlen.
  - split; [exact Hnum|].
    assert (fold_right Qplus 0
              (map (fun w : ward G => cell (String.append prefix t) (counts w))
                   (gdf_combined wards service_requests rentals))
            == found) as Heq.
    { unfold found. rewrite <- (sum_rows_of _ _ _ Hnd), map_map.
      rewrite gdf_combined_rows, map_map. apply sum_ext. intros r _.
      cbn [counts ward_number]. apply Hcell. }
    specialize (Htotal Hfull). rewrite Heq in Htotal. exact Htotal.
Qed.

Lemma counts_at_In (prefix : string) (rows : list keyed) (n : Z) (t : string) :
  t ∈ types_of rows ->
  In (String.append prefix t, inject_Z (rows_of rows n t)) (counts_at prefix rows n).
Proof.
  intros Ht. unfold counts_at. apply in_map_iff. exists t.
  split; [reflexivity | apply list_elem_of_In; exact Ht].
Qed.

(** X18: from the raw rows to the FSA table, as the floats have it.  When the
    ward numbers of [wards] are distinct, the wards have a positive area and
    the FSAs cover every ward completely, with intersections of comparable
    area and tables of moderate size, the cells of the apportioned column of
    a request type [t] that occurs are numbers and sum, over all FSAs, to the
    number of service requests of type [t] that lie in one of the wards, with
    a relative error of at most [total_rounding]; likewise for the rentals
    of a property type.  Requests with a ward number that no ward carries
    drop out at the left merge. *)
Theorem requests_reach_the_fsas (wards : list (ward_row G))
        (service_requests rentals : list keyed) (fsa_boundaries : list (fsa G))
        (t : string) :
  NoDup (map number wards) ->
  (forall r, In r wards -> 0 < area (boundary r)) ->
  (forall w, In w (gdf_combined wards service_requests rentals) ->
             coverage w fsa_boundaries == 1) ->
  (forall o, In o (overlay (gdf_combined wards service_requests rentals)
                           fsa_boundaries) ->
     comparable (area (geometry o)) (area (ward_geometry (of_ward o)))) ->
  (Z.of_nat (length (overlay (gdf_combined wards service_requests rentals)
                             fsa_boundaries)) <= 2 ^ 40)%Z ->
  (Z.of_nat (length service_requests) <= 2 ^ 53)%Z ->
  (Z.of_nat (length rentals) <= 2 ^ 53)%Z ->
  let ward_fsa :=
    Rounded.ward_fsa (gdf_combined wards service_requests rentals) fsa_boundaries in
  let fsa_table := Rounded.fsa_aggregated ward_fsa in
  let cells_of prefix :=
    column_cells (String.append (String.append prefix t) "_apportioned") fsa_table in
  let found rows := inject_Z (rows_in (map number wards) rows t) in
  (t ∈ types_of service_requests ->
   Forall is_number (cells_of "311_")
   /\ Qabs (exact_sum (cells_of "311_") - found service_requests)
      <= total_rounding (length ward_fsa) * found service_requests)
  /\ (t ∈ types_of rentals ->
      Forall is_number (cells_of "STR_")
      /\ Qabs (exact_sum (cells_of "STR_") - found rentals)
         <= total_rounding (length ward_fsa) * found rentals).
Proof.
  intros Hnd Harea Hfull Hcomp Hlen Hreq Hrent ward_fsa fsa_table cells_of found.
  split; intros Ht.
  - apply rounded_apportioned_total; try assumption.
    + left. apply startswith_append.
    + intros n. apply in_or_app. left. apply counts_at_In. exact Ht.
    + intros n. apply combined_cells.
  - apply rounded_apportioned_total; try assumption.
    + right. apply startswith_append.
    + intros n. apply in_or_app. right. apply counts_at_In. exact Ht.
    + intros n. apply combined_cells.
Qed.
End RoundedEndToEnd.

Section RoundedSample.
Import Py Geo Combine Binary64.
Local Open Scope Q_scope.

Lemma requests_reach_the_fsas_witness :
  let fsa_boundaries := map fsa_of (toronto sample_fsa_rows) in
  let frame := gdf_combined sample_wards sample_requests sample_rentals in
  let cells :=
    column_cells "311_Noise_apportioned"
      (Rounded.fsa_aggregated (Rounded.ward_fsa frame fsa_boundaries)) in
  (NoDup (map number sample_wards)
   /\ (forall r, In r sample_wards -> 0 < area (boundary r))
   /\ (forall w, In w frame -> coverage w fsa_boundaries == 1)
   /\ (forall o, In o (overlay frame fsa_boundaries) ->
         comparable (area (geometry o)) (area (ward_geometry (of_ward o))))
   /\ (Z.of_nat (length (overlay frame fsa_boundaries)) <= 2 ^ 40)%Z
   /\ (Z.of_nat (length sample_requests) <= 2 ^ 53)%Z
   /\ (Z.of_nat (length sample_rentals) <= 2 ^ 53)%Z
   /\ "Noise" ∈ types_of sample_requests)
  /\ cells = [Num 1; Num 2]
  /\ Qabs (exact_sum cells - 3) <= total_rounding 3 * 3.
Proof.
  intros fsa_boundaries frame cells.
  assert (NoDup (map number sample_wards)) as H1
      by (apply (@bool_decide_unpack _ (NoDup_dec _)); vm_compute; exact I).
  assert (forall r, In r sample_wards -> 0 < area (boundary r)) as H2
      by (intros r [<- | [<- | []]]; reflexivity).
  assert (forall w, In w frame -> coverage w fsa_boundaries == 1) as H3.
  { intros w Hw. unfold frame in Hw. rewrite gdf_combined_rows in Hw.
    destruct Hw as [<-|[<-|[]]]; reflexivity. }
  assert (forall o, In o (overlay frame fsa_boundaries) ->
            comparable (area (geometry o)) (area (ward_geometry (of_ward o)))) as H4.
  { intros o Ho. vm_compute in Ho.
    repeat (destruct Ho as [<- | Ho]; [split; vm_compute; discriminate|]).
    destruct Ho. }
  assert (Z.of_nat (length (overlay frame fsa_boundaries)) <= 2 ^ 40)%Z as H5
      by (vm_compute; discriminate).
  assert (Z.of_nat (length sample_requests) <= 2 ^ 53)%Z as H6
      by (vm_compute; discriminate).
  assert (Z.of_nat (length sample_rentals) <= 2 ^ 53)%Z as H7
      by (vm_compute; discriminate).
  assert ("Noise" ∈ types_of sample_requests) as H8.
  { apply types_of_spec. exists 7%Z. left. reflexivity. }
  split.
  { exact (conj H1 (conj H2 (conj H3 (conj H4 (conj H5 (conj H6 (conj H7 H8))))))). }
  split; [vm_compute; reflexivity|].
  exact (proj2 (proj1 (requests_reach_the_fsas sample_wards sample_requests
                         sample_rentals fsa_boundaries "Noise"
                         H1 H2 H3 H4 H5 H6 H7) H8)).
Defined.
End RoundedSample.
